(* ===== verification/_CoqProject ===== *)
-Q . S2P
Prelude.v
GoStrings.v
GoNumbers.v
GoFloat.v
GoText.v
GoJson.v
GoBytes.v
GoNet.v
GoPath.v
Glob.v
Api.v
Bfs.v
Sha1.v
Topology.v
GraphFacts.v
Tiers.v
Zones.v
Groups.v
Parents.v
TopologyProperties.v
LabelTemplate.v
Config.v
LabelTemplateFacts.v
LabelAutomata.v
LabelProperties.v
TopologyInputs.v
ApiServer.v
AutoLabel.v
AutoLabelReconcile.v
AutoLabelFacts.v
AutoLabelPlans.v
AutoLabelWorld.v
AutoLabelProperties.v
TopologyStatus.v
TopologyStatusReconcile.v
TopologyStatusFacts.v
NodeGroupNames.v
StatusEvents.v
TopologyStatusProperties.v
Lldp.v
Subscription.v
SubscriptionFacts.v
SubscriptionProperties.v
SwitchAgent.v
SwitchAgentProperties.v
SFlow.v
SFlowAttribution.v
SFlowCollector.v
SFlowProperties.v
SFlowCollectorFacts.v
SFlowCollectorProperties.v
TopologyApi.v
InterfaceSelector.v
FabricNode.v
FabricNodePods.v
FabricNodeProperties.v
RdmaScraper.v
RdmaEthtool.v
RdmaCollect.v
RdmaFacts.v
RdmaProperties.v
EbpfResolve.v
EbpfEndpoint.v
EbpfPublisher.v
EbpfReport.v
EbpfSends.v
EbpfOffsets.v
EbpfAttach.v
EbpfComponent.v
EbpfPins.v
EbpfEndpointFacts.v
EbpfProperties.v
EbpfPublisherProperties.v
EbpfReportProperties.v
EbpfAttachFacts.v
EbpfAttachProperties.v
EbpfSendsProperties.v
EbpfComponentProperties.v
EndToEnd.v
Programs.v
