(* ===== verification/Prelude.v ===== *)
(** * Unifabric: a verification development

    Unifabric is a Kubernetes system for RDMA fabrics.  A _controller_ discovers the
    switch topology of a cluster from LLDP neighbours and writes it to labels and to
    [Topology] objects; a _node agent_ publishes the interfaces and RDMA pods of its node as
    a [FabricNode]; a _switch agent_ runs on a switch and streams its LLDP neighbours to the
    controller; an _sFlow collector_ turns sampled packets into flow records attributed to
    pods; the _eBPF flow component_ of the node agent watches the RDMA verbs of processes with
    probes and attributes queue pairs to pods on both ends; its _RDMA scraper_ exports the
    hardware counters of the node and of its pods.  This development translates these programs
    from src/ to executable definitions and proves what makes them correct.

    ** How the parts interact

    The switch agent ([SwitchAgent]) answers the subscriptions of the controller
    ([Subscription]) with snapshots, over connections on which each side accepts one certificate
    of the other only; the controller stores them in the status of [Switch]
    objects ([Api]).  [TopologyInputs] makes hosts and switches out of FabricNodes and
    Switches, [Topology] discovers tiers, zones and groups, [AutoLabel] names the groups and
    [AutoLabelReconcile] writes the names as labels, whose keys are rendered and matched by
    [LabelTemplate].  [TopologyStatus] reads the labels back into the status of a Topology
    object, and [TopologyApi] serves the objects over HTTP.  FabricNodes come from the node
    agent ([Lldp], [InterfaceSelector], [FabricNode], [FabricNodePods]).  The sFlow collector
    ([SFlow], [SFlowAttribution], [SFlowCollector]) stands alone.

    In the eBPF flow component ([EbpfComponent]) the attacher ([EbpfAttach], with the offset
    cache of [EbpfOffsets]) puts probes on the libraries of processes; their BPF maps
    ([EbpfResolve]) tell which process uses which queue pair.  The agent of each node collects the
    devices and queue pairs of its pods ([EbpfEndpoint]) and publishes them as RDMAEndpoint
    objects ([EbpfPublisher]); every agent reads all objects into an index ([EbpfEndpoint]) that,
    with the pods ([EbpfResolve]), resolves the far end of a queue pair.  A report
    ([EbpfReport]) joins statistics, queue pairs and both ends into metrics, and hands the
    attribution to the pipeline that stores single submissions ([EbpfSends]).  The BPF maps are
    pinned, so that the next agent finds them ([EbpfPins]).

    The RDMA scraper ([RdmaCollect]) walks the devices, ports and counters of sysfs in the mount
    namespaces of the node and of its pods ([RdmaScraper]), adds the statistics of ethtool, which
    a cache shares between scrapes ([RdmaEthtool]), and emits Prometheus samples.  Its interface
    selectors are those of the node agent.  [Config] holds the configuration of all programs
    and its readers.

    ** Foundations

    - Prelude: the result type [go] of Go code (a value, an error, a panic, fuel used up),
      loops over slices and with fuel, map iteration orders as a type class, automation.
    - GoStrings, GoNumbers, GoFloat, GoText, GoJson, GoBytes, GoNet, GoPath, Glob, Sha1: the parts of
      Go's standard library the code calls ([strings], [strconv], [encoding/json],
      [encoding/binary] and slices with their panics, [net], [time], [path/filepath],
      [filepath.Match], [crypto/sha1]), on byte strings, 64-bit integers and IEEE 754 doubles, with
      their own laws (round trip of [Itoa] and [Atoi], exact integers up to 2^53, injectivity of
      renderings, ...).
    - Api: the objects of src/pkg/api/v1beta1.  ApiServer: the objects of the API server, with
      a list of faults that makes any call fail.

    ** Components

    - Topology models src/pkg/topology/topology.go, one definition per function.  Bfs,
      GraphFacts, Tiers, Zones, Groups and Parents prove its lemmas;
      TopologyProperties (C1 to C6) shows that tiers are distances from the hosts, zones and
      groups are partitions by the relations the code means, every device of a discovered
      topology has a single parent, the result does not depend on the iteration order of maps,
      and parent chains end.
    - LabelTemplate models src/pkg/topologylabel/template.go.  LabelTemplateFacts,
      LabelAutomata and LabelProperties (C7 to C9): rendering and matching are inverse, an
      accepted set of templates is disjoint on all tiers, and the automaton product decides
      intersection.
    - TopologyInputs, AutoLabel and AutoLabelReconcile model topology_inputs.go and
      autolabel_controller.go of src/pkg/controller/switchtopology.  AutoLabelFacts,
      AutoLabelPlans, AutoLabelWorld and AutoLabelProperties (C10 and C11): a plan gives
      every group one name, which two groups share only when the hash of their joined member names
      is the same ([AutoLabelProperties.groups_confused] shows that dashes in names can cause it),
      and a reconciliation touches no foreign label whatever call fails; further
      theorems: names round-trip, label maps are reconciled exactly, new names are fresh, a
      reset clears the labels, the deletion of one configured topology spares the other.
    - TopologyStatus and TopologyStatusReconcile model src/pkg/controller/topologystatus.
      TopologyStatusFacts, NodeGroupNames, StatusEvents and TopologyStatusProperties (C12 to
      C16): the status lists exactly the labelled domains and groups, node groups keep their
      names, a status is a fixed point, events that are ignored cannot change it.
    - Subscription models subscription_manager.go.  SubscriptionFacts and
      SubscriptionProperties (C18 and C19): the subscriptions follow the targets, stale snapshots
      are ignored; neighbours are counted once, accepted generations never go back, and no
      goroutine outlives the manager.
    - SFlow, SFlowAttribution and SFlowCollector model src/pkg/sflow.  SFlowProperties (C20 to
      C22): the decoder never reads out of range, inverts an encoder of frames, and refines the
      RFC chain of IPv6 extension headers.  SFlowCollectorFacts and SFlowCollectorProperties
      (C23 to C25): every record is accounted for in every interleaving of the two goroutines, those
      a cancelled reader abandons included, shutdown terminates, normalised configurations start, and the table of pod addresses attributes to
      the last running pod.
    - SwitchAgent models src/pkg/switchagent; SwitchAgentProperties (C26): every stream follows
      the agent's snapshots; a connection is accepted exactly for the pinned certificate, on both
      sides.
    - TopologyApi models src/pkg/topologyapi and its server; (C28) the answer to every
      request, from the escaped path on; the routes of the design document are others
      ([TopologyApi.documented_routes_missing]).
    - Lldp, InterfaceSelector, FabricNode and FabricNodePods model src/pkg/agent/fabricnode;
      FabricNodeProperties (C29): a reconciliation returns, stores what it found and is a fixed
      point; an accepted configuration makes a
      reconciler, and only the agent of a storage node deletes its object, when it ends.
    - RdmaScraper (files, selectors, emitter), RdmaEthtool (the cache of statistics) and
      RdmaCollect (devices, pods, namespaces) model src/pkg/agent/rdmascraper.  RdmaFacts,
      RdmaProperties and RdmaEthtool (C30 to C32): a scrape names no series twice and loses no
      sample as long as threads return from namespaces and devices do not share interfaces, one
      caller at a time fetches statistics and the others get fresh or last known
      ones, the selectors are those of the node agent; counters below 2^53 are exported exactly.
    - EbpfResolve (owners.go, resolve.go, the BPF maps of component.go),
      EbpfEndpoint (endpoint.go, the collecting and the reading side) model
      attribution in src/pkg/agent/ebpfflow.  EbpfEndpointFacts and EbpfProperties (C33, C34):
      lookups never guess, and what one agent publishes another one finds.
    - EbpfPublisher (the publisher of endpoint.go); EbpfPublisherProperties (C35): a run
      settles the objects of the API server unless a Pod was recreated under its name.
    - EbpfReport (report and cleanup of component.go, metrics.go);
      EbpfReportProperties (C36): over rounds that read all statistics the counters are what each
      queue pair reached, credited once; the cleanup keeps what live
      statistics join.
    - EbpfSends (sends.go); EbpfSendsProperties (C37, C38): submissions and
      rows are conserved in every interleaving of the consumer and the sinks; the ring-buffer
      records round-trip.
    - EbpfOffsets (offsets.go, symbols.go) and EbpfAttach (attach.go); EbpfAttachFacts
      and EbpfAttachProperties (C39, C40): waiting callbacks settle, learned
      offsets survive a restart when they could be written; build-ids are read from notes.
    - EbpfComponent (settings and main loop of component.go, the OTLP records of otel.go);
      EbpfComponentProperties: updates are published in time; what a configuration starts,
      and records carry the labels of the metrics.  EbpfPins (pin.go, bpffs_linux.go, the loading
      of the collection and the exits of [Start]): incompatible pins never stop the agent, and
      every exit waits for the goroutines.
    - Config models src/pkg/config.
    - EndToEnd composes components that meet in the API server or on a stream: what
      [DiscoverTopology] finds, the label reconciler writes and the status reconciler reads back
      into the stored Topology (C17), and what a switch agent sends, a controller that had reached
      any generation stores in the Switch when it is newer (C27).  Its triples follow the labels of every Node and Switch through a whole
      reconciliation.
    - Programs models the start-up in src/cmd, src/pkg/agent/agent.go and src/pkg/controller: with an
      accepted configuration each program consists of exactly the parts that are switched on or
      returns the error of a library call, a replica that is not the leader runs at most the API,
      the flow resolver learns the same from stripped Pods, the Pods of the sFlow collector are
      those of the last refresh that succeeded, and the decoder reads what the mock sender sends.

    ** Concurrency and effects

    Goroutines that share state are step functions over an explicit state with one action per
    atomic step (a channel operation, a critical section, a counter update), and claims
    quantify over all sequences of actions: [SFlowCollector.run], [SwitchAgent.agentRun],
    [EbpfSends.sendRun], [EbpfComponent.loopRun], [RdmaEthtool.statsRun], [Subscription].
    A flush of an aggregation window takes the steps the sinks make between its rows as an argument,
    and scans interleave with callbacks section by section in
    [EbpfAttachProperties.attachStep]; in [EbpfComponent.loopRun] a scan is one step, because the
    claims about the loop do not look at the attacher.
    Calls to the API server take their outcome from a list of faults or a
    record of answers, so that claims hold for every failure.  Go's unspecified map order is an
    argument ([RangeOrder]); claims hold for every order.

    ** Fuel

    Loops without a structural measure take fuel, and each is proved to have enough or is
    total: graph searches run once per vertex and queued edge, the climb along parents once per
    group and a bit, the search for a free number once per used number and one more, JSON twice
    the length of the text, patterns their length.  Bounds that are the code's own are kept: 32
    owners in src/pkg/sflow/owner.go, [maxOwnerDepth] owners in src/pkg/agent/ebpfflow, eight
    IPv6 extension headers, two VLAN tags.  The parser of ELF notes takes twelve bytes a round
    and has fuel for each byte.  The climb to
    the top owner of src/pkg/agent/fabricnode/pod.go has no bound in the code, so its fuel is
    an argument and running out is visible: any number above the length of the chain is enough when
    the owners form no cycle ([FabricNodeProperties.topOwner_returns]), and
    [FabricNodeProperties.cyclic_owner_diverges] shows that no number is when they do.

    ** Parameters

    Code outside src/ is an argument: goflow2's datagram decoder, the text/template parser and
    Kubernetes' name validation, Go's regexp for patterns beyond wildcards, the condition
    helpers of apimachinery (the class [StatusConditions], with laws that an instance
    discharges), the Kubernetes client and its scheme, netlink, the certificate parser, the
    OpenTelemetry SDK, and the environment.  The RDMA scraper sees sysfs, ethtool and the mount
    namespaces through views of a file system, and takes Prometheus' name validation as a
    function.  The eBPF
    component sees the kernel through records of answers ([osView], [machine], [surroundings]),
    [sort.Slice] through the class [SliceSort] (some sorted permutation), and [json.Marshal] of
    an object through a function.

    ** Not modelled

    - src/pkg/agent/ebpfflow: what cilium/ebpf does to load a collection, the system calls that
      switch namespaces, help texts of metrics and the formatting of log lines.  The BPF programs in
      C are outside the scope; their ring-buffer structures are mirrored.
    - src/pkg/agent/fabricnode/lldp.go: the second JSON format, which no caller uses.
    - src/pkg/agent/rdmascraper/host_stub.go and the other stubs of systems that are not Linux.
    - What controller-runtime does with the parts it is given (caches, queues, the election of a
      leader), serving gRPC and HTTP, metrics and log output, flags and signals of the programs, the
      timing of the mock sender, generated code, end-to-end tests and plugin/mock-topology-api. *)
From stdpp Require Import base gmap sets list strings sorting fin_maps.
From Stdlib Require Import NArith.

(** ** Outcomes of Go code

    [Ret a] is a normal return, [Err e] a returned [error] value, [Panic] a
    run-time panic and [OutOfFuel] a loop that used up the fuel of the model. *)
Inductive go (E A : Type) : Type :=
| Ret (a : A)
| Err (e : E)
| Panic
| OutOfFuel.
Arguments Ret {E A} a.
Arguments Err {E A} e.
Arguments Panic {E A}.
Arguments OutOfFuel {E A}.

#[export] Instance go_ret {E} : MRet (go E) := fun _ a => Ret a.
#[export] Instance go_bind {E} : MBind (go E) := fun _ _ f c =>
  match c with
  | Ret a => f a
  | Err e => Err e
  | Panic => Panic
  | OutOfFuel => OutOfFuel
  end.

(** A loop body that can fail, folded over a slice from left to right. *)
Fixpoint go_foldl {E A B} (f : A → B → go E A) (a : A) (l : list B) : go E A :=
  match l with
  | [] => Ret a
  | x :: l => a' ← f a x; go_foldl f a' l
  end.

(** A returned outcome is one the source can observe. *)
Definition returns {E A} (c : go E A) : Prop := ∃ a, c = Ret a.

(** ** [for] loops whose length is not known in advance

    [while_go step fuel s] runs [step] until it answers [inr r].  The fuel is a
    binary number, so that a generous bound costs nothing to write down and the
    loop still runs under [vm_compute]. *)
Section while_loop.
Context {E S R : Type} (step : S → S + R).

Fixpoint iter_pos (p : positive) (c : S + R) : S + R :=
  match c with
  | inr r => inr r
  | inl s =>
    match p with
    | xH => step s
    | xO p => iter_pos p (iter_pos p c)
    | xI p => iter_pos p (iter_pos p (step s))
    end
  end.

Definition while_go (fuel : N) (s : S) : go E R :=
  match fuel with
  | 0%N => OutOfFuel
  | Npos p =>
    match iter_pos p (inl s) with
    | inr r => Ret r
    | inl _ => OutOfFuel
    end
  end.

(** The invariant and the variant of a loop, in one judgement. *)
Definition loop_ok (Inv : S → Prop) (m : S → N) (Post : R → Prop) : Prop :=
  ∀ s, Inv s → match step s with
               | inl s' => Inv s' ∧ (m s' < m s)%N
               | inr r => Post r
               end.

Definition progress (Inv : S → Prop) (m : S → N) (Post : R → Prop) (k : N)
    (c : S + R) : Prop :=
  match c with
  | inl s => Inv s ∧ (m s < k)%N
  | inr r => Post r
  end.

Lemma iter_pos_progress Inv m Post :
  loop_ok Inv m Post →
  ∀ p c k, progress Inv m Post k c → progress Inv m Post (k - Npos p) (iter_pos p c).
Proof.
  intros Hok p. induction p as [p IH|p IH|]; intros c k Hc;
    destruct c as [s|r]; cbn [iter_pos]; try done.
  - destruct Hc as [HI Hm].
    assert (progress Inv m Post (k - 1) (step s)) as H1.
    { specialize (Hok s HI). destruct (step s); cbn in *; [|done].
      destruct Hok as [? ?]. split; [done|lia]. }
    specialize (IH _ _ (IH _ _ H1)). revert IH.
    destruct (iter_pos p _); cbn; [|done]. intros [? ?]; split; [done|lia].
  - specialize (IH _ _ (IH _ _ Hc)). revert IH.
    destruct (iter_pos p _); cbn; [|done]. intros [? ?]; split; [done|lia].
  - destruct Hc as [HI Hm]. specialize (Hok s HI).
    destruct (step s); cbn in *; [|done]. destruct Hok as [? ?]. split; [done|lia].
Qed.

(** Total correctness of a loop: with more fuel than the initial variant it
    returns, and what it returns satisfies the postcondition. *)
Lemma while_go_total Inv m Post fuel s :
  loop_ok Inv m Post → Inv s → (m s < fuel)%N →
  ∃ r, while_go fuel s = Ret r ∧ Post r.
Proof.
  intros Hok HI Hm. destruct fuel as [|p]; [lia|]. cbn [while_go].
  assert (progress Inv m Post (Npos p) (inl s)) as Hc by done.
  pose proof (iter_pos_progress _ _ _ Hok p _ _ Hc) as Hp.
  destruct (iter_pos p (inl s)) as [s'|r]; cbn in Hp; [lia|]. eauto.
Qed.
End while_loop.

(** Two loops whose steps correspond run alike. *)
Section while_sim.
Context {E S1 S2 R1 R2 : Type} (step1 : S1 → S1 + R1) (step2 : S2 → S2 + R2)
  (f : S1 → S2) (h : R1 → R2).
Context (Hstep : ∀ s, step2 (f s) = sum_map f h (step1 s)).

Lemma iter_pos_sim p c : iter_pos step2 p (sum_map f h c) = sum_map f h (iter_pos step1 p c).
Proof.
  revert c. induction p as [p IH|p IH|]; intros [s|r]; try reflexivity; cbn [iter_pos sum_map].
  - by rewrite Hstep, !IH.
  - change (inl (f s)) with (sum_map f h (@inl S1 R1 s)). by rewrite !IH.
  - apply Hstep.
Qed.

Lemma while_go_sim n s r :
  while_go (E:=E) step1 n s = Ret r → while_go (E:=E) step2 n (f s) = Ret (h r).
Proof.
  destruct n as [|p]; [done|]. cbn [while_go].
  change (inl (f s)) with (sum_map f h (@inl S1 R1 s)). rewrite iter_pos_sim.
  destruct (iter_pos step1 p (inl s)); cbn; congruence.
Qed.

Lemma while_go_sim_inv n s r :
  while_go (E:=E) step2 n (f s) = Ret r →
  ∃ r1, while_go (E:=E) step1 n s = Ret r1 ∧ r = h r1.
Proof.
  destruct n as [|p]; [done|]. cbn [while_go].
  change (inl (f s)) with (sum_map f h (@inl S1 R1 s)). rewrite iter_pos_sim.
  destruct (iter_pos step1 p (inl s)); cbn; [done|]. intros [= <-]. eauto.
Qed.
End while_sim.

(** ** Iteration order of maps

    Go leaves the order in which [range] visits a map open.  Every definition
    that ranges over a map is written against this interface: [range m] is some
    enumeration of the entries of [m]. *)
Class RangeOrder := {
  range_of : ∀ (K V : Type) (HE : EqDecision K) (HC : Countable K),
    gmap K V → list (K * V);
  range_of_perm : ∀ (K V : Type) (HE : EqDecision K) (HC : Countable K)
    (m : gmap K V), range_of K V HE HC m ≡ₚ map_to_list m
}.

Definition range `{RangeOrder} {K V} `{Countable K} (m : gmap K V) : list (K * V) :=
  range_of K V _ _ m.

(** Two orders used for evaluation: the order of the model's own maps, and its
    reverse. *)
Definition canonical_order : RangeOrder := {|
  range_of := fun K V _ _ m => map_to_list m;
  range_of_perm := fun _ _ _ _ _ => reflexivity _ |}.

Lemma reversed_order_perm (K V : Type) (HE : EqDecision K) (HC : Countable K)
    (m : gmap K V) : reverse (map_to_list m) ≡ₚ map_to_list m.
Proof. apply reverse_Permutation. Qed.

Definition reversed_order : RangeOrder := {|
  range_of := fun K V _ _ m => reverse (map_to_list m);
  range_of_perm := reversed_order_perm |}.

Section range_lemmas.
Context `{RangeOrder} {K V : Type} `{Countable K}.
Implicit Types m : gmap K V.

Lemma range_perm m : range m ≡ₚ map_to_list m.
Proof. apply range_of_perm. Qed.

Lemma elem_of_range m k v : (k, v) ∈ range m ↔ m !! k = Some v.
Proof. rewrite range_perm. apply elem_of_map_to_list. Qed.

Lemma NoDup_range_keys m : NoDup (range m).*1.
Proof. rewrite range_perm. apply NoDup_fst_map_to_list. Qed.

Lemma elem_of_range_keys m k : k ∈ (range m).*1 ↔ is_Some (m !! k).
Proof.
  rewrite list_elem_of_fmap. split.
  - intros ([? v] & -> & Hin). exists v. by apply elem_of_range.
  - intros [v Hv]. exists (k, v). split; [done|]. by apply elem_of_range.
Qed.
End range_lemmas.

(** ** Sorted slices of strings and integers *)

(** [sort.Strings]: the byte-wise lexicographic order of Go's [<] on strings. *)
Definition sort_strings (l : list string) : list string := merge_sort String.le l.

(** [sort.Ints]. *)
Definition sort_ints (l : list Z) : list Z := merge_sort Z.le l.

(** The strict order Go's [<] decides on strings. *)
Definition str_ltb (a b : string) : bool := String.ltb a b.

Lemma str_ltb_spec a b : str_ltb a b = true ↔ String.le a b ∧ a ≠ b.
Proof.
  unfold str_ltb, String.ltb, String.le, String.leb. pose proof (String.compare_eq_iff a b) as Heq.
  destruct (String.compare a b) eqn:Hc; cbn; split; try done.
  - intros [_ []]. auto.
  - intros _. split; [done|]. intros ->. pose proof (String.compare_antisym b b) as Ha. by rewrite Hc in Ha.
  - by intros [? _].
Qed.

Lemma str_ltb_total a b : str_ltb a b = true ∨ a = b ∨ str_ltb b a = true.
Proof.
  destruct (decide (a = b)) as [->|Hne]; [auto|]. rewrite !str_ltb_spec.
  destruct (total String.le a b); [left|right; right]; split; congruence || done.
Qed.

Lemma sort_strings_perm l : sort_strings l ≡ₚ l.
Proof. apply merge_sort_Permutation. Qed.

Lemma sort_strings_sorted l : Sorted String.le (sort_strings l).
Proof. apply Sorted_merge_sort, _. Qed.

Lemma elem_of_sort_strings x l : x ∈ sort_strings l ↔ x ∈ l.
Proof. by rewrite sort_strings_perm. Qed.

Lemma sort_strings_proper l1 l2 : l1 ≡ₚ l2 → sort_strings l1 = sort_strings l2.
Proof.
  intros Hp. apply (Sorted_unique String.le); try apply sort_strings_sorted.
  by rewrite !sort_strings_perm.
Qed.

#[export] Instance sort_strings_Proper : Proper ((≡ₚ) ==> (=)) sort_strings.
Proof. intros l1 l2. apply sort_strings_proper. Qed.

Lemma sort_strings_id l : Sorted String.le l → sort_strings l = l.
Proof.
  intros Hs. apply (Sorted_unique String.le); [apply sort_strings_sorted|done|].
  apply sort_strings_perm.
Qed.

Lemma sort_strings_idemp l : sort_strings (sort_strings l) = sort_strings l.
Proof. apply sort_strings_id, sort_strings_sorted. Qed.

Lemma NoDup_sort_strings l : NoDup l → NoDup (sort_strings l).
Proof. by rewrite sort_strings_perm. Qed.

Lemma sort_ints_perm l : sort_ints l ≡ₚ l.
Proof. apply merge_sort_Permutation. Qed.

Lemma sort_ints_sorted l : Sorted Z.le (sort_ints l).
Proof. apply Sorted_merge_sort. intros x y. lia. Qed.

Lemma elem_of_sort_ints x l : x ∈ sort_ints l ↔ x ∈ l.
Proof. by rewrite sort_ints_perm. Qed.

#[export] Instance sort_ints_Proper : Proper ((≡ₚ) ==> (=)) sort_ints.
Proof.
  intros l1 l2 Hp. apply (Sorted_unique Z.le); try apply sort_ints_sorted.
  by rewrite !sort_ints_perm.
Qed.

(** Sorting commutes with a map that does not change the order. *)
Section merge_sort_map.
Context {A B : Type} (RA : relation A) (RB : relation B) `{∀ x y, Decision (RA x y)} `{∀ x y, Decision (RB x y)}.
Context (f : A → B) (Hf : ∀ x y, RA x y ↔ RB (f x) (f y)).

Lemma list_merge_fmap l1 l2 : list_merge RB (f <$> l1) (f <$> l2) = f <$> list_merge RA l1 l2.
Proof.
  revert l2. induction l1 as [|x l1 IH1]; intros l2; [by destruct l2|].
  induction l2 as [|y l2 IH2]; [done|]. cbn in *. rewrite (decide_ext (RB (f x) (f y)) (RA x y)) by (symmetry; apply Hf).
  destruct (decide (RA x y)); cbn; f_equal; [apply (IH1 (y :: l2))|apply IH2].
Qed.

Definition stack_fmap (st : list (option (list A))) : list (option (list B)) := map (option_map (map f)) st.

Lemma merge_list_to_stack_fmap st l :
  merge_list_to_stack RB (stack_fmap st) (f <$> l) = stack_fmap (merge_list_to_stack RA st l).
Proof.
  revert l. induction st as [|[l'|] st IH]; intros l; cbn; [done| |done]. f_equal. rewrite <-IH. f_equal.
  apply list_merge_fmap.
Qed.

Lemma merge_stack_fmap st : merge_stack RB (stack_fmap st) = f <$> merge_stack RA st.
Proof.
  induction st as [|[l|] st IH]; [done| |done]. cbn [merge_stack]. rewrite <-list_merge_fmap, <-IH. done.
Qed.

Lemma merge_sort_fmap l : merge_sort RB (f <$> l) = f <$> merge_sort RA l.
Proof.
  unfold merge_sort. change (@nil (option (list B))) with (stack_fmap []).
  generalize (@nil (option (list A))). induction l as [|x l IH]; intros st; cbn; [apply merge_stack_fmap|].
  rewrite <-IH. f_equal. apply (merge_list_to_stack_fmap st [x]).
Qed.
End merge_sort_map.

(** A loop that skips some entries. *)
Lemma go_foldl_filter {E A B} (P : B → Prop) `{∀ x, Decision (P x)} (f : A → B → go E A) (l : list B) (a : A) :
  (∀ a x, ~ P x → f a x = Ret a) → go_foldl f a l = go_foldl f a (filter P l).
Proof.
  intros Hf. revert a. induction l as [|x l IH]; intros a; [done|]. cbn [go_foldl]. rewrite filter_cons.
  case_decide as Hx; cbn [go_foldl].
  - destruct (f a x); cbn; [apply IH|done..].
  - rewrite (Hf a x Hx). cbn. apply IH.
Qed.

Lemma go_foldl_ext_in {E A B} (f h : A → B → go E A) (l : list B) (a : A) :
  (∀ a x, x ∈ l → f a x = h a x) → go_foldl f a l = go_foldl h a l.
Proof.
  revert a. induction l as [|x l IH]; intros a Hfh; [done|]. cbn. rewrite (Hfh a x) by set_solver.
  destruct (h a x); cbn; [apply IH; set_solver|done..].
Qed.

(** ** Appending in a loop *)
Lemma exists_snoc {A} (l : list A) (y : A) (Q : A → Prop) :
  (∃ x, x ∈ l ++ [y] ∧ Q x) ↔ (∃ x, x ∈ l ∧ Q x) ∨ Q y.
Proof.
  setoid_rewrite elem_of_app. setoid_rewrite list_elem_of_singleton. split.
  - intros (x & [?| ->] & ?); [left; by exists x|by right].
  - intros [(x & ? & ?)|?]; [exists x|exists y]; auto.
Qed.

Lemma foldl_snoc_filter {A B} (P : B → bool) (f : B → A) (l : list B) (acc : list A) :
  foldl (fun acc x => if P x then acc ++ [f x] else acc) acc l =
  acc ++ (f <$> filter (fun x => P x = true) l).
Proof.
  revert acc. induction l as [|x l IH]; intros acc; [by rewrite app_nil_r|].
  cbn [foldl]. rewrite IH, filter_cons.
  destruct (P x); case_decide; try done. by rewrite <-app_assoc.
Qed.

Lemma foldl_snoc {A B} (f : B → A) (l : list B) (acc : list A) :
  foldl (fun acc x => acc ++ [f x]) acc l = acc ++ (f <$> l).
Proof.
  revert acc. induction l as [|x l IH]; intros acc; cbn; [by rewrite app_nil_r|].
  rewrite IH. by rewrite <-app_assoc.
Qed.

Lemma foldl_ext_in {A B} (f h : A → B → A) (l : list B) (a : A) :
  (∀ a x, x ∈ l → f a x = h a x) → foldl f a l = foldl h a l.
Proof.
  revert a. induction l as [|x l IH]; intros a Hfh; [done|]. cbn.
  rewrite (Hfh a x) by set_solver. apply IH. set_solver.
Qed.

(** An invariant of a loop over a slice, indexed by the part already seen. *)
Lemma foldl_inv {A B} (P : list B → A → Prop) (f : A → B → A) (l : list B) (a : A) :
  P [] a →
  (∀ done x todo a, l = done ++ x :: todo → P done a → P (done ++ [x]) (f a x)) →
  P l (foldl f a l).
Proof.
  intros H0 Hstep.
  assert (∀ todo seen a, l = seen ++ todo → P seen a → P l (foldl f a todo)) as Hgen.
  { induction todo as [|x todo IH]; intros seen a' Hl HP; cbn.
    - rewrite app_nil_r in Hl. by subst.
    - apply (IH (seen ++ [x])); [by rewrite <-app_assoc|]. by eapply Hstep. }
  by apply (Hgen l []).
Qed.

(** The same for a body that can fail: the invariant gives that it does not. *)
Lemma go_foldl_inv {E A B} (P : list B → A → Prop) (f : A → B → go E A) (l : list B) (a : A) :
  P [] a →
  (∀ done x todo a, l = done ++ x :: todo → P done a →
     ∃ a', f a x = Ret a' ∧ P (done ++ [x]) a') →
  ∃ a', go_foldl f a l = Ret a' ∧ P l a'.
Proof.
  intros H0 Hstep.
  assert (∀ todo seen a, l = seen ++ todo → P seen a →
    ∃ a', go_foldl f a todo = Ret a' ∧ P l a') as Hgen.
  { induction todo as [|x todo IH]; intros seen a' Hl HP; cbn.
    - rewrite app_nil_r in Hl. subst. eauto.
    - destruct (Hstep seen x todo a' Hl HP) as (a'' & Hf & HP'). rewrite Hf. cbn.
      apply (IH (seen ++ [x])); [by rewrite <-app_assoc|done]. }
  by apply (Hgen l []).
Qed.

(** An invariant of a run that returned. *)
Lemma go_foldl_ret {E A B} (P : list B → A → Prop) (f : A → B → go E A) (l : list B) (a a' : A) :
  go_foldl f a l = Ret a' → P [] a →
  (∀ seen x todo a a', l = seen ++ x :: todo → P seen a → f a x = Ret a' → P (seen ++ [x]) a') →
  P l a'.
Proof.
  intros Hrun H0 Hstep.
  assert (∀ todo seen a, l = seen ++ todo → P seen a → go_foldl f a todo = Ret a' → P l a') as Hgen.
  { induction todo as [|x todo IH]; intros seen a1 Hl HP Hr; cbn in Hr.
    - rewrite app_nil_r in Hl. by simplify_eq.
    - destruct (f a1 x) as [a2| | |] eqn:Hf; cbn in Hr; try done.
      apply (IH (seen ++ [x]) a2); [by rewrite <-app_assoc|by eapply Hstep|done]. }
  by apply (Hgen l [] a).
Qed.

(** Partners in two related slices. *)
Lemma Forall2_elem_of_l {A B} (R : A → B → Prop) l k x : Forall2 R l k → x ∈ l → ∃ y, y ∈ k ∧ R x y.
Proof.
  intros Hall [i Hi]%list_elem_of_lookup. destruct (Forall2_lookup_l _ _ _ _ _ Hall Hi) as (y & Hy & ?).
  exists y. split; [by eapply list_elem_of_lookup_2|done].
Qed.

Lemma Forall2_elem_of_r {A B} (R : A → B → Prop) l k y : Forall2 R l k → y ∈ k → ∃ x, x ∈ l ∧ R x y.
Proof.
  intros Hall [i Hi]%list_elem_of_lookup. destruct (Forall2_lookup_r _ _ _ _ _ Hall Hi) as (x & Hx & ?).
  exists x. split; [by eapply list_elem_of_lookup_2|done].
Qed.

(** ** Automation *)
Create HintDb unifabric.
#[export] Hint Resolve sort_strings_sorted sort_ints_sorted NoDup_sort_strings
  NoDup_range_keys : unifabric.
#[export] Hint Rewrite @elem_of_range @elem_of_range_keys elem_of_sort_strings
  elem_of_sort_ints : unifabric.

(** Split a conditional or match in the goal and clean up. *)
Ltac split_cases := repeat first [case_match | case_decide | case_bool_decide]; simplify_eq/=.

(** Invert the successful run of a [go] computation. *)
Ltac go_inv :=
  repeat match goal with
  | H : mbind _ ?c = Ret _ |- _ =>
      let E := fresh "E" in destruct c eqn:E; cbn in H; try discriminate H
  | H : Ret _ = Ret _ |- _ => injection H as H
  | H : Err _ = Ret _ |- _ => discriminate H
  end.
