(* ===== verification/GoStrings.v ===== *)
(** * Go strings

    The functions of the Go standard library on strings that the modelled code
    calls.  A Go string is a sequence of bytes, which is what [string] is here. *)
From stdpp Require Import base list strings numbers.
From Stdlib Require Import ZArith Ascii.
From S2P Require Import Prelude.

(** [strings.Join]. *)
Fixpoint join (sep : string) (l : list string) : string :=
  match l with
  | [] => ""
  | [x] => x
  | x :: l => x +:+ sep +:+ join sep l
  end.

Lemma str_app_cons a (s t : string) : String a s +:+ t = String a (s +:+ t).
Proof. reflexivity. Qed.

Lemma str_app_nil_r (s : string) : s +:+ "" = s.
Proof. induction s as [|a s IH]; [done|]. by rewrite str_app_cons, IH. Qed.

Lemma str_app_assoc (a b c : string) : (a +:+ b) +:+ c = a +:+ (b +:+ c).
Proof. induction a as [|x a IH]; [done|]. by rewrite !str_app_cons, IH. Qed.

Lemma str_length_app (a b : string) :
  String.length (a +:+ b) = String.length a + String.length b.
Proof. induction a as [|x a IH]; [done|]. rewrite str_app_cons. cbn. by rewrite IH. Qed.

Lemma str_length_substring_0 n s :
  n ≤ String.length s → String.length (String.substring 0 n s) = n.
Proof.
  revert n. induction s as [|a s IH]; intros [|n] Hn; cbn in *; try lia.
  rewrite IH; lia.
Qed.

(** ** Bytes *)
Definition byte_of (c : ascii) : Z := Z.of_N (N_of_ascii c).

(** [[]byte(s)]: byte values in [0, 255]. *)
Definition bytes (s : string) : list Z := byte_of <$> String.list_ascii_of_string s.

Definition of_byte (b : Z) : ascii := ascii_of_N (Z.to_N b).

Lemma of_byte_of c : of_byte (byte_of c) = c.
Proof. unfold of_byte, byte_of. rewrite N2Z.id. apply ascii_N_embedding. Qed.

Lemma byte_of_range c : (0 ≤ byte_of c < 256)%Z.
Proof. unfold byte_of. pose proof (N_ascii_bounded c). lia. Qed.

#[export] Instance byte_of_inj : Inj (=) (=) byte_of.
Proof. intros a b Hab. by rewrite <-(of_byte_of a), Hab, of_byte_of. Qed.

Lemma bytes_app a b : bytes (a +:+ b) = bytes a ++ bytes b.
Proof. induction a as [|c a IH]; [done|]. rewrite str_app_cons. unfold bytes in *. cbn. by rewrite IH. Qed.

Lemma bytes_cons c s : bytes (String c s) = byte_of c :: bytes s.
Proof. done. Qed.

Lemma length_bytes s : length (bytes s) = String.length s.
Proof. induction s as [|c s IH]; [done|]. rewrite bytes_cons. cbn. by rewrite IH. Qed.

#[export] Instance bytes_inj : Inj (=) (=) bytes.
Proof.
  intros a. induction a as [|c a IH]; intros [|d b]; [done..|]. rewrite !bytes_cons.
  intros [= Hcd Hab]. apply (inj byte_of) in Hcd. f_equal; auto.
Qed.

Lemma str_app_inj_l (a b c : string) : a +:+ b = a +:+ c → b = c.
Proof. induction a as [|x a IH]; [done|]. rewrite !str_app_cons. intros [= ?]. auto. Qed.

(** ** UTF-8 *)

(** A continuation byte. *)
Definition is_cont (b : Z) : bool := bool_decide (128 ≤ b ≤ 191)%Z.

(** [utf8.DecodeRune]: the first rune and its width; an invalid sequence is
    [RuneError] of width one. *)
Definition rune_error : Z := 65533.

Definition decode_rune (s : list Z) : option (Z * nat) :=
  match s with
  | [] => None
  | b0 :: s =>
    Some (if decide (b0 < 128)%Z then (b0, 1)
    else if decide (194 ≤ b0 ≤ 223)%Z then
      match s with
      | b1 :: _ => if is_cont b1 then ((b0 - 192) * 64 + (b1 - 128), 2%nat)%Z else (rune_error, 1)
      | _ => (rune_error, 1)
      end
    else if decide (224 ≤ b0 ≤ 239)%Z then
      match s with
      | b1 :: b2 :: _ =>
        let lo := if decide (b0 = 224)%Z then 160%Z else 128%Z in
        let hi := if decide (b0 = 237)%Z then 159%Z else 191%Z in
        if bool_decide (lo ≤ b1 ≤ hi)%Z && is_cont b2 then
          ((b0 - 224) * 4096 + (b1 - 128) * 64 + (b2 - 128), 3%nat)%Z else (rune_error, 1)
      | _ => (rune_error, 1)
      end
    else if decide (240 ≤ b0 ≤ 244)%Z then
      match s with
      | b1 :: b2 :: b3 :: _ =>
        let lo := if decide (b0 = 240)%Z then 144%Z else 128%Z in
        let hi := if decide (b0 = 244)%Z then 143%Z else 191%Z in
        if bool_decide (lo ≤ b1 ≤ hi)%Z && is_cont b2 && is_cont b3 then
          ((b0 - 240) * 262144 + (b1 - 128) * 4096 + (b2 - 128) * 64 + (b3 - 128), 4%nat)%Z
        else (rune_error, 1)
      | _ => (rune_error, 1)
      end
    else (rune_error, 1))
  end.

(** The runes of a string, as [range s] lists them. *)
Fixpoint runes_fuel (fuel : nat) (s : list Z) : list (Z * nat) :=
  match fuel with
  | 0 => []
  | S fuel =>
    match decode_rune s with
    | None => []
    | Some (r, n) => (r, n) :: runes_fuel fuel (drop n s)
    end
  end.

Definition runes (s : list Z) : list (Z * nat) := runes_fuel (length s) s.

(** [utf8.ValidString]: an invalid byte is a [RuneError] of width one. *)
Definition utf8_valid (s : string) : bool :=
  forallb (fun '(r, n) => negb (bool_decide (r = rune_error ∧ n = 1))) (runes (bytes s)).

(** [string(rune)]: the UTF-8 encoding; an invalid rune becomes [RuneError]. *)
Definition encode_rune (r : Z) : list Z :=
  let r := if decide ((0 ≤ r < 55296 ∨ 57344 ≤ r < 1114112)%Z) then r else rune_error in
  if decide (r < 128)%Z then [r]
  else if decide (r < 2048)%Z then [192 + r / 64; 128 + r mod 64]%Z
  else if decide (r < 65536)%Z then [224 + r / 4096; 128 + r / 64 mod 64; 128 + r mod 64]%Z
  else [240 + r / 262144; 128 + r / 4096 mod 64; 128 + r / 64 mod 64; 128 + r mod 64]%Z.

(** The string with the given bytes. *)
Fixpoint of_bytes (s : list Z) : string :=
  match s with
  | [] => ""
  | b :: s => String (of_byte b) (of_bytes s)
  end.

Lemma of_bytes_bytes s : of_bytes (bytes s) = s.
Proof. induction s as [|c s IH]; [done|]. rewrite bytes_cons. cbn. by rewrite of_byte_of, IH. Qed.

Definition valid_bytes (s : list Z) : Prop := Forall (fun b => 0 ≤ b < 256)%Z s.

Lemma byte_of_of_byte b : (0 ≤ b < 256)%Z → byte_of (of_byte b) = b.
Proof. intros Hb. unfold byte_of, of_byte. rewrite N_ascii_embedding by lia. lia. Qed.

Lemma bytes_of_bytes s : valid_bytes s → bytes (of_bytes s) = s.
Proof. induction 1 as [|b s Hb _ IH]; [done|]. cbn [of_bytes]. by rewrite bytes_cons, byte_of_of_byte, IH. Qed.

Lemma bytes_valid s : valid_bytes (bytes s).
Proof. induction s as [|c s IH]; [constructor|]. rewrite bytes_cons. constructor; [apply byte_of_range|done]. Qed.

Example decode_kelvin : runes (encode_rune 8490) = [(8490%Z, 3)].
Proof. reflexivity. Qed.

(** ** Prefixes *)
Fixpoint strip_prefix (p s : string) : option string :=
  match p, s with
  | EmptyString, s => Some s
  | String a p, String b s => if decide (a = b) then strip_prefix p s else None
  | String _ _, EmptyString => None
  end.

Lemma strip_prefix_spec p s r : strip_prefix p s = Some r ↔ s = p +:+ r.
Proof.
  revert s. induction p as [|a p IH]; intros s; cbn [strip_prefix].
  - split; [by intros [= ->]|]. by intros ->.
  - destruct s as [|b s]; [done|]. rewrite str_app_cons. case_decide as Hab.
    + rewrite IH. subst. split; [by intros ->|by intros [= ->]].
    + split; [done|]. intros [= ? ?]. congruence.
Qed.

(** [strings.HasPrefix]. *)
Definition has_prefix (s p : string) : bool := bool_decide (is_Some (strip_prefix p s)).

Lemma has_prefix_spec s p : has_prefix s p = true ↔ ∃ r, s = p +:+ r.
Proof.
  unfold has_prefix. rewrite bool_decide_eq_true. split.
  - intros [r Hr]. exists r. by apply strip_prefix_spec.
  - intros [r Hr]. exists r. by apply strip_prefix_spec.
Qed.

(** [strings.Contains]. *)
Fixpoint contains (s sub : string) : bool :=
  has_prefix s sub || match s with "" => false | String _ s => contains s sub end.

(** [strings.Split] at one byte. *)
Fixpoint split_on (sep : Z) (s : list Z) : list (list Z) :=
  match s with
  | [] => [[]]
  | b :: s =>
    match split_on sep s with
    | p :: ps => if decide (b = sep) then [] :: p :: ps else (b :: p) :: ps
    | [] => [[b]]
    end
  end.
