(* ===== verification/GoNumbers.v ===== *)
(** * Decimal numbers

    [strconv.Itoa] and [strconv.Atoi] of the Go standard library on the 64-bit
    [int] of the supported platforms, with their round trips. *)
From stdpp Require Import base list strings numbers.
From Stdlib Require Import ZArith Ascii Decimal DecimalString DecimalN DecimalFacts.
From S2P Require Import Prelude GoStrings.
Local Open Scope Z_scope.

Definition max_int : Z := 2 ^ 63 - 1.
Definition min_int : Z := - 2 ^ 63.
Definition int_ok (z : Z) : Prop := min_int ≤ z ≤ max_int.

Definition is_digit (c : ascii) : bool := bool_decide (48 ≤ Z.of_N (N_of_ascii c) ≤ 57).
Definition is_nonzero_digit (c : ascii) : bool := bool_decide (49 ≤ Z.of_N (N_of_ascii c) ≤ 57).

Fixpoint all_digits (s : string) : bool :=
  match s with
  | EmptyString => true
  | String c s => is_digit c && all_digits s
  end.

(** The language [[1-9][0-9]*]. *)
Definition tier_digits (s : string) : bool :=
  match s with
  | EmptyString => false
  | String c s => is_nonzero_digit c && all_digits s
  end.

Definition itoa_N (n : N) : string := NilEmpty.string_of_uint (N.to_uint n).

(** [strconv.Itoa]. *)
Definition Itoa (z : Z) : string :=
  if decide (z < 0) then "-" +:+ itoa_N (Z.abs_N z) else itoa_N (Z.to_N z).

Definition digits_value (s : string) : option N :=
  match s with
  | EmptyString => None
  | _ => N.of_uint <$> NilEmpty.uint_of_string s
  end.

Definition in_int (z : Z) : option Z := if decide (int_ok z) then Some z else None.

(** [strconv.Atoi]: an optional sign and digits; [None] is an error (syntax or
    range). *)
Definition Atoi (s : string) : option Z :=
  match s with
  | String "-" s => n ← digits_value s; in_int (- Z.of_N n)
  | String "+" s => n ← digits_value s; in_int (Z.of_N n)
  | _ => n ← digits_value s; in_int (Z.of_N n)
  end.

(** ** Digits *)
Lemma uint_of_char_digit c d :
  (is_digit c = true → ∃ d', uint_of_char c (Some d) = Some d') ∧
  (is_digit c = false → uint_of_char c (Some d) = None).
Proof.
  destruct c as [[] [] [] [] [] [] [] []]; (split; [|try reflexivity]);
    intros Hc; try discriminate Hc; eexists; reflexivity.
Qed.

Lemma uint_of_string_digits s : is_Some (NilEmpty.uint_of_string s) ↔ all_digits s = true.
Proof.
  induction s as [|c s IH]; [split; [done|eauto]|]. cbn [NilEmpty.uint_of_string all_digits].
  rewrite andb_true_iff. destruct (NilEmpty.uint_of_string s) as [d|].
  - destruct (uint_of_char_digit c d) as [H1 H2]. destruct (is_digit c).
    + destruct H1 as [d' ->]; [done|]. split; [|eauto]. split; [done|]. by apply IH.
    + rewrite H2 by done. split; [by intros []|by intros []].
  - cbn. split; [by intros []|]. intros [_ Hs]. by apply IH in Hs as [].
Qed.

Lemma digits_value_itoa n : digits_value (itoa_N n) = Some n.
Proof.
  unfold digits_value, itoa_N. pose proof (NilEmpty.usu (N.to_uint n)) as Hu.
  destruct (NilEmpty.string_of_uint (N.to_uint n)) as [|c s] eqn:Hs.
  - cbn in Hu. injection Hu as Hu. apply (f_equal N.of_uint) in Hu.
    rewrite DecimalN.Unsigned.of_to in Hu. subst n. discriminate Hs.
  - rewrite Hu. cbn. by rewrite DecimalN.Unsigned.of_to.
Qed.

Lemma itoa_N_digits n : all_digits (itoa_N n) = true.
Proof. apply uint_of_string_digits. unfold itoa_N. rewrite NilEmpty.usu. eauto. Qed.

Lemma itoa_N_cons n : ∃ c s, itoa_N n = String c s ∧ is_digit c = true.
Proof.
  pose proof (digits_value_itoa n) as Hv. pose proof (itoa_N_digits n) as Hd.
  destruct (itoa_N n) as [|c s]; [done|]. cbn in Hd. apply andb_true_iff in Hd as [? _]. eauto.
Qed.

(** A string of digits carries no sign. *)
Lemma Atoi_digits c s : is_digit c = true →
  Atoi (String c s) = n ← digits_value (String c s); in_int (Z.of_N n).
Proof.
  intros Hc. unfold Atoi.
  destruct c as [[] [] [] [] [] [] [] []]; try discriminate Hc; reflexivity.
Qed.

Lemma Atoi_Itoa z : int_ok z → Atoi (Itoa z) = Some z.
Proof.
  intros Hz. unfold Itoa. case_decide as Hneg.
  - change (Atoi _) with (n ← digits_value (itoa_N (Z.abs_N z)); in_int (- Z.of_N n)).
    rewrite digits_value_itoa. cbn. unfold in_int. rewrite N2Z.inj_abs_N.
    replace (- Z.abs z) with z by lia. by rewrite decide_True.
  - destruct (itoa_N_cons (Z.to_N z)) as (c & s & Hcs & Hc).
    rewrite Hcs, Atoi_digits, <-Hcs, digits_value_itoa by done. cbn.
    unfold in_int. rewrite Z2N.id by lia. by rewrite decide_True.
Qed.

(** A canonical positive numeral is printed back as it was read. *)
Lemma unorm_nonzero c s d :
  is_nonzero_digit c = true → NilEmpty.uint_of_string (String c s) = Some d → unorm d = d.
Proof.
  cbn. destruct (NilEmpty.uint_of_string s) as [d'|]; [|by destruct c].
  destruct c as [[] [] [] [] [] [] [] []]; intros Hc; try discriminate Hc; cbn; by intros [= <-].
Qed.

Lemma is_nonzero_digit_digit c : is_nonzero_digit c = true → is_digit c = true.
Proof. unfold is_nonzero_digit, is_digit. rewrite !bool_decide_eq_true. lia. Qed.

Lemma tier_digits_cons s :
  tier_digits s = true → ∃ c r, s = String c r ∧ is_nonzero_digit c = true ∧ all_digits s = true.
Proof.
  destruct s as [|c r]; [done|]. cbn. rewrite !andb_true_iff. intros [Hc Hr].
  exists c, r. rewrite (is_nonzero_digit_digit c Hc). auto.
Qed.

(** Reading a canonical numeral: its value, positive, is printed as the numeral. *)
Lemma digits_value_tier s :
  tier_digits s = true → ∃ n, digits_value s = Some n ∧ itoa_N n = s ∧ (0 < n)%N.
Proof.
  intros Hs. destruct (tier_digits_cons s Hs) as (c & r & -> & Hc & Hd).
  apply uint_of_string_digits in Hd as [d Hd].
  pose proof (unorm_nonzero c r d Hc Hd) as Hu.
  exists (N.of_uint d). unfold digits_value, itoa_N. rewrite Hd. cbn.
  rewrite DecimalN.Unsigned.to_of, Hu, (NilEmpty.sus _ _ Hd). split; [done|]. split; [done|].
  destruct (decide (N.of_uint d = 0%N)) as [H0|]; [|lia].
  pose proof (DecimalN.Unsigned.to_of d) as Ht. rewrite H0, Hu in Ht. subst d. cbn in Hd.
  destruct (NilEmpty.uint_of_string r) as [d'|]; [|by destruct c].
  by destruct c as [[] [] [] [] [] [] [] []].
Qed.

Lemma Itoa_Atoi s z : tier_digits s = true → Atoi s = Some z → Itoa z = s ∧ 1 ≤ z.
Proof.
  intros Hs. destruct (tier_digits_cons s Hs) as (c & r & -> & Hc & _).
  rewrite Atoi_digits by (by apply is_nonzero_digit_digit).
  destruct (digits_value_tier _ Hs) as (n & -> & Hn & Hpos). cbn. unfold in_int.
  case_decide; intros [= <-]. unfold Itoa. rewrite decide_False by lia. rewrite N2Z.id. split; [done|lia].
Qed.

Lemma Itoa_tier_digits z : 1 ≤ z → tier_digits (Itoa z) = true.
Proof.
  intros Hz. unfold Itoa. rewrite decide_False by lia.
  destruct (itoa_N (Z.to_N z)) as [|c s] eqn:Hs.
  { by destruct (itoa_N_cons (Z.to_N z)) as (? & ? & ? & _); congruence. }
  pose proof (itoa_N_digits (Z.to_N z)) as Hd. rewrite Hs in Hd. cbn in Hd |- *.
  apply andb_true_iff in Hd as [Hc Hd]. rewrite Hd, andb_true_r.
  destruct (is_nonzero_digit c) eqn:Hnz; [done|].
  assert (c = "0"%char) as ->.
  { unfold is_digit, is_nonzero_digit in *. apply bool_decide_eq_true in Hc. apply bool_decide_eq_false in Hnz.
    rewrite <-(ascii_N_embedding c). replace (N_of_ascii c) with 48%N by lia. reflexivity. }
  unfold itoa_N in Hs. pose proof (NilEmpty.usu (N.to_uint (Z.to_N z))) as Hu. rewrite Hs in Hu. cbn in Hu.
  destruct (NilEmpty.uint_of_string s) as [d|]; [|done]. injection Hu as Hu.
  pose proof (DecimalN.Unsigned.to_of (N.to_uint (Z.to_N z))) as Ht.
  rewrite DecimalN.Unsigned.of_to, <-Hu in Ht. unfold unorm in Ht. cbn in Ht.
  assert (∀ u, nzhead u ≠ D0 d) as Hnz0 by (induction u; cbn; congruence).
  destruct (nzhead d) eqn:Hd0; try discriminate Ht.
  - injection Ht as Ht. subst d. apply (f_equal N.of_uint) in Hu. cbn in Hu.
    rewrite DecimalN.Unsigned.of_to in Hu. lia.
  - injection Ht as Ht. by destruct (Hnz0 d); rewrite Hd0, Ht.
Qed.
