(* ===== verification/GoFloat.v ===== *)
(** * Floating-point numbers

    [float64] as the numbers of the standard library's [SpecFloat] at 53 bits of precision,
    and [strconv.ParseFloat] on byte strings: decimal and hexadecimal numerals with fractions,
    exponents and digit separators, rounded to the nearest even number, infinities and NaN.
    An integer below 2^53 is read and scaled without rounding. *)
From stdpp Require Import base list numbers strings.
From Stdlib Require Import ZArith Ascii SpecFloat Decimal DecimalString.
From S2P Require Import Prelude GoStrings GoNumbers.
Local Open Scope Z_scope.

Definition float64 : Type := spec_float.
Definition prec64 : Z := 53.
Definition emax64 : Z := 1024.

(** [float64(v)] for an integer *)
Definition of_int (v : Z) : float64 := binary_normalize prec64 emax64 v 0 false.

(** [a * b] *)
Definition mul64 (a b : float64) : float64 := SFmul prec64 emax64 a b.

(** ** Numerals *)
Definition lower_byte (b : Z) : Z := Z.lor b 32.
Definition dec_digit (b : Z) : option Z := if decide (48 ≤ b ≤ 57) then Some (b - 48) else None.

(** A digit of the base, which is 10 or 16. *)
Definition float_digit (base b : Z) : option Z :=
  match dec_digit b with
  | Some d => Some d
  | None => if decide (base = 16 ∧ 97 ≤ lower_byte b ≤ 102) then Some (lower_byte b - 87) else None
  end.

(** The digits before the exponent: their value, how many follow the dot, whether there was a
    dot, a digit and a separator, and the rest of the text. *)
Record numeral := MkNumeral {
  n_mant : Z;
  n_frac : Z;
  n_dot : bool;
  n_digits : bool;
  n_sep : bool
}.

Fixpoint mantissa (base : Z) (n : numeral) (s : list Z) : numeral * list Z :=
  match s with
  | [] => (n, [])
  | c :: s' =>
    if decide (c = 95) then mantissa base (MkNumeral (n_mant n) (n_frac n) (n_dot n) (n_digits n) true) s'
    else if decide (c = 46) then
      if n_dot n then (n, s) else mantissa base (MkNumeral (n_mant n) (n_frac n) true (n_digits n) (n_sep n)) s'
    else match float_digit base c with
    | Some d =>
      mantissa base (MkNumeral (base * n_mant n + d) (if n_dot n then n_frac n + 1 else n_frac n) (n_dot n) true (n_sep n)) s'
    | None => (n, s)
    end
  end.

(** The digits of an exponent; a large one stops growing. *)
Fixpoint exponent (e : Z) (sep : bool) (s : list Z) : Z * bool * list Z :=
  match s with
  | [] => (e, sep, [])
  | c :: s' =>
    if decide (c = 95) then exponent e true s'
    else match dec_digit c with
    | Some d => exponent (if decide (e < 10000) then 10 * e + d else e) sep s'
    | None => (e, sep, s)
    end
  end.

Definition split_sign (s : list Z) : bool * list Z :=
  match s with
  | 43 :: s => (false, s)
  | 45 :: s => (true, s)
  | _ => (false, s)
  end.

(** Separators stand between digits, or between the prefix of a base and a digit. *)
Inductive seen := SeenNothing | SeenDigit | SeenSeparator | SeenOther.

Fixpoint separators (hex : bool) (saw : seen) (s : list Z) : bool :=
  match s with
  | [] => match saw with SeenSeparator => false | _ => true end
  | c :: s =>
    if decide (is_Some (float_digit (if hex then 16 else 10) c)) then separators hex SeenDigit s
    else if decide (c = 95) then match saw with SeenDigit => separators hex SeenSeparator s | _ => false end
    else match saw with SeenSeparator => false | _ => separators hex SeenOther s end
  end.

Definition underscoreOK (s : list Z) : bool :=
  match (split_sign s).2 with
  | 48 :: c :: rest =>
    if decide (lower_byte c ∈ [98; 111; 120]) then separators (bool_decide (lower_byte c = 120)) SeenDigit rest
    else separators false SeenNothing (48 :: c :: rest)
  | s => separators false SeenNothing s
  end.

(** ** Rounding *)

(** The number nearest to [m * 10^e], or to [m * 2^e]. *)
Definition round_decimal (neg : bool) (m e : Z) : float64 :=
  if decide (m = 0) then S754_zero neg
  else if decide (0 ≤ e) then binary_round prec64 emax64 neg (Z.to_pos (m * 10 ^ e)) 0
  else
    let '(q, e', l) := SFdiv_core_binary prec64 emax64 m 0 (10 ^ (- e)) 0 in
    binary_round_aux prec64 emax64 neg q e' l.

Definition round_binary (neg : bool) (m e : Z) : float64 :=
  if decide (m = 0) then S754_zero neg else binary_round prec64 emax64 neg (Z.to_pos m) e.

(** A number that is too large is an error. *)
Definition in_range (f : float64) : option float64 := match f with S754_infinity _ => None | _ => Some f end.

(** The exponent after its letter, with an optional sign and at least one digit. *)
Definition signed_exponent (sep : bool) (s : list Z) : option (Z * bool * list Z) :=
  let '(neg, s) := split_sign s in
  match s with
  | c :: _ =>
    if decide (is_Some (dec_digit c)) then
      let '(e, sep, rest) := exponent 0 sep s in Some (if neg then - e else e, sep, rest)
    else None
  | [] => None
  end.

Definition read_float (s : list Z) : option float64 :=
  let '(neg, body) := split_sign s in
  let '(hex, body) := match body with
    | 48 :: x :: (_ :: _) as rest => if decide (lower_byte x = 120) then (true, drop 2 body) else (false, body)
    | _ => (false, body)
    end in
  let '(n, rest) := mantissa (if hex then 16 else 10) (MkNumeral 0 0 false false false) body in
  if negb (n_digits n) then None
  else
    '(e, sep, rest) ←
      match rest with
      | c :: rest' =>
        if decide (lower_byte c = if hex then 112 else 101) then signed_exponent (n_sep n) rest'
        else if hex then None else Some (0, n_sep n, rest)
      | [] => if hex then None else Some (0, n_sep n, [])
      end;
    if sep && negb (underscoreOK s) then None
    else match rest with
    | _ :: _ => None
    | [] =>
      in_range (if hex then round_binary neg (n_mant n) (e - 4 * n_frac n)
        else round_decimal neg (n_mant n) (e - n_frac n))
    end.

(** The names of infinities and NaN, in any case. *)
Definition lower_ascii (b : Z) : Z := if decide (65 ≤ b ≤ 90) then b + 32 else b.

Definition special (s : list Z) : option float64 :=
  let infinite neg s :=
    if decide (lower_ascii <$> s ∈ [bytes "inf"; bytes "infinity"]) then Some (S754_infinity neg) else None in
  match s with
  | 43 :: s => infinite false s
  | 45 :: s => infinite true s
  | _ => if decide (lower_ascii <$> s = bytes "nan") then Some S754_nan else infinite false s
  end.

(** [strconv.ParseFloat(s, 64)]; [None] is an error of syntax or of range. *)
Definition ParseFloat (s : string) : option float64 :=
  match special (bytes s) with
  | Some f => Some f
  | None => read_float (bytes s)
  end.

Example parse_float_examples :
  ParseFloat "1" = Some (S754_finite false 4503599627370496 (-52)) ∧
  ParseFloat "0.1" = Some (S754_finite false 7205759403792794 (-56)) ∧
  ParseFloat "-0" = Some (S754_zero true) ∧
  ParseFloat "1e400" = None ∧ ParseFloat "1e-400" = Some (S754_zero false) ∧
  ParseFloat "9007199254740993" = Some (S754_finite false 4503599627370496 1) ∧
  ParseFloat "0x1.8p1" = ParseFloat "3" ∧ ParseFloat "0x1" = None ∧
  ParseFloat "1_000.5" = ParseFloat "1000.5" ∧ ParseFloat "1__0" = None ∧ ParseFloat "_1" = None ∧
  ParseFloat "-Infinity" = Some (S754_infinity true) ∧ ParseFloat "infi" = None ∧
  ParseFloat "4.9e-324" = Some (S754_finite false 1 (-1074)) ∧ ParseFloat "" = None ∧ ParseFloat "1.2.3" = None.
Proof. vm_compute. done. Qed.

(** ** Exact integers *)

(** The number stands for an integer. *)
Definition denotes (f : float64) (n : Z) : Prop :=
  match f with
  | S754_zero _ => n = 0
  | S754_finite s m e => n * 2 ^ Z.max 0 (- e) = cond_Zopp s (Zpos m) * 2 ^ Z.max 0 e
  | _ => False
  end.

(** A mantissa of full length whose exponent fits is kept. *)
Lemma round_aux_normal s m e :
  Zpos (digits2_pos m) = prec64 → emin prec64 emax64 ≤ e ≤ emax64 - prec64 →
  binary_round_aux prec64 emax64 s (Zpos m) e loc_Exact = S754_finite s m e.
Proof.
  intros Hd He. assert (fexp prec64 emax64 (Zdigits2 (Zpos m) + e) - e = 0) as H0.
  { cbn [Zdigits2]. rewrite Hd. unfold fexp. lia. }
  unfold binary_round_aux, shr_fexp. rewrite H0. cbn -[Z.add Z.sub fexp Z.leb emax64 prec64 Zdigits2].
  rewrite H0. cbn -[Z.leb emax64 prec64]. destruct (Z.leb_spec e (emax64 - prec64)); [done|lia].
Qed.

Lemma iter_shr_zeros p m : SpecFloat.iter_pos shr_1 p {| shr_m := Zpos (Pos.iter xO m p); shr_r := false; shr_s := false |}
  = {| shr_m := Zpos m; shr_r := false; shr_s := false |}.
Proof.
  revert m. induction p as [p IH|p IH|]; intros m; cbn [SpecFloat.iter_pos].
  - change (Pos.iter xO m p~1) with (xO (Pos.iter xO (Pos.iter xO m p) p)).
    cbn [shr_1 orb]. by rewrite !IH.
  - change (Pos.iter xO m p~0) with (Pos.iter xO (Pos.iter xO m p) p). by rewrite !IH.
  - done.
Qed.

Lemma digits_zeros p m : digits2_pos (Pos.iter xO m p) = (digits2_pos m + p)%positive.
Proof. induction p as [|p IH] using Pos.peano_ind; [cbn; lia|]. rewrite Pos.iter_succ. cbn [digits2_pos]. lia. Qed.

Lemma iter_zeros p m : Zpos (Pos.iter xO m p) = Zpos m * 2 ^ Zpos p.
Proof.
  induction p as [|p IH] using Pos.peano_ind; [cbn; lia|]. rewrite Pos.iter_succ, Pos2Z.inj_xO, IH, Pos2Z.inj_succ.
  rewrite Z.pow_succ_r by lia. lia.
Qed.

Lemma digits_bound m k : Zpos m < 2 ^ k → 0 ≤ k → Zpos (digits2_pos m) ≤ k.
Proof.
  intros Hm Hk. assert (∀ m, 2 ^ (Zpos (digits2_pos m) - 1) ≤ Zpos m) as Hlow.
  { clear. induction m as [m IH|m IH|]; cbn [digits2_pos]; [| |done];
      rewrite Pos2Z.inj_succ; replace (Z.succ _ - 1) with (Z.succ (Zpos (digits2_pos m) - 1)) by lia;
      rewrite Z.pow_succ_r by lia; lia. }
  destruct (Z.le_gt_cases (Zpos (digits2_pos m)) k) as [|Hgt]; [done|].
  pose proof (Z.pow_le_mono_r 2 k (Zpos (digits2_pos m) - 1) ltac:(lia) ltac:(lia)). specialize (Hlow m). lia.
Qed.

(** Trailing zeros of a longer mantissa are shifted out. *)
Lemma round_aux_zeros s m e k :
  Zpos (digits2_pos m) = prec64 → emin prec64 emax64 ≤ e + Zpos k ≤ emax64 - prec64 →
  binary_round_aux prec64 emax64 s (Zpos (Pos.iter xO m k)) e loc_Exact = S754_finite s m (e + Zpos k).
Proof.
  intros Hd He. rewrite <-(round_aux_normal s m (e + Zpos k)) by done. unfold binary_round_aux, shr_fexp.
  cbn [Zdigits2]. rewrite digits_zeros, Pos2Z.inj_add, Hd.
  replace (fexp prec64 emax64 (prec64 + Zpos k + e) - e) with (Zpos k) by (unfold fexp; lia).
  replace (fexp prec64 emax64 (prec64 + (e + Zpos k)) - (e + Zpos k)) with 0 by (unfold fexp; lia).
  cbn [shr_record_of_loc shr]. by rewrite iter_shr_zeros.
Qed.

(** An integer below 2^53 is moved to a mantissa of full length. *)
Lemma of_int_normal p : Zpos p < 2 ^ prec64 → ∃ m e,
  of_int (Zpos p) = S754_finite false m e ∧ Zpos (digits2_pos m) = prec64 ∧ - 52 ≤ e ≤ 0 ∧ Zpos p * 2 ^ (- e) = Zpos m.
Proof.
  intros Hp. pose proof (digits_bound p prec64 Hp ltac:(done)) as Hd. unfold prec64 in *.
  unfold of_int, binary_normalize, binary_round, shl_align.
  assert (fexp prec64 emax64 (Zpos (digits2_pos p) + 0) - 0 = Zpos (digits2_pos p) - 53) as ->.
  { unfold fexp, prec64, emax64, emin. lia. }
  destruct (Zpos (digits2_pos p) - 53) as [|q|q] eqn:Hq.
  - exists p, 0. rewrite round_aux_normal; [|unfold prec64; lia|done]. split; [done|]. unfold prec64. lia.
  - lia.
  - exists (Pos.iter xO p q), (Zneg q). assert (fexp prec64 emax64 (Zpos (digits2_pos p) + 0) = Zneg q) as ->.
    { unfold fexp, prec64, emax64, emin. lia. }
    rewrite round_aux_normal.
    + split; [done|]. rewrite iter_zeros, digits_zeros. unfold prec64. split; [lia|]. split; [lia|]. by cbn [Z.opp].
    + rewrite digits_zeros. unfold prec64. lia.
    + unfold emin, prec64, emax64. lia.
Qed.

Lemma of_int_exact n : 0 ≤ n < 2 ^ prec64 → denotes (of_int n) n.
Proof.
  intros Hn. destruct n as [|p|p]; [done| |lia].
  destruct (of_int_normal p) as (m & e & -> & _ & He & Hv); [lia|]. cbn [denotes cond_Zopp].
  replace (Z.max 0 (- e)) with (- e) by lia. replace (Z.max 0 e) with 0 by lia. lia.
Qed.

(** Four times such a number is exact as well. *)
Lemma times_four_exact n : 0 ≤ n < 2 ^ prec64 → denotes (mul64 (of_int n) (of_int 4)) (4 * n).
Proof.
  intros Hn. destruct n as [|p|p]; [done| |lia].
  destruct (of_int_normal p) as (m & e & -> & Hd & He & Hv); [lia|].
  change (of_int 4) with (S754_finite false (Pos.iter xO 1%positive 52) (-50)). unfold mul64, SFmul.
  replace (m * Pos.iter xO 1 52)%positive with (Pos.iter xO m 52) by (apply Pos2Z.inj; rewrite Pos2Z.inj_mul, !iter_zeros; lia).
  rewrite round_aux_zeros by (done || unfold emin, prec64, emax64; lia).
  replace (e + -50 + 52) with (e + 2) by lia. cbn [denotes cond_Zopp xorb]. destruct (Z.le_gt_cases (e + 2) 0).
  - replace (Z.max 0 (- (e + 2))) with (- (e + 2)) by lia. replace (Z.max 0 (e + 2)) with 0 by lia.
    rewrite <-Hv. replace (- e) with (2 + - (e + 2)) by lia. rewrite Z.pow_add_r by lia. lia.
  - replace (Z.max 0 (- (e + 2))) with 0 by lia. replace (Z.max 0 (e + 2)) with (e + 2) by lia.
    rewrite <-Hv. replace 4 with (2 ^ (- e + (e + 2))) by (replace (- e + (e + 2)) with 2 by lia; done).
    rewrite Z.pow_add_r by lia. lia.
Qed.

(** ** Decimal numerals *)
Definition dec_fold (v b : Z) : Z := 10 * v + (b - 48).

Lemma uint_acc_fold s d p : NilEmpty.uint_of_string s = Some d →
  Zpos (Pos.of_uint_acc d p) = foldl dec_fold (Zpos p) (bytes s).
Proof.
  revert d p. induction s as [|c s IH]; intros d p; [by intros [= <-]|]. cbn [NilEmpty.uint_of_string].
  destruct (NilEmpty.uint_of_string s) as [d'|]; [|by destruct c]. rewrite bytes_cons. cbn [foldl].
  destruct c as [[] [] [] [] [] [] [] []]; intros Hd; try discriminate Hd; injection Hd as <-;
    cbn [Pos.of_uint_acc]; rewrite (IH d' _ eq_refl); f_equal; unfold dec_fold;
    match goal with |- context [byte_of ?c] => let v := eval vm_compute in (byte_of c) in change (byte_of c) with v end; lia.
Qed.

Lemma uint_fold s d : NilEmpty.uint_of_string s = Some d → Z.of_N (N.of_uint d) = foldl dec_fold 0 (bytes s).
Proof.
  revert d. induction s as [|c s IH]; intros d; [by intros [= <-]|]. cbn [NilEmpty.uint_of_string].
  destruct (NilEmpty.uint_of_string s) as [d'|] eqn:Hs; [|by destruct c]. rewrite bytes_cons. cbn [foldl].
  destruct c as [[] [] [] [] [] [] [] []]; intros Hd; try discriminate Hd; injection Hd as <-;
    try (etransitivity; [|exact (uint_acc_fold s d' _ Hs)]; done); exact (IH d' eq_refl).
Qed.

Lemma mantissa_digits s v : all_digits s = true → ∀ ds, 
  mantissa 10 (MkNumeral v 0 false ds false) (bytes s) =
    (MkNumeral (foldl dec_fold v (bytes s)) 0 false (ds || bool_decide (s ≠ "")) false, []).
Proof.
  revert v. induction s as [|c s IH]; intros v Hs ds; [cbn; by rewrite orb_false_r|].
  cbn in Hs. apply andb_true_iff in Hs as [Hc Hs]. unfold is_digit in Hc. apply bool_decide_eq_true in Hc.
  rewrite bytes_cons. cbn [mantissa foldl]. change (Z.of_N (N_of_ascii c)) with (byte_of c) in Hc.
  rewrite (decide_False (P := byte_of c = 95)), (decide_False (P := byte_of c = 46)) by lia.
  unfold float_digit, dec_digit. rewrite (decide_True (P := 48 ≤ byte_of c ≤ 57)) by done.
  cbn [n_mant n_frac n_dot n_sep]. rewrite IH by done. cbn [orb]. rewrite bool_decide_eq_true_2 by done.
  by rewrite orb_true_r.
Qed.

Lemma head_digit c s : is_digit c = true → split_sign (bytes (String c s)) = (false, bytes (String c s)) ∧
  special (bytes (String c s)) = None.
Proof.
  intros Hc. rewrite bytes_cons. generalize (bytes s) as t. intros t.
  destruct c as [[] [] [] [] [] [] [] []]; try discriminate Hc; (split; [done|]); reflexivity.
Qed.

Lemma digit_not_x b : 48 ≤ b ≤ 57 → lower_byte b ≠ 120.
Proof. intros Hb. assert (b ∈ seqZ 48 10) as H by (apply elem_of_seqZ; lia). revert H. vm_compute seqZ.
  rewrite !elem_of_cons, elem_of_nil. intros H. naive_solver. Qed.

Lemma round_decimal_of_int n : 0 ≤ n → round_decimal false n 0 = of_int n.
Proof.
  intros Hn. unfold round_decimal. destruct n as [|p|p]; [done| |lia].
  rewrite (decide_False (P := Zpos p = 0)), (decide_True (P := 0 ≤ 0)) by lia. by rewrite Z.mul_1_r.
Qed.

(** No numeral of digits has the prefix of a hexadecimal one. *)
Lemma decimal_base s : all_digits s = true →
  match bytes s with
  | 48 :: x :: (_ :: _) as rest => if decide (lower_byte x = 120) then (true, drop 2 (bytes s)) else (false, bytes s)
  | _ => (false, bytes s)
  end = (false, bytes s).
Proof.
  intros Hs. assert (∀ x, bytes s !! 1%nat = Some x → lower_byte x ≠ 120) as Hx.
  { destruct s as [|c [|c' s]]; [done..|]. intros x [= <-]. cbn in Hs. apply andb_true_iff in Hs as [_ Hs].
    apply andb_true_iff in Hs as [Hc _]. unfold is_digit in Hc. apply bool_decide_eq_true in Hc. by apply digit_not_x. }
  repeat case_match; try done. exfalso. simplify_eq. by eapply Hx.
Qed.

(** A numeral of an integer is read as the number nearest to it. *)
Lemma ParseFloat_digits s n : all_digits s = true → digits_value s = Some n →
  ParseFloat s = in_range (of_int (Z.of_N n)).
Proof.
  intros Hs Hn. destruct s as [|c t] eqn:Hst; [done|]. rewrite <-Hst in *.
  assert (is_digit c = true) as Hc by (subst s; cbn in Hs; by apply andb_true_iff in Hs as [? _]).
  destruct (head_digit c t Hc) as [Hsign Hspec]. rewrite <-Hst in Hsign, Hspec.
  unfold ParseFloat, read_float. rewrite Hspec, Hsign, decimal_base by done. cbn iota beta.
  rewrite (mantissa_digits s 0 Hs false). cbn [orb n_digits n_sep n_mant n_frac].
  rewrite bool_decide_eq_true_2 by (by subst s). cbn -[in_range round_decimal foldl bytes].
  rewrite Hst in Hn. unfold digits_value in Hn. rewrite <-Hst in Hn.
  destruct (NilEmpty.uint_of_string s) as [d|] eqn:Hd; [|done]. cbn in Hn. injection Hn as <-.
  rewrite <-(uint_fold s d Hd). by rewrite round_decimal_of_int by lia.
Qed.

Lemma in_range_exact f n : denotes f n → in_range f = Some f.
Proof. by destruct f. Qed.

Lemma ParseFloat_exact n : (Z.of_N n < 2 ^ prec64) → ParseFloat (itoa_N n) = Some (of_int (Z.of_N n)).
Proof.
  intros Hn. rewrite (ParseFloat_digits _ n); [|apply itoa_N_digits|apply digits_value_itoa].
  apply (in_range_exact _ (Z.of_N n)), of_int_exact. lia.
Qed.
