(* ===== verification/GoText.v ===== *)
(** * Text handling of the Go standard library

    [strings.TrimSpace], [strings.Trim], the part of [strings.ToLower] the code
    looks at, and [encoding/json] decoding of a string array. *)
From stdpp Require Import base list strings numbers.
From Stdlib Require Import ZArith Ascii.
From S2P Require Import Prelude GoStrings.
Local Open Scope Z_scope.

(** ** White space *)

(** The UTF-8 encodings of the runes [unicode.IsSpace] accepts. *)
Definition space_encodings : list (list Z) :=
  [[9]; [10]; [11]; [12]; [13]; [32]; [194; 133]; [194; 160]; [225; 154; 128];
   [226; 128; 128]; [226; 128; 129]; [226; 128; 130]; [226; 128; 131]; [226; 128; 132];
   [226; 128; 133]; [226; 128; 134]; [226; 128; 135]; [226; 128; 136]; [226; 128; 137];
   [226; 128; 138]; [226; 128; 168]; [226; 128; 169]; [226; 128; 175]; [226; 129; 159];
   [227; 128; 128]].

Fixpoint strip_list (p s : list Z) : option (list Z) :=
  match p, s with
  | [], s => Some s
  | a :: p, b :: s => if decide (a = b) then strip_list p s else None
  | _ :: _, [] => None
  end.

(** One leading rune of white space, where [encodings] are the ways to write it. *)
Definition strip_one (encodings : list (list Z)) (s : list Z) : option (list Z) :=
  head (omap (fun e => strip_list e s) encodings).

Fixpoint trim_left (encodings : list (list Z)) (fuel : nat) (s : list Z) : list Z :=
  match fuel with
  | O => s
  | S fuel =>
    match strip_one encodings s with
    | Some r => trim_left encodings fuel r
    | None => s
    end
  end.

Definition trim_bytes (encodings : list (list Z)) (s : list Z) : list Z :=
  let l := trim_left encodings (length s) s in
  reverse (trim_left (reverse <$> encodings) (length l) (reverse l)).

(** [strings.TrimSpace]. *)
Definition TrimSpace (s : string) : string := of_bytes (trim_bytes space_encodings (bytes s)).

(** [strings.Trim(s, "-")]. *)
Definition TrimDash (s : string) : string := of_bytes (trim_bytes [[45]] (bytes s)).

(** ** Lower case

    [unicode.ToLower] as far as ASCII letters and digits go: besides A-Z only
    U+0130 and U+212A are mapped to an ASCII letter, and no other rune to an
    ASCII letter or digit. *)
Definition lower_rune (r : Z) : Z :=
  if decide (65 ≤ r ≤ 90) then r + 32
  else if decide (r = 304) then 105
  else if decide (r = 8490) then 107
  else r.

(** [strings.ToLower] as far as ASCII letters go. *)
Definition ToLower (s : string) : string := of_bytes (runes (bytes s) ≫= fun '(r, _) => encode_rune (lower_rune r)).

Definition is_lower_alnum (r : Z) : bool :=
  bool_decide (97 ≤ r ≤ 122) || bool_decide (48 ≤ r ≤ 57).

(** ** JSON arrays of strings

    [json.Unmarshal] into a []string succeeds exactly on [null] and on arrays of
    strings and [null]s; a [null] element leaves the empty string. *)
Fixpoint skip_ws (s : list Z) : list Z :=
  match s with
  | b :: r => if decide (b = 32 ∨ b = 9 ∨ b = 10 ∨ b = 13) then skip_ws r else s
  | [] => []
  end.

Definition hex_digit (b : Z) : option Z :=
  if decide (48 ≤ b ≤ 57) then Some (b - 48)
  else if decide (97 ≤ b ≤ 102) then Some (b - 87)
  else if decide (65 ≤ b ≤ 70) then Some (b - 55)
  else None.

Definition hex4 (s : list Z) : option (Z * list Z) :=
  match s with
  | a :: b :: c :: d :: r =>
    a ← hex_digit a; b ← hex_digit b; c ← hex_digit c; d ← hex_digit d;
    Some (a * 4096 + b * 256 + c * 16 + d, r)
  | _ => None
  end.

(** The rune after [\u]: a surrogate pair is one rune, a lone surrogate is
    U+FFFD. *)
Definition unicode_escape (s : list Z) : option (Z * list Z) :=
  '(u, r) ← hex4 s;
  if decide (55296 ≤ u ≤ 56319) then
    match r with
    | 92 :: 117 :: r' =>
      match hex4 r' with
      | Some (v, r'') =>
        if decide (56320 ≤ v ≤ 57343) then Some (65536 + (u - 55296) * 1024 + (v - 56320), r'')
        else Some (rune_error, r)
      | None => Some (rune_error, r)
      end
    | _ => Some (rune_error, r)
    end
  else if decide (56320 ≤ u ≤ 57343) then Some (rune_error, r)
  else Some (u, r).

(** The rest of a string literal after its opening quote. *)
Fixpoint json_string (fuel : nat) (s : list Z) : option (list Z * list Z) :=
  match fuel with
  | O => None
  | S fuel =>
    match s with
    | [] => None
    | 34 :: r => Some ([], r)
    | 92 :: r =>
      match r with
      | 117 :: r =>
        '(u, r) ← unicode_escape r;
        '(t, r) ← json_string fuel r;
        Some (encode_rune u ++ t, r)
      | e :: r =>
        c ← (if decide (e = 34 ∨ e = 92 ∨ e = 47) then Some e
             else if decide (e = 98) then Some 8
             else if decide (e = 102) then Some 12
             else if decide (e = 110) then Some 10
             else if decide (e = 114) then Some 13
             else if decide (e = 116) then Some 9
             else None);
        '(t, r) ← json_string fuel r;
        Some (c :: t, r)
      | [] => None
      end
    | b :: _ =>
      if decide (b < 32) then None
      else
        '(u, n) ← decode_rune s;
        '(t, r) ← json_string fuel (drop n s);
        Some (encode_rune u ++ t, r)
    end
  end.

Definition json_element (s : list Z) : option (string * list Z) :=
  match s with
  | 34 :: r => '(t, r) ← json_string (length r) r; Some (of_bytes t, r)
  | 110 :: 117 :: 108 :: 108 :: r => Some ("", r)
  | _ => None
  end.

(** The elements after [\[] or a comma. *)
Fixpoint json_elements (fuel : nat) (s : list Z) : option (list string * list Z) :=
  match fuel with
  | O => None
  | S fuel =>
    '(x, r) ← json_element (skip_ws s);
    match skip_ws r with
    | 44 :: r => '(l, r) ← json_elements fuel r; Some (x :: l, r)
    | 93 :: r => Some ([x], r)
    | _ => None
    end
  end.

Definition json_string_array (s : string) : option (list string) :=
  '(l, r) ← match skip_ws (bytes s) with
    | 110 :: 117 :: 108 :: 108 :: r => Some ([], r)
    | 91 :: r =>
      match skip_ws r with
      | 93 :: r => Some ([], r)
      | _ => json_elements (length r) r
      end
    | _ => None
    end;
  match skip_ws r with [] => Some l | _ => None end.

Definition quote : string := String (ascii_of_nat 34) "".

Example json_two :
  json_string_array ("[ " +:+ quote +:+ "a\u00e9\n" +:+ quote +:+ " , null]") =
  Some ["a" +:+ of_bytes [195; 169; 10]; ""].
Proof. vm_compute. reflexivity. Qed.

Example json_bad : json_string_array "[1]" = None.
Proof. reflexivity. Qed.

Example trim_nbsp : TrimSpace (of_bytes ([194; 160; 32] ++ bytes "x y" ++ [227; 128; 128; 10])) = "x y".
Proof. reflexivity. Qed.

(** ** [strconv.Quote]

    Exact on ASCII; a non-ASCII rune is kept as it is, which is what the function
    does with printable runes. *)
Definition quote_byte (b : Z) : list Z :=
  let hex d := nth (Z.to_nat d) (bytes "0123456789abcdef") 0 in
  if decide (b = 34 ∨ b = 92) then [92; b]
  else if decide (b = 7) then bytes "\a"
  else if decide (b = 8) then bytes "\b"
  else if decide (b = 12) then bytes "\f"
  else if decide (b = 10) then bytes "\n"
  else if decide (b = 13) then bytes "\r"
  else if decide (b = 9) then bytes "\t"
  else if decide (b = 11) then bytes "\v"
  else if decide (b < 32 ∨ b = 127) then bytes "\x" ++ [hex (b / 16); hex (b mod 16)]
  else [b].

Definition Quote (s : string) : string := of_bytes ([34] ++ (bytes s ≫= quote_byte) ++ [34]).
