(* ===== verification/GoJson.v ===== *)
(** * JSON

    [encoding/json]: the text of a document as a tree, and decoding of a tree into
    Go values.  The tree keeps object members in the order of the text.  Decoding
    follows [json.Unmarshal]: member names match field names up to case folding,
    unknown members are skipped, [null] leaves a value as it is and empties a slice,
    and a value of the wrong kind anywhere makes the whole call fail.  When an object
    repeats a member the later one decides. *)
From stdpp Require Import base list strings numbers.
From Stdlib Require Import ZArith Ascii.
From S2P Require Import Prelude GoStrings GoText.
Local Open Scope Z_scope.

Inductive json :=
| JNull
| JBool (b : bool)
| JNumber (literal : list Z)
| JString (s : string)
| JArray (l : list json)
| JObject (members : list (string * json)).

(** ** Literals *)
Definition is_digit_byte (b : Z) : bool := bool_decide (48 ≤ b ≤ 57).

Fixpoint span_digits (s : list Z) : list Z * list Z :=
  match s with
  | b :: r => if is_digit_byte b then let '(d, r) := span_digits r in (b :: d, r) else ([], s)
  | [] => ([], [])
  end.

(** At least one digit. *)
Definition digits1 (s : list Z) : option (list Z * list Z) :=
  match span_digits s with
  | ([], _) => None
  | (d, r) => Some (d, r)
  end.

Definition number_int (s : list Z) : option (list Z * list Z) :=
  match s with
  | 48 :: r => Some ([48], r)
  | _ => digits1 s
  end.

Definition number_frac (s : list Z) : option (list Z * list Z) :=
  match s with
  | 46 :: r => '(d, r) ← digits1 r; Some (46 :: d, r)
  | _ => Some ([], s)
  end.

Definition number_exp (s : list Z) : option (list Z * list Z) :=
  match s with
  | e :: r =>
    if decide (e = 101 ∨ e = 69) then
      match r with
      | sign :: r' =>
        if decide (sign = 43 ∨ sign = 45) then '(d, r) ← digits1 r'; Some (e :: sign :: d, r)
        else '(d, r) ← digits1 r; Some (e :: d, r)
      | [] => None
      end
    else Some ([], s)
  | [] => Some ([], [])
  end.

Definition json_number (s : list Z) : option (list Z * list Z) :=
  let '(sign, s) := match s with 45 :: r => ([45], r) | _ => ([], s) end in
  '(i, s) ← number_int s;
  '(f, s) ← number_frac s;
  '(e, s) ← number_exp s;
  Some (sign ++ i ++ f ++ e, s).

(** ** Values

    The scanner refuses more than 10000 nested arrays and objects. *)
Definition max_depth : N := 10000.

Fixpoint json_value (fuel : nat) (depth : N) (s : list Z) : option (json * list Z) :=
  match fuel with
  | O => None
  | S fuel =>
    match s with
    | 110 :: 117 :: 108 :: 108 :: r => Some (JNull, r)
    | 116 :: 114 :: 117 :: 101 :: r => Some (JBool true, r)
    | 102 :: 97 :: 108 :: 115 :: 101 :: r => Some (JBool false, r)
    | 34 :: r => '(t, r) ← json_string (length r) r; Some (JString (of_bytes t), r)
    | 91 :: r =>
      if decide (depth = 0%N) then None
      else match skip_ws r with
      | 93 :: r => Some (JArray [], r)
      | r => '(l, r) ← json_items fuel (depth - 1) r; Some (JArray l, r)
      end
    | 123 :: r =>
      if decide (depth = 0%N) then None
      else match skip_ws r with
      | 125 :: r => Some (JObject [], r)
      | r => '(l, r) ← json_members fuel (depth - 1) r; Some (JObject l, r)
      end
    | _ => '(n, r) ← json_number s; Some (JNumber n, r)
    end
  end
with json_items (fuel : nat) (depth : N) (s : list Z) : option (list json * list Z) :=
  match fuel with
  | O => None
  | S fuel =>
    '(x, r) ← json_value fuel depth (skip_ws s);
    match skip_ws r with
    | 44 :: r => '(l, r) ← json_items fuel depth r; Some (x :: l, r)
    | 93 :: r => Some ([x], r)
    | _ => None
    end
  end
with json_members (fuel : nat) (depth : N) (s : list Z) : option (list (string * json) * list Z) :=
  match fuel with
  | O => None
  | S fuel =>
    match skip_ws s with
    | 34 :: r =>
      '(k, r) ← json_string (length r) r;
      match skip_ws r with
      | 58 :: r =>
        '(x, r) ← json_value fuel depth (skip_ws r);
        match skip_ws r with
        | 44 :: r => '(l, r) ← json_members fuel depth r; Some ((of_bytes k, x) :: l, r)
        | 125 :: r => Some ([(of_bytes k, x)], r)
        | _ => None
        end
      | _ => None
      end
    | _ => None
    end
  end.

(** Every level of the recursion but the first of a list reads a byte, so twice the
    length of the text is enough. *)
Definition json_parse (s : string) : option json :=
  let b := bytes s in
  '(v, r) ← json_value (2 * length b + 2) max_depth (skip_ws b);
  match skip_ws r with [] => Some v | _ => None end.

(** ** Decoding *)

(** A decoder updates a Go value by a JSON value; [None] is an error. *)
Definition decoder (A : Type) : Type := A → json → option A.

Definition d_string : decoder string := fun cur v =>
  match v with JString s => Some s | JNull => Some cur | _ => None end.

Definition d_bool : decoder bool := fun cur v =>
  match v with JBool b => Some b | JNull => Some cur | _ => None end.

Definition d_slice {A} (zero : A) (d : decoder A) : decoder (list A) := fun _ v =>
  match v with JArray l => mapM (d zero) l | JNull => Some [] | _ => None end.

Fixpoint d_members {A} (field : string → option (decoder A)) (cur : A) (members : list (string * json)) : option A :=
  match members with
  | [] => Some cur
  | (k, v) :: members =>
    next ← match field k with Some d => d cur v | None => Some cur end;
    d_members field next members
  end.

Definition d_struct {A} (field : string → option (decoder A)) : decoder A := fun cur v =>
  match v with JObject members => d_members field cur members | JNull => Some cur | _ => None end.

(** A field of a struct, given its getter and setter. *)
Definition via {A B} (get : A → B) (set : B → A → A) (d : decoder B) : decoder A := fun cur v =>
  x ← d (get cur) v; Some (set x cur).

(** Names are compared under simple case folding: of the runes that fold to an ASCII
    letter only the other case, U+017F and U+212A differ from it. *)
Definition fold_rune (r : Z) : Z :=
  if decide (97 ≤ r ≤ 122) then r - 32
  else if decide (r = 383) then 83
  else if decide (r = 8490) then 75
  else r.

Definition fold_name (s : string) : list Z := fold_rune ∘ fst <$> runes (bytes s).

Definition field_of {A} (fields : list (string * decoder A)) (key : string) : option (decoder A) :=
  snd <$> head (filter (fun f => fold_name f.1 = fold_name key) fields).

Definition json_doc : string :=
  of_bytes (bytes "{" ++ [34] ++ bytes "A" ++ [34] ++ bytes ": [1.5e3, true, {" ++ [34; 34] ++ bytes ":null}], " ++ [34] ++ bytes "b" ++ [34] ++ bytes ":-0}").

Example json_parse_doc :
  json_parse json_doc = Some (JObject [("A", JArray [JNumber (bytes "1.5e3"); JBool true; JObject [("", JNull)]]); ("b", JNumber (bytes "-0"))]).
Proof. vm_compute. reflexivity. Qed.

Example json_parse_bad : json_parse "[1,]" = None ∧ json_parse "01" = None ∧ json_parse "{}}" = None.
Proof. vm_compute. done. Qed.
