(* ===== verification/GoBytes.v ===== *)
(** * Byte slices

    Go's slices of bytes, with the run-time panics of their operations, and [encoding/binary]. *)
From Stdlib Require Import ZArith.
From stdpp Require Import base list numbers.
From S2P Require Import Prelude.
Local Open Scope Z_scope.

Definition outcome : Type → Type := go Empty_set.

(** [b[i]]. *)
Definition index (b : list Z) (i : Z) : outcome Z :=
  if decide (i < 0) then Panic
  else match b !! Z.to_nat i with Some x => Ret x | None => Panic end.

(** [b[lo:hi]] *)
Definition slice (b : list Z) (lo hi : Z) : outcome (list Z) :=
  if decide (0 ≤ lo ≤ hi ∧ hi ≤ Z.of_nat (length b)) then
    Ret (take (Z.to_nat (hi - lo)) (drop (Z.to_nat lo) b))
  else Panic.

(** [binary.BigEndian.Uint16(b[lo:lo+2])] *)
Definition uint16_at (b : list Z) (lo : Z) : outcome Z :=
  s ← slice b lo (lo + 2);
  match s with
  | hi :: lo :: _ => Ret (hi * 256 + lo)
  | _ => Panic
  end.

Definition len (b : list Z) : Z := Z.of_nat (length b).

(** The value of little-endian bytes. *)
Definition le_value (b : list Z) : Z := foldr (fun x v => x + 256 * v) 0 b.

(** [binary.LittleEndian.Uint32(b[lo:lo+4])] and [Uint64]. *)
Definition uint32_le (b : list Z) (lo : Z) : outcome Z := s ← slice b lo (lo + 4); Ret (le_value s).
Definition uint64_le (b : list Z) (lo : Z) : outcome Z := s ← slice b lo (lo + 8); Ret (le_value s).

(** The [n] little-endian bytes of a value. *)
Fixpoint le_bytes (n : nat) (v : Z) : list Z :=
  match n with
  | O => []
  | S n => v mod 256 :: le_bytes n (v / 256)
  end.

(** ** Reads in range *)
Lemma index_ok b i : 0 ≤ i < len b → ∃ x, index b i = Ret x ∧ b !! Z.to_nat i = Some x.
Proof.
  intros Hi. unfold index, len in *. rewrite decide_False by lia.
  destruct (lookup_lt_is_Some_2 b (Z.to_nat i)) as [x Hx]; [lia|]. rewrite Hx. eauto.
Qed.

Lemma index_ret b i x : 0 ≤ i → b !! Z.to_nat i = Some x → index b i = Ret x.
Proof. intros Hi Hx. unfold index. rewrite decide_False by lia. by rewrite Hx. Qed.

Lemma slice_ok b lo hi : 0 ≤ lo ≤ hi → hi ≤ len b →
  slice b lo hi = Ret (take (Z.to_nat (hi - lo)) (drop (Z.to_nat lo) b)).
Proof. intros. unfold slice. by rewrite decide_True. Qed.

Lemma uint16_ok b lo : 0 ≤ lo → lo + 2 ≤ len b → ∃ x, uint16_at b lo = Ret x.
Proof.
  intros Hlo Hhi. unfold uint16_at. rewrite slice_ok by lia. cbn [mbind go_bind].
  assert (length (take (Z.to_nat (lo + 2 - lo)) (drop (Z.to_nat lo) b)) = 2%nat) as Hl.
  { rewrite length_take, length_drop. unfold len in Hhi. lia. }
  destruct (take _ _) as [|x [|y l]]; [done..|]. eauto.
Qed.

Lemma length_le_bytes n v : length (le_bytes n v) = n.
Proof. revert v. induction n as [|n IH]; intros v; cbn; [done|]. by rewrite IH. Qed.

Lemma le_value_bytes n v : 0 ≤ v < 256 ^ Z.of_nat n → le_value (le_bytes n v) = v.
Proof.
  revert v. induction n as [|n IH]; intros v Hv; [cbn in *; lia|].
  rewrite Nat2Z.inj_succ, Z.pow_succ_r in Hv by lia. cbn [le_bytes]. cbn. rewrite IH.
  - pose proof (Z.div_mod v 256). lia.
  - split; [apply Z.div_pos; lia|]. apply Z.div_lt_upper_bound; lia.
Qed.

Lemma len_app a b : len (a ++ b) = len a + len b.
Proof. unfold len. rewrite length_app. lia. Qed.
Lemma len_le_bytes n v : len (le_bytes n v) = Z.of_nat n.
Proof. unfold len. by rewrite length_le_bytes. Qed.
Lemma len_nonneg b : 0 ≤ len b.
Proof. unfold len. lia. Qed.

(** A field of an encoded record is read back. *)
Lemma slice_app pre mid post lo hi :
  lo = len pre → hi = lo + len mid → slice (pre ++ mid ++ post) lo hi = Ret mid.
Proof.
  intros -> ->. unfold len. rewrite slice_ok by (unfold len; rewrite ?length_app; lia).
  replace (Z.to_nat (Z.of_nat (length pre))) with (length pre) by lia. rewrite drop_app_length.
  replace (Z.to_nat (Z.of_nat (length pre) + Z.of_nat (length mid) - Z.of_nat (length pre))) with (length mid) by lia.
  by rewrite take_app_length.
Qed.

Lemma slice_tail pre post lo hi : len pre = lo → lo + len post = hi → slice (pre ++ post) lo hi = Ret post.
Proof. intros Hlo Hhi. rewrite <- (app_nil_r post) at 1. by apply slice_app. Qed.

Lemma uint32_le_app pre v post lo :
  lo = len pre → 0 ≤ v < 2 ^ 32 → uint32_le (pre ++ le_bytes 4 v ++ post) lo = Ret v.
Proof.
  intros Hlo Hv. unfold uint32_le. rewrite slice_app by (unfold len; rewrite ?length_le_bytes; done || lia).
  cbn [mbind go_bind]. f_equal. apply (le_value_bytes 4). done.
Qed.

Lemma uint64_le_app pre v post lo :
  lo = len pre → 0 ≤ v < 2 ^ 64 → uint64_le (pre ++ le_bytes 8 v ++ post) lo = Ret v.
Proof.
  intros Hlo Hv. unfold uint64_le. rewrite slice_app by (unfold len; rewrite ?length_le_bytes; done || lia).
  cbn [mbind go_bind]. f_equal. apply (le_value_bytes 8). done.
Qed.

Lemma uint32_le_ok b lo : 0 ≤ lo → lo + 4 ≤ len b → ∃ x, uint32_le b lo = Ret x.
Proof. intros. unfold uint32_le. rewrite slice_ok by lia. cbn [mbind go_bind]. eauto. Qed.
Lemma uint64_le_ok b lo : 0 ≤ lo → lo + 8 ≤ len b → ∃ x, uint64_le b lo = Ret x.
Proof. intros. unfold uint64_le. rewrite slice_ok by lia. cbn [mbind go_bind]. eauto. Qed.

(** The fields of a record that is long enough are read. *)
Ltac read_fields :=
  repeat match goal with
  | |- context [uint32_le ?b ?lo] => let x := fresh "x" in let Hx := fresh "Hx" in destruct (uint32_le_ok b lo) as [x Hx]; [lia|lia|rewrite Hx]
  | |- context [uint64_le ?b ?lo] => let x := fresh "x" in let Hx := fresh "Hx" in destruct (uint64_le_ok b lo) as [x Hx]; [lia|lia|rewrite Hx]
  end; cbn [mbind go_bind].

(** A field after the given bytes. *)
Lemma uint32_field b pre v post lo : b = pre ++ le_bytes 4 v ++ post → lo = len pre → 0 ≤ v < 2 ^ 32 → uint32_le b lo = Ret v.
Proof. intros ->. apply uint32_le_app. Qed.
Lemma uint64_field b pre v post lo : b = pre ++ le_bytes 8 v ++ post → lo = len pre → 0 ≤ v < 2 ^ 64 → uint64_le b lo = Ret v.
Proof. intros ->. apply uint64_le_app. Qed.

(** The next field of a decoder. *)
Ltac field pre :=
  match goal with
  | |- (uint32_le ?b ?lo ≫= _) = _ => erewrite (uint32_field b pre _ _ lo); [|rewrite <- ?(assoc_L (++)); reflexivity|reflexivity|done]
  | |- (uint64_le ?b ?lo ≫= _) = _ => erewrite (uint64_field b pre _ _ lo); [|rewrite <- ?(assoc_L (++)); reflexivity|reflexivity|done]
  end; cbn [mbind go_bind].
