(* ===== verification/GoNet.v ===== *)
(** * Network addresses and durations

    The parts of [net] and [time] the code calls: [net.IP] with [To4], [To16] and
    [String], [net.ParseIP], [net.SplitHostPort] and [time.ParseDuration]. *)
From stdpp Require Import base list strings numbers.
From Stdlib Require Import ZArith Ascii.
From S2P Require Import Prelude GoStrings GoNumbers GoText GoJson.
Local Open Scope Z_scope.

(** ** [net.IP]

    A slice of bytes; nil and empty are the same to the code. *)
Definition IP : Type := list Z.

Definition v4InV6Prefix : list Z := replicate 10 0 ++ [255; 255].

Definition To4 (ip : IP) : option IP :=
  if decide (length ip = 4%nat) then Some ip
  else if decide (length ip = 16%nat ∧ take 12 ip = v4InV6Prefix) then Some (drop 12 ip)
  else None.

Definition To16 (ip : IP) : option IP :=
  if decide (length ip = 4%nat) then Some (v4InV6Prefix ++ ip)
  else if decide (length ip = 16%nat) then Some ip
  else None.

(** Dotted decimal. *)
Definition string4 (ip : IP) : string := join "." (Itoa <$> ip).

Fixpoint groups16 (ip : IP) : list Z :=
  match ip with
  | hi :: lo :: ip => (hi * 256 + lo) :: groups16 ip
  | _ => []
  end.

Definition hex_char (d : Z) : ascii := of_byte (if decide (d < 10) then 48 + d else 87 + d).

(** A group without leading zeros. *)
Definition hex_group (g : Z) : string :=
  let a := g / 4096 in
  let b := g / 256 mod 16 in
  let c := g / 16 mod 16 in
  let digits := [hex_char a; hex_char b; hex_char c; hex_char (g mod 16)] in
  String.string_of_list_ascii (drop (if decide (g < 16) then 3 else if decide (g < 256) then 2 else if decide (g < 4096) then 1 else 0) digits).

Fixpoint zero_run (gs : list Z) : nat :=
  match gs with
  | 0 :: gs => S (zero_run gs)
  | _ => O
  end.

(** The first longest run of at least two zero groups: where it starts and its
    length. *)
Definition best_run (gs : list Z) : option (nat * nat) :=
  foldl (fun best i =>
    let l := zero_run (drop i gs) in
    if decide (2 ≤ l ∧ from_option snd O best < l)%nat then Some (i, l) else best)
    None (seq 0 8).

Definition string6 (ip : IP) : string :=
  let gs := groups16 ip in
  let text l := join ":" (hex_group <$> l) in
  match best_run gs with
  | None => text gs
  | Some (i, l) => text (take i gs) +:+ "::" +:+ text (drop (i + l) gs)
  end.

(** [ip.String()] of an address of 4 or 16 bytes, or of none. *)
Definition IP_String (ip : IP) : string :=
  match To4 ip with
  | Some v4 => string4 v4
  | None => if decide (ip = []) then "<nil>" else string6 ip
  end.

Definition IsLinkLocalUnicast (ip : IP) : bool :=
  match To4 ip with
  | Some v4 => bool_decide (take 2 v4 = [169; 254])
  | None => bool_decide (length ip = 16%nat) && bool_decide (nth 0 ip 0 = 254) && bool_decide (Z.land (nth 1 ip 0) 192 = 128)
  end.

Definition IsLinkLocalMulticast (ip : IP) : bool :=
  match To4 ip with
  | Some v4 => bool_decide (take 3 v4 = [224; 0; 0])
  | None => bool_decide (length ip = 16%nat) && bool_decide (nth 0 ip 0 = 255) && bool_decide (Z.land (nth 1 ip 0) 15 = 2)
  end.

(** ** [net.ParseIP] *)

(** Four decimal octets without leading zeros: the digits of the current octet, the
    octets read so far and the text. *)
Fixpoint ipv4_fields (digits : list Z) (octets : list Z) (s : list Z) : option (list Z) :=
  let value := foldl (fun v d => v * 10 + (d - 48)) 0 digits in
  match s with
  | [] => if decide (digits ≠ [] ∧ length octets = 3%nat) then Some (octets ++ [value]) else None
  | b :: s =>
    if is_digit_byte b then
      if decide (digits = [48]) then None
      else if decide (value * 10 + (b - 48) > 255) then None
      else ipv4_fields (digits ++ [b]) octets s
    else if decide (b = 46) then
      if decide (digits = [] ∨ length octets = 3%nat) then None
      else ipv4_fields [] (octets ++ [value]) s
    else None
  end.

Definition parseIPv4Fields (s : list Z) : option (list Z) := ipv4_fields [] [] s.

(** The hexadecimal digits at the front. *)
Fixpoint hex_run (s : list Z) : list Z * list Z :=
  match s with
  | b :: r => match hex_digit b with
    | Some d => let '(ds, r) := hex_run r in (d :: ds, r)
    | None => ([], s)
    end
  | [] => ([], [])
  end.

(** One round of the loop over the groups: [bytes] are those written so far and
    [ellipsis] where the double colon was.  The answer is the bytes, the ellipsis and
    the unread text.  Each round writes two bytes, so eight rounds are enough. *)
Fixpoint ipv6_groups (fuel : nat) (out : list Z) (ellipsis : option nat) (s : list Z) : option (list Z * option nat * list Z) :=
  match fuel with
  | O => Some (out, ellipsis, s)
  | S fuel =>
    let '(ds, r) := hex_run s in
    if decide (ds = [] ∨ (4 < length ds)%nat) then None
    else
      let acc := foldl (fun v d => v * 16 + d) 0 ds in
      match r with
      | 46 :: _ =>
        if decide ((ellipsis = None ∧ length out ≠ 12%nat) ∨ (12 < length out)%nat) then None
        else v4 ← parseIPv4Fields s; Some (out ++ v4, ellipsis, [])
      | [] => Some (out ++ [acc / 256; acc mod 256], ellipsis, [])
      | 58 :: r =>
        let out := out ++ [acc / 256; acc mod 256] in
        match r with
        | [] => None
        | 58 :: r =>
          if decide (ellipsis = None) then
            match r with
            | [] => Some (out, Some (length out), [])
            | _ => ipv6_groups fuel out (Some (length out)) r
            end
          else None
        | _ => ipv6_groups fuel out ellipsis r
        end
      | _ => None
      end
  end.

Definition parseIPv6Bytes (s : list Z) : option IP :=
  let '(ellipsis, s) := match s with 58 :: 58 :: r => (Some O, r) | _ => (None, s) end in
  if decide (ellipsis = Some O ∧ s = []) then Some (replicate 16 0)
  else
    '(out, ellipsis, rest) ← ipv6_groups 8 [] ellipsis s;
    if decide (rest ≠ []) then None
    else if decide ((length out < 16)%nat) then
      e ← ellipsis; Some (take e out ++ replicate (16 - length out) 0 ++ drop e out)
    else if decide (ellipsis = None) then Some out else None.

(** The 16-byte form; an address with a zone is refused. *)
Definition ParseIP (value : string) : option IP :=
  let s := bytes value in
  match head (filter (fun b => b = 46 ∨ b = 58 ∨ b = 37) s) with
  | Some 46 => v4 ← parseIPv4Fields s; Some (v4InV6Prefix ++ v4)
  | Some 58 => if decide (37 ∈ s) then None else parseIPv6Bytes s
  | _ => None
  end.

Example ParseIP_examples :
  ParseIP "10.0.0.1" = Some (v4InV6Prefix ++ [10; 0; 0; 1]) ∧ ParseIP "10.0.0.01" = None ∧ ParseIP "1.2.3" = None ∧
  (IP_String <$> ParseIP "2001:DB8:0:0:1:0:0:1") = Some "2001:db8::1:0:0:1" ∧ (IP_String <$> ParseIP "::") = Some "::" ∧
  (IP_String <$> ParseIP "fe80::1") = Some "fe80::1" ∧ (IP_String <$> ParseIP "::ffff:1.2.3.4") = Some "1.2.3.4" ∧
  ParseIP "fe80::1%eth0" = None ∧ ParseIP "1:2:3:4:5:6:7::" = Some [0;1;0;2;0;3;0;4;0;5;0;6;0;7;0;0] ∧ ParseIP "1:2:3:4:5:6:7:8::" = None ∧
  ParseIP "" = None ∧ ParseIP "1::2::3" = None.
Proof. vm_compute. done. Qed.

(** ** [net.SplitHostPort] *)

(** The text before and after the last occurrence of a byte. *)
Fixpoint split_last (c : Z) (s : list Z) : option (list Z * list Z) :=
  match s with
  | [] => None
  | b :: r =>
    match split_last c r with
    | Some (p, q) => Some (b :: p, q)
    | None => if decide (b = c) then Some ([], r) else None
    end
  end.

Fixpoint split_first (c : Z) (s : list Z) : option (list Z * list Z) :=
  match s with
  | [] => None
  | b :: r => if decide (b = c) then Some ([], r) else '(p, q) ← split_first c r; Some (b :: p, q)
  end.

Definition SplitHostPort (hostport : string) : option (string * string) :=
  let s := bytes hostport in
  '(before, port) ← split_last 58 s;
  host ← match s with
    | 91 :: s' =>
      '(inside, after) ← split_first 93 s';
      if decide (after = 58 :: port ∧ 91 ∉ inside) then Some inside else None
    | _ => if decide (58 ∈ before ∨ 91 ∈ before ∨ 93 ∈ before) then None else Some before
    end;
  if decide (91 ∈ port ∨ 93 ∈ port) then None
  else Some (of_bytes host, of_bytes port).

Example SplitHostPort_examples :
  SplitHostPort ":6343" = Some ("", "6343") ∧ SplitHostPort "[::1]:80" = Some ("::1", "80") ∧ SplitHostPort "host" = None ∧
  SplitHostPort "a:b:c" = None ∧ SplitHostPort "[::1]" = None.
Proof. vm_compute. done. Qed.

(** ** [time.ParseDuration]

    Nanoseconds.  The part of a unit behind the decimal point is exact here, where
    the library computes it in floating point. *)
Definition max_int63 : Z := 2 ^ 63.

(** The unit names, as bytes; the micro sign and the Greek letter mu are both
    accepted. *)
Definition unitMap : list (list Z * Z) :=
  [(bytes "ns", 1); (bytes "us", 1000); ([194; 181; 115], 1000); ([206; 188; 115], 1000); (bytes "ms", 1000000);
   (bytes "s", 1000000000); (bytes "m", 60000000000); (bytes "h", 3600000000000)].

Definition unit_value (u : list Z) : option Z := snd <$> head (filter (fun e => e.1 = u) unitMap).

Definition digits_Z (ds : list Z) : Z := foldl (fun v d => v * 10 + (d - 48)) 0 ds.

Fixpoint span_unit (s : list Z) : list Z * list Z :=
  match s with
  | b :: r => if decide (b = 46) then ([], s) else if is_digit_byte b then ([], s) else let '(u, r) := span_unit r in (b :: u, r)
  | [] => ([], [])
  end.

Fixpoint duration_terms (fuel : nat) (d : Z) (s : list Z) : option Z :=
  match s with
  | [] => Some d
  | _ =>
    match fuel with
    | O => None
    | S fuel =>
      let '(whole, s) := span_digits s in
      if decide (max_int63 < digits_Z whole) then None
      else
        let '(frac, s) := match s with 46 :: r => span_digits r | _ => ([], s) end in
        if decide (whole = [] ∧ frac = []) then None
        else
          let '(u, s) := span_unit s in
          unit ← unit_value u;
          let v := digits_Z whole * unit + digits_Z frac * unit / 10 ^ Z.of_nat (length frac) in
          if decide (max_int63 < v ∨ max_int63 < d + v) then None
          else duration_terms fuel (d + v) s
    end
  end.

Definition ParseDuration (text : string) : option Z :=
  let '(neg, s) := match bytes text with
    | 45 :: r => (true, r)
    | 43 :: r => (false, r)
    | s => (false, s)
    end in
  if decide (s = [48]) then Some 0
  else if decide (s = []) then None
  else
    d ← duration_terms (length s) 0 s;
    if neg then Some (- d)
    else if decide (max_int63 - 1 < d) then None else Some d.

Example ParseDuration_examples :
  ParseDuration "2s" = Some 2000000000 ∧ ParseDuration "1h30m" = Some 5400000000000 ∧ ParseDuration "-1.5h" = Some (-5400000000000) ∧
  ParseDuration ".5s" = Some 500000000 ∧ ParseDuration "10" = None ∧ ParseDuration "" = None ∧ ParseDuration "0" = Some 0 ∧
  ParseDuration "1d" = None ∧ ParseDuration "500ms" = Some 500000000.
Proof. vm_compute. done. Qed.
