(* ===== verification/GoPath.v ===== *)
(** * Paths, words and numbers in text

    The parts of [path/filepath], [strings], [strconv] and [net] that the eBPF flow agent and
    the RDMA scraper call: cleaned and joined paths, splitting into words, unsigned numbers in
    a base, and hardware addresses. *)
From Stdlib Require Import ZArith Ascii.
From stdpp Require Import base list strings numbers.
From S2P Require Import Prelude GoStrings GoNumbers GoText GoJson GoNet.
Local Open Scope Z_scope.

(** ** [strings] *)

(** [strings.CutSuffix]. *)
Definition strip_suffix (suffix s : string) : option string :=
  (fun r => of_bytes (reverse r)) <$> strip_list (reverse (bytes suffix)) (reverse (bytes s)).

Definition has_suffix (s suffix : string) : bool := bool_decide (is_Some (strip_suffix suffix s)).
Definition trim_suffix (s suffix : string) : string := default s (strip_suffix suffix s).
Definition trim_prefix (s prefix : string) : string := default s (strip_prefix prefix s).

(** The words of a text, where [encodings] are the ways to write a separator:
    [strings.Fields] and [strings.FieldsFunc].  [cur] is the word being read. *)
Fixpoint words (encodings : list (list Z)) (fuel : nat) (cur : list Z) (s : list Z) : list (list Z) :=
  let flush := if decide (cur = []) then [] else [cur] in
  match fuel, s with
  | S fuel, b :: r =>
    match strip_one encodings s with
    | Some r => flush ++ words encodings fuel [] r
    | None => words encodings fuel (cur ++ [b]) r
    end
  | _, _ => flush
  end.

Definition Fields (s : string) : list string := of_bytes <$> words space_encodings (String.length s) [] (bytes s).

(** ** [path/filepath] on Unix *)
Definition clean_step (rooted : bool) (stack : list string) (c : string) : list string :=
  if decide (c = "" ∨ c = ".") then stack
  else if decide (c = "..") then
    match stack with
    | top :: rest => if decide (top = "..") then c :: stack else rest
    | [] => if rooted then [] else [c]
    end
  else c :: stack.

Definition Clean (path : string) : string :=
  let rooted := has_prefix path "/" in
  let stack := foldl (clean_step rooted) [] (of_bytes <$> split_on 47 (bytes path)) in
  let out := (if rooted then "/" else "") +:+ join "/" (reverse stack) in
  if decide (out = "") then "." else out.

Fixpoint Join (elem : list string) : string :=
  match elem with
  | [] => ""
  | e :: rest => if decide (e = "") then Join rest else Clean (join "/" elem)
  end.

(** [s] without the slashes at its end. *)
Definition trim_slashes (s : list Z) : list Z := reverse (trim_left [[47]] (length s) (reverse s)).

Definition Base (path : string) : string :=
  if decide (path = "") then "."
  else
    match list.last (split_on 47 (trim_slashes (bytes path))) with
    | Some [] | None => "/"
    | Some base => of_bytes base
    end.

Definition Dir (path : string) : string :=
  Clean (match split_last 47 (bytes path) with Some (dir, _) => of_bytes (dir ++ [47]) | None => "" end).

Definition IsAbs (path : string) : bool := has_prefix path "/".

Example path_examples :
  Join ["/proc"; "12"; "root/sys"] = "/proc/12/root/sys" ∧ Join ["/a/"; "../b//c/."] = "/b/c" ∧ Join ["a"; "../../b"] = "../b" ∧
  Base "/usr/lib/libmlx5.so" = "libmlx5.so" ∧ Base "a/" = "a" ∧ Base "/" = "/" ∧ Dir "/sys/fs/bpf/x" = "/sys/fs/bpf" ∧ Dir "x" = "." ∧
  Fields "  a b	c " = ["a"; "b"; "c"] ∧ trim_suffix "x (deleted)" " (deleted)" = "x".
Proof. vm_compute. done. Qed.

(** ** [strconv.ParseUint] and [strconv.FormatUint] *)

(** The digits of a number in a base of at most 16. *)
Definition base_digit (base : Z) (b : Z) : option Z :=
  d ← hex_digit b; if decide (d < base) then Some d else None.

Definition ParseUint (s : string) (base bits : Z) : option Z :=
  if decide (s = "") then None
  else
    ds ← mapM (base_digit base) (bytes s);
    let v := foldl (fun v d => v * base + d) 0 ds in
    if decide (v < 2 ^ bits) then Some v else None.

(** The hexadecimal digits of [n], the last ones first in [acc]. *)
Fixpoint hex_digits (fuel : nat) (n : Z) (acc : list ascii) : list ascii :=
  match fuel with
  | O => acc
  | S fuel =>
    let acc := hex_char (n mod 16) :: acc in
    if decide (n < 16) then acc else hex_digits fuel (n / 16) acc
  end.

(** [%x] of an unsigned number. *)
Definition FormatHex (n : Z) : string := String.string_of_list_ascii (hex_digits (S (Z.to_nat (Z.log2 n))) n []).

(** ** Hardware addresses *)

(** Two hexadecimal digits. *)
Definition hex_pair (s : list Z) : option (Z * list Z) :=
  match s with
  | a :: b :: r => x ← hex_digit a; y ← hex_digit b; Some (x * 16 + y, r)
  | _ => None
  end.

(** [n] further bytes, each after [sep]. *)
Fixpoint mac_pairs (sep : Z) (n : nat) (s : list Z) : option (list Z) :=
  match n with
  | O => match s with [] => Some [] | _ => None end
  | S n =>
    match s with
    | c :: s =>
      if decide (c = sep) then '(b, s) ← hex_pair s; rest ← mac_pairs sep n s; Some (b :: rest) else None
    | [] => None
    end
  end.

(** [n] further groups of two bytes, each after a dot. *)
Fixpoint mac_groups (n : nat) (s : list Z) : option (list Z) :=
  match n with
  | O => match s with [] => Some [] | _ => None end
  | S n =>
    match s with
    | 46 :: s => '(a, s) ← hex_pair s; '(b, s) ← hex_pair s; rest ← mac_groups n s; Some (a :: b :: rest)
    | _ => None
    end
  end.

(** The first byte or group has no separator before it, so one is put there. *)
Definition ParseMAC (value : string) : option (list Z) :=
  let s := bytes value in
  let len := length s in
  if decide (len < 14)%nat then None
  else if decide (nth 2 s 0 = 58 ∨ nth 2 s 0 = 45) then
    let n := Nat.div (len + 1) 3 in
    if decide (Nat.modulo (len + 1) 3 ≠ 0%nat ∨ n ∉ [6%nat; 8%nat; 20%nat]) then None
    else mac_pairs (nth 2 s 0) n (nth 2 s 0 :: s)
  else if decide (nth 4 s 0 = 46) then
    let n := Nat.div (2 * (len + 1)) 5 in
    if decide (Nat.modulo (len + 1) 5 ≠ 0%nat ∨ n ∉ [6%nat; 8%nat; 20%nat]) then None
    else mac_groups (Nat.div n 2) (46 :: s)
  else None.

Definition hex_byte_text (b : Z) : string := String.string_of_list_ascii [hex_char (b / 16); hex_char (b mod 16)].

(** [net.HardwareAddr.String]. *)
Definition MAC_String (mac : list Z) : string := join ":" (hex_byte_text <$> mac).

Example mac_examples :
  (MAC_String <$> ParseMAC "0A:1b:2c:3d:4e:5f") = Some "0a:1b:2c:3d:4e:5f" ∧
  (MAC_String <$> ParseMAC "0a1b.2c3d.4e5f") = Some "0a:1b:2c:3d:4e:5f" ∧ ParseMAC "0a-1b-2c-3d-4e" = None ∧
  (MAC_String <$> ParseMAC "0a-1b-2c-3d-4e-5f") = Some "0a:1b:2c:3d:4e:5f" ∧ ParseMAC "0a:1b-2c:3d:4e:5f" = None ∧
  ParseUint "7f00" 16 64 = Some 32512 ∧ ParseUint "10000" 16 16 = None ∧ ParseUint "" 10 32 = None ∧
  FormatHex 32512 = "7f00" ∧ FormatHex 0 = "0".
Proof. vm_compute. done. Qed.
