(* ===== verification/Glob.v ===== *)
(** * Shell patterns

    [filepath.Match] of the Go standard library (Unix separator), on bytes:
    [scanChunk], [matchChunk] and [getEsc] follow the library function by function.
    [None] is [ErrBadPattern]. *)
From stdpp Require Import base list strings numbers.
From Stdlib Require Import ZArith.
From S2P Require Import Prelude GoStrings.
Local Open Scope Z_scope.

Definition separator : Z := 47.

(** ** Chunks *)
Fixpoint skip_stars (pattern : list Z) (star : bool) : bool * list Z :=
  match pattern with
  | 42 :: pattern => skip_stars pattern true
  | _ => (star, pattern)
  end.

(** The text up to the next star outside a character class. *)
Fixpoint scan (inrange : bool) (pattern : list Z) : list Z * list Z :=
  match pattern with
  | [] => ([], [])
  | 92 :: c :: pattern => let '(chunk, rest) := scan inrange pattern in (92 :: c :: chunk, rest)
  | 91 :: pattern => let '(chunk, rest) := scan true pattern in (91 :: chunk, rest)
  | 93 :: pattern => let '(chunk, rest) := scan false pattern in (93 :: chunk, rest)
  | 42 :: pattern' =>
    if inrange then let '(chunk, rest) := scan inrange pattern' in (42 :: chunk, rest) else ([], pattern)
  | c :: pattern => let '(chunk, rest) := scan inrange pattern in (c :: chunk, rest)
  end.

Definition scanChunk (pattern : list Z) : bool * list Z * list Z :=
  let '(star, pattern) := skip_stars pattern false in
  let '(chunk, rest) := scan false pattern in (star, chunk, rest).

(** ** Matching one chunk *)
Definition decode (s : list Z) : Z * nat := default (rune_error, 0%nat) (decode_rune s).

Definition getEsc (chunk : list Z) : option (Z * list Z) :=
  let chunk :=
    match chunk with
    | [] | 45 :: _ | 93 :: _ => None
    | 92 :: chunk => match chunk with [] => None | _ => Some chunk end
    | _ => Some chunk
    end in
  chunk ← chunk;
  let '(r, n) := decode chunk in
  if decide (r = rune_error ∧ n = 1%nat) then None
  else match drop n chunk with
       | [] => None
       | rest => Some (r, rest)
       end.

(** The ranges of a character class, for the rune [r]. *)
Fixpoint ranges (fuel : nat) (r : Z) (chunk : list Z) (matches : bool) (nrange : nat) : option (bool * list Z) :=
  match fuel with
  | O => None
  | S fuel =>
    match chunk, nrange with
    | 93 :: rest, S _ => Some (matches, rest)
    | _, _ =>
      '(lo, chunk) ← getEsc chunk;
      '(hi, chunk) ← match chunk with
                     | 45 :: chunk => getEsc chunk
                     | _ => Some (lo, chunk)
                     end;
      ranges fuel r chunk (matches || bool_decide (lo ≤ r ≤ hi)) (S nrange)
    end
  end.

(** The result: [None] for a bad pattern, [Some None] for no match, [Some (Some t)]
    with the rest of the name. *)
Fixpoint matchChunk (fuel : nat) (failed : bool) (chunk s : list Z) : option (option (list Z)) :=
  match fuel with
  | O => None
  | S fuel =>
    match chunk with
    | [] => Some (if failed then None else Some s)
    | c :: chunk' =>
      let failed := failed || bool_decide (s = []) in
      let literal c rest :=
        if failed then matchChunk fuel true rest s
        else matchChunk fuel (bool_decide (Some c ≠ head s)) rest (tail s) in
      if decide (c = 91) then
        let '(r, n) := if failed then (0, 0%nat) else decode s in
        let '(negated, body) := match chunk' with 94 :: b => (true, b) | b => (false, b) end in
        '(matches, rest) ← ranges (S (length body)) r body false 0;
        matchChunk fuel (failed || bool_decide (matches = negated)) rest (drop n s)
      else if decide (c = 63) then
        if failed then matchChunk fuel true chunk' s
        else matchChunk fuel (bool_decide (head s = Some separator)) chunk' (drop (decode s).2 s)
      else if decide (c = 92) then
        match chunk' with
        | [] => None
        | c :: rest => literal c rest
        end
      else literal c chunk'
    end
  end.

Definition chunk_match (chunk s : list Z) : option (option (list Z)) := matchChunk (S (length chunk)) false chunk s.

(** ** The whole pattern *)

(** The rest of a pattern that does not match still has to be well formed. *)
Fixpoint well_formed (fuel : nat) (pattern : list Z) : option bool :=
  match fuel, pattern with
  | _, [] => Some false
  | O, _ => None
  | S fuel, _ =>
    let '(_, chunk, rest) := scanChunk pattern in
    _ ← chunk_match chunk [];
    well_formed fuel rest
  end.

(** Matching a chunk after a star: skip zero or more bytes other than a slash. *)
Fixpoint after_star (chunk : list Z) (last : bool) (name : list Z) : option (option (list Z)) :=
  match name with
  | [] => Some None
  | c :: name =>
    if decide (c = separator) then Some None
    else match chunk_match chunk name with
         | None => None
         | Some (Some t) => if last && negb (bool_decide (t = [])) then after_star chunk last name else Some (Some t)
         | Some None => after_star chunk last name
         end
  end.

Fixpoint match_pattern (fuel : nat) (pattern name : list Z) : option bool :=
  match fuel with
  | O => None
  | S fuel =>
    match pattern with
    | [] => Some (bool_decide (name = []))
    | _ =>
      let '(star, chunk, rest) := scanChunk pattern in
      if star && bool_decide (chunk = []) then Some (negb (bool_decide (separator ∈ name)))
      else
        let fail :=
          if star then
            match after_star chunk (bool_decide (rest = [])) name with
            | None => None
            | Some (Some t) => match_pattern fuel rest t
            | Some None => well_formed (length rest) rest
            end
          else well_formed (length rest) rest in
        match chunk_match chunk name with
        | None => None
        | Some (Some t) =>
          if bool_decide (t = []) || negb (bool_decide (rest = [])) then match_pattern fuel rest t else fail
        | Some None => fail
        end
    end
  end.

Definition Match (pattern name : string) : option bool :=
  match_pattern (S (String.length pattern)) (bytes pattern) (bytes name).

Example match_star : Match "Ethernet*" "Ethernet12" = Some true.
Proof. vm_compute. reflexivity. Qed.
Example match_middle : Match "eth*0" "eth10/0" = Some false.
Proof. vm_compute. reflexivity. Qed.
Example match_class : Match "swp[0-9]?" "swp1a" = Some true.
Proof. vm_compute. reflexivity. Qed.
Example match_negated : Match "swp[^0-9]" "swp1" = Some false.
Proof. vm_compute. reflexivity. Qed.
Example match_backtrack : Match "a*b?c*x" "abxbbxdbxebxczzx" = Some true.
Proof. vm_compute. reflexivity. Qed.
Example match_bad : Match "a[" "ab" = None.
Proof. vm_compute. reflexivity. Qed.
Example match_escape : Match "a\*" "a*" = Some true.
Proof. vm_compute. reflexivity. Qed.
