(* ===== verification/Api.v ===== *)
(** * API objects

    The custom resources of src/pkg/api/v1beta1 and the core Node, with the fields
    the modelled controllers read or write.  Roles and types are strings in the
    source and stay strings here. *)
From stdpp Require Import base gmap strings list.
From Stdlib Require Import ZArith.

Module v1beta1.
Definition SwitchRole : Type := string.
Definition SwitchRoleScaleOut : SwitchRole := "ScaleOut".
Definition SwitchRoleScaleUp : SwitchRole := "ScaleUp".
Definition SwitchRoleStorage : SwitchRole := "Storage".

Definition SwitchNeighborsAnnotation : string := "unifabric.io/switch-neighbors".

Definition SwitchLLDPRemoteSystemTypeKubernetesNode : string := "KubernetesNode".
Definition SwitchLLDPRemoteSystemTypeSwitch : string := "Switch".

Record SwitchNeighbor := MkSwitchNeighbor {
  RemoteSystemType : string;
  SN_RemoteSystemName : string;
  LinkCount : Z
}.

(** [metav1.Condition] *)
Record Condition := MkCondition {
  C_Type : string;
  C_Status : string;
  ObservedGeneration : Z;
  LastTransitionTime : Z;
  Reason : string;
  Message : string
}.

Definition SwitchConditionConnected : string := "Connected".
Definition SwitchConditionReady : string := "Ready".
Definition SwitchReasonStreamReady : string := "StreamReady".
Definition SwitchReasonDialFailed : string := "DialFailed".
Definition SwitchReasonAuthenticationFailed : string := "AuthenticationFailed".
Definition SwitchReasonSnapshotAccepted : string := "SnapshotAccepted".
Definition SwitchReasonSnapshotRejected : string := "SnapshotRejected".
Definition SwitchReasonDataStale : string := "DataStale".

Record SwitchStatus := MkSwitchStatus {
  SS_Hostname : string;
  Healthy : bool;
  Conditions : list Condition;
  LLDPNeighborCount : Z;
  LLDPNeighbors : list SwitchNeighbor
}.

Record Switch := MkSwitch {
  SW_Name : string;
  SW_Generation : Z;
  SW_Labels : gmap string string;
  SW_Annotations : gmap string string;
  MgmtIP : string;
  Role : SwitchRole;
  GrpcPort : option Z;
  SW_Status : SwitchStatus
}.

#[global] Instance Condition_eq_dec : EqDecision Condition.
Proof. solve_decision. Defined.
#[global] Instance SwitchNeighbor_eq_dec : EqDecision SwitchNeighbor.
Proof. solve_decision. Defined.
#[global] Instance SwitchStatus_eq_dec : EqDecision SwitchStatus.
Proof. solve_decision. Defined.

Definition NodeRoleGPU : string := "GPU".
Definition NodeRoleStorage : string := "Storage".

Record LLDPNeighbor := MkLLDPNeighbor {
  Hostname : string;
  LN_MgmtIP : string;
  Mac : string;
  Port : string;
  Description : string
}.

Record NicInfo := MkNicInfo {
  Nic_Name : string;
  RdmaDeviceName : string;
  RDMA : bool;
  IPv4 : string;
  IPv6 : string;
  State : string;
  Nic_LLDPNeighbor : LLDPNeighbor
}.

Record FabricNode := MkFabricNode {
  FN_Name : string;
  NodeRole : string;
  ScaleOutNics : list NicInfo;
  StorageNics : list NicInfo;
  FN_Topologies : list string
}.

Definition TopologyScaleOut : string := "scaleout".
Definition TopologyScaleUp : string := "scaleup".
Definition TopologyStorage : string := "storage".
Definition TopologyDomainLabel : string := "unifabric.io/domain".
Definition FixedTopologyNames : list string := [TopologyScaleOut; TopologyScaleUp; TopologyStorage].

Record TopologyDomain := MkDomain {
  TD_Name : string;
  TD_Tier : Z;
  Parent : string;
  SwitchMember : list string
}.

Record TopologyNodeGroup := MkNodeGroup {
  NG_Name : string;
  NG_Nodes : list string;
  SwitchDomainPath : list string
}.

Record TopologyStatus := MkStatus {
  Domains : list TopologyDomain;
  TS_Nodes : list TopologyNodeGroup
}.

Record Topology := MkTopology {
  T_Name : string;
  Deleting : bool;
  Finalizers : list string;
  T_Status : TopologyStatus
}.

Definition IsFixedTopologyName (name : string) : bool :=
  existsb (fun candidate => bool_decide (candidate = name)) FixedTopologyNames.

Definition IsTopologyDomainLabel (label : string) : bool := bool_decide (label = TopologyDomainLabel).
End v1beta1.

(** The part of a Kubernetes Node that carries topology labels. *)
Module corev1.
Record Node := MkNode {
  Node_Name : string;
  Node_Labels : gmap string string
}.
End corev1.
