(* ===== verification/Bfs.v ===== *)
(** * Breadth-first worklists

    Two loops of src/pkg/topology/topology.go (the zone search and the group
    search) dequeue a vertex, skip it when it is already marked, and otherwise
    mark it, visit it and enqueue its unmarked successors.  This file proves the
    scheme correct once: it terminates and visits exactly what can be reached. *)
From stdpp Require Import base gmap sets list strings relations.
From S2P Require Import Prelude.

(** [m[x]] for a Go [map[string]bool]. *)
Definition flag (m : gmap string bool) (x : string) : bool := default false (m !! x).

Lemma flag_insert_true (m : gmap string bool) x y :
  flag (<[x := true]> m) y = bool_decide (x = y) || flag m y.
Proof.
  unfold flag. destruct (decide (x = y)) as [->|Hne].
  - by rewrite lookup_insert_eq, bool_decide_true.
  - by rewrite lookup_insert_ne, bool_decide_false.
Qed.

(** Fuel of such a loop: a vertex enqueues its successors at most once. *)
Definition bfsFuel (successors : string → list string) (universe : list string) : N :=
  N.of_nat (2 + foldr (fun v n => length (successors v) + n) 0 universe).

Section bfs.
Context (succ : string → list string) {A : Type} (visit : A → string → A).

Record bfsState := BfsState {
  bs_queue : list string;
  bs_visited : gmap string bool;
  bs_acc : A
}.

Definition bfsStep (st : bfsState) : bfsState + bfsState :=
  match bs_queue st with
  | [] => inr st
  | current :: queue =>
    if flag (bs_visited st) current then inl (BfsState queue (bs_visited st) (bs_acc st))
    else
      let visited := <[current := true]> (bs_visited st) in
      inl (BfsState (queue ++ filter (fun x => negb (flag visited x) = true) (succ current))
             visited (visit (bs_acc st) current))
  end.

(** ** The variant *)
Fixpoint openWork (visited : gmap string bool) (universe : list string) : nat :=
  match universe with
  | [] => 0
  | v :: universe =>
    (if flag visited v then 0 else length (succ v)) + openWork visited universe
  end.

Lemma openWork_mark_notin visited u universe :
  u ∉ universe → openWork (<[u := true]> visited) universe = openWork visited universe.
Proof.
  induction universe as [|v universe IH]; [done|]. intros Hu. cbn.
  rewrite flag_insert_true, bool_decide_false by set_solver. cbn. rewrite IH; set_solver.
Qed.

Lemma openWork_mark visited u universe :
  NoDup universe → (u ∉ universe → succ u = []) → flag visited u = false →
  openWork (<[u := true]> visited) universe + length (succ u) = openWork visited universe.
Proof.
  intros Hnd Hout Hu. destruct (decide (u ∈ universe)) as [Hin|Hnin]; last first.
  { rewrite openWork_mark_notin, Hout by done. cbn. lia. }
  clear Hout. induction universe as [|v universe IH]; [set_solver|].
  apply NoDup_cons in Hnd as [Hv Hnd]. cbn. rewrite flag_insert_true.
  destruct (decide (u = v)) as [->|Hne].
  - rewrite bool_decide_true, Hu by done. cbn. rewrite openWork_mark_notin by done. lia.
  - rewrite bool_decide_false by done. cbn. rewrite <-(IH Hnd) by set_solver. lia.
Qed.

Lemma openWork_le visited universe :
  openWork visited universe ≤ foldr (fun v n => length (succ v) + n) 0 universe.
Proof. induction universe as [|v universe IH]; [done|]. cbn. case_match; lia. Qed.

(** ** The invariant *)
Section run.
Context (visited0 : gmap string bool) (acc0 : A) (start : string) (universe : list string).
Context (Huniv : NoDup universe) (Hstart : flag visited0 start = false).

(** An edge to a vertex that was not marked before the search. *)
Definition freshEdge (u v : string) : Prop := v ∈ succ u ∧ flag visited0 v = false.

(** The universe holds every reachable vertex that has successors. *)
Context (Hout : ∀ u, rtc freshEdge start u → u ∉ universe → succ u = []).

Definition bfsInv (st : bfsState) (order : list string) : Prop :=
  NoDup order ∧
  bs_acc st = foldl visit acc0 order ∧
  (∀ x, flag (bs_visited st) x = flag visited0 x || bool_decide (x ∈ order)) ∧
  (∀ x, x ∈ order ++ bs_queue st → flag visited0 x = false ∧ rtc freshEdge start x) ∧
  (∀ x y, x ∈ order → y ∈ succ x → flag (bs_visited st) y = true ∨ y ∈ bs_queue st) ∧
  (start ∈ bs_queue st ∨ start ∈ order).

Definition bfsMeasure (st : bfsState) : N :=
  N.of_nat (length (bs_queue st) + openWork (bs_visited st) universe).

Lemma bfsInv_skip st order x queue :
  bfsInv st order → bs_queue st = x :: queue → flag (bs_visited st) x = true →
  bfsInv (BfsState queue (bs_visited st) (bs_acc st)) order.
Proof.
  intros (Hnd & Hacc & Hvis & Hreach & Hclosed & Hs) Hq Hx.
  assert (x ∈ order) as Hxo.
  { rewrite Hvis in Hx. destruct (Hreach x) as [Hf _]; [rewrite Hq; set_solver|].
    rewrite Hf in Hx. by apply bool_decide_eq_true in Hx. }
  rewrite Hq in *. repeat split; cbn; try done.
  - apply Hreach. set_solver.
  - apply Hreach. set_solver.
  - intros y z Hy Hz. destruct (Hclosed y z Hy Hz) as [?|Hin]; [by left|].
    apply elem_of_cons in Hin as [->|Hin]; auto.
  - destruct Hs as [Hin|?]; [|by right]. apply elem_of_cons in Hin as [->|?]; auto.
Qed.

Lemma bfsInv_visit st order x queue :
  bfsInv st order → bs_queue st = x :: queue → flag (bs_visited st) x = false →
  bfsInv (BfsState (queue ++ filter (fun y => negb (flag (<[x := true]> (bs_visited st)) y) = true) (succ x))
            (<[x := true]> (bs_visited st)) (visit (bs_acc st) x)) (order ++ [x]).
Proof.
  intros (Hnd & Hacc & Hvis & Hreach & Hclosed & Hs) Hq Hx. rewrite Hq in *.
  destruct (Hreach x) as [Hx0 Hrx]; [set_solver|].
  assert (x ∉ order) as Hxo.
  { intros Hin. by rewrite Hvis, Hx0, bool_decide_true in Hx. }
  set (fresh := filter _ (succ x)).
  assert (∀ y, y ∈ (order ++ [x]) ++ queue ++ fresh → flag visited0 y = false ∧ rtc freshEdge start y)
    as Hnew.
  { intros y [[Hy|Hy%list_elem_of_singleton]%elem_of_app|[Hy|Hy]%elem_of_app]%elem_of_app;
      [apply Hreach; set_solver|by subst|apply Hreach; set_solver|].
    apply list_elem_of_filter in Hy as [Hn Hy]. rewrite flag_insert_true, Hvis in Hn.
    assert (flag visited0 y = false) as Hy0.
    { by destruct (flag visited0 y); [rewrite orb_true_r in Hn|]. }
    split; [done|]. by eapply rtc_r. }
  repeat split; cbn.
  - apply NoDup_app. repeat split; [done|set_solver|apply NoDup_singleton].
  - by rewrite foldl_app, <-Hacc.
  - intros y. rewrite flag_insert_true, Hvis.
    destruct (flag visited0 y); [by rewrite orb_true_r|]. cbn.
    apply eq_true_iff_eq. rewrite orb_true_iff, !bool_decide_eq_true. set_solver.
  - by apply Hnew.
  - by apply Hnew.
  - intros y z Hy Hz.
    destruct (flag (<[x:=true]> (bs_visited st)) z) eqn:Hfz; [by left|].
    right. apply elem_of_app. apply elem_of_app in Hy as [Hy|Hy%list_elem_of_singleton].
    + left. rewrite flag_insert_true, orb_false_iff, bool_decide_eq_false in Hfz.
      destruct (Hclosed y z Hy Hz); [naive_solver congruence|set_solver].
    + subst y. right. apply list_elem_of_filter. by rewrite Hfz.
  - destruct Hs as [Hin|?]; [|set_solver]. apply elem_of_cons in Hin as [->|?]; set_solver.
Qed.

(** What the search returns: [order] lists, once each, the vertices reached from
    [start] through vertices that were not marked before. *)
Definition bfsPost (st : bfsState) : Prop :=
  ∃ order, NoDup order ∧
    bs_acc st = foldl visit acc0 order ∧
    (∀ x, flag (bs_visited st) x = flag visited0 x || bool_decide (x ∈ order)) ∧
    (∀ x, x ∈ order ↔ rtc freshEdge start x).

Lemma bfsInv_done st order : bfsInv st order → bs_queue st = [] → bfsPost st.
Proof.
  intros (Hnd & Hacc & Hvis & Hreach & Hclosed & Hs) Hq. rewrite Hq in *.
  exists order. split; [done|]. split; [done|]. split; [done|]. intros x. split.
  - intros Hx. apply Hreach. set_solver.
  - intros Hr. assert (start ∈ order) as Hin by set_solver. clear Hs Hreach Hstart Hout. revert Hin.
    induction Hr as [|a b c [Hab Hb] _ IH]; [done|]. intros Ha. apply IH.
    destruct (Hclosed a b Ha Hab) as [Hf|?]; [|set_solver].
    rewrite Hvis, Hb in Hf. by apply bool_decide_eq_true in Hf.
Qed.

Lemma bfs_loop_ok : loop_ok bfsStep (fun st => ∃ order, bfsInv st order) bfsMeasure bfsPost.
Proof.
  intros st [order HI]. unfold bfsStep.
  destruct (bs_queue st) as [|x queue] eqn:Hq; [by eapply bfsInv_done|].
  destruct (flag (bs_visited st) x) eqn:Hx.
  - split; [exists order; by eapply bfsInv_skip|].
    unfold bfsMeasure. rewrite Hq. cbn. lia.
  - split; [exists (order ++ [x]); by apply bfsInv_visit|].
    unfold bfsMeasure. rewrite Hq. cbn [bs_queue bs_visited length].
    assert (rtc freshEdge start x) as Hr.
    { destruct HI as (_ & _ & _ & Hreach & _). apply Hreach. rewrite Hq. set_solver. }
    pose proof (openWork_mark (bs_visited st) x universe Huniv (Hout x Hr) Hx).
    pose proof (length_filter (fun y => negb (flag (<[x:=true]> (bs_visited st)) y) = true) (succ x)).
    rewrite length_app. lia.
Qed.

Theorem bfs_total {E} :
  ∃ st, while_go (E:=E) bfsStep (bfsFuel succ universe) (BfsState [start] visited0 acc0) = Ret st ∧
    bfsPost st.
Proof.
  eapply (while_go_total bfsStep _ bfsMeasure); [apply bfs_loop_ok| |].
  - exists []. split; [apply NoDup_nil_2|]. split; [done|]. split.
    { intros x. by rewrite bool_decide_false, orb_false_r by set_solver. }
    split; [|set_solver]. by intros x ->%list_elem_of_singleton.
  - unfold bfsMeasure, bfsFuel. pose proof (openWork_le visited0 universe). cbn. lia.
Qed.
End run.
End bfs.
