(* ===== verification/Sha1.v ===== *)
(** * SHA-1 and hexadecimal rendering

    [crypto/sha1] and [encoding/hex] as [shortSHA] of
    src/pkg/topology/topology.go uses them: FIPS 180-4 SHA-1 over the bytes of a
    string, with 32-bit words kept as [Z] and the wrap-around written out. *)
From stdpp Require Import base list strings numbers.
From Stdlib Require Import ZArith Ascii.
From S2P Require Import Prelude.
Local Open Scope Z_scope.

Module Sha1.

(** ** 32-bit words *)
Definition wrap32 (x : Z) : Z := x mod 2 ^ 32.
Definition add32 (x y : Z) : Z := wrap32 (x + y).
Definition not32 (x : Z) : Z := Z.lxor x (2 ^ 32 - 1).
Definition rotl32 (n x : Z) : Z :=
  Z.lor (wrap32 (Z.shiftl x n)) (Z.shiftr x (32 - n)).

(** ** Bytes *)
Definition byte_of (a : ascii) : Z := Z.of_N (N_of_ascii a).
Definition bytes_of_string (s : string) : list Z := byte_of <$> String.list_ascii_of_string s.

Definition word_of_bytes (a b c d : Z) : Z :=
  Z.lor (Z.shiftl a 24) (Z.lor (Z.shiftl b 16) (Z.lor (Z.shiftl c 8) d)).

Definition bytes_of_word (w : Z) : list Z :=
  [Z.land (Z.shiftr w 24) 255; Z.land (Z.shiftr w 16) 255;
   Z.land (Z.shiftr w 8) 255; Z.land w 255].

Fixpoint words_of_bytes (l : list Z) : list Z :=
  match l with
  | a :: b :: c :: d :: l => word_of_bytes a b c d :: words_of_bytes l
  | _ => []
  end.

(** ** Padding: a one bit, zeros, and the bit length in 64 bits *)
Definition pad (m : list Z) : list Z :=
  let len := Z.of_nat (length m) in
  let zeros := Z.to_nat ((55 - len) mod 64) in
  let bits := (len * 8) mod 2 ^ 64 in
  m ++ [128] ++ replicate zeros 0 ++
  bytes_of_word (Z.shiftr bits 32) ++ bytes_of_word (wrap32 bits).

(** ** Compression *)
Record state := State { h0 : Z; h1 : Z; h2 : Z; h3 : Z; h4 : Z }.

Definition initial : state :=
  State 0x67452301 0xEFCDAB89 0x98BADCFE 0x10325476 0xC3D2E1F0.

Definition round_fk (t : nat) (b c d : Z) : Z * Z :=
  if decide (t < 20)%nat then
    (Z.lor (Z.land b c) (Z.land (not32 b) d), 0x5A827999)
  else if decide (t < 40)%nat then
    (Z.lxor b (Z.lxor c d), 0x6ED9EBA1)
  else if decide (t < 60)%nat then
    (Z.lor (Z.land b c) (Z.lor (Z.land b d) (Z.land c d)), 0x8F1BBCDC)
  else
    (Z.lxor b (Z.lxor c d), 0xCA62C1D6).

Definition nth_word (w : list Z) (i : nat) : Z := default 0 (w !! i).

(** One round; [w] is the window of the next sixteen schedule words. *)
Definition round (t : nat) (s : state) (w : list Z) : state * list Z :=
  let '(f, k) := round_fk t (h1 s) (h2 s) (h3 s) in
  let temp := wrap32 (rotl32 5 (h0 s) + f + h4 s + k + nth_word w 0) in
  let next := rotl32 1 (Z.lxor (nth_word w 13)
                (Z.lxor (nth_word w 8) (Z.lxor (nth_word w 2) (nth_word w 0)))) in
  (State temp (h0 s) (rotl32 30 (h1 s)) (h2 s) (h3 s), tail w ++ [next]).

Fixpoint rounds (n t : nat) (s : state) (w : list Z) : state :=
  match n with
  | O => s
  | S n => let '(s', w') := round t s w in rounds n (S t) s' w'
  end.

Definition compress (s : state) (w : list Z) : state :=
  let s' := rounds 80 0 s w in
  State (add32 (h0 s) (h0 s')) (add32 (h1 s) (h1 s')) (add32 (h2 s) (h2 s'))
        (add32 (h3 s) (h3 s')) (add32 (h4 s) (h4 s')).

Fixpoint blocks (n : nat) (s : state) (w : list Z) : state :=
  match n with
  | O => s
  | S n => blocks n (compress s (take 16 w)) (drop 16 w)
  end.

(** [sha1.Sum]: the twenty bytes of the digest. *)
Definition Sum (m : list Z) : list Z :=
  let w := words_of_bytes (pad m) in
  let s := blocks (length w / 16) initial w in
  bytes_of_word (h0 s) ++ bytes_of_word (h1 s) ++ bytes_of_word (h2 s) ++
  bytes_of_word (h3 s) ++ bytes_of_word (h4 s).

(** ** [hex.EncodeToString] *)
Definition hex_digit (n : Z) : ascii :=
  ascii_of_N (Z.to_N (if decide (n < 10) then 48 + n else 87 + n)).

Definition hex_byte (b : Z) : list ascii :=
  [hex_digit (Z.shiftr b 4); hex_digit (Z.land b 15)].

Definition EncodeToString (l : list Z) : string :=
  String.string_of_list_ascii (mjoin (hex_byte <$> l)).

(** The hexadecimal digest of a string. *)
Definition hex_sum (s : string) : string := EncodeToString (Sum (bytes_of_string s)).

(** ** Shape of the result *)
Lemma length_Sum m : length (Sum m) = 20%nat.
Proof. reflexivity. Qed.

Lemma length_EncodeToString l :
  String.length (EncodeToString l) = (2 * length l)%nat.
Proof.
  unfold EncodeToString.
  assert (∀ k : list ascii, String.length (String.string_of_list_ascii k) = length k)
    as -> by (induction k; cbn; congruence).
  rewrite length_join. induction l as [|b l IH]; cbn in *; lia.
Qed.

Lemma length_hex_sum s : String.length (hex_sum s) = 40%nat.
Proof. unfold hex_sum. by rewrite length_EncodeToString, length_Sum. Qed.

(** ** The published test vectors *)
Example sha1_abc : hex_sum "abc" = "a9993e364706816aba3e25717850c26c9cd0d89d".
Proof. vm_compute. reflexivity. Qed.

Example sha1_empty : hex_sum "" = "da39a3ee5e6b4b0d3255bfef95601890afd80709".
Proof. vm_compute. reflexivity. Qed.

Example sha1_two_blocks :
  hex_sum "abcdbcdecdefdefgefghfghighijhijkijkljklmklmnlmnomnopnopq" =
  "84983e441c3bd26ebaae4aa1f95129e5e54670f1".
Proof. vm_compute. reflexivity. Qed.

End Sha1.
