(* ===== verification/Topology.v ===== *)
(** * Topology discovery

    The data and the operations of src/pkg/topology/topology.go: the device
    graph built from hosts and LLDP neighbours, the tiers inferred from it, the
    connected zones, the groups of each tier and the parent index.  Lookups of a
    missing key answer the zero value, as in Go; a write into a missing inner
    map is [Panic]. *)
From stdpp Require Import base gmap sets list strings sorting fin_maps.
From Stdlib Require Import ZArith.
From S2P Require Import Prelude GoStrings Bfs Sha1.
Local Open Scope Z_scope.

(** ** Inputs *)
Record Host := MkHost { Host_Name : string }.

Record Neighbor := MkNeighbor {
  LocalDeviceName : string;
  RemoteSystemName : string
}.

Record Switch := MkSwitch {
  Switch_Name : string;
  Neighbors : list Neighbor
}.

(** [DeviceNone] is the zero value [""] of the string type. *)
Inductive DeviceType := DeviceNone | DeviceHost | DeviceSwitch.

Inductive TopologyNodeType := TopologyNodeDevice | TopologyNodeGroup.

Inductive GroupNameMode :=
| GroupNameModeConcat
| GroupNameModeHash
| GroupNameModeOther (mode : string).

#[export] Instance Neighbor_eq_dec : EqDecision Neighbor.
Proof. solve_decision. Defined.
#[export] Instance DeviceType_eq_dec : EqDecision DeviceType.
Proof. solve_decision. Defined.

(** ** The device graph *)
Record Device := MkDevice {
  Device_Name : string;
  Device_Type : DeviceType;
  Tier : Z
}.

#[export] Instance Device_eq_dec : EqDecision Device.
Proof. solve_decision. Defined.

(** The zero [Device], which a lookup of an unknown name answers. *)
Definition zeroDevice : Device := MkDevice "" DeviceNone 0.

Record Link := MkLink {
  SrcDevice : string;
  DstDevice : string;
  LLDP : Neighbor
}.

Record TopologyGraph := MkGraph {
  Devices : gmap string Device;
  Adj : gmap string (gmap string bool);
  Links : list Link
}.

Definition set_Devices (d : gmap string Device) (g : TopologyGraph) : TopologyGraph :=
  MkGraph d (Adj g) (Links g).
Definition set_Adj (a : gmap string (gmap string bool)) (g : TopologyGraph) : TopologyGraph :=
  MkGraph (Devices g) a (Links g).
Definition set_Links (l : list Link) (g : TopologyGraph) : TopologyGraph :=
  MkGraph (Devices g) (Adj g) l.

(** [g.Devices[name]] and [g.Adj[name]]. *)
Definition device_at (g : TopologyGraph) (name : string) : Device :=
  default zeroDevice (Devices g !! name).
Definition adj_at (g : TopologyGraph) (name : string) : gmap string bool :=
  default ∅ (Adj g !! name).

(** ** The result *)
Record TopologyNode := MkNode {
  Node_Name : string;
  Node_Type : TopologyNodeType;
  Node_Tier : Z;
  Node_DeviceType : DeviceType;
  Node_Members : list string
}.

Record TopologyEdge := MkEdge {
  Source : string;
  Target : string;
  Kind : string
}.

Record TopologyGroup := MkGroup {
  Group_Name : string;
  Group_Tier : Z;
  Members : list string;
  LowerTierNodes : list string;
  UpperTierNodes : list string
}.

Record Topology := MkTopology {
  Nodes : gmap string TopologyNode;
  Edges : list TopologyEdge;
  NodesByTier : gmap Z (list string);
  GroupsByTier : gmap Z (list TopologyGroup);
  ParentIndex : gmap string (list string)
}.

Definition set_Nodes v (t : Topology) : Topology :=
  MkTopology v (Edges t) (NodesByTier t) (GroupsByTier t) (ParentIndex t).
Definition set_Edges v (t : Topology) : Topology :=
  MkTopology (Nodes t) v (NodesByTier t) (GroupsByTier t) (ParentIndex t).
Definition set_NodesByTier v (t : Topology) : Topology :=
  MkTopology (Nodes t) (Edges t) v (GroupsByTier t) (ParentIndex t).
Definition set_GroupsByTier v (t : Topology) : Topology :=
  MkTopology (Nodes t) (Edges t) (NodesByTier t) v (ParentIndex t).
Definition set_ParentIndex v (t : Topology) : Topology :=
  MkTopology (Nodes t) (Edges t) (NodesByTier t) (GroupsByTier t) v.

(** [m[k] = append(m[k], x)] for a map of slices. *)
Definition append_at `{Countable K} {A} (k : K) (x : A) (m : gmap K (list A)) : gmap K (list A) :=
  <[k := default [] (m !! k) ++ [x]]> m.

(** ** Options *)
Record DiscoverOptions := MkOptions {
  Opt_GroupNameMode : GroupNameMode;
  HashLength : Z
}.

Definition DiscoverOption : Type := DiscoverOptions → DiscoverOptions.

Definition defaultDiscoverOptions : DiscoverOptions := MkOptions GroupNameModeConcat 7.

Definition WithConcatGroupName : DiscoverOption := fun o =>
  MkOptions GroupNameModeConcat (HashLength o).
Definition WithHashGroupName : DiscoverOption := fun o =>
  MkOptions GroupNameModeHash (HashLength o).
Definition WithHashLength (n : Z) : DiscoverOption := fun o =>
  if decide (n > 0) then MkOptions (Opt_GroupNameMode o) n else o.

(** ** Slices and sorted keys *)
Section keys.
Context `{RangeOrder}.

Definition sortedDeviceNames {T} (m : gmap string T) : list string :=
  sort_strings (foldl (fun names '(name, _) => names ++ [name]) [] (range m)).

Definition sortedNamesFromMap {T} (m : gmap string T) : list string :=
  sort_strings (foldl (fun names '(name, _) => names ++ [name]) [] (range m)).

Definition sortedBoolKeys (m : gmap string bool) : list string :=
  sort_strings (foldl (fun names '(name, _) =>
    if default false (m !! name) then names ++ [name] else names) [] (range m)).

Definition sortedTierKeys {T} (m : gmap Z T) : list Z :=
  sort_ints (foldl (fun tiers '(tier, _) => tiers ++ [tier]) [] (range m)).
End keys.

Fixpoint dedupe_after (previous : string) (values : list string) : list string :=
  match values with
  | [] => []
  | v :: values =>
    if decide (v ≠ previous) then v :: dedupe_after v values else dedupe_after v values
  end.

Definition dedupeSortedStrings (values : list string) : list string :=
  match values with
  | [] => []
  | v :: values => v :: dedupe_after v values
  end.

(** ** Building the graph *)
Definition ensureVertex (adj : gmap string (gmap string bool)) (name : string)
    : gmap string (gmap string bool) :=
  match adj !! name with
  | Some _ => adj
  | None => <[name := ∅]> adj
  end.

Definition set_neighbor (adj : gmap string (gmap string bool)) (a b : string)
    : gmap string (gmap string bool) :=
  <[a := <[b := true]> (default ∅ (adj !! a))]> adj.

Definition addUndirectedEdge (g : TopologyGraph) (a b : string) : TopologyGraph :=
  let adj := ensureVertex (ensureVertex (Adj g) a) b in
  set_Adj (set_neighbor (set_neighbor adj a b) b a) g.

Definition DeviceResolver : Type := gmap string string.

Definition NewDeviceResolver `{RangeOrder} (devices : gmap string Device) : DeviceResolver :=
  foldl (fun byName '(name, _) => <[name := name]> byName) ∅ (range devices).

Definition Resolve (r : DeviceResolver) (n : Neighbor) : string * bool :=
  if decide (RemoteSystemName n = "") then ("", false)
  else match (r : gmap string string) !! RemoteSystemName n with
       | Some name => (name, true)
       | None => ("", false)
       end.

Definition addHost (g : TopologyGraph) (h : Host) : TopologyGraph :=
  let g := set_Devices (<[Host_Name h := MkDevice (Host_Name h) DeviceHost 0]> (Devices g)) g in
  set_Adj (ensureVertex (Adj g) (Host_Name h)) g.

Definition addSwitch (g : TopologyGraph) (sw : Switch) : TopologyGraph :=
  let g := set_Devices (<[Switch_Name sw := MkDevice (Switch_Name sw) DeviceSwitch (-1)]> (Devices g)) g in
  set_Adj (ensureVertex (Adj g) (Switch_Name sw)) g.

Definition addLink (resolver : DeviceResolver) (sw : Switch) (g : TopologyGraph) (n : Neighbor)
    : TopologyGraph :=
  if decide (LocalDeviceName n ≠ "" ∧ LocalDeviceName n ≠ Switch_Name sw) then g
  else
    let '(dstDevice, ok) := Resolve resolver n in
    if negb ok then g
    else
      let g := set_Links (Links g ++ [MkLink (Switch_Name sw) dstDevice n]) g in
      addUndirectedEdge g (Switch_Name sw) dstDevice.

Definition BuildTopologyGraph `{RangeOrder} (hosts : list Host) (switches : list Switch)
    : TopologyGraph :=
  let g := MkGraph ∅ ∅ [] in
  let g := foldl addHost g hosts in
  let g := foldl addSwitch g switches in
  let resolver := NewDeviceResolver (Devices g) in
  foldl (fun g sw => foldl (addLink resolver sw) g (Neighbors sw)) g switches.

(** ** Tiers *)
Section tiers.
Context `{RangeOrder}.

Definition hasHostNeighbor (g : TopologyGraph) (switchName : string) : bool :=
  existsb (fun '(neighbor, _) => bool_decide (Device_Type (device_at g neighbor) = DeviceHost))
    (range (adj_at g switchName)).

Definition set_tier (tier : Z) (d : Device) : Device :=
  MkDevice (Device_Name d) (Device_Type d) tier.

(** The first loop of [InferTiers]: switches next to a host get tier one. *)
Definition seedTier (st : TopologyGraph * list string) (entry : string * Device)
    : TopologyGraph * list string :=
  let '(g, queue) := st in
  let '(name, device) := entry in
  if decide (Device_Type device ≠ DeviceSwitch) then (g, queue)
  else if hasHostNeighbor g name then
    (set_Devices (<[name := set_tier 1 device]> (Devices g)) g, queue ++ [name])
  else (g, queue).

(** The body of the inner loop: an unlabelled neighbouring switch gets the next
    tier and joins the queue. *)
Definition labelNeighbor (currentTier : Z) (st : TopologyGraph * list string) (neighbor : string)
    : TopologyGraph * list string :=
  let '(g, queue) := st in
  let neighborDevice := device_at g neighbor in
  if decide (Device_Type neighborDevice ≠ DeviceSwitch) then (g, queue)
  else if decide (Tier neighborDevice ≠ -1) then (g, queue)
  else (set_Devices (<[neighbor := set_tier (currentTier + 1) neighborDevice]> (Devices g)) g,
        queue ++ [neighbor]).

(** One turn of the queue loop. *)
Definition inferStep (st : TopologyGraph * list string)
    : (TopologyGraph * list string) + TopologyGraph :=
  let '(g, queue) := st in
  match queue with
  | [] => inr g
  | current :: queue =>
    let currentTier := Tier (device_at g current) in
    let neighbors := sortedBoolKeys (adj_at g current) in
    inl (foldl (labelNeighbor currentTier) (g, queue) neighbors)
  end.

Definition InferTiers (g : TopologyGraph) : go Empty_set TopologyGraph :=
  let '(g, queue) := foldl seedTier (g, []) (range (Devices g)) in
  let queue := sort_strings queue in
  while_go inferStep (N.of_nat (S (size (Devices g)))) (g, queue).

Definition abs (x : Z) : Z := if decide (x < 0) then - x else x.

(** [newAdj[a][b] = true]: a nil inner map panics. *)
Definition assignEdge (newAdj : gmap string (gmap string bool)) (a b : string)
    : go Empty_set (gmap string (gmap string bool)) :=
  match newAdj !! a with
  | Some m => Ret (<[a := <[b := true]> m]> newAdj)
  | None => Panic
  end.

Definition normalizeEdge (g : TopologyGraph) (a : string)
    (newAdj : gmap string (gmap string bool)) (entry : string * bool)
    : go Empty_set (gmap string (gmap string bool)) :=
  let '(b, _) := entry in
  let da := device_at g a in
  let db := device_at g b in
  if decide (Tier da < 0 ∨ Tier db < 0) then Ret newAdj
  else if decide (abs (Tier da - Tier db) ≠ 1) then Ret newAdj
  else
    newAdj ← assignEdge newAdj a b;
    assignEdge newAdj b a.

Definition NormalizeTierEdges (g : TopologyGraph) : go Empty_set TopologyGraph :=
  let newAdj := foldl (fun newAdj '(name, _) => <[name := ∅]> newAdj) ∅ (range (Devices g)) in
  newAdj ← go_foldl (fun newAdj '(a, neighbors) =>
      go_foldl (normalizeEdge g a) newAdj (range neighbors)) newAdj (range (Adj g));
  Ret (set_Adj newAdj g).
End tiers.

(** ** Connected zones *)
Section zones.
Context `{RangeOrder}.

Definition collectHostStarts (g : TopologyGraph) : list string :=
  sort_strings (foldl (fun starts '(name, d) =>
    if decide (Device_Type d = DeviceHost) then starts ++ [name] else starts)
    [] (range (Devices g))).

Record zoneState := ZoneState {
  zs_queue : list string;
  zs_visited : gmap string bool;
  zs_result : list string
}.

Definition zoneStep (g : TopologyGraph) (st : zoneState)
    : zoneState + (list string * gmap string bool) :=
  match zs_queue st with
  | [] => inr (zs_result st, zs_visited st)
  | current :: queue =>
    if flag (zs_visited st) current then
      inl (ZoneState queue (zs_visited st) (zs_result st))
    else
      let visited := <[current := true]> (zs_visited st) in
      let result := zs_result st ++ [current] in
      let neighbors := sortedBoolKeys (adj_at g current) in
      let queue := foldl (fun queue neighbor =>
        if negb (flag visited neighbor) then queue ++ [neighbor] else queue) queue neighbors in
      inl (ZoneState queue visited result)
  end.

Definition collectZoneDeviceNames (g : TopologyGraph) (start : string) (visited : gmap string bool)
    : go Empty_set (list string * gmap string bool) :=
  '(result, visited) ← while_go (zoneStep g)
    (bfsFuel (fun v => sortedBoolKeys (adj_at g v)) (map_to_list (Adj g)).*1)
    (ZoneState [start] visited []);
  Ret (sort_strings result, visited).

Definition CollectConnectedZones (g : TopologyGraph) : go Empty_set (list (list string)) :=
  '(zones, _) ← go_foldl (fun '(zones, visited) start =>
      if flag visited start then Ret (zones, visited)
      else
        '(deviceNames, visited) ← collectZoneDeviceNames g start visited;
        Ret (zones ++ [deviceNames], visited))
    ([], ∅) (collectHostStarts g);
  Ret zones.

Record ZoneDeviceView := MkZone {
  Zone_Devices : gmap string Device;
  DevicesByTier : gmap Z (gmap string Device)
}.

Definition addZoneDevice (g : TopologyGraph) (zone : ZoneDeviceView) (name : string)
    : ZoneDeviceView :=
  let device := device_at g name in
  MkZone (<[name := device]> (Zone_Devices zone))
    (<[Tier device := <[name := device]> (default ∅ (DevicesByTier zone !! Tier device))]>
       (DevicesByTier zone)).

Definition BuildZoneDeviceView (g : TopologyGraph) (deviceNames : list string) : ZoneDeviceView :=
  foldl (addZoneDevice g) (MkZone ∅ ∅) deviceNames.
End zones.

(** ** Group names *)
Definition shortSHA (s : string) (length : Z) : string :=
  let full := Sha1.hex_sum s in
  let length :=
    if decide (length ≤ 0 ∨ length > Z.of_nat (String.length full)) then 7 else length in
  String.substring 0 (Z.to_nat length) full.

Definition GenerateGroupName (memberNames : list string) (opts : DiscoverOptions) : string :=
  let names := sort_strings memberNames in
  match names with
  | [name] => name
  | _ =>
    let base := join "-" names in
    match Opt_GroupNameMode opts with
    | GroupNameModeHash => shortSHA base (HashLength opts)
    | GroupNameModeConcat | GroupNameModeOther _ => base +:+ "-group"
    end
  end.

Definition groupNameOfDevice (deviceName : string) (deviceToGroup : gmap string string) : string :=
  match deviceToGroup !! deviceName with
  | Some groupName => groupName
  | None => deviceName
  end.

(** ** Groups of one tier *)
Section groups.
Context `{RangeOrder}.
Variables (g : TopologyGraph) (zone : ZoneDeviceView) (tier : Z)
  (lowerDeviceToGroup : gmap string string).

Definition recordLowerGroup (deviceName : string) (result : gmap string (list string))
    (neighbor : string) : gmap string (list string) :=
  match Zone_Devices zone !! neighbor with
  | None => result
  | Some neighborDevice =>
    if decide (Tier neighborDevice ≠ tier - 1) then result
    else append_at (groupNameOfDevice neighbor lowerDeviceToGroup) deviceName result
  end.

Definition buildLowerGroupToTierDevices : gmap string (list string) :=
  match DevicesByTier zone !! tier with
  | None => ∅
  | Some devicesInTier =>
    let result := foldl (fun result deviceName =>
        foldl (recordLowerGroup deviceName) result (sortedBoolKeys (adj_at g deviceName)))
      ∅ (sortedDeviceNames devicesInTier) in
    foldl (fun result '(lowerGroupName, _) =>
        let sorted := sort_strings (default [] (result !! lowerGroupName)) in
        <[lowerGroupName := dedupeSortedStrings sorted]> result)
      result (range result)
  end.

Record groupState := GroupState {
  gs_queue : list string;
  gs_processed : gmap string bool;
  gs_members : gmap string Device;
  gs_lower : gmap string Device;
  gs_upper : gmap string Device
}.

(** The loop over the neighbours of a newly processed device: lower neighbours
    are recorded and pull in every device of the tier that shares their group,
    upper neighbours are recorded. *)
Definition scanNeighbor (lowerGroupToTierDevices : gmap string (list string))
    (st : groupState) (neighbor : string) : groupState :=
  match Zone_Devices zone !! neighbor with
  | None => st
  | Some neighborDevice =>
    let st :=
      if decide (Tier neighborDevice = tier - 1) then
        let lowerGroupName := groupNameOfDevice neighbor lowerDeviceToGroup in
        let queue := foldl (fun queue related =>
            if negb (flag (gs_processed st) related) then queue ++ [related] else queue)
          (gs_queue st) (default [] (lowerGroupToTierDevices !! lowerGroupName)) in
        GroupState queue (gs_processed st) (gs_members st)
          (<[neighbor := neighborDevice]> (gs_lower st)) (gs_upper st)
      else st in
    if decide (Tier neighborDevice = tier + 1) then
      GroupState (gs_queue st) (gs_processed st) (gs_members st) (gs_lower st)
        (<[neighbor := neighborDevice]> (gs_upper st))
    else st
  end.

Definition groupStep (lowerGroupToTierDevices : gmap string (list string)) (st : groupState)
    : groupState + groupState :=
  match gs_queue st with
  | [] => inr st
  | current :: queue =>
    if flag (gs_processed st) current then
      inl (GroupState queue (gs_processed st) (gs_members st) (gs_lower st) (gs_upper st))
    else
      let st := GroupState queue (<[current := true]> (gs_processed st))
        (<[current := default zeroDevice (Zone_Devices zone !! current)]> (gs_members st))
        (gs_lower st) (gs_upper st) in
      inl (foldl (scanNeighbor lowerGroupToTierDevices) st (sortedBoolKeys (adj_at g current)))
  end.

(** The devices one processed device can pull into its group, which bounds the
    work of the queue loop. *)
Definition relatedDevices (lowerGroupToTierDevices : gmap string (list string)) (current : string)
    : list string :=
  mjoin ((fun neighbor =>
    match Zone_Devices zone !! neighbor with
    | None => []
    | Some neighborDevice =>
      if decide (Tier neighborDevice = tier - 1) then
        default [] (lowerGroupToTierDevices !! groupNameOfDevice neighbor lowerDeviceToGroup)
      else []
    end) <$> sortedBoolKeys (adj_at g current)).

Definition buildGroup (opts : DiscoverOptions) (lowerGroupToTierDevices : gmap string (list string))
    (names : list string) (st : gmap string bool * list TopologyGroup) (name : string)
    : go Empty_set (gmap string bool * list TopologyGroup) :=
  let '(processed, groups) := st in
  if flag processed name then Ret (processed, groups)
  else
    st ← while_go (groupStep lowerGroupToTierDevices)
      (bfsFuel (relatedDevices lowerGroupToTierDevices) names)
      (GroupState [name] processed ∅ ∅ ∅);
    let memberNames := sortedNamesFromMap (gs_members st) in
    Ret (gs_processed st,
         groups ++ [MkGroup (GenerateGroupName memberNames opts) tier memberNames
                      (sortedNamesFromMap (gs_lower st)) (sortedNamesFromMap (gs_upper st))]).

Definition BuildTierGroups (opts : DiscoverOptions) : go Empty_set (list TopologyGroup) :=
  match DevicesByTier zone !! tier with
  | None => Ret []
  | Some devicesInTier =>
    let lowerGroupToTierDevices := buildLowerGroupToTierDevices in
    let names := sortedDeviceNames devicesInTier in
    '(_, groups) ← go_foldl (buildGroup opts lowerGroupToTierDevices names) (∅, []) names;
    Ret groups
  end.
End groups.

(** ** The parent index *)
Section parents.
Context `{RangeOrder}.
Variables (g : TopologyGraph) (zone : ZoneDeviceView).

Definition indexMember (groupName : string) (deviceToGroup : gmap string string) (member : string)
    : gmap string string :=
  match Zone_Devices zone !! member with
  | Some _ => <[member := groupName]> deviceToGroup
  | None => deviceToGroup
  end.

Definition groups_at (topology : Topology) (tier : Z) : list TopologyGroup :=
  default [] (GroupsByTier topology !! tier).

Definition buildDeviceToGroupIndex (topology : Topology) : gmap string string :=
  foldl (fun deviceToGroup tier =>
      if decide (tier = 0) then deviceToGroup
      else foldl (fun deviceToGroup group =>
               foldl (indexMember (Group_Name group)) deviceToGroup (Members group))
             deviceToGroup (groups_at topology tier))
    ∅ (sortedTierKeys (GroupsByTier topology)).

(** The name under which a neighbour one tier up is recorded, if it is one. *)
Definition parentOf (deviceToGroup : gmap string string) (childTier : Z) (neighbor : string)
    : option string :=
  match Zone_Devices zone !! neighbor with
  | None => None
  | Some parent =>
    if decide (Tier parent ≠ childTier + 1) then None
    else Some (match deviceToGroup !! Device_Name parent with
               | Some groupName => groupName
               | None => Device_Name parent
               end)
  end.

Definition addDeviceParent (deviceToGroup : gmap string string) (childTier : Z)
    (parentSet : gmap string bool) (neighbor : string) : gmap string bool :=
  match parentOf deviceToGroup childTier neighbor with
  | None => parentSet
  | Some parentName => <[parentName := true]> parentSet
  end.

Definition indexDeviceParents (deviceToGroup : gmap string string) (topology : Topology)
    (childName : string) : Topology :=
  let child := default zeroDevice (Zone_Devices zone !! childName) in
  let parentSet := foldl (addDeviceParent deviceToGroup (Tier child)) ∅
    (sortedBoolKeys (adj_at g childName)) in
  if decide (0 < size parentSet)%nat then
    set_ParentIndex (<[childName := sortedBoolKeys parentSet]> (ParentIndex topology)) topology
  else topology.

Definition buildDeviceParentIndex (deviceToGroup : gmap string string) (topology : Topology)
    : Topology :=
  foldl (indexDeviceParents deviceToGroup) topology (sortedDeviceNames (Zone_Devices zone)).

Definition addGroupParent (deviceToGroup : gmap string string) (group : TopologyGroup) (memberTier : Z)
    (parentSet : gmap string bool) (neighbor : string) : gmap string bool :=
  match parentOf deviceToGroup memberTier neighbor with
  | None => parentSet
  | Some parentName =>
    if decide (parentName = Group_Name group) then parentSet
    else <[parentName := true]> parentSet
  end.

Definition addMemberParents (deviceToGroup : gmap string string) (group : TopologyGroup)
    (parentSet : gmap string bool) (member : string) : gmap string bool :=
  match Zone_Devices zone !! member with
  | None => parentSet
  | Some memberDevice =>
    foldl (addGroupParent deviceToGroup group (Tier memberDevice)) parentSet
      (sortedBoolKeys (adj_at g member))
  end.

Definition indexGroupParents (deviceToGroup : gmap string string) (topology : Topology)
    (group : TopologyGroup) : Topology :=
  let parentSet := foldl (addMemberParents deviceToGroup group) ∅ (Members group) in
  if decide (0 < size parentSet)%nat then
    set_ParentIndex (<[Group_Name group := sortedBoolKeys parentSet]> (ParentIndex topology)) topology
  else topology.

Definition buildGroupParentIndex (deviceToGroup : gmap string string) (topology : Topology)
    : Topology :=
  foldl (fun topology tier =>
      if decide (tier = 0) then topology
      else foldl (indexGroupParents deviceToGroup) topology (groups_at topology tier))
    topology (sortedTierKeys (GroupsByTier topology)).

Definition BuildParentIndexForZone (topology : Topology) : Topology :=
  let deviceToGroup := buildDeviceToGroupIndex topology in
  let topology := buildDeviceParentIndex deviceToGroup topology in
  buildGroupParentIndex deviceToGroup topology.
End parents.

(** ** The whole topology *)
Section build.
Context `{RangeOrder}.

Definition sortNodesByTier (nodesByTier : gmap Z (list string)) : gmap Z (list string) :=
  foldl (fun m '(tier, _) =>
      let sorted := sort_strings (default [] (m !! tier)) in
      <[tier := dedupeSortedStrings sorted]> m)
    nodesByTier (range nodesByTier).

(** [sort.Slice] by group name.  The order of groups with equal names is not
    fixed by the source; a stable sort is one of the orders it allows. *)
Definition group_name_le (a b : TopologyGroup) : Prop := String.le (Group_Name a) (Group_Name b).
#[local] Instance group_name_le_dec a b : Decision (group_name_le a b) :=
  String.le_dec (Group_Name a) (Group_Name b).

Definition sortGroupsByTier (groupsByTier : gmap Z (list TopologyGroup))
    : gmap Z (list TopologyGroup) :=
  foldl (fun m '(tier, _) =>
      <[tier := merge_sort group_name_le (default [] (m !! tier))]> m)
    groupsByTier (range groupsByTier).

(** The loop over the devices. *)
Definition addDeviceNode (topology : Topology) (entry : string * Device) : Topology :=
  let '(name, d) := entry in
  if decide (Tier d < 0) then topology
  else
    let node := MkNode name TopologyNodeDevice (Tier d) (Device_Type d) [] in
    let topology := set_Nodes (<[name := node]> (Nodes topology)) topology in
    set_NodesByTier (append_at (Tier d) name (NodesByTier topology)) topology.

(** The loop over the edges: [if a > b { continue }]. *)
Definition addPhysicalEdges (topology : Topology) (entry : string * gmap string bool) : Topology :=
  let '(a, neighbors) := entry in
  foldl (fun topology '(b, _) =>
      if str_ltb b a then topology
      else set_Edges (Edges topology ++ [MkEdge a b "physical"]) topology)
    topology (range neighbors).

(** Recording one group of a tier. *)
Definition addGroup (tier : Z) (st : Topology * gmap string string) (group : TopologyGroup)
    : Topology * gmap string string :=
  let '(topology, deviceToGroup) := st in
  let topology := set_GroupsByTier (append_at tier group (GroupsByTier topology)) topology in
  let deviceToGroup :=
    foldl (fun m member => <[member := Group_Name group]> m) deviceToGroup (Members group) in
  if decide (length (Members group) = 1%nat ∧ Members group !! 0%nat = Some (Group_Name group)) then
    (topology, deviceToGroup)
  else
    let node := MkNode (Group_Name group) TopologyNodeGroup tier DeviceNone (Members group) in
    let topology := set_Nodes (<[Group_Name group := node]> (Nodes topology)) topology in
    let topology := set_NodesByTier (append_at tier (Group_Name group) (NodesByTier topology)) topology in
    let topology := foldl (fun topology member =>
        set_Edges (Edges topology ++ [MkEdge (Group_Name group) member "group-member"]) topology)
      topology (Members group) in
    (topology, deviceToGroup).

Definition buildTier (g : TopologyGraph) (zone : ZoneDeviceView) (opts : DiscoverOptions)
    (st : Topology * gmap string string) (tier : Z) : go Empty_set (Topology * gmap string string) :=
  if decide (tier = 0) then Ret st
  else
    groups ← BuildTierGroups g zone tier st.2 opts;
    Ret (foldl (addGroup tier) st groups).

(** The names of the hosts stand for themselves in the lowest tier. *)
Definition hostGroups (zone : ZoneDeviceView) : gmap string string :=
  foldl (fun m '(name, device) =>
      if decide (Tier device = 0) then <[name := name]> m else m)
    ∅ (range (Zone_Devices zone)).

Definition buildZone (g : TopologyGraph) (opts : DiscoverOptions) (topology : Topology)
    (zoneDeviceNames : list string) : go Empty_set Topology :=
  let zone := BuildZoneDeviceView g zoneDeviceNames in
  st ← go_foldl (buildTier g zone opts) (topology, hostGroups zone)
    (sortedTierKeys (DevicesByTier zone));
  Ret (BuildParentIndexForZone g zone st.1).

Definition BuildTopology (g : TopologyGraph) (opts : DiscoverOptions) : go Empty_set Topology :=
  let topology := MkTopology ∅ [] ∅ ∅ ∅ in
  let topology := foldl addDeviceNode topology (range (Devices g)) in
  let topology := set_NodesByTier (sortNodesByTier (NodesByTier topology)) topology in
  let topology := foldl addPhysicalEdges topology (range (Adj g)) in
  zones ← CollectConnectedZones g;
  topology ← go_foldl (buildZone g opts) topology zones;
  let topology := set_NodesByTier (sortNodesByTier (NodesByTier topology)) topology in
  Ret (set_GroupsByTier (sortGroupsByTier (GroupsByTier topology)) topology).

Definition DiscoverTopology (hosts : list Host) (switches : list Switch)
    (options : list DiscoverOption) : go Empty_set Topology :=
  let opts := foldl (fun opts option => option opts) defaultDiscoverOptions options in
  let graph := BuildTopologyGraph hosts switches in
  graph ← InferTiers graph;
  graph ← NormalizeTierEdges graph;
  BuildTopology graph opts.
End build.

(** ** Queries *)
Definition QueryParents (t : Topology) (name : string) : list string :=
  default [] (ParentIndex t !! name).

Record chainState := ChainState {
  cs_current : string;
  cs_seen : gmap string bool;
  cs_result : list string
}.

Definition chainStep (t : Topology) (st : chainState) : chainState + list string :=
  match default [] (ParentIndex t !! cs_current st) with
  | [] => inr (cs_result st)
  | parent :: _ =>
    if flag (cs_seen st) parent then inr (cs_result st)
    else inl (ChainState parent (<[parent := true]> (cs_seen st)) (cs_result st ++ [parent]))
  end.

Definition QueryParentChain (t : Topology) (name : string) : go Empty_set (list string) :=
  while_go (chainStep t) (N.of_nat (2 + size (ParentIndex t))) (ChainState name ∅ []).

(** ** A small fabric, evaluated *)
Module Sample.
Definition hosts : list Host := MkHost <$> ["h1"; "h2"; "h3"; "h4"].
Definition link (a b : string) : Neighbor := MkNeighbor a b.
Definition switches : list Switch := [
  MkSwitch "leaf1" [link "leaf1" "h1"; link "leaf1" "h2"; link "" "spine1"];
  MkSwitch "leaf2" [link "leaf2" "h1"; link "leaf2" "h2"; link "other" "h3"; link "" "gone"];
  MkSwitch "leaf3" [link "leaf3" "h3"; link "leaf3" "h4"; link "leaf3" "spine1"];
  MkSwitch "spine1" [link "spine1" "leaf1"; link "spine1" "core1"; link "" "spine2"];
  MkSwitch "spine2" [link "spine2" "leaf3"; link "spine2" "core1"];
  MkSwitch "core1" [];
  MkSwitch "island" []].

Definition summary (o : RangeOrder) : go Empty_set (list (string * list string) * list (Z * list string) * list string) :=
  t ← @DiscoverTopology o hosts switches [];
  chain ← QueryParentChain t "h1";
  Ret (map_to_list (ParentIndex t), map_to_list (NodesByTier t), chain).
End Sample.
