(* ===== verification/GraphFacts.v ===== *)
(** * The device graph

    Facts about the graph that [BuildTopologyGraph] of
    src/pkg/topology/topology.go builds: it is well formed, its vertices are the
    named devices and its edges are the LLDP neighbours that name a device. *)
From stdpp Require Import base gmap sets list strings sorting fin_maps.
From Stdlib Require Import ZArith.
From S2P Require Import Prelude GoStrings Bfs Sha1 Topology.
Local Open Scope Z_scope.

(** ** Sorted keys *)
Section keys_facts.
Context `{RangeOrder}.

Lemma keys_of_range {K V} `{Countable K} (m : gmap K V) :
  foldl (fun names '(name, _) => names ++ [name]) [] (range m) = (range m).*1.
Proof.
  rewrite <-(app_nil_l ((range m).*1)), <-(foldl_snoc fst).
  apply foldl_ext_in. by intros ? [].
Qed.

Lemma elem_of_sortedDeviceNames {T} (m : gmap string T) x :
  x ∈ sortedDeviceNames m ↔ is_Some (m !! x).
Proof. unfold sortedDeviceNames. by rewrite elem_of_sort_strings, keys_of_range, elem_of_range_keys. Qed.

Lemma NoDup_sortedDeviceNames {T} (m : gmap string T) : NoDup (sortedDeviceNames m).
Proof. unfold sortedDeviceNames. rewrite keys_of_range. auto with unifabric. Qed.

Lemma elem_of_sortedNamesFromMap {T} (m : gmap string T) x :
  x ∈ sortedNamesFromMap m ↔ is_Some (m !! x).
Proof. apply elem_of_sortedDeviceNames. Qed.

Lemma NoDup_sortedNamesFromMap {T} (m : gmap string T) : NoDup (sortedNamesFromMap m).
Proof. apply NoDup_sortedDeviceNames. Qed.

Lemma elem_of_sortedTierKeys {T} (m : gmap Z T) x : x ∈ sortedTierKeys m ↔ is_Some (m !! x).
Proof. unfold sortedTierKeys. by rewrite elem_of_sort_ints, keys_of_range, elem_of_range_keys. Qed.

Lemma NoDup_sortedTierKeys {T} (m : gmap Z T) : NoDup (sortedTierKeys m).
Proof. unfold sortedTierKeys. rewrite keys_of_range, sort_ints_perm. auto with unifabric. Qed.

Lemma sortedBoolKeys_eq (m : gmap string bool) :
  sortedBoolKeys m = sort_strings (filter (fun x => flag m x = true) ((range m).*1)).
Proof.
  unfold sortedBoolKeys. f_equal.
  assert (∀ l acc, foldl (fun names '(name, _) =>
      if default false (m !! name) then names ++ [name] else names) acc l =
      acc ++ filter (fun x => flag m x = true) (l : list (string * bool)).*1) as Hl.
  { induction l as [|[x b] l IH]; intros acc; [by rewrite app_nil_r|]. cbn [foldl fmap list_fmap fst].
    rewrite IH, filter_cons. change (default false (m !! x)) with (flag m x).
    destruct (flag m x); case_decide; try done. by rewrite <-app_assoc. }
  apply Hl.
Qed.

Lemma elem_of_sortedBoolKeys (m : gmap string bool) x : x ∈ sortedBoolKeys m ↔ flag m x = true.
Proof.
  rewrite sortedBoolKeys_eq, elem_of_sort_strings, list_elem_of_filter, elem_of_range_keys.
  unfold flag. destruct (m !! x) as [b|]; cbn; [|naive_solver]. split; [by intros []|eauto].
Qed.

Lemma NoDup_sortedBoolKeys (m : gmap string bool) : NoDup (sortedBoolKeys m).
Proof. rewrite sortedBoolKeys_eq. apply NoDup_sort_strings, NoDup_filter, NoDup_range_keys. Qed.
End keys_facts.

(** Sorting hides the iteration order. *)
Lemma sortedBoolKeys_order (o1 o2 : RangeOrder) m : @sortedBoolKeys o1 m = @sortedBoolKeys o2 m.
Proof.
  rewrite !sortedBoolKeys_eq. apply sort_strings_proper. by rewrite !range_perm.
Qed.

Lemma sortedDeviceNames_order (o1 o2 : RangeOrder) {T} (m : gmap string T) :
  @sortedDeviceNames o1 T m = @sortedDeviceNames o2 T m.
Proof. unfold sortedDeviceNames. rewrite !keys_of_range. by rewrite !range_perm. Qed.

Lemma sortedTierKeys_order (o1 o2 : RangeOrder) {T} (m : gmap Z T) :
  @sortedTierKeys o1 T m = @sortedTierKeys o2 T m.
Proof. unfold sortedTierKeys. rewrite !keys_of_range. by rewrite !range_perm. Qed.

#[export] Hint Resolve NoDup_sortedDeviceNames NoDup_sortedNamesFromMap NoDup_sortedTierKeys
  NoDup_sortedBoolKeys : unifabric.

(** ** Edges and well-formedness *)

(** [g.Adj[a][b]]. *)
Definition edge (g : TopologyGraph) (a b : string) : Prop := flag (adj_at g a) b = true.

#[export] Instance edge_dec g a b : Decision (edge g a b).
Proof. unfold edge. apply _. Defined.

(** A graph with symmetric edges between its devices, each stored under its own
    name, hosts in tier zero. *)
Record wf_graph (g : TopologyGraph) : Prop := {
  wf_dom : ∀ x, is_Some (Adj g !! x) ↔ is_Some (Devices g !! x);
  wf_sym : ∀ x y, edge g x y → edge g y x;
  wf_true : ∀ x y b, adj_at g x !! y = Some b → b = true;
  wf_name : ∀ x d, Devices g !! x = Some d → Device_Name d = x;
  wf_type : ∀ x d, Devices g !! x = Some d →
    Device_Type d = DeviceHost ∧ Tier d = 0 ∨ Device_Type d = DeviceSwitch
}.

Lemma edge_dom g x y : edge g x y → is_Some (Adj g !! x).
Proof. unfold edge, adj_at, flag. destruct (Adj g !! x); [eauto|]. cbn. by rewrite lookup_empty. Qed.

Lemma wf_edge_l g x y : wf_graph g → edge g x y → is_Some (Devices g !! x).
Proof. intros Hwf He. apply (wf_dom _ Hwf), (edge_dom _ _ _ He). Qed.

Lemma wf_edge_r g x y : wf_graph g → edge g x y → is_Some (Devices g !! y).
Proof. intros Hwf He. eapply wf_edge_l, wf_sym; eauto. Qed.

Lemma adj_lookup_edge g x y : wf_graph g → is_Some (adj_at g x !! y) ↔ edge g x y.
Proof.
  intros Hwf. unfold edge, flag. split.
  - intros [b Hb]. rewrite Hb. by apply (wf_true _ Hwf) in Hb.
  - destruct (adj_at g x !! y); [eauto|done].
Qed.

#[export] Hint Resolve wf_edge_l wf_edge_r wf_sym : unifabric.

(** ** The effect of each operation on the edges *)
Lemma adj_at_ensureVertex adj x y :
  default ∅ (ensureVertex adj x !! y) = default ∅ (adj !! y) :> gmap string bool.
Proof.
  unfold ensureVertex. destruct (adj !! x) eqn:Hx; [done|].
  destruct (decide (x = y)) as [->|]; [by rewrite lookup_insert_eq, Hx|by rewrite lookup_insert_ne].
Qed.

Lemma ensureVertex_dom adj x y :
  is_Some (ensureVertex adj x !! y) ↔ y = x ∨ is_Some (adj !! y).
Proof.
  unfold ensureVertex. destruct (adj !! x) eqn:Hx; [naive_solver|].
  destruct (decide (x = y)) as [->|]; [rewrite lookup_insert_eq|rewrite lookup_insert_ne by done];
    naive_solver.
Qed.

Lemma set_neighbor_dom adj a b y : is_Some (set_neighbor adj a b !! y) ↔ y = a ∨ is_Some (adj !! y).
Proof.
  unfold set_neighbor. destruct (decide (a = y)) as [->|];
    [rewrite lookup_insert_eq|rewrite lookup_insert_ne by done]; naive_solver.
Qed.

Lemma set_neighbor_at adj a b x :
  default ∅ (set_neighbor adj a b !! x) =
  if decide (x = a) then <[b := true]> (default ∅ (adj !! a)) else default ∅ (adj !! x).
Proof.
  unfold set_neighbor. case_decide; subst; [by rewrite lookup_insert_eq|by rewrite lookup_insert_ne].
Qed.

Lemma addUndirectedEdge_dom g a b x :
  is_Some (Adj (addUndirectedEdge g a b) !! x) ↔ x = a ∨ x = b ∨ is_Some (Adj g !! x).
Proof. cbn. rewrite !set_neighbor_dom, !ensureVertex_dom. naive_solver. Qed.

Lemma addUndirectedEdge_at g a b x y v :
  adj_at (addUndirectedEdge g a b) x !! y = Some v ↔
  (x = a ∧ y = b ∨ x = b ∧ y = a) ∧ v = true ∨
  ~ (x = a ∧ y = b ∨ x = b ∧ y = a) ∧ adj_at g x !! y = Some v.
Proof.
  unfold adj_at. cbn. rewrite !set_neighbor_at, !adj_at_ensureVertex.
  repeat case_decide; simplify_eq; rewrite ?lookup_insert_Some; naive_solver.
Qed.

Lemma addUndirectedEdge_edge g a b x y :
  edge (addUndirectedEdge g a b) x y ↔ (x = a ∧ y = b ∨ x = b ∧ y = a) ∨ edge g x y.
Proof.
  unfold edge, flag.
  destruct (adj_at (addUndirectedEdge g a b) x !! y) as [v|] eqn:Hv; cbn.
  - apply addUndirectedEdge_at in Hv as [[Hc ->]|[Hn Hv]]; [naive_solver|].
    rewrite Hv. naive_solver.
  - split; [done|]. intros [Hc|He].
    + assert (adj_at (addUndirectedEdge g a b) x !! y = Some true) as Ht;
        [|by rewrite Ht in Hv]. apply addUndirectedEdge_at; auto.
    + destruct (adj_at g x !! y) as [v|] eqn:Hg; [|done]. cbn in He. subst v.
      assert (adj_at (addUndirectedEdge g a b) x !! y = Some true) as Ht;
        [|by rewrite Ht in Hv]. apply addUndirectedEdge_at.
      destruct (decide (x = a ∧ y = b ∨ x = b ∧ y = a)); auto.
Qed.

Lemma NewDeviceResolver_lookup `{RangeOrder} devices x y :
  (NewDeviceResolver devices : gmap string string) !! x = Some y ↔ y = x ∧ is_Some (devices !! x).
Proof.
  rewrite <-elem_of_range_keys. unfold NewDeviceResolver.
  generalize (range devices). intros l.
  apply (foldl_inv (fun l (m : gmap string string) => m !! x = Some y ↔ y = x ∧ x ∈ l.*1)).
  - split; [by intros Hx%lookup_empty_Some|set_solver].
  - intros seen [z d] todo m _ IH. rewrite lookup_insert_Some, IH, fmap_app. cbn.
    destruct (decide (z = x)); set_solver.
Qed.

Lemma Resolve_spec `{RangeOrder} devices n x :
  Resolve (NewDeviceResolver devices) n = (x, true) ↔
  x ≠ "" ∧ RemoteSystemName n = x ∧ is_Some (devices !! x).
Proof.
  unfold Resolve. case_decide as He; [naive_solver|].
  destruct (_ !! RemoteSystemName n) as [y|] eqn:Hy.
  - apply NewDeviceResolver_lookup in Hy. naive_solver.
  - split; [done|]. intros (? & <- & Hs). exfalso.
    assert ((NewDeviceResolver devices : gmap string string) !! RemoteSystemName n =
      Some (RemoteSystemName n)) as Hn; [by apply NewDeviceResolver_lookup|].
    unfold DeviceResolver in *. congruence.
Qed.

(** ** The graph that is built *)
Definition named (hosts : list Host) (switches : list Switch) (x : string) : Prop :=
  x ∈ Host_Name <$> hosts ∨ x ∈ Switch_Name <$> switches.

(** The device a name stands for: a switch wins over a host of the same name. *)
Definition namedDevice (hosts : list Host) (switches : list Switch) (x : string) : option Device :=
  if decide (x ∈ Switch_Name <$> switches) then Some (MkDevice x DeviceSwitch (-1))
  else if decide (x ∈ Host_Name <$> hosts) then Some (MkDevice x DeviceHost 0)
  else None.

Lemma named_namedDevice hosts switches x :
  named hosts switches x ↔ is_Some (namedDevice hosts switches x).
Proof. unfold named, namedDevice. repeat case_decide; naive_solver. Qed.

Section build_graph.
Context `{RangeOrder} (hosts : list Host) (switches : list Switch).

(** Switch [a] reports [b] as the neighbour behind a port of its own. *)
Definition declared (a b : string) : Prop :=
  ∃ sw n, sw ∈ switches ∧ Switch_Name sw = a ∧ n ∈ Neighbors sw ∧
    (LocalDeviceName n = "" ∨ LocalDeviceName n = a) ∧
    RemoteSystemName n = b ∧ b ≠ "" ∧ named hosts switches b.

(** The graph before any link is added. *)
Definition unlinked (hosts : list Host) (switches : list Switch) (g : TopologyGraph) : Prop :=
  (∀ x, Devices g !! x = namedDevice hosts switches x) ∧
  (∀ x, is_Some (Adj g !! x) ↔ named hosts switches x) ∧ (∀ x, adj_at g x = ∅) ∧ Links g = [].

Lemma addHost_unlinked hs h g : unlinked hs [] g → unlinked (hs ++ [h]) [] (addHost g h).
Proof.
  intros (Hd & Ha & He & Hl). unfold unlinked, adj_at, namedDevice, named in *.
  rewrite fmap_app. cbn in *. split_and!; [| | |done]; intros x.
  - destruct (decide (Host_Name h = x)) as [<-|Hne];
      [rewrite lookup_insert_eq|rewrite lookup_insert_ne, Hd by done];
      repeat case_decide; set_solver.
  - rewrite ensureVertex_dom, Ha. set_solver.
  - by rewrite adj_at_ensureVertex.
Qed.

Lemma addSwitch_unlinked hs sws sw g :
  unlinked hs sws g → unlinked hs (sws ++ [sw]) (addSwitch g sw).
Proof.
  intros (Hd & Ha & He & Hl). unfold unlinked, adj_at, namedDevice, named in *.
  rewrite fmap_app. cbn in *. split_and!; [| | |done]; intros x.
  - destruct (decide (Switch_Name sw = x)) as [<-|Hne];
      [rewrite lookup_insert_eq|rewrite lookup_insert_ne, Hd by done];
      repeat case_decide; set_solver.
  - rewrite ensureVertex_dom, Ha. set_solver.
  - by rewrite adj_at_ensureVertex.
Qed.

Lemma vertices_spec :
  unlinked hosts switches (foldl addSwitch (foldl addHost (MkGraph ∅ ∅ []) hosts) switches).
Proof.
  apply (foldl_inv (unlinked hosts)); [|intros; by apply addSwitch_unlinked].
  apply (foldl_inv (fun hs => unlinked hs [])); [|intros; by apply addHost_unlinked].
  unfold unlinked, adj_at, named, namedDevice. cbn.
  split_and!; [| |by intros x; rewrite lookup_empty|done]; intros x; rewrite lookup_empty.
  - repeat case_decide; set_solver.
  - split; [by intros []|set_solver].
Qed.

(** What holds of the graph while links are added. *)
Record linksInv (devices : gmap string Device) (g : TopologyGraph) : Prop := {
  li_devices : Devices g = devices;
  li_dom : ∀ x, is_Some (Adj g !! x) ↔ is_Some (devices !! x);
  li_true : ∀ x y b, adj_at g x !! y = Some b → b = true;
  li_edge : ∀ x y, edge g x y ↔
    ∃ l, l ∈ Links g ∧ (SrcDevice l = x ∧ DstDevice l = y ∨ SrcDevice l = y ∧ DstDevice l = x)
}.

(** The neighbour entry [n] of [sw] becomes a link to [b]. *)
Definition accepted (devices : gmap string Device) (sw : Switch) (n : Neighbor) (b : string) : Prop :=
  (LocalDeviceName n = "" ∨ LocalDeviceName n = Switch_Name sw) ∧
  RemoteSystemName n = b ∧ b ≠ "" ∧ is_Some (devices !! b).

Lemma addLink_cases devices sw g n :
  (∃ b, accepted devices sw n b ∧
     addLink (NewDeviceResolver devices) sw g n =
       addUndirectedEdge (set_Links (Links g ++ [MkLink (Switch_Name sw) b n]) g) (Switch_Name sw) b) ∨
  (∀ b, ~ accepted devices sw n b) ∧ addLink (NewDeviceResolver devices) sw g n = g.
Proof.
  unfold addLink, accepted. case_decide as Hloc; [right; naive_solver|].
  destruct (Resolve (NewDeviceResolver devices) n) as [b []] eqn:Hr; cbn.
  - left. exists b. apply Resolve_spec in Hr. split; [|done]. split; [|naive_solver].
    destruct (decide (LocalDeviceName n = "")); [by left|].
    destruct (decide (LocalDeviceName n = Switch_Name sw)); [by right|]. naive_solver.
  - right. split; [|done]. intros b' (_ & Hb & Hne & Hs).
    assert (Resolve (NewDeviceResolver devices) n = (b', true)); [by apply Resolve_spec|congruence].
Qed.

Lemma addLink_inv devices sw g n :
  is_Some (devices !! Switch_Name sw) → linksInv devices g →
  linksInv devices (addLink (NewDeviceResolver devices) sw g n) ∧
  (∀ l, l ∈ Links (addLink (NewDeviceResolver devices) sw g n) ↔
    l ∈ Links g ∨ ∃ b, accepted devices sw n b ∧ l = MkLink (Switch_Name sw) b n).
Proof.
  intros Hsw [Hd Hdom Ht He].
  destruct (addLink_cases devices sw g n) as [(b & Hacc & Heq)|[Hno Heq]]; rewrite Heq; last first.
  { split; [done|]. set_solver. }
  destruct Hacc as (Hloc & Hrem & Hne & Hb).
  split; [split|].
  - done.
  - intros x. rewrite addUndirectedEdge_dom. cbn. rewrite Hdom. naive_solver.
  - intros x y v. rewrite addUndirectedEdge_at. intros [[_ ?]|[_ Hv]]; [done|]. by eapply Ht.
  - intros x y. rewrite addUndirectedEdge_edge. cbn. unfold edge in He. unfold edge.
    change (adj_at (set_Links _ g) x) with (adj_at g x). rewrite He. split.
    + intros [Hxy|(l & Hl & Hc)]; [|exists l; rewrite elem_of_app; auto].
      exists (MkLink (Switch_Name sw) b n). rewrite elem_of_app, list_elem_of_singleton.
      cbn. naive_solver.
    + intros (l & Hl & Hc). apply elem_of_app in Hl as [Hl|Hl]; [by eauto|].
      apply list_elem_of_singleton in Hl as ->. cbn in Hc. naive_solver.
  - intros l. cbn. rewrite elem_of_app, list_elem_of_singleton. split.
    + intros [?| ->]; [by left|]. right. exists b. split; [|done]. split_and!; done.
    + intros [?|(b' & (_ & Hb' & _) & ->)]; [by left|]. right. congruence.
Qed.

Lemma addLinks_inv devices sw g :
  is_Some (devices !! Switch_Name sw) → linksInv devices g →
  let g' := foldl (addLink (NewDeviceResolver devices) sw) g (Neighbors sw) in
  linksInv devices g' ∧
  (∀ l, l ∈ Links g' ↔ l ∈ Links g ∨
    ∃ n b, n ∈ Neighbors sw ∧ accepted devices sw n b ∧ l = MkLink (Switch_Name sw) b n).
Proof.
  intros Hsw Hi.
  apply (foldl_inv (fun ns g' => linksInv devices g' ∧ ∀ l, l ∈ Links g' ↔ l ∈ Links g ∨
    ∃ n b, n ∈ ns ∧ accepted devices sw n b ∧ l = MkLink (Switch_Name sw) b n)).
  - split; [done|]. set_solver.
  - intros seen n todo g' _ [Hi' Hl].
    destruct (addLink_inv devices sw g' n Hsw Hi') as [Hi2 Hl2]. split; [done|].
    intros l. rewrite Hl2, Hl. setoid_rewrite elem_of_app. setoid_rewrite list_elem_of_singleton.
    naive_solver.
Qed.

Lemma BuildTopologyGraph_links :
  let g := BuildTopologyGraph hosts switches in
  (∀ x, Devices g !! x = namedDevice hosts switches x) ∧ linksInv (Devices g) g ∧
  (∀ l, l ∈ Links g ↔ ∃ sw n b, sw ∈ switches ∧ n ∈ Neighbors sw ∧
    accepted (Devices g) sw n b ∧ l = MkLink (Switch_Name sw) b n).
Proof.
  unfold BuildTopologyGraph. destruct vertices_spec as (Hd & Ha & He & Hl).
  set (g0 := foldl addSwitch _ _) in *.
  assert (linksInv (Devices g0) g0) as Hi0.
  { split; [done| | |].
    - intros x. by rewrite Ha, Hd, named_namedDevice.
    - intros x y b. by rewrite He, lookup_empty.
    - intros x y. unfold edge, flag. rewrite He, lookup_empty, Hl. set_solver. }
  assert (∀ sws, (∀ sw, sw ∈ sws → is_Some (Devices g0 !! Switch_Name sw)) →
    let g := foldl (fun g sw => foldl (addLink (NewDeviceResolver (Devices g0)) sw) g (Neighbors sw)) g0 sws in
    linksInv (Devices g0) g ∧ ∀ l, l ∈ Links g ↔ ∃ sw n b, sw ∈ sws ∧ n ∈ Neighbors sw ∧
      accepted (Devices g0) sw n b ∧ l = MkLink (Switch_Name sw) b n) as Hgen.
  { intros sws Hsws. apply (foldl_inv (fun sws g => linksInv (Devices g0) g ∧
      ∀ l, l ∈ Links g ↔ ∃ sw n b, sw ∈ sws ∧ n ∈ Neighbors sw ∧
      accepted (Devices g0) sw n b ∧ l = MkLink (Switch_Name sw) b n)).
    - split; [done|]. rewrite Hl. set_solver.
    - intros seen sw todo g' Heq [Hi Hl']. destruct (addLinks_inv (Devices g0) sw g') as [Hi2 Hl2];
        [apply Hsws; rewrite Heq; set_solver|done|]. split; [done|].
      intros l. rewrite Hl2, Hl'. split.
      + intros [(sw' & n & b & Hsw & ?)|(n & b & ?)]; [exists sw', n, b|exists sw, n, b];
          rewrite elem_of_app, list_elem_of_singleton; tauto.
      + intros (sw' & n & b & [Hsw|Hsw]%elem_of_app & ?); [left; by exists sw', n, b|].
        apply list_elem_of_singleton in Hsw as ->. right. by exists n, b. }
  destruct (Hgen switches) as [Hi Hl'].
  { intros sw Hsw. rewrite Hd, <-named_namedDevice. right. apply list_elem_of_fmap. eauto. }
  pose proof (li_devices _ _ Hi) as HD. cbn. cbn in HD, Hl', Hi. rewrite HD.
  split; [done|]. split; [done|]. done.
Qed.

Lemma BuildTopologyGraph_Devices x :
  Devices (BuildTopologyGraph hosts switches) !! x = namedDevice hosts switches x.
Proof. apply BuildTopologyGraph_links. Qed.

Lemma BuildTopologyGraph_edge a b :
  edge (BuildTopologyGraph hosts switches) a b ↔ declared a b ∨ declared b a.
Proof.
  destruct BuildTopologyGraph_links as (Hd & Hi & Hl). rewrite (li_edge _ _ Hi).
  assert (∀ x y, (∃ l, l ∈ Links (BuildTopologyGraph hosts switches) ∧
    SrcDevice l = x ∧ DstDevice l = y) ↔ declared x y) as Hx; [|rewrite <-!Hx; naive_solver].
  intros x y. setoid_rewrite Hl. unfold declared, accepted. setoid_rewrite Hd.
  setoid_rewrite <-named_namedDevice. split.
  - intros (l & (sw & n & c & Hsw & Hn & (Hloc & Hrem & Hne & Hs) & ->) & <- & <-). cbn.
    exists sw, n. split_and!; done.
  - intros (sw & n & Hsw & <- & Hn & Hloc & Hrem & Hne & Hs).
    exists (MkLink (Switch_Name sw) y n). split; [|done]. exists sw, n, y. split_and!; done.
Qed.

Lemma BuildTopologyGraph_wf : wf_graph (BuildTopologyGraph hosts switches).
Proof.
  destruct BuildTopologyGraph_links as (Hd & Hi & Hl). split.
  - intros x. apply Hi.
  - intros x y. rewrite !BuildTopologyGraph_edge. naive_solver.
  - apply Hi.
  - intros x d. rewrite Hd. unfold namedDevice. repeat case_decide; naive_solver.
  - intros x d. rewrite Hd. unfold namedDevice. repeat case_decide; naive_solver.
Qed.
End build_graph.
