(* ===== verification/Tiers.v ===== *)
(** * Tiers

    [InferTiers] of src/pkg/topology/topology.go gives every switch its distance
    from the hosts, and [NormalizeTierEdges] keeps the edges between neighbouring
    tiers. *)
From stdpp Require Import base gmap sets list strings sorting fin_maps.
From Stdlib Require Import ZArith.
From S2P Require Import Prelude GoStrings Bfs Sha1 Topology GraphFacts.
Local Open Scope Z_scope.

Definition is_switch (g : TopologyGraph) (x : string) : Prop :=
  Device_Type (device_at g x) = DeviceSwitch.
Definition is_host (g : TopologyGraph) (x : string) : Prop :=
  Device_Type (device_at g x) = DeviceHost.
Definition lab (g : TopologyGraph) (x : string) : Z := Tier (device_at g x).

#[export] Instance is_switch_dec g x : Decision (is_switch g x).
Proof. unfold is_switch. apply _. Defined.
#[export] Instance is_host_dec g x : Decision (is_host g x).
Proof. unfold is_host. apply _. Defined.

(** [tier_path g x n]: there is a walk of [n] edges from the switch [x] to a host
    whose inner vertices are all switches. *)
Inductive tier_path (g : TopologyGraph) : string → Z → Prop :=
| tier_path_host x h : is_switch g x → edge g x h → is_host g h → tier_path g x 1
| tier_path_step x y n :
    tier_path g x n → edge g x y → is_switch g y → tier_path g y (n + 1).

Lemma tier_path_pos g x n : tier_path g x n → 1 ≤ n.
Proof. induction 1; lia. Qed.

Lemma tier_path_switch g x n : tier_path g x n → is_switch g x.
Proof. by destruct 1. Qed.

(** A distance: no walk is shorter. *)
Definition tier_distance (g : TopologyGraph) (x : string) (n : Z) : Prop :=
  tier_path g x n ∧ ∀ m, tier_path g x m → n ≤ m.

(** Two graphs that differ in the tiers of switches only. *)
Record same_shape (g0 g : TopologyGraph) : Prop := {
  ss_adj : Adj g = Adj g0;
  ss_links : Links g = Links g0;
  ss_devices : ∀ x, Devices g !! x = set_tier (lab g x) <$> Devices g0 !! x;
  ss_hosts : ∀ x, ~ is_switch g0 x → Devices g !! x = Devices g0 !! x
}.

Lemma set_tier_tier d : set_tier (Tier d) d = d.
Proof. by destruct d. Qed.

Lemma same_shape_refl g : same_shape g g.
Proof.
  split; try done. intros x. unfold lab, device_at.
  destruct (Devices g !! x) as [d|]; cbn; [by rewrite set_tier_tier|done].
Qed.

Lemma same_shape_type g0 g x :
  same_shape g0 g → Device_Type (device_at g x) = Device_Type (device_at g0 x).
Proof.
  intros Hs. unfold device_at. rewrite (ss_devices _ _ Hs x).
  by destruct (Devices g0 !! x).
Qed.

Lemma same_shape_switch g0 g x : same_shape g0 g → is_switch g x ↔ is_switch g0 x.
Proof. intros Hs. unfold is_switch. by rewrite (same_shape_type _ _ _ Hs). Qed.

Lemma same_shape_edge g0 g x y : same_shape g0 g → edge g x y ↔ edge g0 x y.
Proof. intros Hs. unfold edge, adj_at. by rewrite (ss_adj _ _ Hs). Qed.

Lemma same_shape_dom g0 g x : same_shape g0 g → is_Some (Devices g !! x) ↔ is_Some (Devices g0 !! x).
Proof. intros Hs. rewrite (ss_devices _ _ Hs x). by rewrite fmap_is_Some. Qed.

Lemma same_shape_wf g0 g : same_shape g0 g → wf_graph g0 → wf_graph g.
Proof.
  intros Hs Hwf. split.
  - intros x. rewrite (ss_adj _ _ Hs), (same_shape_dom _ _ _ Hs). apply Hwf.
  - intros x y. rewrite !(same_shape_edge _ _ _ _ Hs). apply Hwf.
  - intros x y b. unfold adj_at. rewrite (ss_adj _ _ Hs). apply Hwf.
  - intros x d. rewrite (ss_devices _ _ Hs x). intros ([n ty t] & Hd & ->)%fmap_Some.
    apply (wf_name _ Hwf _ _ Hd).
  - intros x d Hd. destruct (decide (is_switch g0 x)) as [Hsw|Hsw].
    + right. apply (same_shape_switch _ _ _ Hs) in Hsw. unfold is_switch, device_at in Hsw.
      by rewrite Hd in Hsw.
    + rewrite (ss_hosts _ _ Hs x Hsw) in Hd. by eapply wf_type.
Qed.

Lemma is_switch_Some g x : is_switch g x → ∃ d, Devices g !! x = Some d ∧ Device_Type d = DeviceSwitch.
Proof. unfold is_switch, device_at. destruct (Devices g !! x); [eauto|done]. Qed.

(** ** Giving a tier to a set of switches *)
Definition relabelled (ts : list string) (t : Z) (g g' : TopologyGraph) : Prop :=
  Adj g' = Adj g ∧ Links g' = Links g ∧
  ∀ x, Devices g' !! x = if decide (x ∈ ts) then set_tier t <$> Devices g !! x else Devices g !! x.

Lemma relabelled_nil t g : relabelled [] t g g.
Proof. split_and!; try done. Qed.

Lemma relabelled_lab ts t g g' x :
  relabelled ts t g g' → is_switch g x → lab g' x = if decide (x ∈ ts) then t else lab g x.
Proof.
  intros (_ & _ & Hd) (d & Hx & _)%is_switch_Some. unfold lab, device_at. rewrite Hd.
  by case_decide; rewrite Hx.
Qed.

Lemma relabelled_type ts t g g' x :
  relabelled ts t g g' → Device_Type (device_at g' x) = Device_Type (device_at g x).
Proof.
  intros (_ & _ & Hd). unfold device_at. rewrite Hd. case_decide; [|done]. by destruct (Devices g !! x).
Qed.

Lemma relabelled_same_shape ts t g0 g g' :
  same_shape g0 g → Forall (is_switch g0) ts → relabelled ts t g g' → same_shape g0 g'.
Proof.
  intros Hs Hts (Ha & Hl & Hd). split.
  - by rewrite Ha, (ss_adj _ _ Hs).
  - by rewrite Hl, (ss_links _ _ Hs).
  - intros x. unfold lab, device_at. rewrite Hd, (ss_devices _ _ Hs x).
    case_decide; destruct (Devices g0 !! x); done.
  - intros x Hx. rewrite Hd, decide_False; [by apply Hs|].
    intros Hin. by rewrite Forall_forall in Hts; apply Hts in Hin.
Qed.

(** Extending a relabelling by one more switch. *)
Lemma relabelled_snoc ts t g g' x d :
  relabelled ts t g g' → x ∉ ts → Devices g' !! x = Some d →
  relabelled (ts ++ [x]) t g (set_Devices (<[x := set_tier t d]> (Devices g')) g').
Proof.
  intros (Ha & Hl & Hd) Hx Hdx. split_and!; [done..|]. intros y. cbn.
  pose proof (Hd x) as Hgx. rewrite decide_False, Hdx in Hgx by done.
  destruct (decide (x = y)) as [<-|Hne].
  - rewrite lookup_insert_eq, decide_True by set_solver. by rewrite <-Hgx.
  - rewrite lookup_insert_ne, Hd by done. destruct (decide (y ∈ ts)).
    + by rewrite decide_True by set_solver.
    + by rewrite decide_False by set_solver.
Qed.

(** ** Queues sorted by tier *)
Lemma StronglySorted_weaken {A} (R S : A → A → Prop) l :
  (∀ x y, x ∈ l → y ∈ l → R x y → S x y) → StronglySorted R l → StronglySorted S l.
Proof.
  intros HRS Hs. induction Hs as [|x l Hs IH Hf]; constructor.
  - apply IH. set_solver.
  - rewrite Forall_forall in *. intros y Hy. apply HRS; set_solver.
Qed.

Lemma StronglySorted_app_le (f : string → Z) q r m :
  StronglySorted (fun a b => f a ≤ f b) q →
  (∀ x, x ∈ q → f x ≤ m) → (∀ x, x ∈ r → f x = m) → StronglySorted (fun a b => f a ≤ f b) (q ++ r).
Proof.
  intros Hq Hm Hr. induction Hq as [|x q Hs IH Hf]; cbn.
  - induction r as [|y r IH]; constructor; [apply IH; set_solver|].
    apply Forall_forall. intros z Hz. rewrite !Hr by set_solver. lia.
  - constructor; [apply IH; set_solver|]. apply Forall_app. split; [done|].
    apply Forall_forall. intros y Hy. rewrite (Hr y Hy). apply Hm. set_solver.
Qed.

(** ** The loops of [InferTiers] *)
Section infer.
Context `{RangeOrder}.

(** The neighbours one turn of the queue labels. *)
Definition freshNeighbors (g : TopologyGraph) (ns : list string) : list string :=
  filter (fun y => is_switch g y ∧ lab g y = -1) ns.

Lemma labelNeighbors_spec t g queue ns :
  NoDup ns →
  ∃ g', foldl (labelNeighbor t) (g, queue) ns = (g', queue ++ freshNeighbors g ns) ∧
    relabelled (freshNeighbors g ns) (t + 1) g g'.
Proof.
  intros Hnd. unfold freshNeighbors.
  apply (foldl_inv (fun seen st => ∃ g', st = (g', queue ++ filter (fun y => is_switch g y ∧ lab g y = -1) seen) ∧
    relabelled (filter (fun y => is_switch g y ∧ lab g y = -1) seen) (t + 1) g g')).
  - exists g. split; [by rewrite app_nil_r|apply relabelled_nil].
  - intros seen y todo st Heq (g' & -> & Hrel).
    assert (y ∉ seen) as Hy.
    { subst ns. apply NoDup_app in Hnd as (_ & Hd & _). intros Hin. by apply (Hd y Hin); left. }
    assert (y ∉ filter (fun y => is_switch g y ∧ lab g y = -1) seen) as Hy'.
    { rewrite list_elem_of_filter. tauto. }
    rewrite filter_app, filter_cons, filter_nil. unfold labelNeighbor.
    rewrite (relabelled_type _ _ _ _ _ Hrel). fold (is_switch g y).
    case_decide as Hsw; [rewrite decide_False by (intros []; done)|].
    { rewrite !app_nil_r. eauto. }
    assert (is_switch g y) as Hs by (by destruct (decide (is_switch g y))).
    assert (Tier (device_at g' y) = lab g y) as Hlab.
    { change (Tier (device_at g' y)) with (lab g' y).
      rewrite (relabelled_lab _ _ _ _ _ Hrel Hs), decide_False by done. done. }
    rewrite Hlab. case_decide as Ht; [rewrite decide_False by (intros []; done)|].
    { rewrite !app_nil_r. eauto. }
    rewrite decide_True by (split; [done|lia]).
    destruct (is_switch_Some _ _ Hs) as (d & Hd & _).
    assert (Devices g' !! y = Some d) as Hd'.
    { destruct Hrel as (_ & _ & Hrel). by rewrite Hrel, decide_False. }
    eexists. split; [by rewrite <-app_assoc|].
    unfold device_at. rewrite Hd'. by apply relabelled_snoc.
Qed.

Lemma hasHostNeighbor_spec g x :
  wf_graph g → hasHostNeighbor g x = true ↔ ∃ h, edge g x h ∧ is_host g h.
Proof.
  intros Hwf. unfold hasHostNeighbor. rewrite existsb_exists. split.
  - intros ([h b] & Hin & Hh%bool_decide_eq_true). exists h. split; [|done].
    apply (adj_lookup_edge _ _ _ Hwf). exists b. by apply elem_of_range, list_elem_of_In.
  - intros (h & He & Hh). apply (adj_lookup_edge _ _ _ Hwf) in He as [b Hb].
    exists (h, b). split; [by apply list_elem_of_In, elem_of_range|by apply bool_decide_eq_true].
Qed.

Lemma hasHostNeighbor_same g g' x : 
  Adj g' = Adj g → (∀ y, Device_Type (device_at g' y) = Device_Type (device_at g y)) →
  hasHostNeighbor g' x = hasHostNeighbor g x.
Proof.
  intros Ha Ht. unfold hasHostNeighbor, adj_at. rewrite Ha.
  induction (range _) as [|[y b] l IH]; [done|]. cbn. by rewrite Ht, IH.
Qed.

(** The switches the first loop labels. *)
Definition seeds (g : TopologyGraph) (names : list string) : list string :=
  filter (fun x => is_switch g x ∧ hasHostNeighbor g x = true) names.

Lemma seedTier_spec g :
  ∃ g', foldl seedTier (g, []) (range (Devices g)) = (g', seeds g (range (Devices g)).*1) ∧
    relabelled (seeds g (range (Devices g)).*1) 1 g g'.
Proof.
  pose proof (NoDup_range_keys (Devices g)) as Hnd.
  assert (∀ x d, (x, d) ∈ range (Devices g) → Devices g !! x = Some d) as Hval.
  { intros x d. by rewrite elem_of_range. }
  revert Hnd Hval. generalize (range (Devices g)). intros l Hnd Hval.
  apply (foldl_inv (fun seen st => ∃ g', st = (g', seeds g seen.*1) ∧ relabelled (seeds g seen.*1) 1 g g')).
  - exists g. split; [done|apply relabelled_nil].
  - intros seen [y d] todo st Heq (g' & -> & Hrel).
    assert (Devices g !! y = Some d) as Hd by (apply Hval; rewrite Heq; set_solver).
    assert (y ∉ seeds g seen.*1) as Hy.
    { unfold seeds. rewrite list_elem_of_filter. intros [_ Hin]. subst l. rewrite fmap_app in Hnd.
      apply NoDup_app in Hnd as (_ & Hdj & _). by apply (Hdj y Hin); left. }
    assert (Devices g' !! y = Some d) as Hd'.
    { destruct Hrel as (_ & _ & Hr). by rewrite Hr, decide_False. }
    assert (Device_Type d = DeviceSwitch ↔ is_switch g y) as Hsw.
    { unfold is_switch, device_at. by rewrite Hd. }
    rewrite fmap_app. unfold seeds. rewrite filter_app. cbn [fmap list_fmap fst].
    rewrite filter_cons, filter_nil. fold (seeds g seen.*1). unfold seedTier.
    rewrite (hasHostNeighbor_same g g') by (apply Hrel || intros; by eapply relabelled_type).
    case_decide as Ht; [rewrite decide_False by (intros [? _]; tauto)|].
    { rewrite app_nil_r. eauto. }
    destruct (hasHostNeighbor g y); [|rewrite decide_False by (by intros [])]; last first.
    { rewrite app_nil_r. eauto. }
    rewrite decide_True by (split; [|done]; by apply Hsw; destruct (decide (Device_Type d = DeviceSwitch))).
    eexists. split; [done|]. by apply relabelled_snoc.
Qed.

(** ** The queue loop *)
Section queue_loop.
Context (g0 : TopologyGraph) (Hwf : wf_graph g0).

Record tierInv (st : TopologyGraph * list string) : Prop := {
  ti_shape : same_shape g0 st.1;
  ti_path : ∀ x, is_switch g0 x → lab st.1 x ≠ -1 → tier_path g0 x (lab st.1 x);
  ti_seed : ∀ x h, is_switch g0 x → edge g0 x h → is_host g0 h → lab st.1 x = 1;
  ti_queue : ∀ x, x ∈ st.2 → is_switch g0 x ∧ lab st.1 x ≠ -1;
  ti_done : ∀ x y, is_switch g0 x → lab st.1 x ≠ -1 → x ∉ st.2 → edge g0 x y → is_switch g0 y →
    lab st.1 y ≠ -1 ∧ lab st.1 y ≤ lab st.1 x + 1;
  ti_sorted : StronglySorted (fun a b => lab st.1 a ≤ lab st.1 b) st.2;
  ti_window : ∀ c rest x, st.2 = c :: rest → is_switch g0 x → lab st.1 x ≠ -1 →
    lab st.1 x ≤ lab st.1 c + 1
}.

(** The switches that have no tier yet. *)
Definition untiered (g : TopologyGraph) : gset string :=
  filter (fun x => is_switch g x ∧ lab g x = -1) (dom (Devices g)).

Definition tierMeasure (st : TopologyGraph * list string) : N :=
  N.of_nat (length st.2 + size (untiered st.1)).

Lemma untiered_relabelled ts t g g' :
  relabelled ts t g g' → t ≠ -1 → NoDup ts → (∀ x, x ∈ ts → x ∈ untiered g) →
  (length ts + size (untiered g') = size (untiered g))%nat.
Proof.
  intros Hrel Ht Hnd Hts. rewrite <-(size_list_to_set (C:=gset string) ts) by done.
  rewrite <-size_union.
  - f_equal. apply set_eq. intros x. unfold untiered in *.
    rewrite elem_of_union, elem_of_list_to_set, !elem_of_filter, !elem_of_dom.
    setoid_rewrite elem_of_filter in Hts. setoid_rewrite elem_of_dom in Hts.
    unfold is_switch. rewrite (relabelled_type _ _ _ _ _ Hrel). fold (is_switch g x).
    assert (is_Some (Devices g' !! x) ↔ is_Some (Devices g !! x)) as Hdom.
    { destruct Hrel as (_ & _ & Hd). rewrite Hd. case_decide; [by rewrite fmap_is_Some|done]. }
    rewrite Hdom. destruct (decide (is_switch g x)) as [Hs|]; [|naive_solver].
    rewrite (relabelled_lab _ _ _ _ _ Hrel Hs). case_decide; naive_solver.
  - intros x Hx%elem_of_list_to_set [[Hsw Hl] _]%elem_of_filter.
    assert (is_switch g x) as Hs. { unfold is_switch. by rewrite <-(relabelled_type _ _ _ _ _ Hrel). }
    rewrite (relabelled_lab _ _ _ _ _ Hrel Hs), decide_True in Hl by done. done.
Qed.

(** One turn: what it labels, and what stays. *)
Section turn.
Context (g : TopologyGraph) (c : string) (queue : list string) (g' : TopologyGraph).
Context (Hinv : tierInv (g, c :: queue)).
Let fresh := freshNeighbors g (sortedBoolKeys (adj_at g c)).
Context (Hrel : relabelled fresh (lab g c + 1) g g').

Lemma turn_fresh y : y ∈ fresh ↔ edge g0 c y ∧ is_switch g0 y ∧ lab g y = -1.
Proof.
  pose proof (ti_shape _ Hinv) as Hs. cbn in Hs. unfold fresh, freshNeighbors.
  rewrite list_elem_of_filter, elem_of_sortedBoolKeys, (same_shape_switch g0 g y) by done.
  fold (edge g c y). rewrite (same_shape_edge g0 g) by done. tauto.
Qed.

Lemma turn_head : is_switch g0 c ∧ lab g c ≠ -1 ∧ 1 ≤ lab g c.
Proof.
  destruct (ti_queue _ Hinv c) as [Hc Hl]; [cbn; set_solver|]. split_and!; [done..|].
  by eapply tier_path_pos, (ti_path _ Hinv).
Qed.

Lemma turn_lab x : is_switch g0 x → lab g' x = if decide (x ∈ fresh) then lab g c + 1 else lab g x.
Proof.
  intros Hx. apply (relabelled_lab _ _ _ _ _ Hrel). apply (same_shape_switch g0 g); [|done].
  apply (ti_shape _ Hinv).
Qed.

Lemma turn_old x : is_switch g0 x → lab g x ≠ -1 → lab g' x = lab g x.
Proof. intros Hx Hl. rewrite turn_lab, decide_False by (done || (rewrite turn_fresh; tauto)). done. Qed.

Lemma turn_new x : x ∈ fresh → lab g' x = lab g c + 1.
Proof. intros Hx. rewrite turn_lab by (apply turn_fresh in Hx; tauto). by rewrite decide_True. Qed.

Lemma turn_case x : is_switch g0 x → lab g' x ≠ -1 → x ∈ fresh ∨ lab g x ≠ -1.
Proof. intros Hx. rewrite turn_lab by done. case_decide; auto. Qed.

Lemma turn_queue x : x ∈ queue → is_switch g0 x ∧ lab g x ≠ -1 ∧ lab g c ≤ lab g x ≤ lab g c + 1.
Proof.
  intros Hx. destruct (ti_queue _ Hinv x) as [Hsw Hl]; [cbn; set_solver|].
  split_and!; [done..| |by eapply (ti_window _ Hinv)].
  pose proof (ti_sorted _ Hinv) as Hsort. apply StronglySorted_inv in Hsort as [_ Hall].
  rewrite Forall_forall in Hall. auto.
Qed.

Lemma turn_bound x : is_switch g0 x → lab g' x ≠ -1 → lab g' x ≤ lab g c + 1.
Proof.
  intros Hx Hl. destruct (turn_case x Hx Hl) as [Hin|Hl']; [by rewrite turn_new|].
  rewrite turn_old by done. by eapply (ti_window _ Hinv).
Qed.

Lemma turn_done x y :
  is_switch g0 x → lab g' x ≠ -1 → x ∉ queue ++ fresh → edge g0 x y → is_switch g0 y →
  lab g' y ≠ -1 ∧ lab g' y ≤ lab g' x + 1.
Proof.
  intros Hx Hl Hnin He Hy. rewrite elem_of_app in Hnin. pose proof turn_head.
  destruct (turn_case x Hx Hl) as [Hin|Hl']; [tauto|]. rewrite (turn_old x) by done.
  destruct (decide (x = c)) as [->|Hne].
  - destruct (decide (lab g y = -1)) as [Hyl|Hyl].
    + rewrite turn_new by (by apply turn_fresh). lia.
    + rewrite turn_old by done. split; [done|]. by eapply (ti_window _ Hinv).
  - destruct (ti_done _ Hinv x y) as [? ?]; try done; [cbn; set_solver|].
    by rewrite turn_old.
Qed.

Lemma turn_inv : tierInv (g', queue ++ fresh).
Proof.
  destruct turn_head as (Hc & Hcl & Hpos). split; cbn.
  - eapply relabelled_same_shape; [apply (ti_shape _ Hinv)| |done].
    apply Forall_forall. intros x. rewrite turn_fresh. tauto.
  - intros x Hx Hl. destruct (turn_case x Hx Hl) as [Hin|Hl'].
    + rewrite turn_new by done. apply turn_fresh in Hin as (He & _).
      eapply tier_path_step; [|done..]. by apply (ti_path _ Hinv).
    + rewrite turn_old by done. by apply (ti_path _ Hinv).
  - intros x h Hx He Hh. pose proof (ti_seed _ Hinv x h Hx He Hh) as H1. cbn in H1.
    rewrite turn_old by (done || lia). done.
  - intros x [Hin|Hin]%elem_of_app.
    + destruct (turn_queue x Hin) as (? & ? & ?). by rewrite turn_old.
    + rewrite turn_new by done. apply turn_fresh in Hin as (_ & ? & _). split; [done|lia].
  - apply turn_done.
  - apply (StronglySorted_app_le _ _ _ (lab g c + 1)); [| |apply turn_new].
    + pose proof (ti_sorted _ Hinv) as Hsort. apply StronglySorted_inv in Hsort as [Hsort _].
      eapply StronglySorted_weaken; [|done]. intros x y Hx Hy.
      destruct (turn_queue x Hx) as (? & ? & _), (turn_queue y Hy) as (? & ? & _).
      by rewrite !turn_old.
    + intros x Hx. destruct (turn_queue x Hx) as (? & ? & ?). rewrite turn_old by done. lia.
  - intros d rest x Heq Hx Hl. pose proof (turn_bound x Hx Hl).
    assert (lab g c ≤ lab g' d) as Hd; [|lia].
    assert (d ∈ queue ++ fresh) as [Hin|Hin]%elem_of_app by (rewrite Heq; set_solver).
    + destruct (turn_queue d Hin) as (? & ? & ?). rewrite turn_old by done. lia.
    + rewrite turn_new by done. lia.
Qed.
End turn.

(** The outcome of the loop. *)
Definition tiersPost (g : TopologyGraph) : Prop :=
  same_shape g0 g ∧
  ∀ x, is_switch g0 x →
    lab g x = -1 ∧ (∀ n, ~ tier_path g0 x n) ∨ lab g x ≠ -1 ∧ tier_distance g0 x (lab g x).

Lemma tierInv_done g : tierInv (g, []) → tiersPost g.
Proof.
  intros [Hs Hpath Hseed _ Hdone _ _]. cbn in *. split; [done|].
  assert (∀ x n, tier_path g0 x n → lab g x ≠ -1 ∧ lab g x ≤ n) as Hmin.
  { induction 1 as [x h Hx He Hh|x y n Hp IH He Hy].
    - rewrite (Hseed x h) by done. lia.
    - destruct IH as [Hl Hle]. pose proof (tier_path_switch _ _ _ Hp) as Hx.
      destruct (Hdone x y) as [? ?]; try done; [set_solver|]. split; [done|lia]. }
  intros x Hx. destruct (decide (lab g x = -1)) as [Hl|Hl].
  - left. split; [done|]. intros n Hn. by apply Hmin in Hn as [? _].
  - right. split; [done|]. split; [auto|]. intros m Hm. by apply Hmin.
Qed.

Lemma infer_loop_ok : loop_ok inferStep tierInv tierMeasure tiersPost.
Proof.
  intros [g [|c queue]] Hinv; cbn [inferStep]; [by apply tierInv_done|].
  destruct (labelNeighbors_spec (Tier (device_at g c)) g queue (sortedBoolKeys (adj_at g c)))
    as (g' & -> & Hrel); [auto with unifabric|].
  split; [by apply turn_inv|]. unfold tierMeasure. cbn [fst snd length]. rewrite length_app.
  rewrite <-(untiered_relabelled _ _ _ _ Hrel); [lia| | |].
  - destruct (turn_head g c queue g' Hinv Hrel) as (_ & _ & ?). unfold lab in *. lia.
  - apply NoDup_filter. auto with unifabric.
  - intros x Hx. unfold untiered. apply list_elem_of_filter in Hx as [Hx _].
    apply elem_of_filter. split; [done|]. apply elem_of_dom. destruct Hx as [Hx _].
    apply is_switch_Some in Hx as (d & ? & _). eauto.
Qed.
End queue_loop.

(** ** The whole function *)
Section whole.
Context (g0 : TopologyGraph) (Hwf : wf_graph g0).
Context (Hunset : ∀ x, is_switch g0 x → lab g0 x = -1).

Let names := (range (Devices g0)).*1.

Lemma elem_of_seeds x : x ∈ seeds g0 names ↔ is_switch g0 x ∧ ∃ h, edge g0 x h ∧ is_host g0 h.
Proof.
  unfold seeds, names. rewrite list_elem_of_filter, elem_of_range_keys, hasHostNeighbor_spec by done.
  split; [tauto|]. intros [Hs Hh]. split; [done|].
  apply is_switch_Some in Hs as (d & ? & _). eauto.
Qed.

Lemma seeds_inv g : relabelled (seeds g0 names) 1 g0 g → tierInv g0 (g, sort_strings (seeds g0 names)).
Proof.
  intros Hrel.
  assert (∀ x, is_switch g0 x → lab g x = if decide (x ∈ seeds g0 names) then 1 else -1) as Hlab.
  { intros x Hx. rewrite (relabelled_lab _ _ _ _ _ Hrel Hx), Hunset by done. done. }
  assert (∀ x, is_switch g0 x → lab g x ≠ -1 → x ∈ seeds g0 names ∧ lab g x = 1) as Hone.
  { intros x Hx. rewrite Hlab by done. by case_decide. }
  assert (∀ x, x ∈ seeds g0 names → lab g x = 1) as Hseed.
  { intros x Hx. rewrite Hlab by (apply elem_of_seeds in Hx; tauto). by rewrite decide_True. }
  split; cbn.
  - eapply relabelled_same_shape; [apply same_shape_refl| |done].
    apply Forall_forall. intros x. rewrite elem_of_seeds. tauto.
  - intros x Hx Hl. destruct (Hone x Hx Hl) as [(_ & h & He & Hh)%elem_of_seeds ->].
    by eapply tier_path_host.
  - intros x h Hx He Hh. apply Hseed, elem_of_seeds. eauto.
  - intros x Hx. rewrite elem_of_sort_strings in Hx. rewrite (Hseed x Hx). apply elem_of_seeds in Hx. split; [tauto|done].
  - intros x y Hx Hl Hnin. rewrite elem_of_sort_strings in Hnin. by destruct (Hone x Hx Hl).
  - apply (StronglySorted_app_le _ [] _ 1); [constructor|set_solver|].
    intros x. rewrite elem_of_sort_strings. auto.
  - intros c rest x Heq Hx Hl. destruct (Hone x Hx Hl) as [_ ->]. rewrite (Hseed c); [lia|].
    rewrite <-elem_of_sort_strings, Heq. set_solver.
Qed.

Lemma seeds_measure g :
  relabelled (seeds g0 names) 1 g0 g →
  (tierMeasure (g, sort_strings (seeds g0 names)) < N.of_nat (S (size (Devices g))))%N.
Proof.
  intros Hrel. unfold tierMeasure. cbn [fst snd]. rewrite (Permutation_length (sort_strings_perm _)).
  assert (size (untiered g0) ≤ size (Devices g))%nat as Hle.
  { rewrite <-size_dom. destruct Hrel as (_ & _ & Hd).
    assert (dom (Devices g) = dom (Devices g0)) as ->.
    { apply set_eq. intros x. rewrite !elem_of_dom, Hd. case_decide; [by rewrite fmap_is_Some|done]. }
    apply subseteq_size. unfold untiered. set_solver. }
  pose proof (untiered_relabelled _ _ _ _ Hrel) as Hu. rewrite Hu; [lia|done| |].
  - apply NoDup_filter, NoDup_range_keys.
  - intros x [Hs _]%elem_of_seeds. unfold untiered. apply elem_of_filter. split; [auto|].
    apply elem_of_dom. apply is_switch_Some in Hs as (d & ? & _). eauto.
Qed.

Lemma InferTiers_correct : ∃ g, InferTiers g0 = Ret g ∧ tiersPost g0 g.
Proof.
  unfold InferTiers. destruct (seedTier_spec g0) as (g & -> & Hrel).
  eapply while_go_total; [by apply infer_loop_ok|by apply seeds_inv|by apply seeds_measure].
Qed.
End whole.
End infer.

(** The tier of a device depends on the graph only, not on the iteration order. *)
Lemma tiersPost_unique g0 g1 g2 : tiersPost g0 g1 → tiersPost g0 g2 → g1 = g2.
Proof.
  intros [Hs1 H1] [Hs2 H2].
  assert (∀ x, Devices g1 !! x = Devices g2 !! x) as Hd.
  { intros x. destruct (decide (is_switch g0 x)) as [Hx|Hx]; last first.
    { by rewrite (ss_hosts _ _ Hs1 x Hx), (ss_hosts _ _ Hs2 x Hx). }
    rewrite (ss_devices _ _ Hs1 x), (ss_devices _ _ Hs2 x). do 2 f_equal.
    destruct (H1 x Hx) as [[-> Hn1]|[Hl1 [Hp1 Hm1]]], (H2 x Hx) as [[-> Hn2]|[Hl2 [Hp2 Hm2]]].
    - done.
    - by apply Hn1 in Hp2.
    - by apply Hn2 in Hp1.
    - apply Hm1 in Hp2. apply Hm2 in Hp1. lia. }
  destruct g1 as [d1 a1 l1], g2 as [d2 a2 l2]. cbn in *. f_equal.
  - by apply map_eq.
  - by rewrite (ss_adj _ _ Hs1 : a1 = _), (ss_adj _ _ Hs2 : a2 = _).
  - by rewrite (ss_links _ _ Hs1 : l1 = _), (ss_links _ _ Hs2 : l2 = _).
Qed.

(** ** Edges between neighbouring tiers *)

(** The edges [NormalizeTierEdges] keeps. *)
Definition adjacent_tiers (g : TopologyGraph) (a b : string) : Prop :=
  0 ≤ lab g a ∧ 0 ≤ lab g b ∧ (lab g a = lab g b + 1 ∨ lab g b = lab g a + 1).

#[export] Instance adjacent_tiers_dec g a b : Decision (adjacent_tiers g a b).
Proof. unfold adjacent_tiers. apply _. Defined.

Lemma adjacent_tiers_sym g a b : adjacent_tiers g a b → adjacent_tiers g b a.
Proof. unfold adjacent_tiers. lia. Qed.

Definition joins (a b x y : string) : Prop := x = a ∧ y = b ∨ x = b ∧ y = a.

Section normalize.
Context `{RangeOrder} (g : TopologyGraph) (Hwf : wf_graph g).

(** The new adjacency has a row per device and holds exactly the pairs of [R]. *)
Definition represents (adj : gmap string (gmap string bool)) (R : string → string → Prop) : Prop :=
  (∀ x, is_Some (adj !! x) ↔ is_Some (Devices g !! x)) ∧
  ∀ x y w, default ∅ (adj !! x) !! y = Some w ↔ w = true ∧ R x y.

Lemma represents_iff adj R R' : (∀ x y, R x y ↔ R' x y) → represents adj R → represents adj R'.
Proof. intros HR [Hd Hr]. split; [done|]. intros x y w. by rewrite Hr, HR. Qed.

Lemma assignEdge_spec adj R a b :
  represents adj R → is_Some (Devices g !! a) →
  ∃ adj', assignEdge adj a b = Ret adj' ∧ represents adj' (fun x y => R x y ∨ x = a ∧ y = b).
Proof.
  intros [Hd Hr] Ha. unfold assignEdge. apply Hd in Ha as [m Hm]. rewrite Hm.
  eexists. split; [done|]. split.
  - intros x. rewrite <-Hd. destruct (decide (a = x)) as [<-|];
      [rewrite lookup_insert_eq, Hm|rewrite lookup_insert_ne by done]; naive_solver.
  - intros x y w. destruct (decide (a = x)) as [<-|].
    + rewrite lookup_insert_eq. cbn. specialize (Hr a y w). rewrite Hm in Hr. cbn in Hr.
      rewrite lookup_insert_Some, Hr. destruct (decide (b = y)); naive_solver.
    + rewrite lookup_insert_ne by done. rewrite Hr. naive_solver.
Qed.

Lemma normalizeEdge_spec adj R a b v :
  represents adj R → is_Some (Devices g !! a) → is_Some (Devices g !! b) →
  ∃ adj', normalizeEdge g a adj (b, v) = Ret adj' ∧
    represents adj' (fun x y => R x y ∨ adjacent_tiers g a b ∧ joins a b x y).
Proof.
  intros Hr Ha Hb. unfold normalizeEdge, abs. fold (lab g a) (lab g b).
  destruct (decide (adjacent_tiers g a b)) as [Hk|Hk].
  - pose proof Hk as (Ha0 & Hb0 & Hab).
    rewrite decide_False by lia. rewrite decide_False by (case_decide; lia).
    destruct (assignEdge_spec adj R a b Hr Ha) as (adj1 & -> & Hr1). cbn.
    destruct (assignEdge_spec adj1 _ b a Hr1 Hb) as (adj2 & -> & Hr2).
    eexists. split; [done|]. eapply represents_iff; [|exact Hr2]. unfold joins. naive_solver.
  - assert (represents adj (fun x y => R x y ∨ adjacent_tiers g a b ∧ joins a b x y)) as Hsame.
    { eapply represents_iff; [|exact Hr]. naive_solver. }
    case_decide; [eauto|]. case_decide as Habs; [eauto|]. destruct Hk. unfold adjacent_tiers.
    case_decide; lia.
Qed.

Lemma normalizeRow_spec adj R a m :
  represents adj R → is_Some (Devices g !! a) → (∀ b, is_Some (m !! b) → is_Some (Devices g !! b)) →
  ∃ adj', go_foldl (normalizeEdge g a) adj (range m) = Ret adj' ∧
    represents adj' (fun x y => R x y ∨ ∃ b, is_Some (m !! b) ∧ adjacent_tiers g a b ∧ joins a b x y).
Proof.
  intros Hr Ha Hm.
  destruct (go_foldl_inv (E:=Empty_set) (fun seen adj => represents adj
    (fun x y => R x y ∨ ∃ b, b ∈ seen.*1 ∧ adjacent_tiers g a b ∧ joins a b x y))
    (normalizeEdge g a) (range m) adj) as (adj' & Heq & Hr').
  - eapply represents_iff; [|exact Hr]. set_solver.
  - intros seen [b v] todo adj1 Heq Hr1. cbv beta in Hr1.
    assert (is_Some (m !! b)) as Hb.
    { exists v. apply elem_of_range. rewrite Heq. set_solver. }
    destruct (normalizeEdge_spec adj1 _ a b v Hr1 Ha (Hm b Hb)) as (adj2 & -> & Hr2).
    exists adj2. split; [done|]. eapply represents_iff; [|exact Hr2].
    intros x y. rewrite fmap_app. cbn. setoid_rewrite elem_of_app.
    setoid_rewrite list_elem_of_singleton. naive_solver.
  - exists adj'. split; [done|]. eapply represents_iff; [|exact Hr'].
    intros x y. cbv beta. by setoid_rewrite elem_of_range_keys.
Qed.

Lemma emptyRows_lookup (l : list (string * Device)) (x : string) (m : gmap string bool) :
  foldl (fun (newAdj : gmap string (gmap string bool)) '(name, _) => <[name := ∅]> newAdj) ∅ l !! x = Some m ↔
  m = ∅ ∧ x ∈ l.*1.
Proof.
  apply (foldl_inv (fun l (adj : gmap string (gmap string bool)) => adj !! x = Some m ↔ m = ∅ ∧ x ∈ l.*1)).
  - rewrite lookup_empty. set_solver.
  - intros seen [y d] todo adj _ IH. rewrite fmap_app, lookup_insert_Some, IH. cbn.
    rewrite elem_of_app, list_elem_of_singleton. destruct (decide (y = x)); naive_solver.
Qed.

Lemma emptyRows_spec :
  represents (foldl (fun newAdj '(name, _) => <[name := ∅]> newAdj) ∅ (range (Devices g)))
    (fun _ _ => False).
Proof.
  set (adj := foldl _ _ _).
  assert (∀ x m, adj !! x = Some m ↔ m = ∅ ∧ is_Some (Devices g !! x)) as Hl.
  { intros x m. by rewrite <-elem_of_range_keys, <-emptyRows_lookup. }
  split.
  - intros x. split; [intros [m Hm%Hl]; tauto|]. intros Hx. exists ∅. by apply Hl.
  - intros x y w. destruct (adj !! x) as [m|] eqn:Hm; cbn; [apply Hl in Hm as [-> _]|];
      rewrite lookup_empty; naive_solver.
Qed.

Lemma NormalizeTierEdges_correct :
  ∃ g', NormalizeTierEdges g = Ret g' ∧ Devices g' = Devices g ∧ Links g' = Links g ∧ wf_graph g' ∧
    ∀ a b, edge g' a b ↔ edge g a b ∧ adjacent_tiers g a b.
Proof.
  unfold NormalizeTierEdges.
  destruct (go_foldl_inv (E:=Empty_set) (fun (seen : list (string * gmap string bool)) adj =>
    represents adj (fun x y => ∃ a b, a ∈ seen.*1 ∧ edge g a b ∧ adjacent_tiers g a b ∧ joins a b x y))
    (fun newAdj '(a, neighbors) => go_foldl (normalizeEdge g a) newAdj (range neighbors))
    (range (Adj g)) (foldl (fun newAdj '(name, _) => <[name := ∅]> newAdj) ∅ (range (Devices g))))
    as (adj & Heq & Hd & Hr).
  - eapply represents_iff; [|exact emptyRows_spec]. set_solver.
  - intros seen [a m] todo adj1 Heq Hr1. cbv beta in Hr1.
    assert (Adj g !! a = Some m) as Hm. { apply elem_of_range. rewrite Heq. set_solver. }
    assert (∀ b, is_Some (m !! b) ↔ edge g a b) as Hrow.
    { intros b. rewrite <-(adj_lookup_edge g a b Hwf). unfold adj_at. by rewrite Hm. }
    destruct (normalizeRow_spec adj1 _ a m Hr1) as (adj2 & -> & Hr2).
    + apply (wf_dom _ Hwf). eauto.
    + intros b Hb%Hrow. eauto with unifabric.
    + exists adj2. split; [done|]. eapply represents_iff; [|exact Hr2].
      intros x y. cbv beta. setoid_rewrite Hrow. rewrite fmap_app. cbn. setoid_rewrite elem_of_app.
      setoid_rewrite list_elem_of_singleton. split.
      * intros [(a' & b & ? & ?)|(b & ?)]; [exists a', b|exists a, b]; tauto.
      * intros (a' & b & [?| ->] & ?); [left; by exists a', b|right; by exists b].
  - rewrite Heq. cbn. eexists. split; [done|]. split; [done|]. split; [done|].
    assert (∀ x y w, adj_at (set_Adj adj g) x !! y = Some w ↔
      w = true ∧ edge g x y ∧ adjacent_tiers g x y) as Hat.
    { intros x y w. unfold adj_at. cbn. rewrite Hr. apply and_iff_compat_l. split.
      - intros (a & b & _ & He & Ht & [[-> ->]|[-> ->]]); [done|].
        split; [by apply Hwf|by apply adjacent_tiers_sym].
      - intros [He Ht]. exists x, y. split_and!; [|done|done|by left].
        apply elem_of_range_keys. eapply edge_dom, He. }
    assert (∀ x y, edge (set_Adj adj g) x y ↔ edge g x y ∧ adjacent_tiers g x y) as Hedge.
    { intros x y. unfold edge at 1, flag. specialize (Hat x y).
      destruct (adj_at (set_Adj adj g) x !! y) as [w|]; cbn; [|naive_solver].
      destruct (proj1 (Hat w) eq_refl) as [-> ?]. naive_solver. }
    split; [split|done].
    + apply Hd.
    + intros x y. rewrite !Hedge. intros [He Ht]. split; [by apply Hwf|by apply adjacent_tiers_sym].
    + intros x y b Hb. by apply Hat in Hb as [-> _].
    + intros x d. apply (wf_name _ Hwf).
    + intros x d. apply (wf_type _ Hwf).
Qed.
End normalize.
