(* ===== verification/Zones.v ===== *)
(** * Zones

    [CollectConnectedZones] of src/pkg/topology/topology.go splits the devices
    that some host reaches into connected components, and [BuildZoneDeviceView]
    indexes the devices of one component by tier. *)
From stdpp Require Import base gmap sets list strings sorting fin_maps relations.
From Stdlib Require Import ZArith.
From S2P Require Import Prelude GoStrings Bfs Sha1 Topology GraphFacts Tiers.
Local Open Scope Z_scope.

(** Two devices are connected when a walk of edges joins them. *)
Definition connected (g : TopologyGraph) : string → string → Prop := rtc (edge g).

Lemma connected_sym g x y : wf_graph g → connected g x y → connected g y x.
Proof.
  intros Hwf Hc. assert (Symmetric (edge g)) as Hs by (intros a b; apply Hwf).
  pose proof (rtc_equivalence Hs) as Heq. by apply (@Equivalence_Symmetric _ _ Heq).
Qed.

Lemma connected_trans g x y z : connected g x y → connected g y z → connected g x z.
Proof. apply rtc_trans. Qed.

Lemma connected_device g x y : wf_graph g → is_Some (Devices g !! x) → connected g x y →
  is_Some (Devices g !! y).
Proof. intros Hwf Hx [<-|(a & _ & He)]%rtc_inv_r; eauto with unifabric. Qed.

Section zones.
Context `{RangeOrder} (g : TopologyGraph).

Lemma elem_of_collectHostStarts x : x ∈ collectHostStarts g ↔ is_host g x.
Proof.
  unfold collectHostStarts. rewrite elem_of_sort_strings.
  assert (x ∈ foldl (fun (starts : list string) '(name, d) =>
      if decide (Device_Type d = DeviceHost) then starts ++ [name] else starts) [] (range (Devices g)) ↔
    ∃ d, (x, d) ∈ range (Devices g) ∧ Device_Type d = DeviceHost) as ->.
  { generalize (range (Devices g)). intros l.
    apply (foldl_inv (fun l (starts : list string) => x ∈ starts ↔ ∃ d, (x, d) ∈ l ∧ Device_Type d = DeviceHost)).
    - set_solver.
    - intros seen [y d] todo starts _ IH. setoid_rewrite elem_of_app. setoid_rewrite list_elem_of_singleton.
      case_decide; [rewrite elem_of_app, list_elem_of_singleton|]; naive_solver. }
  setoid_rewrite elem_of_range. unfold is_host, device_at.
  destruct (Devices g !! x) as [d|]; cbn; naive_solver.
Qed.

(** ** One zone *)
Let succ v := sortedBoolKeys (adj_at g v).
Let universe := (map_to_list (Adj g)).*1.

Definition zone_of_bfs (st : bfsState (A:=list string)) : zoneState :=
  ZoneState (bs_queue st) (bs_visited st) (bs_acc st).

Lemma zoneStep_bfs st :
  zoneStep g (zone_of_bfs st) =
  sum_map zone_of_bfs (fun st => (bs_acc st, bs_visited st))
    (bfsStep succ (fun acc v => acc ++ [v]) st).
Proof.
  unfold zoneStep, bfsStep. destruct st as [[|c queue] visited acc]; [done|]. cbn.
  destruct (flag visited c); [done|]. cbn. unfold zone_of_bfs. cbn. do 2 f_equal.
  rewrite (foldl_snoc_filter (fun y => negb (flag (<[c:=true]> visited) y)) (fun y => y)).
  by rewrite list_fmap_id.
Qed.

Lemma sortedBoolKeys_empty : sortedBoolKeys ∅ = [].
Proof.
  destruct (sortedBoolKeys ∅) as [|y l] eqn:Hk; [done|].
  assert (y ∈ sortedBoolKeys ∅) as Hy by (rewrite Hk; set_solver).
  rewrite elem_of_sortedBoolKeys in Hy. by unfold flag in Hy; rewrite lookup_empty in Hy.
Qed.

Lemma succ_outside u : u ∉ universe → succ u = [].
Proof.
  intros Hu. unfold succ, adj_at. destruct (Adj g !! u) as [m|] eqn:Hm; [|apply sortedBoolKeys_empty].
  destruct Hu. apply list_elem_of_fmap. exists (u, m). by rewrite elem_of_map_to_list.
Qed.

Lemma collectZone_bfs visited start :
  flag visited start = false →
  ∃ order visited', collectZoneDeviceNames g start visited = Ret (sort_strings order, visited') ∧
    NoDup order ∧
    (∀ x, flag visited' x = flag visited x || bool_decide (x ∈ order)) ∧
    (∀ x, x ∈ order ↔ rtc (fun a b => edge g a b ∧ flag visited b = false) start x).
Proof.
  intros Hs. unfold collectZoneDeviceNames.
  destruct (bfs_total succ (fun acc v => acc ++ [v]) visited [] start universe
    (NoDup_fst_map_to_list _) Hs (fun u _ => succ_outside u) (E:=Empty_set))
    as (st & Hrun & order & Hnd & Hacc & Hvis & Hreach).
  apply (while_go_sim _ _ _ _ zoneStep_bfs) in Hrun. cbn in Hrun.
  unfold zone_of_bfs in Hrun. cbn in Hrun. unfold succ, universe in Hrun. rewrite Hrun. cbn.
  exists order, (bs_visited st). rewrite Hacc, foldl_snoc, list_fmap_id. cbn.
  split_and!; [done..|]. intros x. rewrite Hreach. unfold freshEdge, succ.
  split; apply (rtc_congruence (fun x => x)); intros a b; by rewrite elem_of_sortedBoolKeys.
Qed.

(** Searching from an unmarked vertex when the marked ones are whole components. *)
Lemma rtc_fresh_connected (Hwf : wf_graph g) visited start x :
  (∀ a b, edge g a b → flag visited a = true → flag visited b = true) → flag visited start = false →
  rtc (fun a b => edge g a b ∧ flag visited b = false) start x ↔ connected g start x.
Proof.
  intros Hcl Hs. split.
  - apply (rtc_congruence (fun x => x)). by intros ? ? [].
  - intros Hc. revert Hs. induction Hc as [|a b c He Hc IH]; intros Ha; [done|].
    assert (flag visited b = false) as Hb.
    { destruct (flag visited b) eqn:Hb; [|done]. rewrite (Hcl b a) in Ha; [done|by apply Hwf|done]. }
    eapply rtc_l; [by split|auto].
Qed.

(** ** All zones *)
Section all_zones.
Context (Hwf : wf_graph g).

(** A sorted enumeration of the component of [start]. *)
Definition is_zone (start : string) (zone : list string) : Prop :=
  Sorted String.le zone ∧ NoDup zone ∧ ∀ x, x ∈ zone ↔ connected g start x.

Record zonesInv (seen : list string) (zones : list (list string)) (visited : gmap string bool) : Prop := {
  zi_visited : ∀ x, flag visited x = true ↔ ∃ s, s ∈ seen ∧ connected g s x;
  zi_zone : ∀ zone, zone ∈ zones → ∃ s, s ∈ seen ∧ is_zone s zone;
  zi_cover : ∀ x, flag visited x = true ↔ x ∈ mjoin zones;
  zi_nodup : NoDup (mjoin zones)
}.

Lemma zonesInv_closed seen zones visited a b :
  zonesInv seen zones visited → edge g a b → flag visited a = true → flag visited b = true.
Proof.
  intros Hinv He. rewrite !(zi_visited _ _ _ Hinv). intros (s & Hs & Hc). exists s. split; [done|].
  by eapply rtc_r.
Qed.

Lemma zonesInv_skip seen zones visited s :
  zonesInv seen zones visited → flag visited s = true → zonesInv (seen ++ [s]) zones visited.
Proof.
  intros Hinv Hs. split; try apply Hinv.
  - intros x. rewrite (zi_visited _ _ _ Hinv). split; [set_solver|].
    intros (t & [Ht|Ht]%elem_of_app & Hc); [eauto|]. apply list_elem_of_singleton in Ht as ->.
    apply (zi_visited _ _ _ Hinv) in Hs as (u & Hu & Hc'). exists u. split; [done|].
    by eapply connected_trans.
  - intros zone Hz. destruct (zi_zone _ _ _ Hinv zone Hz) as (t & ? & ?). exists t. set_solver.
Qed.

Lemma zonesInv_add seen zones visited s order visited' :
  zonesInv seen zones visited → flag visited s = false → NoDup order →
  (∀ x, flag visited' x = flag visited x || bool_decide (x ∈ order)) →
  (∀ x, x ∈ order ↔ connected g s x) →
  zonesInv (seen ++ [s]) (zones ++ [sort_strings order]) visited'.
Proof.
  intros Hinv Hs Hnd Hvis Hord.
  assert (∀ x, flag visited' x = true ↔ flag visited x = true ∨ connected g s x) as Hvis'.
  { intros x. rewrite Hvis, orb_true_iff, bool_decide_eq_true. by rewrite Hord. }
  assert (∀ x, x ∈ mjoin (zones ++ [sort_strings order]) ↔ x ∈ mjoin zones ∨ connected g s x) as Hjoin.
  { intros x. rewrite join_app, elem_of_app. cbn. rewrite app_nil_r.
    by rewrite elem_of_sort_strings, Hord. }
  split.
  - intros x. rewrite Hvis', (zi_visited _ _ _ Hinv). setoid_rewrite elem_of_app.
    setoid_rewrite list_elem_of_singleton. naive_solver.
  - intros zone [Hz|Hz]%elem_of_app.
    + destruct (zi_zone _ _ _ Hinv zone Hz) as (t & ? & ?). exists t. set_solver.
    + apply list_elem_of_singleton in Hz as ->. exists s. split; [set_solver|].
      split_and!; [apply sort_strings_sorted|by apply NoDup_sort_strings|].
      intros x. by rewrite elem_of_sort_strings.
  - intros x. by rewrite Hvis', Hjoin, (zi_cover _ _ _ Hinv).
  - rewrite join_app. apply NoDup_app. split; [apply Hinv|]. cbn. rewrite app_nil_r.
    split; [|by apply NoDup_sort_strings]. intros x Hx. rewrite elem_of_sort_strings, Hord. intros Hc.
    apply (zi_cover _ _ _ Hinv) in Hx. apply (zi_visited _ _ _ Hinv) in Hx as (t & Ht & Hc').
    assert (flag visited s = true); [|congruence]. apply (zi_visited _ _ _ Hinv).
    exists t. split; [done|]. eapply connected_trans; [done|]. by apply connected_sym.
Qed.

(** What the zones of a graph are. *)
Definition zonesPost (zones : list (list string)) : Prop :=
  (∀ zone, zone ∈ zones → ∃ h, is_host g h ∧ is_zone h zone) ∧
  (∀ h, is_host g h → ∃ zone, zone ∈ zones ∧ h ∈ zone) ∧
  NoDup (mjoin zones).

Lemma CollectConnectedZones_correct : ∃ zones, CollectConnectedZones g = Ret zones ∧ zonesPost zones.
Proof.
  unfold CollectConnectedZones.
  edestruct (go_foldl_inv (E:=Empty_set) (fun seen '(zones, visited) => zonesInv seen zones visited))
    as ([zones visited] & -> & Hinv); last first.
  { cbn. exists zones. split; [done|]. split_and!; [| |apply Hinv].
    - intros zone Hz. destruct (zi_zone _ _ _ Hinv zone Hz) as (h & Hh & ?). exists h.
      by rewrite elem_of_collectHostStarts in Hh.
    - intros h Hh. assert (flag visited h = true) as Hv.
      { apply (zi_visited _ _ _ Hinv). exists h. split; [by apply elem_of_collectHostStarts|apply rtc_refl]. }
      apply (zi_cover _ _ _ Hinv), list_elem_of_join in Hv as (zone & ? & ?). eauto. }
  - intros seen s todo [zones visited] _ Hinv.
    destruct (flag visited s) eqn:Hs; [eexists (_, _); split; [done|by apply zonesInv_skip]|].
    destruct (collectZone_bfs visited s Hs) as (order & visited' & -> & Hnd & Hvis & Hord). cbn.
    eexists (_, _). split; [done|]. eapply zonesInv_add; [done..|].
    intros x. rewrite Hord. apply rtc_fresh_connected; [done| |done].
    intros a b. by apply (zonesInv_closed seen zones).
  - split; cbn; [|set_solver|set_solver|apply NoDup_nil_2].
    intros x. unfold flag. rewrite lookup_empty. set_solver.
Qed.
End all_zones.

(** ** The view of one zone *)
Section view.
Context (names : list string).

Lemma Zone_Devices_lookup x :
  Zone_Devices (BuildZoneDeviceView g names) !! x =
  if decide (x ∈ names) then Some (device_at g x) else None.
Proof.
  assert (∀ d, Zone_Devices (BuildZoneDeviceView g names) !! x = Some d ↔ x ∈ names ∧ d = device_at g x) as Hl.
  { intros d. apply (foldl_inv (fun l zone => Zone_Devices zone !! x = Some d ↔ x ∈ l ∧ d = device_at g x)); cbn.
    - rewrite lookup_empty. set_solver.
    - intros seen y todo zone _ IH. rewrite lookup_insert_Some, IH, elem_of_app, list_elem_of_singleton.
      destruct (decide (y = x)); naive_solver. }
  case_decide as Hx; [by apply Hl|]. apply eq_None_not_Some. intros [d Hd]. by apply Hl in Hd as [? _].
Qed.

Lemma DevicesByTier_lookup tier x d :
  default ∅ (DevicesByTier (BuildZoneDeviceView g names) !! tier) !! x = Some d ↔
  x ∈ names ∧ d = device_at g x ∧ lab g x = tier.
Proof.
  apply (foldl_inv (fun l zone => default ∅ (DevicesByTier zone !! tier) !! x = Some d ↔
    x ∈ l ∧ d = device_at g x ∧ lab g x = tier)); cbn.
  - rewrite !lookup_empty. set_solver.
  - intros seen y todo zone _ IH. rewrite elem_of_app, list_elem_of_singleton. unfold lab in *.
    destruct (decide (Tier (device_at g y) = tier)) as [Ht|Ht].
    + rewrite Ht, lookup_insert_eq. cbn. rewrite lookup_insert_Some, IH.
      destruct (decide (y = x)); naive_solver.
    + rewrite lookup_insert_ne by done. rewrite IH. destruct (decide (y = x)); naive_solver.
Qed.

Lemma DevicesByTier_keys tier :
  is_Some (DevicesByTier (BuildZoneDeviceView g names) !! tier) ↔ ∃ x, x ∈ names ∧ lab g x = tier.
Proof.
  apply (foldl_inv (fun l zone => is_Some (DevicesByTier zone !! tier) ↔ ∃ x, x ∈ l ∧ lab g x = tier)); cbn.
  - rewrite lookup_empty. split; [by intros []|set_solver].
  - intros seen y todo zone _ IH. setoid_rewrite elem_of_app. setoid_rewrite list_elem_of_singleton.
    unfold lab in *. destruct (decide (Tier (device_at g y) = tier)) as [Ht|Ht].
    + rewrite Ht, lookup_insert_eq. naive_solver.
    + rewrite lookup_insert_ne by done. rewrite IH. naive_solver.
Qed.
End view.
End zones.
