(* ===== verification/Groups.v ===== *)
(** * Groups

    [BuildTierGroups] of src/pkg/topology/topology.go puts the devices of a tier
    into one group when a chain of shared lower groups joins them. *)
From stdpp Require Import base gmap sets list strings sorting fin_maps relations.
From Stdlib Require Import ZArith.
From S2P Require Import Prelude GoStrings Bfs Sha1 Topology GraphFacts Tiers Zones.
Local Open Scope Z_scope.

(** ** Duplicates of a sorted slice *)
Lemma elem_of_dedupe_after x v l : x ∈ v :: dedupe_after v l ↔ x ∈ v :: l.
Proof.
  revert v. induction l as [|y l IH]; intros v; [done|]. cbn. specialize (IH y).
  rewrite !elem_of_cons in IH. case_decide as Hy; rewrite !elem_of_cons; [tauto|].
  assert (y = v) as -> by (by destruct (decide (y = v))). tauto.
Qed.

Lemma elem_of_dedupeSortedStrings x l : x ∈ dedupeSortedStrings l ↔ x ∈ l.
Proof. destruct l; [done|]. apply elem_of_dedupe_after. Qed.

Lemma dedupe_after_spec v l :
  Sorted String.le (v :: l) →
  NoDup (v :: dedupe_after v l) ∧ Sorted String.le (v :: dedupe_after v l).
Proof.
  revert v. induction l as [|y l IH]; intros v Hs.
  { cbn. split; [apply NoDup_singleton|done]. }
  apply Sorted_inv in Hs as [Hs Hle]. inversion_clear Hle as [|? ? Hvy].
  destruct (IH y Hs) as [Hnd Hsd]. cbn. case_decide as Hne; last first.
  { assert (y = v) as -> by (by destruct (decide (y = v))). done. }
  split.
  - apply NoDup_cons. split; [|done]. intros Hin. rewrite elem_of_dedupe_after in Hin.
    apply Hne. apply (anti_symm String.le); [|done].
    apply Sorted_StronglySorted in Hs; [|apply _]. apply StronglySorted_inv in Hs as [_ Hall].
    rewrite Forall_forall in Hall. apply elem_of_cons in Hin as [->|Hin]; [done|auto].
  - constructor; [done|]. by constructor.
Qed.

Lemma dedupeSortedStrings_spec l :
  Sorted String.le l → NoDup (dedupeSortedStrings l) ∧ Sorted String.le (dedupeSortedStrings l).
Proof. destruct l as [|v l]; [split; constructor|]. apply dedupe_after_spec. Qed.

(** ** Sharing a lower group *)
Section groups.
Context `{RangeOrder} (g : TopologyGraph) (zone : ZoneDeviceView) (tier : Z)
  (lower : gmap string string).

Definition tierDevices : gmap string Device := default ∅ (DevicesByTier zone !! tier).
Definition inTier (x : string) : Prop := is_Some (tierDevices !! x).

(** [n] is a neighbour of [x] in the zone, [k] tiers up. *)
Definition zoneNeighbor (k : Z) (x n : string) : Prop :=
  edge g x n ∧ ∃ d, Zone_Devices zone !! n = Some d ∧ Tier d = tier + k.

Definition lowerGroup (x G : string) : Prop :=
  ∃ n, zoneNeighbor (-1) x n ∧ G = groupNameOfDevice n lower.

Definition shares (x y : string) : Prop :=
  inTier y ∧ ∃ G, lowerGroup x G ∧ lowerGroup y G.

Lemma append_at_elem (k k' : string) (x y : string) (m : gmap string (list string)) :
  y ∈ default [] (append_at k x m !! k') ↔ y ∈ default [] (m !! k') ∨ k' = k ∧ y = x.
Proof.
  unfold append_at. destruct (decide (k = k')) as [->|Hne].
  - rewrite lookup_insert_eq. cbn. rewrite elem_of_app, list_elem_of_singleton. naive_solver.
  - rewrite lookup_insert_ne by done. naive_solver.
Qed.

Lemma recordLowerGroup_elem x result n G y :
  y ∈ default [] (recordLowerGroup zone tier lower x result n !! G) ↔
  y ∈ default [] (result !! G) ∨
  y = x ∧ G = groupNameOfDevice n lower ∧ ∃ d, Zone_Devices zone !! n = Some d ∧ Tier d = tier - 1.
Proof.
  unfold recordLowerGroup. destruct (Zone_Devices zone !! n) as [d|]; [|naive_solver].
  case_decide as Ht.
  - split; [by left|]. intros [?|(_ & _ & d' & [= <-] & ?)]; [done|]. contradiction.
  - assert (Tier d = tier - 1) by lia. rewrite append_at_elem. naive_solver.
Qed.

Lemma recordLowerGroups_elem x result ns G y :
  y ∈ default [] (foldl (recordLowerGroup zone tier lower x) result ns !! G) ↔
  y ∈ default [] (result !! G) ∨
  y = x ∧ ∃ n, n ∈ ns ∧ G = groupNameOfDevice n lower ∧
    ∃ d, Zone_Devices zone !! n = Some d ∧ Tier d = tier - 1.
Proof.
  apply (foldl_inv (fun ns (m : gmap string (list string)) => y ∈ default [] (m !! G) ↔
    y ∈ default [] (result !! G) ∨ y = x ∧ ∃ n, n ∈ ns ∧ G = groupNameOfDevice n lower ∧
      ∃ d, Zone_Devices zone !! n = Some d ∧ Tier d = tier - 1)); [set_solver|].
  intros seen n todo m _ IH. rewrite recordLowerGroup_elem, IH.
  setoid_rewrite elem_of_app. setoid_rewrite list_elem_of_singleton. split.
  - intros [[?|(-> & n' & ?)]|(-> & -> & ?)];
      [by left|right; split; [done|]; exists n'; tauto|right; split; [done|]; exists n; tauto].
  - intros [?|(-> & n' & [Hn| ->] & ?)];
      [tauto|left; right; split; [done|]; exists n'; tauto|right; tauto].
Qed.

Lemma lowerGroupToTierDevices_elem G y :
  y ∈ default [] (buildLowerGroupToTierDevices g zone tier lower !! G) ↔ inTier y ∧ lowerGroup y G.
Proof.
  unfold buildLowerGroupToTierDevices, inTier, tierDevices.
  destruct (DevicesByTier zone !! tier) as [devs|]; cbn; last first.
  { rewrite lookup_empty. cbn. split; [set_solver|]. intros [[d Hd] _]. by rewrite lookup_empty in Hd. }
  set (collected := foldl _ ∅ (sortedDeviceNames devs)).
  assert (∀ G y, y ∈ default [] (collected !! G) ↔ is_Some (devs !! y) ∧ lowerGroup y G) as Hcol.
  { clear G y. intros G y. rewrite <-elem_of_sortedDeviceNames. unfold collected.
    apply (foldl_inv (fun seen (m : gmap string (list string)) =>
      y ∈ default [] (m !! G) ↔ y ∈ seen ∧ lowerGroup y G)).
    { rewrite lookup_empty. cbn. set_solver. }
    intros seen x todo m _ IH. rewrite elem_of_app, list_elem_of_singleton.
    rewrite recordLowerGroups_elem, IH. unfold lowerGroup, zoneNeighbor, edge. setoid_rewrite elem_of_sortedBoolKeys.
    split; [|naive_solver].
    intros [[? ?]|(-> & n & ? & ? & ?)]; [naive_solver|]. split; [by right|]. by exists n. }
  rewrite <-Hcol. generalize (range collected). intros l.
  apply (foldl_inv (fun _ (m : gmap string (list string)) =>
    y ∈ default [] (m !! G) ↔ y ∈ default [] (collected !! G))); [done|].
  intros seen [G' v] todo m _ IH. destruct (decide (G' = G)) as [->|Hne].
  - rewrite lookup_insert_eq. cbn. by rewrite elem_of_dedupeSortedStrings, elem_of_sort_strings.
  - by rewrite lookup_insert_ne.
Qed.

(** ** The queue loop *)
Let table := buildLowerGroupToTierDevices g zone tier lower.
Let related := relatedDevices g zone tier lower table.

Lemma elem_of_related x y : y ∈ related x ↔ shares x y.
Proof.
  unfold related, relatedDevices. rewrite list_elem_of_join. setoid_rewrite list_elem_of_fmap. split.
  - intros (l & Hy & n & -> & Hn). rewrite elem_of_sortedBoolKeys in Hn.
    destruct (Zone_Devices zone !! n) as [d|] eqn:Hd; [|set_solver].
    case_decide as Ht; [|set_solver]. apply lowerGroupToTierDevices_elem in Hy as [Hi Hl].
    split; [done|]. eexists. split; [|done]. exists n. split; [|done]. split; [done|]. eexists. split; [done|lia].
  - intros (Hi & G & (n & [He (d & Hd & Ht)] & ->) & Hl).
    eexists. split; [by apply lowerGroupToTierDevices_elem|]. exists n.
    rewrite Hd, decide_True by lia. split; [done|]. by apply elem_of_sortedBoolKeys.
Qed.

(** What visiting a device records: members, lower and upper neighbours. *)
Definition groupAcc : Type := gmap string Device * gmap string Device * gmap string Device.

Definition recordAt (k : Z) (m : gmap string Device) (n : string) : gmap string Device :=
  match Zone_Devices zone !! n with
  | Some d => if decide (Tier d = tier + k) then <[n := d]> m else m
  | None => m
  end.

Definition groupVisit (acc : groupAcc) (x : string) : groupAcc :=
  let ns := sortedBoolKeys (adj_at g x) in
  (<[x := default zeroDevice (Zone_Devices zone !! x)]> acc.1.1,
   foldl (recordAt (-1)) acc.1.2 ns, foldl (recordAt 1) acc.2 ns).

Definition group_of_bfs (st : bfsState (A:=groupAcc)) : groupState :=
  GroupState (bs_queue st) (bs_visited st) (bs_acc st).1.1 (bs_acc st).1.2 (bs_acc st).2.

Lemma scanNeighbor_foldl ns queue processed members lo up :
  foldl (scanNeighbor zone tier lower table) (GroupState queue processed members lo up) ns =
  GroupState (queue ++ filter (fun y => negb (flag processed y) = true)
      (mjoin ((fun n => match Zone_Devices zone !! n with
        | None => []
        | Some d => if decide (Tier d = tier - 1) then
            default [] (table !! groupNameOfDevice n lower) else []
        end) <$> ns)))
    processed members (foldl (recordAt (-1)) lo ns) (foldl (recordAt 1) up ns).
Proof.
  revert queue lo up. induction ns as [|n ns IH]; intros queue lo up; cbn.
  { by rewrite app_nil_r. }
  unfold scanNeighbor at 2, recordAt at 2 4. destruct (Zone_Devices zone !! n) as [d|]; [|by rewrite IH].
  replace (tier + -1) with (tier - 1) by lia.
  destruct (decide (Tier d = tier - 1)) as [Hlo|Hlo].
  - rewrite decide_False by lia. cbn.
    rewrite (foldl_snoc_filter (fun y => negb (flag processed y)) (fun y => y)), list_fmap_id, IH.
    by rewrite filter_app, <-app_assoc, (decide_False (P:=Tier d = tier + 1)) by lia.
  - case_decide; cbn; by rewrite IH.
Qed.

Lemma groupStep_bfs st :
  groupStep g zone tier lower table (group_of_bfs st) =
  sum_map group_of_bfs group_of_bfs (bfsStep related groupVisit st).
Proof.
  unfold groupStep, bfsStep. destruct st as [[|c queue] visited [[members lo] up]]; [done|]. cbn.
  destruct (flag visited c); [done|]. cbn. rewrite scanNeighbor_foldl. done.
Qed.

Lemma recordAt_foldl k m ns n :
  is_Some (foldl (recordAt k) m ns !! n) ↔
  is_Some (m !! n) ∨ n ∈ ns ∧ ∃ d, Zone_Devices zone !! n = Some d ∧ Tier d = tier + k.
Proof.
  apply (foldl_inv (fun ns m' => is_Some (m' !! n) ↔ is_Some (m !! n) ∨
    n ∈ ns ∧ ∃ d, Zone_Devices zone !! n = Some d ∧ Tier d = tier + k)); [set_solver|].
  intros seen y todo m' _ IH. rewrite elem_of_app, list_elem_of_singleton. unfold recordAt.
  destruct (decide (y = n)) as [->|Hne].
  - destruct (Zone_Devices zone !! n) as [d|]; [|naive_solver].
    case_decide; [rewrite lookup_insert_eq|]; naive_solver.
  - destruct (Zone_Devices zone !! y) as [d|]; [|naive_solver].
    case_decide; [rewrite lookup_insert_ne by done|]; naive_solver.
Qed.

Lemma groupVisit_foldl order :
  let acc := foldl groupVisit (∅, ∅, ∅) order in
  (∀ x, is_Some (acc.1.1 !! x) ↔ x ∈ order) ∧
  (∀ n, is_Some (acc.1.2 !! n) ↔ ∃ x, x ∈ order ∧ zoneNeighbor (-1) x n) ∧
  (∀ n, is_Some (acc.2 !! n) ↔ ∃ x, x ∈ order ∧ zoneNeighbor 1 x n).
Proof.
  apply (foldl_inv (fun order (acc : groupAcc) => (∀ x, is_Some (acc.1.1 !! x) ↔ x ∈ order) ∧
    (∀ n, is_Some (acc.1.2 !! n) ↔ ∃ x, x ∈ order ∧ zoneNeighbor (-1) x n) ∧
    (∀ n, is_Some (acc.2 !! n) ↔ ∃ x, x ∈ order ∧ zoneNeighbor 1 x n))); cbn.
  { split_and!; intros x; rewrite lookup_empty; (split; [by intros []|set_solver]). }
  intros seen y todo acc _ (Hm & Hlo & Hup). unfold zoneNeighbor, edge in *.
  setoid_rewrite elem_of_app. setoid_rewrite list_elem_of_singleton. split_and!.
  - intros x. destruct (decide (y = x)) as [->|Hne];
      [rewrite lookup_insert_eq|rewrite lookup_insert_ne, Hm by done]; naive_solver.
  - intros n. rewrite recordAt_foldl, Hlo, elem_of_sortedBoolKeys. split.
    + intros [(x & ? & ?)|?]; [by exists x; auto|exists y; auto].
    + intros (x & [?| ->] & ?); [left; by exists x|by right].
  - intros n. rewrite recordAt_foldl, Hup, elem_of_sortedBoolKeys. split.
    + intros [(x & ? & ?)|?]; [by exists x; auto|exists y; auto].
    + intros (x & [?| ->] & ?); [left; by exists x|by right].
Qed.

(** ** One group *)
Context (opts : DiscoverOptions).

(** The devices a chain of shared lower groups joins to [x]. *)
Definition sameGroup : string → string → Prop := rtc shares.

Record groupOf (x : string) (G : TopologyGroup) : Prop := {
  go_name : Group_Name G = GenerateGroupName (Members G) opts;
  go_tier : Group_Tier G = tier;
  go_members : ∀ y, y ∈ Members G ↔ sameGroup x y;
  go_members_sorted : Sorted String.le (Members G) ∧ NoDup (Members G);
  go_lower : ∀ n, n ∈ LowerTierNodes G ↔ ∃ y, y ∈ Members G ∧ zoneNeighbor (-1) y n;
  go_upper : ∀ n, n ∈ UpperTierNodes G ↔ ∃ y, y ∈ Members G ∧ zoneNeighbor 1 y n;
  go_nodes_sorted : Sorted String.le (LowerTierNodes G) ∧ NoDup (LowerTierNodes G) ∧
    Sorted String.le (UpperTierNodes G) ∧ NoDup (UpperTierNodes G)
}.

Lemma shares_sym x y : inTier x → shares x y → shares y x.
Proof. intros Hx (Hy & G & ? & ?). split; [done|]. eauto. Qed.

Lemma sameGroup_inTier x y : inTier x → sameGroup x y → inTier y.
Proof. intros Hx [<-|(z & _ & Hs & _)]%rtc_inv_r; [done|]. done. Qed.

Lemma sameGroup_sym x y : inTier x → sameGroup x y → sameGroup y x.
Proof.
  intros Hx Hxy. induction Hxy as [|x z y Hs Hzy IH]; [apply rtc_refl|].
  pose proof (proj1 Hs) as Hz. eapply rtc_r; [by apply IH|]. by apply shares_sym.
Qed.

Lemma sortedNames_sorted {T} (m : gmap string T) : Sorted String.le (sortedNamesFromMap m).
Proof. apply sort_strings_sorted. Qed.

Lemma buildGroup_new processed groups name :
  let names := sortedDeviceNames tierDevices in
  inTier name → flag processed name = false →
  (∀ x y, inTier x → flag processed x = true → shares x y → flag processed y = true) →
  (∀ x, flag processed x = true → inTier x) →
  ∃ processed' G, buildGroup g zone tier lower opts table names (processed, groups) name =
      Ret (processed', groups ++ [G]) ∧ groupOf name G ∧
    ∀ x, flag processed' x = flag processed x || bool_decide (x ∈ Members G).
Proof.
  intros names Hname Hf Hcl Hin. unfold buildGroup. rewrite Hf.
  assert (∀ x, rtc (freshEdge related processed) name x ↔ sameGroup name x) as Hsame.
  { intros x. split.
    - apply (rtc_congruence (fun x => x)). intros a b [Hab _]. by apply elem_of_related.
    - intros Hx. revert Hname Hf. induction Hx as [|a b c Hab Hbc IH]; intros Ha Hfa; [apply rtc_refl|].
      assert (flag processed b = false) as Hb.
      { destruct (flag processed b) eqn:Hb; [|done]. rewrite (Hcl b a) in Hfa; [done|apply Hab|done|].
        by apply shares_sym. }
      eapply rtc_l; [|apply IH; [apply Hab|done]]. split; [by apply elem_of_related|done]. }
  destruct (bfs_total related groupVisit processed (∅, ∅, ∅) name names
    (NoDup_sortedDeviceNames _) Hf) with (E:=Empty_set)
    as (st & Hrun & order & Hnd & Hacc & Hvis & Hreach).
  { intros u Hu%Hsame Hnot. destruct Hnot. apply elem_of_sortedDeviceNames. by eapply sameGroup_inTier. }
  apply (while_go_sim _ _ _ _ groupStep_bfs) in Hrun. unfold group_of_bfs at 1 in Hrun. cbn in Hrun.
  unfold related in Hrun. rewrite Hrun. cbn.
  destruct (groupVisit_foldl order) as (Hm & Hlo & Hup). rewrite <-Hacc in Hm, Hlo, Hup.
  assert (∀ y, y ∈ sortedNamesFromMap (bs_acc st).1.1 ↔ y ∈ order) as Hmem.
  { intros y. by rewrite elem_of_sortedNamesFromMap, Hm. }
  eexists _, _. split; [done|]. split; [split; cbn|].
  - done.
  - done.
  - intros y. by rewrite Hmem, Hreach, Hsame.
  - split; [apply sortedNames_sorted|apply NoDup_sortedNamesFromMap].
  - intros n. rewrite elem_of_sortedNamesFromMap, Hlo. by setoid_rewrite Hmem.
  - intros n. rewrite elem_of_sortedNamesFromMap, Hup. by setoid_rewrite Hmem.
  - split_and!; auto using sortedNames_sorted, NoDup_sortedNamesFromMap.
  - intros x. rewrite Hvis. f_equal. apply bool_decide_ext. by rewrite Hmem.
Qed.

(** ** All groups of the tier *)
Record groupsInv (seen : list string) (st : gmap string bool * list TopologyGroup) : Prop := {
  gi_processed : ∀ x, flag st.1 x = true ↔ ∃ s, s ∈ seen ∧ sameGroup s x;
  gi_groups : ∀ G, G ∈ st.2 → ∃ s, inTier s ∧ groupOf s G;
  gi_cover : ∀ x, flag st.1 x = true ↔ x ∈ mjoin (Members <$> st.2);
  gi_nodup : NoDup (mjoin (Members <$> st.2))
}.

Definition groupsPost (groups : list TopologyGroup) : Prop :=
  (∀ G, G ∈ groups → ∃ s, inTier s ∧ groupOf s G) ∧
  (∀ x, x ∈ mjoin (Members <$> groups) ↔ inTier x) ∧
  NoDup (mjoin (Members <$> groups)).

Lemma groupsInv_step seen processed groups name :
  groupsInv seen (processed, groups) → Forall inTier seen → inTier name →
  ∃ st, buildGroup g zone tier lower opts table (sortedDeviceNames tierDevices) (processed, groups) name =
    Ret st ∧ groupsInv (seen ++ [name]) st.
Proof.
  intros [Hp Hg Hc Hnd] Hseen Hname. cbn in Hp, Hg, Hc, Hnd. rewrite Forall_forall in Hseen.
  destruct (flag processed name) eqn:Hf.
  - eexists. split; [unfold buildGroup; by rewrite Hf|]. split; cbn; [|done..].
    intros x. rewrite Hp. split; [set_solver|]. intros (s & [Hs|Hs]%elem_of_app & Hx); [eauto|].
    apply list_elem_of_singleton in Hs as ->. apply Hp in Hf as (t & Ht & Htn). exists t.
    split; [done|]. by eapply rtc_trans.
  - destruct (buildGroup_new processed groups name) as (processed' & G & Heq & HG & Hvis); [done..| | |].
    { intros x y _ Hx Hxy. apply Hp in Hx as (s & Hs & Hsx). apply Hp. exists s. split; [done|]. by eapply rtc_r. }
    { intros x Hx. apply Hp in Hx as (s & Hs & Hsx). eauto using sameGroup_inTier. }
    exists (processed', groups ++ [G]). split; [exact Heq|].
    assert (∀ x, x ∈ mjoin (Members <$> groups ++ [G]) ↔ x ∈ mjoin (Members <$> groups) ∨ sameGroup name x) as Hj.
    { intros x. rewrite fmap_app, join_app, elem_of_app. cbn. by rewrite app_nil_r, (go_members _ _ HG). }
    assert (∀ x, flag processed' x = true ↔ flag processed x = true ∨ sameGroup name x) as Hv.
    { intros x. by rewrite Hvis, orb_true_iff, bool_decide_eq_true, (go_members _ _ HG). }
    split; cbn.
    + intros x. rewrite Hv, Hp. setoid_rewrite elem_of_app. setoid_rewrite list_elem_of_singleton. naive_solver.
    + intros G' [?|HG']%elem_of_app; [auto|]. apply list_elem_of_singleton in HG' as ->. eauto.
    + intros x. by rewrite Hv, Hj, Hc.
    + rewrite fmap_app, join_app. cbn. rewrite app_nil_r. apply NoDup_app.
      split; [done|]. split; [|apply (go_members_sorted _ _ HG)].
      intros x Hx Hx'. apply (go_members _ _ HG) in Hx'. apply Hc, Hp in Hx as (s & Hs & Hsx).
      assert (flag processed name = true); [|congruence]. apply Hp. exists s. split; [done|].
      eapply rtc_trans; [exact Hsx|]. by apply sameGroup_sym.
Qed.

Lemma BuildTierGroups_correct :
  ∃ groups, BuildTierGroups g zone tier lower opts = Ret groups ∧ groupsPost groups.
Proof.
  unfold BuildTierGroups. fold table.
  pose proof (fun x => elem_of_sortedDeviceNames tierDevices x) as Hnames.
  unfold groupsPost, inTier in *. unfold tierDevices in Hnames |- *.
  destruct (DevicesByTier zone !! tier) as [devs|] eqn:Hdevs; cbn in *; last first.
  { exists []. split; [done|]. split; [set_solver|]. split; [|apply NoDup_nil_2].
    intros x. rewrite lookup_empty. split; [set_solver|by intros []]. }
  assert (tierDevices = devs) as Htd by (unfold tierDevices; by rewrite Hdevs).
  destruct (go_foldl_inv groupsInv (buildGroup g zone tier lower opts table (sortedDeviceNames devs))
    (sortedDeviceNames devs) (∅, [])) as ([processed groups] & -> & [Hp Hg Hc Hnd]).
  - split; cbn; [| set_solver| |apply NoDup_nil_2]; intros x; unfold flag; rewrite lookup_empty; set_solver.
  - intros seen name todo [processed groups] Heq Hinv.
    assert (∀ x, x ∈ seen ++ name :: todo → inTier x) as Hin.
    { intros x. rewrite <-Heq. unfold inTier. rewrite Htd. apply Hnames. }
    rewrite <-Htd. apply groupsInv_step; [done| |apply Hin; set_solver].
    apply Forall_forall. intros x Hx. apply Hin. set_solver.
  - cbn in *. exists groups. split; [done|]. split_and!; [|intros x|done].
    + intros G HG. destruct (Hg G HG) as (s & Hs & ?). exists s. unfold inTier in Hs. by rewrite Htd in Hs.
    + rewrite <-Hc, Hp, <-Hnames. split.
      * intros (s & Hs & Hsx). apply Hnames. rewrite <-Htd. eapply sameGroup_inTier; [|done].
        unfold inTier. rewrite Htd. by apply Hnames.
      * intros Hx. exists x. split; [done|apply rtc_refl].
Qed.
End groups.
