(* ===== verification/Parents.v ===== *)
(** * The parent index

    [BuildTopology] of src/pkg/topology/topology.go groups each zone tier by tier
    and then records, for every device and group, the groups one tier up it is
    linked to.  The central fact is that there is never more than one. *)
From stdpp Require Import base gmap sets list strings sorting fin_maps relations.
From Stdlib Require Import ZArith.
From S2P Require Import Prelude GoStrings Bfs Sha1 Topology GraphFacts Tiers Zones Groups.
Local Open Scope Z_scope.

(** ** Singleton parent sets *)
Definition single (l : list string) : Prop := ∃ p, l = [p].

Lemma NoDup_single (l : list string) :
  NoDup l → l ≠ [] → (∀ x y, x ∈ l → y ∈ l → x = y) → single l.
Proof.
  intros Hnd Hne Heq. destruct l as [|p [|q l]]; [done|by exists p|]. exfalso.
  apply NoDup_cons in Hnd as [Hp _]. apply Hp. rewrite (Heq p q) by set_solver. set_solver.
Qed.

(** A set of parents, all of them present, that holds at most one name. *)
Lemma sortedBoolKeys_single `{RangeOrder} (m : gmap string bool) :
  (∀ x b, m !! x = Some b → b = true) → (0 < size m)%nat →
  (∀ x y, is_Some (m !! x) → is_Some (m !! y) → x = y) → single (sortedBoolKeys m).
Proof.
  intros Ht Hsz Heq.
  assert (∀ x, x ∈ sortedBoolKeys m ↔ is_Some (m !! x)) as Hin.
  { intros x. rewrite elem_of_sortedBoolKeys. unfold flag.
    destruct (m !! x) as [b|] eqn:Hb; cbn; [|naive_solver]. rewrite (Ht x b Hb). naive_solver. }
  apply NoDup_single; [apply NoDup_sortedBoolKeys| |].
  - intros Hnil. destruct (decide (m = ∅)) as [->|Hne]; [by rewrite map_size_empty in Hsz; lia|].
    apply map_choose in Hne as (x & b & Hx). assert (x ∈ sortedBoolKeys m) as Hx' by (apply Hin; eauto).
    rewrite Hnil in Hx'. set_solver.
  - intros x y. rewrite !Hin. auto.
Qed.

(** A set of parent names: present exactly when [Q] holds. *)
Definition parentsAre (m : gmap string bool) (Q : string → Prop) : Prop :=
  ∀ P b, m !! P = Some b ↔ b = true ∧ Q P.

Lemma parentsAre_insert m Q P :
  parentsAre m Q → parentsAre (<[P := true]> m) (fun P' => Q P' ∨ P' = P).
Proof. intros Hm P' b. rewrite lookup_insert_Some, (Hm P' b). destruct (decide (P = P')); naive_solver. Qed.

#[export] Instance parentsAre_Proper m : Proper (pointwise_relation string iff ==> iff) (parentsAre m).
Proof. intros Q Q' HQ. unfold parentsAre. by setoid_rewrite HQ. Qed.

Lemma parentsAre_iff m Q Q' : (∀ P, Q P ↔ Q' P) → parentsAre m Q → parentsAre m Q'.
Proof. intros HQ Hm P b. by rewrite (Hm P b), HQ. Qed.

Lemma parentsAre_single `{RangeOrder} m Q :
  parentsAre m Q → (∀ P P', Q P → Q P' → P = P') → (0 < size m)%nat → single (sortedBoolKeys m).
Proof.
  intros Hm HQ Hsz. apply sortedBoolKeys_single; [|done|].
  - intros x b Hx. by apply Hm in Hx as [? _].
  - intros x y [b Hx] [c Hy]. apply Hm in Hx as [_ Hx], Hy as [_ Hy]. auto.
Qed.

(** Groups of a tier have no member in common, and each is named after its members. *)
Definition properGroups (opts : DiscoverOptions) (t : Topology) : Prop :=
  (∀ tier G, G ∈ groups_at t tier → Group_Name G = GenerateGroupName (Members G) opts ∧ Members G ≠ []) ∧
  ∀ tier, NoDup (mjoin (Members <$> groups_at t tier)).

Section zone.
Context `{RangeOrder} (g : TopologyGraph) (names : list string) (opts : DiscoverOptions).
Let zone := BuildZoneDeviceView g names.

Lemma inTier_zone t x : inTier zone t x ↔ x ∈ names ∧ lab g x = t.
Proof.
  unfold inTier, tierDevices, zone. split.
  - intros [d Hd]. apply DevicesByTier_lookup in Hd. tauto.
  - intros [? ?]. exists (device_at g x). by apply DevicesByTier_lookup.
Qed.

Lemma zone_lookup x d : Zone_Devices zone !! x = Some d ↔ x ∈ names ∧ d = device_at g x.
Proof. unfold zone. rewrite Zone_Devices_lookup. case_decide; naive_solver. Qed.

Lemma zoneNeighbor_zone t k x n :
  zoneNeighbor g zone t k x n ↔ edge g x n ∧ n ∈ names ∧ lab g n = t + k.
Proof. unfold zoneNeighbor, lab. setoid_rewrite zone_lookup. naive_solver. Qed.

(** A group of tier [t], built against the lower groups [lw]. *)
Definition newGroup (t : Z) (lw : gmap string string) (G : TopologyGroup) : Prop :=
  ∃ s, inTier zone t s ∧ groupOf g zone t lw opts s G.

Lemma newGroup_member t lw G m : newGroup t lw G → m ∈ Members G → m ∈ names ∧ lab g m = t.
Proof.
  intros (s & Hs & HG) Hm. apply inTier_zone. apply (go_members _ _ _ _ _ _ _ HG) in Hm.
  eapply sameGroup_inTier; eauto.
Qed.

(** Two devices with a common lower group are in the same groups of the tier. *)
Lemma newGroup_shared t lw G p q n1 n2 :
  newGroup t lw G → p ∈ names → q ∈ names → lab g p = t → lab g q = t →
  edge g p n1 → edge g q n2 → n1 ∈ names → n2 ∈ names → lab g n1 = t - 1 → lab g n2 = t - 1 →
  groupNameOfDevice n1 lw = groupNameOfDevice n2 lw → p ∈ Members G ↔ q ∈ Members G.
Proof.
  intros (s & Hs & HG) Hp Hq Hlp Hlq H1 H2 Hn1 Hn2 Hl1 Hl2 Heq.
  assert (lowerGroup g zone t lw p (groupNameOfDevice n1 lw)) as Hp1.
  { exists n1. split; [|done]. apply zoneNeighbor_zone. split_and!; [done..|lia]. }
  assert (lowerGroup g zone t lw q (groupNameOfDevice n1 lw)) as Hq1.
  { rewrite Heq. exists n2. split; [|done]. apply zoneNeighbor_zone. split_and!; [done..|lia]. }
  rewrite !(go_members _ _ _ _ _ _ _ HG).
  split; intros Hm; (eapply rtc_r; [exact Hm|]); (split; [by apply inTier_zone|eauto]).
Qed.

(** ** The tiers of one zone *)

(** The groups recorded so far: those of earlier zones, and for every tier done
    the groups of this zone, each built when the groups below it were known. *)
Record tiersInv (topo0 : Topology) (seen : list Z) (st : Topology * gmap string string) : Prop := {
  tv_groups : ∀ t G, G ∈ groups_at st.1 t →
    G ∈ groups_at topo0 t ∨
    t ∈ seen ∧ ∃ lw, newGroup t lw G ∧
      ∀ t' G' m, t' < t → G' ∈ groups_at st.1 t' → m ∈ Members G' → m ∈ names →
        lw !! m = Some (Group_Name G');
  tv_lower : ∀ t G m, G ∈ groups_at st.1 t → m ∈ Members G → m ∈ names →
    st.2 !! m = Some (Group_Name G);
  tv_cover : ∀ x, x ∈ names → lab g x ≠ 0 → lab g x ∈ seen →
    ∃ G, G ∈ groups_at st.1 (lab g x) ∧ x ∈ Members G;
  tv_parents : ParentIndex st.1 = ParentIndex topo0;
  tv_disjoint : (∀ t, NoDup (mjoin (Members <$> groups_at topo0 t))) → ∀ t, NoDup (mjoin (Members <$> groups_at st.1 t))
}.

Lemma addGroup_groups t st G t' :
  groups_at (addGroup t st G).1 t' = groups_at st.1 t' ++ (if decide (t' = t) then [G] else []).
Proof.
  destruct st as [topo lower]. unfold addGroup, groups_at.
  assert (∀ t2 : Topology, GroupsByTier t2 = append_at t G (GroupsByTier topo) →
    default [] (GroupsByTier t2 !! t') =
    default [] (GroupsByTier topo !! t') ++ (if decide (t' = t) then [G] else [])) as Hap.
  { intros t2 ->. unfold append_at. case_decide as Ht; [subst; by rewrite lookup_insert_eq|].
    rewrite lookup_insert_ne by done. by rewrite app_nil_r. }
  destruct (decide (length _ = 1%nat ∧ _)); [by apply (Hap (set_GroupsByTier _ topo))|].
  cbv beta iota zeta. cbn [fst]. set (t2 := foldl _ _ _). apply Hap. unfold t2.
  apply (foldl_inv (fun _ (t2 : Topology) => GroupsByTier t2 = append_at t G (GroupsByTier topo))); done.
Qed.

Lemma addGroup_parents t st G : ParentIndex (addGroup t st G).1 = ParentIndex st.1.
Proof.
  destruct st as [topo lower]. unfold addGroup. case_decide; [done|]. cbn.
  apply (foldl_inv (fun _ (t2 : Topology) => ParentIndex t2 = ParentIndex topo)); done.
Qed.

Lemma addGroup_lower t st G m :
  (addGroup t st G).2 !! m =
  if decide (m ∈ Members G) then Some (Group_Name G) else st.2 !! m.
Proof.
  destruct st as [topo lower].
  assert (foldl (fun d member => <[member := Group_Name G]> d) lower (Members G) !! m =
    if decide (m ∈ Members G) then Some (Group_Name G) else lower !! m) as Hl.
  { assert (∀ ms v, foldl (fun d member => <[member := Group_Name G]> d) lower ms !! m = Some v ↔
      m ∈ ms ∧ v = Group_Name G ∨ (m ∉ ms) ∧ lower !! m = Some v) as Hms.
    { intros ms v. apply (foldl_inv (fun ms (d : gmap string string) => d !! m = Some v ↔
        m ∈ ms ∧ v = Group_Name G ∨ (m ∉ ms) ∧ lower !! m = Some v)); [set_solver|].
      intros seen y todo d _ IH. rewrite elem_of_app, list_elem_of_singleton, lookup_insert_Some, IH.
      destruct (decide (y = m)) as [->|]; naive_solver. }
    apply option_eq. intros v. rewrite Hms. case_decide; naive_solver. }
  unfold addGroup. destruct (decide (length _ = 1%nat ∧ _)); exact Hl.
Qed.

Lemma addGroups_groups t st groups t' :
  groups_at (foldl (addGroup t) st groups).1 t' =
  groups_at st.1 t' ++ (if decide (t' = t) then groups else []).
Proof.
  revert st. induction groups as [|G groups IH]; intros st; cbn [foldl].
  - case_decide; by rewrite app_nil_r.
  - rewrite IH, addGroup_groups, <-app_assoc. f_equal. by case_decide.
Qed.

Lemma addGroups_parents t st groups : ParentIndex (foldl (addGroup t) st groups).1 = ParentIndex st.1.
Proof. revert st. induction groups as [|G groups IH]; intros st; [done|]. cbn. by rewrite IH, addGroup_parents. Qed.

Lemma addGroups_lower t st groups :
  NoDup (mjoin (Members <$> groups)) →
  (∀ G m, G ∈ groups → m ∈ Members G → (foldl (addGroup t) st groups).2 !! m = Some (Group_Name G)) ∧
  (∀ m, m ∉ mjoin (Members <$> groups) → (foldl (addGroup t) st groups).2 !! m = st.2 !! m).
Proof.
  revert st. induction groups as [|G groups IH]; intros st Hnd; cbn; [set_solver|].
  cbn in Hnd. apply NoDup_app in Hnd as (_ & Hdis & Hnd). destruct (IH (addGroup t st G) Hnd) as [IHin IHout].
  split.
  - intros G' m HG' Hm. apply elem_of_cons in HG' as [->|HG']; [|by apply IHin].
    rewrite IHout by auto. by rewrite addGroup_lower, decide_True.
  - intros m Hm. rewrite IHout by set_solver. rewrite addGroup_lower, decide_False by set_solver. done.
Qed.

Lemma buildTier_inv topo0 seen st t :
  (∀ t G m, G ∈ groups_at topo0 t → m ∈ Members G → m ∉ names) →
  (∀ t', t' ∈ seen → t' < t) → t ≠ 0 → tiersInv topo0 seen st →
  ∃ st', buildTier g zone opts st t = Ret st' ∧ tiersInv topo0 (seen ++ [t]) st'.
Proof.
  intros Hold Hlt Ht0 Hinv. unfold buildTier. rewrite decide_False by done.
  destruct (BuildTierGroups_correct g zone t st.2 opts) as (groups & Hgs & Hnew & Hcov & Hnd).
  unfold zone in Hgs |- *. rewrite Hgs. cbn. eexists. split; [done|].
  destruct (addGroups_lower t st groups Hnd) as [Hin Hout].
  assert (∀ G, G ∈ groups → newGroup t st.2 G) as Hng by (intros G HG; by apply Hnew).
  assert (∀ t' G m, G ∈ groups_at st.1 t' → m ∈ Members G → m ∈ names →
    t' ∈ seen ∧ lab g m = t') as Hprev.
  { intros t' G m HG Hm Hn. destruct (tv_groups _ _ _ Hinv t' G HG) as [Ho|(Hs & lw & HG' & _)].
    - by apply (Hold t' G m) in Ho.
    - split; [done|]. by eapply newGroup_member. }
  assert (∀ t' G, G ∈ groups_at (foldl (addGroup t) st groups).1 t' ↔
    G ∈ groups_at st.1 t' ∨ t' = t ∧ G ∈ groups) as Hga.
  { intros t' G. rewrite addGroups_groups, elem_of_app. case_decide; set_solver. }
  split; cbn.
  - intros t1 G. rewrite Hga. intros [HG|[-> HG]].
    + destruct (tv_groups _ _ _ Hinv t1 G HG) as [Ho|(Hs & lw & HG' & Hlw)]; [by left|right].
      split; [set_solver|]. exists lw. split; [done|]. intros t' G' m Hlt' [Hg'|[-> Hg']]%Hga; [by eapply Hlw|].
      specialize (Hlt t1 Hs). lia.
    + right. split; [set_solver|]. exists st.2. split; [by apply Hng|].
      intros t' G' m Hlt' [Hg'|[-> Hg']]%Hga Hm Hn; [|lia]. by eapply (tv_lower _ _ _ Hinv).
  - intros t1 G m [HG|[-> HG]]%Hga Hm Hn; [|by apply Hin].
    destruct (Hprev t1 G m HG Hm Hn) as [Hs Hl]. rewrite Hout; [by eapply (tv_lower _ _ _ Hinv)|].
    intros Hj. apply Hcov, inTier_zone in Hj as [_ Hl']. specialize (Hlt t1 Hs). lia.
  - intros x Hx Hx0 [Hs|Hs]%elem_of_app.
    + destruct (tv_cover _ _ _ Hinv x Hx Hx0 Hs) as (G & HG & ?). exists G. split; [|done]. rewrite Hga. by left.
    + apply list_elem_of_singleton in Hs. assert (x ∈ mjoin (Members <$> groups)) as Hj.
      { apply Hcov, inTier_zone. done. }
      apply list_elem_of_join in Hj as (ms & ? & (G & -> & ?)%list_elem_of_fmap). exists G.
      split; [|done]. rewrite Hga. by right.
  - rewrite addGroups_parents. apply Hinv.
  - intros H0 t1. specialize (tv_disjoint _ _ _ Hinv H0 t1) as H1. rewrite addGroups_groups, fmap_app, join_app.
    case_decide as Ht1; [subst t1|by rewrite app_nil_r]. apply NoDup_app. split_and!; [done| |done].
    intros m (ms & ? & (G & -> & HG)%list_elem_of_fmap)%list_elem_of_join [Hn _]%Hcov%inTier_zone.
    destruct (Hprev t G m) as [Hs _]; [done..|]. specialize (Hlt t Hs). lia.
Qed.

Lemma buildTier_zero st : buildTier g zone opts st 0 = Ret st.
Proof. done. Qed.

Lemma buildTiers_correct topo0 lower0 :
  (∀ t G m, G ∈ groups_at topo0 t → m ∈ Members G → m ∉ names) →
  ∃ st, go_foldl (buildTier g zone opts) (topo0, lower0) (sortedTierKeys (DevicesByTier zone)) = Ret st ∧
    tiersInv topo0 (sortedTierKeys (DevicesByTier zone)) st.
Proof.
  intros Hold. apply go_foldl_inv.
  - split; cbn; [by left| |set_solver|done|done]. intros t G m HG Hm Hn. by apply (Hold t G m) in HG.
  - intros seen t todo st Heq Hinv. destruct (decide (t = 0)) as [->|Hne].
    + exists st. split; [done|]. split; try apply Hinv.
      * intros t G HG. destruct (tv_groups _ _ _ Hinv t G HG) as [?|[? ?]]; [by left|right].
        split; [set_solver|done].
      * intros x Hx Hx0 [Hs|Hs%list_elem_of_singleton]%elem_of_app; [|done]. by apply (tv_cover _ _ _ Hinv).
    + apply buildTier_inv; try done. intros t' Ht'.
      pose proof (sort_ints_sorted (foldl (fun tiers '(tier, _) => tiers ++ [tier]) [] (range (DevicesByTier zone)))) as Hs.
      pose proof (NoDup_sortedTierKeys (DevicesByTier zone)) as Hnd.
      unfold sortedTierKeys in Heq, Hnd. rewrite Heq in Hs, Hnd.
      apply Sorted_StronglySorted in Hs; [|intros ???; lia].
      assert (t' ≤ t).
      { eapply (StronglySorted_app_1_elem_of Z.le); [exact Hs|done|set_solver]. }
      apply NoDup_app in Hnd as (_ & Hd & _). assert (t' ≠ t) by (intros ->; apply (Hd t Ht'); set_solver). lia.
Qed.

(** ** The index from devices to groups *)
Lemma indexMembers_lookup name d ms x :
  foldl (indexMember zone name) d ms !! x =
  if decide (x ∈ ms ∧ x ∈ names) then Some name else d !! x.
Proof.
  assert (∀ v, foldl (indexMember zone name) d ms !! x = Some v ↔
    (x ∈ ms ∧ x ∈ names) ∧ v = name ∨ ~ (x ∈ ms ∧ x ∈ names) ∧ d !! x = Some v) as Hl.
  { intros v. apply (foldl_inv (fun ms (d' : gmap string string) => d' !! x = Some v ↔
      (x ∈ ms ∧ x ∈ names) ∧ v = name ∨ ~ (x ∈ ms ∧ x ∈ names) ∧ d !! x = Some v)); [set_solver|].
    intros seen y todo d' _ IH. unfold indexMember, zone. rewrite Zone_Devices_lookup.
    rewrite elem_of_app, list_elem_of_singleton.
    destruct (decide (y ∈ names)) as [Hy|Hy]; [rewrite lookup_insert_Some|]; rewrite IH;
      destruct (decide (y = x)) as [->|]; naive_solver. }
  apply option_eq. intros v. rewrite Hl. case_decide; naive_solver.
Qed.

(** Devices in the same groups get the same index entry. *)
Lemma deviceToGroup_same topo p q :
  p ∈ names → q ∈ names →
  (∀ t G, G ∈ groups_at topo t → p ∈ Members G ↔ q ∈ Members G) →
  buildDeviceToGroupIndex zone topo !! p = buildDeviceToGroupIndex zone topo !! q.
Proof.
  intros Hp Hq Hsame. unfold buildDeviceToGroupIndex.
  apply (foldl_inv (fun _ (d : gmap string string) => d !! p = d !! q)); [done|].
  intros _ t _ d _ Hd. case_decide; [done|]. specialize (Hsame t). revert Hsame.
  generalize (groups_at topo t). intros l Hsame.
  apply (foldl_inv (fun _ (d : gmap string string) => d !! p = d !! q)); [done|].
  intros seen G todo d' Heq Hd'. rewrite !indexMembers_lookup.
  assert (G ∈ l) as HG by (rewrite Heq; set_solver). specialize (Hsame G HG).
  destruct (decide (p ∈ Members G)).
  - by rewrite !decide_True by tauto.
  - by rewrite !decide_False by tauto.
Qed.

(** A device in some group has an entry. *)
Lemma deviceToGroup_covered topo t G x :
  x ∈ names → t ≠ 0 → G ∈ groups_at topo t → x ∈ Members G →
  is_Some (buildDeviceToGroupIndex zone topo !! x).
Proof.
  intros Hx Ht HG Hm. unfold buildDeviceToGroupIndex.
  assert (t ∈ sortedTierKeys (GroupsByTier topo)) as Hin.
  { apply elem_of_sortedTierKeys. unfold groups_at in HG. destruct (_ !! t); [eauto|set_solver]. }
  revert Hin. generalize (sortedTierKeys (GroupsByTier topo)). intros l Hin.
  assert (t ∈ l → is_Some (foldl (fun d tier => if decide (tier = 0) then d
    else foldl (fun d group => foldl (indexMember zone (Group_Name group)) d (Members group))
      d (groups_at topo tier)) ∅ l !! x)); [|auto]. clear Hin.
  assert (∀ (d : gmap string string) gs, (is_Some (d !! x) ∨ G ∈ gs) →
    is_Some (foldl (fun d group => foldl (indexMember zone (Group_Name group)) d (Members group)) d gs !! x)) as Hgs.
  { intros d gs. apply (foldl_inv (fun gs (d' : gmap string string) =>
      is_Some (d !! x) ∨ G ∈ gs → is_Some (d' !! x))); [set_solver|].
    intros seen G' todo d' _ IH. rewrite indexMembers_lookup. case_decide; [eauto|].
    rewrite elem_of_app, list_elem_of_singleton. intros [?|[?| ->]]; [auto..|tauto]. }
  apply (foldl_inv (fun l (d : gmap string string) => t ∈ l → is_Some (d !! x))); [set_solver|].
  intros seen t' todo d _ IH. rewrite elem_of_app, list_elem_of_singleton.
  case_decide; [intros [?|?]; [auto|congruence]|]. intros [?|<-]; apply Hgs; auto.
Qed.

(** ** Parents *)
Section parents.
Context (Hwf : wf_graph g) (Hdev : ∀ x, x ∈ names → is_Some (Devices g !! x)).
Context (Hpos : ∀ x, x ∈ names → 0 ≤ lab g x).

Lemma parentOf_spec d2g t n P :
  parentOf zone d2g t n = Some P ↔ n ∈ names ∧ lab g n = t + 1 ∧ P = groupNameOfDevice n d2g.
Proof.
  unfold parentOf, zone. rewrite Zone_Devices_lookup. case_decide as Hn; [|naive_solver].
  assert (Device_Name (device_at g n) = n) as ->.
  { destruct (Hdev n Hn) as [d Hd]. unfold device_at. rewrite Hd. by apply (wf_name _ Hwf). }
  fold (lab g n). unfold groupNameOfDevice. case_decide; naive_solver.
Qed.

Lemma deviceParents_are d2g x t :
  parentsAre (foldl (addDeviceParent zone d2g t) ∅ (sortedBoolKeys (adj_at g x)))
    (fun P => ∃ n, edge g x n ∧ parentOf zone d2g t n = Some P).
Proof.
  unfold edge. setoid_rewrite <-(elem_of_sortedBoolKeys (adj_at g x)).
  apply (foldl_inv (fun ns m => parentsAre m (fun P => ∃ n, n ∈ ns ∧ parentOf zone d2g t n = Some P))).
  { intros P b. rewrite lookup_empty. set_solver. }
  intros seen n todo m _ IH. unfold addDeviceParent.
  destruct (parentOf zone d2g t n) as [P|] eqn:HP;
    (eapply parentsAre_iff; [|first [apply parentsAre_insert, IH | apply IH]]); cbv beta; intros P';
    setoid_rewrite elem_of_app; setoid_rewrite list_elem_of_singleton; naive_solver.
Qed.

Lemma memberParents_are d2g G pm m Q :
  parentsAre pm Q → m ∈ names →
  parentsAre (foldl (addGroupParent zone d2g G (lab g m)) pm (sortedBoolKeys (adj_at g m)))
    (fun P => Q P ∨ P ≠ Group_Name G ∧ ∃ n, edge g m n ∧ parentOf zone d2g (lab g m) n = Some P).
Proof.
  intros Hpm Hm. unfold edge. setoid_rewrite <-(elem_of_sortedBoolKeys (adj_at g m)).
  apply (foldl_inv (fun ns pm' => parentsAre pm' (fun P => Q P ∨
    P ≠ Group_Name G ∧ ∃ n, n ∈ ns ∧ parentOf zone d2g (lab g m) n = Some P))).
  { eapply parentsAre_iff; [|exact Hpm]. set_solver. }
  intros seen n todo pm' _ IH. unfold addGroupParent. setoid_rewrite exists_snoc.
  destruct (parentOf zone d2g (lab g m) n) as [P|]; [case_decide as HPG|].
  - eapply parentsAre_iff; [|exact IH]. naive_solver.
  - eapply parentsAre_iff; [|apply parentsAre_insert, IH]. naive_solver.
  - eapply parentsAre_iff; [|exact IH]. naive_solver.
Qed.

Lemma groupParents_are d2g G :
  parentsAre (foldl (addMemberParents g zone d2g G) ∅ (Members G))
    (fun P => ∃ m, m ∈ Members G ∧ m ∈ names ∧ P ≠ Group_Name G ∧
       ∃ n, edge g m n ∧ parentOf zone d2g (lab g m) n = Some P).
Proof.
  apply (foldl_inv (fun ms pm => parentsAre pm (fun P => ∃ m, m ∈ ms ∧ m ∈ names ∧ P ≠ Group_Name G ∧
    ∃ n, edge g m n ∧ parentOf zone d2g (lab g m) n = Some P))).
  { intros P b. rewrite lookup_empty. set_solver. }
  intros seen m todo pm _ IH. unfold addMemberParents, zone at 1. rewrite Zone_Devices_lookup.
  setoid_rewrite exists_snoc. case_decide as Hm.
  - eapply parentsAre_iff; [|apply memberParents_are; [exact IH|done]]. naive_solver.
  - eapply parentsAre_iff; [|exact IH]. naive_solver.
Qed.

(** ** There is one parent *)
Section single.
Context (topo0 : Topology) (st : Topology * gmap string string).
Context (Hold : ∀ t G m, G ∈ groups_at topo0 t → m ∈ Members G → m ∉ names).
Context (Hinv : tiersInv topo0 (sortedTierKeys (DevicesByTier zone)) st).

Lemma tier_seen x : x ∈ names → lab g x ∈ sortedTierKeys (DevicesByTier zone).
Proof. intros Hx. apply elem_of_sortedTierKeys. unfold zone. apply DevicesByTier_keys. eauto. Qed.

(** The neighbours one tier up of one device, or of two devices of one group,
    are in the same groups. *)
Lemma upper_same_groups n1 n2 p q :
  n1 ∈ names → n2 ∈ names → p ∈ names → q ∈ names → edge g n1 p → edge g n2 q →
  lab g n1 = lab g n2 → lab g p = lab g n1 + 1 → lab g q = lab g n1 + 1 →
  n1 = n2 ∨ (∃ t G, G ∈ groups_at st.1 t ∧ n1 ∈ Members G ∧ n2 ∈ Members G) →
  ∀ t G, G ∈ groups_at st.1 t → p ∈ Members G ↔ q ∈ Members G.
Proof.
  intros Hn1 Hn2 Hp Hq He1 He2 Hl Hlp Hlq Hsame t G HG.
  destruct (tv_groups _ _ _ Hinv t G HG) as [Ho|(_ & lw & HG' & Hlw)].
  { split; intros Hm; by apply (Hold t G) in Hm. }
  destruct (decide (t = lab g p)) as [->|Hne]; last first.
  { split; intros Hm; apply (newGroup_member _ _ _ _ HG') in Hm as [_ Hm]; lia. }
  apply (newGroup_shared (lab g p) lw G p q n1 n2); try done; try lia; try (by apply (wf_sym _ Hwf)).
  destruct Hsame as [->|(t' & G' & HG1 & Hm1 & Hm2)]; [done|].
  assert (t' = lab g n1) as ->.
  { destruct (tv_groups _ _ _ Hinv t' G' HG1) as [Ho|(_ & lw' & HG1' & _)];
      [by apply (Hold t' G' n1) in Ho|]. by apply (newGroup_member _ _ _ _ HG1') in Hm1 as [_ ?]. }
  unfold groupNameOfDevice.
  rewrite (Hlw (lab g n1) G' n1), (Hlw (lab g n1) G' n2) by (done || lia). done.
Qed.

Let d2g := buildDeviceToGroupIndex zone st.1.

Lemma upper_same_name n1 n2 p q :
  n1 ∈ names → n2 ∈ names → p ∈ names → q ∈ names → edge g n1 p → edge g n2 q →
  lab g n1 = lab g n2 → lab g p = lab g n1 + 1 → lab g q = lab g n1 + 1 →
  n1 = n2 ∨ (∃ t G, G ∈ groups_at st.1 t ∧ n1 ∈ Members G ∧ n2 ∈ Members G) →
  groupNameOfDevice p d2g = groupNameOfDevice q d2g.
Proof.
  intros Hn1 Hn2 Hp Hq He1 He2 Hl Hlp Hlq Hsame.
  assert (d2g !! p = d2g !! q) as Heq.
  { apply deviceToGroup_same; [done..|]. by apply (upper_same_groups n1 n2). }
  pose proof (Hpos n1 Hn1). destruct (tv_cover _ _ _ Hinv p Hp) as (G & HG & Hm); [lia|by apply tier_seen|].
  destruct (deviceToGroup_covered st.1 (lab g p) G p) as [v Hv]; [done|lia|done..|].
  fold d2g in Hv. unfold groupNameOfDevice. by rewrite <-Heq, Hv.
Qed.

Definition allSingle (t : Topology) : Prop := ∀ k v, ParentIndex t !! k = Some v → single v.

Lemma allSingle_insert t k v : allSingle t → single v →
  allSingle (set_ParentIndex (<[k := v]> (ParentIndex t)) t).
Proof. intros Ht Hv k' v'. cbn. intros [[_ <-]|[_ ?]]%lookup_insert_Some; [done|by eapply Ht]. Qed.

Lemma indexDeviceParents_single t x :
  x ∈ names → allSingle t → allSingle (indexDeviceParents g zone d2g t x).
Proof.
  intros Hx Ht. unfold indexDeviceParents. case_decide as Hsz; [|done].
  apply allSingle_insert; [done|]. eapply parentsAre_single; [apply deviceParents_are| |done].
  assert (Tier (default zeroDevice (Zone_Devices zone !! x)) = lab g x) as ->.
  { unfold zone. by rewrite Zone_Devices_lookup, decide_True. }
  intros P P' (p & He & (Hp & Hlp & ->)%parentOf_spec) (q & He' & (Hq & Hlq & ->)%parentOf_spec).
  eapply (upper_same_name x x); auto.
Qed.

Lemma indexGroupParents_single t tier G :
  G ∈ groups_at st.1 tier → allSingle t → allSingle (indexGroupParents g zone d2g t G).
Proof.
  intros HG Ht. unfold indexGroupParents. case_decide as Hsz; [|done].
  apply allSingle_insert; [done|]. eapply parentsAre_single; [apply groupParents_are| |done].
  intros P P' (m & Hm & Hmn & _ & p & He & (Hp & Hlp & ->)%parentOf_spec)
    (m' & Hm' & Hmn' & _ & q & He' & (Hq & Hlq & ->)%parentOf_spec).
  assert (lab g m = lab g m') as Hl.
  { destruct (tv_groups _ _ _ Hinv tier G HG) as [Ho|(_ & lw & HG' & _)]; [by apply (Hold tier G m) in Ho|].
    apply (newGroup_member _ _ _ _ HG') in Hm as [_ ->], Hm' as [_ ->]. done. }
  eapply (upper_same_name m m'); eauto 10. lia.
Qed.

Lemma indexGroupParents_groups t G : GroupsByTier (indexGroupParents g zone d2g t G) = GroupsByTier t.
Proof. unfold indexGroupParents. by case_decide. Qed.

Lemma buildDeviceParentIndex_single :
  allSingle st.1 → allSingle (buildDeviceParentIndex g zone d2g st.1) ∧
  GroupsByTier (buildDeviceParentIndex g zone d2g st.1) = GroupsByTier st.1.
Proof.
  intros Ht. unfold buildDeviceParentIndex.
  assert (∀ x, x ∈ sortedDeviceNames (Zone_Devices zone) → x ∈ names) as Hin.
  { intros x. rewrite elem_of_sortedDeviceNames. intros [d Hd]. by apply zone_lookup in Hd as [? _]. }
  revert Hin. generalize (sortedDeviceNames (Zone_Devices zone)). intros l Hin.
  apply (foldl_inv (fun _ t => allSingle t ∧ GroupsByTier t = GroupsByTier st.1)); [done|].
  intros seen x todo t Heq [Hs Hg]. split.
  - apply indexDeviceParents_single; [|done]. apply Hin. rewrite Heq. set_solver.
  - unfold indexDeviceParents. by case_decide.
Qed.

Lemma BuildParentIndexForZone_single :
  allSingle st.1 → allSingle (BuildParentIndexForZone g zone st.1) ∧
  GroupsByTier (BuildParentIndexForZone g zone st.1) = GroupsByTier st.1.
Proof.
  intros Ht. unfold BuildParentIndexForZone. fold d2g.
  destruct (buildDeviceParentIndex_single Ht) as [Hs Hg].
  unfold buildGroupParentIndex. revert Hs Hg. generalize (buildDeviceParentIndex g zone d2g st.1).
  intros t1 Hs Hg.
  apply (foldl_inv (fun _ t => allSingle t ∧ GroupsByTier t = GroupsByTier st.1)); [done|].
  intros _ tier _ t _ [Hs' Hg']. case_decide; [done|].
  assert (groups_at t tier = groups_at st.1 tier) as Hgs by (unfold groups_at; by rewrite Hg').
  rewrite Hgs.
  apply (foldl_inv (fun _ t => allSingle t ∧ GroupsByTier t = GroupsByTier st.1)); [done|].
  intros seen G todo t2 Heq [Hs2 Hg2]. rewrite indexGroupParents_groups. split; [|done].
  apply (indexGroupParents_single t2 tier); [|done]. rewrite Heq. set_solver.
Qed.
End single.

(** A zone leaves every entry with one parent, and groups of its own devices. *)
Lemma buildZone_single topo0 :
  (∀ t G m, G ∈ groups_at topo0 t → m ∈ Members G → m ∉ names) → allSingle topo0 →
  ∃ t, buildZone g opts topo0 names = Ret t ∧ allSingle t ∧
    (∀ tier G m, G ∈ groups_at t tier → m ∈ Members G → G ∈ groups_at topo0 tier ∨ m ∈ names) ∧
    (properGroups opts topo0 → properGroups opts t).
Proof.
  intros Hold Hs. unfold buildZone. fold zone.
  destruct (buildTiers_correct topo0 (hostGroups zone) Hold) as (st & -> & Hinv). cbn.
  assert (allSingle st.1) as Hs1 by (unfold allSingle; by rewrite (tv_parents _ _ _ Hinv)).
  destruct (BuildParentIndexForZone_single topo0 st Hold Hinv Hs1) as [Hs2 Hg].
  assert (∀ tier, groups_at (BuildParentIndexForZone g zone st.1) tier = groups_at st.1 tier) as Hga
    by (intros tier; unfold groups_at; by rewrite Hg).
  eexists. split; [done|]. split; [done|]. split.
  - intros tier G m HG Hm. rewrite Hga in HG.
    destruct (tv_groups _ _ _ Hinv tier G HG) as [?|(_ & lw & HG' & _)]; [by left|right].
    by apply (newGroup_member _ _ _ _ HG') in Hm as [? _].
  - intros [Hn Hd]. split; [intros tier G|intros tier]; rewrite Hga; [|by apply (tv_disjoint _ _ _ Hinv)].
    intros HG. destruct (tv_groups _ _ _ Hinv tier G HG) as [?|(_ & lw & (x & _ & HG') & _)]; [by eapply Hn|].
    split; [apply (go_name _ _ _ _ _ _ _ HG')|]. intros He.
    assert (x ∈ Members G) as Hx by (apply (go_members _ _ _ _ _ _ _ HG'), rtc_refl). rewrite He in Hx. by apply elem_of_nil in Hx.
Qed.
End parents.
End zone.

(** Every edge joins two neighbouring tiers. *)
Definition levelled (g : TopologyGraph) : Prop := ∀ a b, edge g a b → adjacent_tiers g a b.

Section pipeline.
Context `{RangeOrder}.

Lemma built_unset hosts switches x :
  is_switch (BuildTopologyGraph hosts switches) x → lab (BuildTopologyGraph hosts switches) x = -1.
Proof.
  unfold is_switch, lab, device_at. rewrite BuildTopologyGraph_Devices. unfold namedDevice.
  repeat case_decide; done.
Qed.

(** The graph [BuildTopology] is given. *)
Lemma prepared_graph hosts switches :
  ∃ g1 g2, InferTiers (BuildTopologyGraph hosts switches) = Ret g1 ∧
    tiersPost (BuildTopologyGraph hosts switches) g1 ∧
    NormalizeTierEdges g1 = Ret g2 ∧ Devices g2 = Devices g1 ∧ Links g2 = Links g1 ∧
    wf_graph g2 ∧ levelled g2 ∧ ∀ a b, edge g2 a b ↔ edge g1 a b ∧ adjacent_tiers g1 a b.
Proof.
  destruct (InferTiers_correct (BuildTopologyGraph hosts switches)) as (g1 & Hg1 & Hpost).
  { apply BuildTopologyGraph_wf. }
  { apply built_unset. }
  assert (wf_graph g1) as Hwf1.
  { eapply same_shape_wf; [apply Hpost|apply BuildTopologyGraph_wf]. }
  destruct (NormalizeTierEdges_correct g1 Hwf1) as (g2 & Hg2 & Hd & Hl & Hwf2 & He).
  exists g1, g2. split_and!; try done.
  intros a b [_ Hab]%He. unfold adjacent_tiers, lab, device_at in *. by rewrite Hd.
Qed.

(** ** Zones of a levelled graph *)
Lemma zone_nonneg g h zone x :
  wf_graph g → levelled g → is_host g h → is_zone g h zone → x ∈ zone →
  is_Some (Devices g !! x) ∧ 0 ≤ lab g x.
Proof.
  intros Hwf Hlev Hh (_ & _ & Hz) Hx. apply Hz in Hx.
  assert (is_Some (Devices g !! h)) as Hd.
  { unfold is_host, device_at in Hh. destruct (Devices g !! h); [eauto|done]. }
  split; [by eapply connected_device|].
  apply rtc_inv_r in Hx as [<-|(y & _ & Hy)].
  - destruct Hd as [d Hd]. unfold is_host, lab, device_at in *. rewrite Hd in *. cbn in *.
    destruct (wf_type _ Hwf _ _ Hd) as [[_ ->]|]; [done|congruence].
  - apply Hlev in Hy. unfold adjacent_tiers in Hy. lia.
Qed.

(** The loops before the zones touch neither groups nor parents. *)
Lemma addDeviceNodes_frame l t :
  GroupsByTier (foldl addDeviceNode t l) = GroupsByTier t ∧
  ParentIndex (foldl addDeviceNode t l) = ParentIndex t.
Proof.
  revert t. induction l as [|[x d] l IH]; intros t; [done|]. cbn [foldl]. destruct (IH (addDeviceNode t (x, d))) as [-> ->].
  unfold addDeviceNode. by case_decide.
Qed.

Lemma addPhysicalEdges_frame l t :
  GroupsByTier (foldl addPhysicalEdges t l) = GroupsByTier t ∧
  ParentIndex (foldl addPhysicalEdges t l) = ParentIndex t.
Proof.
  revert t. induction l as [|[x m] l IH]; intros t; [done|]. cbn [foldl].
  destruct (IH (addPhysicalEdges t (x, m))) as [-> ->]. cbn.
  apply (foldl_inv (fun _ (t' : Topology) =>
    GroupsByTier t' = GroupsByTier t ∧ ParentIndex t' = ParentIndex t)); [done|].
  intros _ [y b] _ t' _ IH'. by case_match.
Qed.

Lemma groups_at_sorted t tier :
  groups_at (set_GroupsByTier (sortGroupsByTier (GroupsByTier t)) t) tier ≡ₚ groups_at t tier.
Proof.
  unfold groups_at. cbn. unfold sortGroupsByTier.
  apply (foldl_inv (fun _ (m : gmap Z (list TopologyGroup)) => default [] (m !! tier) ≡ₚ default [] (GroupsByTier t !! tier))); [done|].
  intros _ [tier' l] _ m _ IH. destruct (decide (tier' = tier)) as [->|].
  - rewrite lookup_insert_eq. cbn. by rewrite merge_sort_Permutation.
  - by rewrite lookup_insert_ne.
Qed.

Lemma properGroups_sorted opts t nodes :
  properGroups opts t → properGroups opts (set_GroupsByTier (sortGroupsByTier (GroupsByTier t)) (set_NodesByTier nodes t)).
Proof.
  intros [Hn Hd]. assert (∀ tier, groups_at (set_GroupsByTier (sortGroupsByTier (GroupsByTier t)) (set_NodesByTier nodes t)) tier ≡ₚ groups_at t tier)
    as Hp by (intros tier; apply (groups_at_sorted t)).
  split.
  - intros tier G. rewrite Hp. apply Hn.
  - intros tier. rewrite Hp. apply Hd.
Qed.

Lemma BuildTopology_single g opts :
  wf_graph g → levelled g → ∃ t, BuildTopology g opts = Ret t ∧ allSingle t ∧ properGroups opts t.
Proof.
  intros Hwf Hlev. unfold BuildTopology.
  destruct (CollectConnectedZones_correct g Hwf) as (zones & -> & Hz & _ & Hnd). cbn.
  set (t0 := foldl addPhysicalEdges _ _).
  assert (GroupsByTier t0 = ∅ ∧ ParentIndex t0 = ∅) as [Hg0 Hp0].
  { unfold t0. destruct (addPhysicalEdges_frame (range (Adj g)) (set_NodesByTier
      (sortNodesByTier (NodesByTier (foldl addDeviceNode (MkTopology ∅ [] ∅ ∅ ∅) (range (Devices g)))))
      (foldl addDeviceNode (MkTopology ∅ [] ∅ ∅ ∅) (range (Devices g))))) as [-> ->]. cbn.
    apply addDeviceNodes_frame. }
  assert (∀ tier, groups_at t0 tier = []) as Hga0 by (intros tier; unfold groups_at; by rewrite Hg0, lookup_empty).
  destruct (go_foldl_inv (E:=Empty_set) (fun seen t => allSingle t ∧
    (∀ tier G m, G ∈ groups_at t tier → m ∈ Members G → m ∈ mjoin seen) ∧ properGroups opts t)
    (buildZone g opts) zones t0) as (t & -> & Hs & _ & Hp).
  - split; [intros k v; by rewrite Hp0, lookup_empty|]. split.
    + intros tier G m. rewrite Hga0. set_solver.
    + split; intros tier; rewrite Hga0; [set_solver|constructor].
  - intros seen zone todo t Heq (Hs & Hm & Hp).
    destruct (Hz zone) as (h & Hh & Hzone); [rewrite Heq; set_solver|].
    destruct (buildZone_single g zone opts Hwf) with (topo0 := t) as (t' & -> & Hs' & Hg' & Hp').
    + intros x Hx. by eapply zone_nonneg.
    + intros x Hx. by eapply zone_nonneg.
    + intros tier G m HG Hmm Hx. apply (Hm tier G m HG) in Hmm. subst zones.
      rewrite join_app in Hnd. apply NoDup_app in Hnd as (_ & Hd & _). apply (Hd m Hmm).
      cbn. rewrite elem_of_app. by left.
    + done.
    + exists t'. split; [done|]. split; [done|]. split; [|by apply Hp']. intros tier G m HG Hmm.
      rewrite join_app, elem_of_app. cbn. rewrite app_nil_r.
      destruct (Hg' tier G m HG Hmm); [left; by eapply Hm|by right].
  - cbn. eexists. split; [done|]. split; [exact Hs|]. by apply properGroups_sorted.
Qed.

Lemma DiscoverTopology_total hosts switches options :
  ∃ t, DiscoverTopology hosts switches options = Ret t ∧ allSingle t ∧
    properGroups (foldl (fun opts option => option opts) defaultDiscoverOptions options) t.
Proof.
  unfold DiscoverTopology. destruct (prepared_graph hosts switches)
    as (g1 & g2 & -> & _ & Hn & _ & _ & Hwf & Hlev & _). cbn. rewrite Hn. cbn.
  by apply BuildTopology_single.
Qed.
End pipeline.

(** ** Walking up *)
Section chain.
Context (t : Topology).

Definition firstParent (name : string) : option string := head (QueryParents t name).

(** Every entry is the first parent of the entry before it. *)
Fixpoint linked (name : string) (chain : list string) : Prop :=
  match chain with
  | [] => True
  | parent :: chain => firstParent name = Some parent ∧ linked parent chain
  end.

Lemma linked_snoc name chain p :
  linked name chain → firstParent (default name (last chain)) = Some p → linked name (chain ++ [p]).
Proof.
  revert name. induction chain as [|q chain IH]; intros name; cbn; [done|].
  intros [Hq Hc] Hp. split; [done|]. apply IH; [done|]. destruct chain as [|r chain]; [done|].
  rewrite last_cons_cons in Hp. destruct (last (r :: chain)) eqn:Hl; [done|]. by apply last_None in Hl.
Qed.

(** All names that are somebody's first parent. *)
Definition firstParents : list string := omap (fun kv => head kv.2) (map_to_list (ParentIndex t)).

Lemma elem_of_firstParents name p : firstParent name = Some p → p ∈ firstParents.
Proof.
  unfold firstParent, firstParents, QueryParents. destruct (ParentIndex t !! name) as [l|] eqn:Hl; [|done].
  cbn. intros Hh. apply list_elem_of_omap. exists (name, l). by rewrite elem_of_map_to_list.
Qed.

Lemma length_firstParents : (length firstParents ≤ size (ParentIndex t))%nat.
Proof.
  unfold firstParents. rewrite <-length_map_to_list.
  induction (map_to_list (ParentIndex t)) as [|[k l] m IH]; [done|]. cbn. destruct (head l); cbn; lia.
Qed.

Record chainInv (name : string) (st : chainState) : Prop := {
  ci_linked : linked name (cs_result st);
  ci_nodup : NoDup (cs_result st);
  ci_seen : ∀ x, flag (cs_seen st) x = true ↔ x ∈ cs_result st;
  ci_current : cs_current st = default name (last (cs_result st));
  ci_bound : ∀ x, x ∈ cs_result st → x ∈ firstParents
}.

Definition chainPost (name : string) (chain : list string) : Prop :=
  linked name chain ∧ NoDup chain ∧
  ∀ p, firstParent (default name (last chain)) = Some p → p ∈ chain.

Lemma chain_loop_ok name :
  loop_ok (chainStep t) (chainInv name)
    (fun st => N.of_nat (length firstParents - length (cs_result st))) (chainPost name).
Proof.
  intros st [Hl Hnd Hs Hc Hb]. unfold chainStep.
  assert (firstParent (cs_current st) = head (default [] (ParentIndex t !! cs_current st))) as Hf by done.
  destruct (default [] (ParentIndex t !! cs_current st)) as [|p ps]; cbn in Hf; rewrite Hc in Hf.
  { split_and!; [done..|]. by rewrite Hf. }
  destruct (flag (cs_seen st) p) eqn:Hp.
  { split_and!; [done..|]. rewrite Hf. intros q [= <-]. by apply Hs. }
  assert (p ∉ cs_result st) as Hnew. { rewrite <-Hs. by rewrite Hp. }
  assert (p ∈ firstParents) as Hpin by (by eapply elem_of_firstParents).
  assert (NoDup (cs_result st ++ [p])) as Hnd'.
  { apply NoDup_app. split_and!; [done|set_solver|apply NoDup_singleton]. }
  assert (length (cs_result st ++ [p]) ≤ length firstParents)%nat as Hlen.
  { apply submseteq_length, NoDup_submseteq; [done|]. set_solver. }
  rewrite length_app in Hlen. cbn in Hlen. split; [split; cbn|cbn; rewrite length_app; cbn; lia].
  - by apply linked_snoc.
  - done.
  - intros x. rewrite flag_insert_true, orb_true_iff, bool_decide_eq_true, Hs. set_solver.
  - by rewrite last_snoc.
  - set_solver.
Qed.

Lemma QueryParentChain_total name :
  ∃ chain, QueryParentChain t name = Ret chain ∧ chainPost name chain.
Proof.
  eapply while_go_total; [apply chain_loop_ok| |].
  - split; cbn; [done|apply NoDup_nil_2| |done|set_solver].
    intros x. unfold flag. rewrite lookup_empty. set_solver.
  - cbn. pose proof length_firstParents. lia.
Qed.
End chain.
