(* ===== verification/TopologyProperties.v ===== *)
(** * Properties of topology discovery

    Go iterates over maps in an unspecified order.  The first part shows that the topology
    src/pkg/topology/topology.go discovers is the same for every order, up to the order of the
    edge list; the second part states what a discovered topology is. *)
From stdpp Require Import base gmap sets list strings sorting fin_maps relations.
From Stdlib Require Import ZArith FunctionalExtensionality.
From S2P Require Import Prelude GoStrings Bfs Sha1 Topology GraphFacts Tiers Zones Groups Parents.
Local Open Scope Z_scope.

Section orders.
Context (o1 o2 : RangeOrder).

(** ** Functions that sort what they range over *)
Lemma sortedBoolKeys_fn : @sortedBoolKeys o1 = @sortedBoolKeys o2.
Proof. extensionality m. apply sortedBoolKeys_order. Qed.

Lemma sortedDeviceNames_fn T : @sortedDeviceNames o1 T = @sortedDeviceNames o2 T.
Proof. extensionality m. apply sortedDeviceNames_order. Qed.

Lemma sortedNamesFromMap_fn T : @sortedNamesFromMap o1 T = @sortedNamesFromMap o2 T.
Proof. exact (sortedDeviceNames_fn T). Qed.

Lemma sortedTierKeys_fn T : @sortedTierKeys o1 T = @sortedTierKeys o2 T.
Proof. extensionality m. apply sortedTierKeys_order. Qed.

Lemma collectHostStarts_fn : @collectHostStarts o1 = @collectHostStarts o2.
Proof.
  extensionality g. unfold collectHostStarts.
  assert (∀ (l : list (string * Device)) acc, foldl (fun (starts : list string) '(name, d) =>
    if decide (Device_Type d = DeviceHost) then starts ++ [name] else starts) acc l =
    acc ++ (filter (fun nd => Device_Type nd.2 = DeviceHost) l).*1) as Hl.
  { induction l as [|[x d] l IH]; intros acc; cbn [foldl]; [by rewrite app_nil_r|].
    rewrite IH, filter_cons. cbn [snd]. case_decide; [|done]. by rewrite <-app_assoc. }
  rewrite !Hl. apply sort_strings_proper. cbn. by rewrite !range_perm.
Qed.

Lemma zoneStep_fn : @zoneStep o1 = @zoneStep o2.
Proof. unfold zoneStep. by rewrite sortedBoolKeys_fn. Qed.

Lemma CollectConnectedZones_fn : @CollectConnectedZones o1 = @CollectConnectedZones o2.
Proof.
  unfold CollectConnectedZones, collectZoneDeviceNames.
  by rewrite zoneStep_fn, sortedBoolKeys_fn, collectHostStarts_fn.
Qed.

(** ** Loops that write each key once *)
(** Rewriting every entry of a map in place. *)
Lemma foldl_rewrite_entries {K A} `{Countable K} (f : A → A) (d : A) (l : list (K * A)) :
  ∀ m : gmap K A, NoDup l.*1 → (∀ k v, (k, v) ∈ l → m !! k = Some v) →
  ∀ k, foldl (fun (m' : gmap K A) '(k, _) => <[k := f (default d (m' !! k))]> m') m l !! k =
    if decide (k ∈ l.*1) then f <$> m !! k else m !! k.
Proof.
  induction l as [|[k0 v0] l IH]; intros m Hnd Hval k; cbn [foldl].
  { by rewrite decide_False by set_solver. }
  cbn in Hnd. apply NoDup_cons in Hnd as [Hk0 Hnd].
  assert (m !! k0 = Some v0) as Hm0 by (apply Hval; set_solver).
  rewrite IH; [|done|].
  - cbn. destruct (decide (k = k0)) as [->|Hne].
    + rewrite decide_False by done. rewrite decide_True by set_solver. by rewrite lookup_insert_eq, Hm0.
    + rewrite lookup_insert_ne by done. destruct (decide (k ∈ l.*1)).
      * by rewrite decide_True by set_solver.
      * by rewrite decide_False by set_solver.
  - intros k' v' Hin. rewrite lookup_insert_ne; [apply Hval; set_solver|].
    intros ->. apply Hk0. apply list_elem_of_fmap. by exists (k', v').
Qed.

Lemma rewrite_entries_fmap `{RangeOrder} {K A} `{Countable K} (f : A → A) (d : A) (m : gmap K A) :
  foldl (fun (m' : gmap K A) '(k, _) => <[k := f (default d (m' !! k))]> m') m (range m) = f <$> m.
Proof.
  apply map_eq. intros k. rewrite foldl_rewrite_entries, lookup_fmap.
  - case_decide as Hk; [done|]. rewrite elem_of_range_keys in Hk. by apply eq_None_not_Some in Hk as ->.
  - apply NoDup_range_keys.
  - intros k' v'. by rewrite elem_of_range.
Qed.

Lemma sortNodesByTier_fmap `{RangeOrder} m :
  sortNodesByTier m = (fun l => dedupeSortedStrings (sort_strings l)) <$> m.
Proof. apply (rewrite_entries_fmap (fun l => dedupeSortedStrings (sort_strings l)) []). Qed.

Lemma sortGroupsByTier_fn : @sortGroupsByTier o1 = @sortGroupsByTier o2.
Proof.
  extensionality m. unfold sortGroupsByTier.
  by rewrite !(rewrite_entries_fmap (fun l => merge_sort group_name_le l) []).
Qed.

Lemma buildLowerGroupToTierDevices_fn :
  @buildLowerGroupToTierDevices o1 = @buildLowerGroupToTierDevices o2.
Proof.
  extensionality g. extensionality zone. extensionality tier. extensionality lower.
  unfold buildLowerGroupToTierDevices. rewrite sortedBoolKeys_fn, sortedDeviceNames_fn.
  destruct (DevicesByTier zone !! tier); [|done].
  by rewrite !(rewrite_entries_fmap (fun l => dedupeSortedStrings (sort_strings l)) []).
Qed.

Lemma hostGroups_fn : @hostGroups o1 = @hostGroups o2.
Proof.
  extensionality zone. unfold hostGroups.
  assert (∀ (o : RangeOrder) x v, foldl (fun (m : gmap string string) '(name, device) =>
    if decide (Tier device = 0) then <[name := name]> m else m) ∅ (@range o _ _ _ _ (Zone_Devices zone)) !! x = Some v ↔
    v = x ∧ ∃ d, (x, d) ∈ @range o _ _ _ _ (Zone_Devices zone) ∧ Tier d = 0) as Hl.
  { intros o x v. generalize (@range o _ _ _ _ (Zone_Devices zone)). intros l.
    apply (foldl_inv (fun l (m : gmap string string) => m !! x = Some v ↔ v = x ∧ ∃ d, (x, d) ∈ l ∧ Tier d = 0)).
    - rewrite lookup_empty. set_solver.
    - intros seen [y d] todo m _ IH. setoid_rewrite elem_of_app. setoid_rewrite list_elem_of_singleton.
      case_decide; [rewrite lookup_insert_Some|]; rewrite IH; destruct (decide (y = x)); naive_solver. }
  apply map_eq. intros x. apply option_eq. intros v. rewrite !Hl.
  by setoid_rewrite elem_of_range.
Qed.

Lemma BuildTierGroups_fn : @BuildTierGroups o1 = @BuildTierGroups o2.
Proof.
  unfold BuildTierGroups, buildGroup, groupStep, relatedDevices.
  by rewrite sortedBoolKeys_fn, ?sortedNamesFromMap_fn, ?sortedDeviceNames_fn, buildLowerGroupToTierDevices_fn.
Qed.

Lemma BuildParentIndexForZone_fn : @BuildParentIndexForZone o1 = @BuildParentIndexForZone o2.
Proof.
  unfold BuildParentIndexForZone, buildDeviceToGroupIndex, buildDeviceParentIndex, buildGroupParentIndex,
    indexDeviceParents, indexGroupParents, addMemberParents.
  by rewrite sortedBoolKeys_fn, sortedDeviceNames_fn, sortedTierKeys_fn.
Qed.

Lemma buildZone_fn : @buildZone o1 = @buildZone o2.
Proof.
  unfold buildZone, buildTier.
  by rewrite BuildTierGroups_fn, BuildParentIndexForZone_fn, hostGroups_fn, sortedTierKeys_fn.
Qed.

(** ** The graph *)
Lemma BuildTopologyGraph_fn hosts switches :
  @BuildTopologyGraph o1 hosts switches = @BuildTopologyGraph o2 hosts switches.
Proof.
  unfold BuildTopologyGraph.
  assert (∀ d, @NewDeviceResolver o1 d = @NewDeviceResolver o2 d) as Hr; [|by rewrite Hr].
  intros d. apply (map_eq (M:=gmap string)). intros x. apply option_eq. intros v.
  by rewrite !NewDeviceResolver_lookup.
Qed.

Lemma wf_graph_ext g1 g2 :
  wf_graph g1 → wf_graph g2 → Devices g1 = Devices g2 → Links g1 = Links g2 →
  (∀ a b, edge g1 a b ↔ edge g2 a b) → g1 = g2.
Proof.
  intros Hwf1 Hwf2 Hd Hl He.
  assert (∀ x, adj_at g1 x = adj_at g2 x) as Hrow.
  { intros x. apply map_eq. intros y. apply option_eq. intros v.
    split; intros Hv.
    - pose proof (wf_true _ Hwf1 _ _ _ Hv) as ->.
      assert (edge g2 x y) as Hxy by (apply He, adj_lookup_edge; eauto).
      apply (adj_lookup_edge _ _ _ Hwf2) in Hxy as [b Hb]. by rewrite Hb, (wf_true _ Hwf2 _ _ _ Hb).
    - pose proof (wf_true _ Hwf2 _ _ _ Hv) as ->.
      assert (edge g1 x y) as Hxy by (apply He, adj_lookup_edge; eauto).
      apply (adj_lookup_edge _ _ _ Hwf1) in Hxy as [b Hb]. by rewrite Hb, (wf_true _ Hwf1 _ _ _ Hb). }
  assert (Adj g1 = Adj g2) as Ha; [|destruct g1, g2; cbn in *; by subst].
  apply map_eq. intros x. specialize (Hrow x). unfold adj_at in Hrow.
  pose proof (wf_dom _ Hwf1 x) as H1. pose proof (wf_dom _ Hwf2 x) as H2. rewrite Hd in H1.
  destruct (Adj g1 !! x), (Adj g2 !! x); cbn in *; naive_solver.
Qed.

Lemma prepared_fn hosts switches :
  ∃ g1 g, @InferTiers o1 (@BuildTopologyGraph o1 hosts switches) = Ret g1 ∧
    @InferTiers o2 (@BuildTopologyGraph o2 hosts switches) = Ret g1 ∧
    @NormalizeTierEdges o1 g1 = Ret g ∧ @NormalizeTierEdges o2 g1 = Ret g.
Proof.
  destruct (@prepared_graph o1 hosts switches) as (g1 & g & HI & Hp & HN & Hd & Hl & Hwf & _ & He).
  destruct (@prepared_graph o2 hosts switches) as (g1' & g' & HI' & Hp' & HN' & Hd' & Hl' & Hwf' & _ & He').
  rewrite <-BuildTopologyGraph_fn in Hp'. pose proof (tiersPost_unique _ _ _ Hp Hp') as <-.
  exists g1, g. split_and!; try done. rewrite HN'. f_equal. apply wf_graph_ext; [done..| | |].
  - congruence.
  - congruence.
  - intros a b. by rewrite He, He'.
Qed.
End orders.

(** ** The result, up to the order of its edges *)
Definition topo_equiv (t1 t2 : Topology) : Prop :=
  Nodes t1 = Nodes t2 ∧ NodesByTier t1 = NodesByTier t2 ∧ GroupsByTier t1 = GroupsByTier t2 ∧
  ParentIndex t1 = ParentIndex t2 ∧ Edges t1 ≡ₚ Edges t2.

#[export] Instance topo_equiv_equivalence : Equivalence topo_equiv.
Proof.
  split.
  - by intros t.
  - intros t1 t2 (? & ? & ? & ? & ?). split_and!; by symmetry.
  - intros t1 t2 t3 (? & ? & ? & ? & ?) (? & ? & ? & ? & ?). split_and!; by etrans.
Qed.

(** Replacing the edges commutes with what the zones do. *)
Lemma topo_equiv_edges t1 t2 : topo_equiv t1 t2 ↔ t2 = set_Edges (Edges t2) t1 ∧ Edges t1 ≡ₚ Edges t2.
Proof.
  unfold topo_equiv. destruct t1, t2; cbn. split.
  - by intros (-> & -> & -> & -> & ?).
  - intros [[= -> -> -> ->] ?]. done.
Qed.

Lemma addGroup_equiv tier t1 t2 lower G :
  topo_equiv t1 t2 →
  topo_equiv (addGroup tier (t1, lower) G).1 (addGroup tier (t2, lower) G).1 ∧
  (addGroup tier (t1, lower) G).2 = (addGroup tier (t2, lower) G).2.
Proof.
  intros [Heq Hp]%topo_equiv_edges. rewrite Heq. unfold addGroup. case_decide; cbn.
  { split; [|done]. by split_and!. }
  split; [|done].
  assert (∀ ms ta tb, topo_equiv ta tb → topo_equiv
    (foldl (fun topology member => set_Edges (Edges topology ++ [MkEdge (Group_Name G) member "group-member"]) topology) ta ms)
    (foldl (fun topology member => set_Edges (Edges topology ++ [MkEdge (Group_Name G) member "group-member"]) topology) tb ms))
    as Hms.
  { induction ms as [|m ms IH]; intros ta tb Hab; [done|]. cbn. apply IH.
    destruct Hab as (? & ? & ? & ? & Hed). split_and!; try done. cbn. by rewrite Hed. }
  apply Hms. by split_and!.
Qed.

Lemma addGroups_equiv tier groups t1 t2 lower :
  topo_equiv t1 t2 →
  topo_equiv (foldl (addGroup tier) (t1, lower) groups).1 (foldl (addGroup tier) (t2, lower) groups).1 ∧
  (foldl (addGroup tier) (t1, lower) groups).2 = (foldl (addGroup tier) (t2, lower) groups).2.
Proof.
  revert t1 t2 lower. induction groups as [|G groups IH]; intros t1 t2 lower Heq; [done|].
  cbn [foldl]. destruct (addGroup_equiv tier t1 t2 lower G Heq) as [Ht Hl].
  destruct (addGroup tier (t1, lower) G) as [a1 l1], (addGroup tier (t2, lower) G) as [a2 l2].
  cbn in Ht, Hl. subst l2. by apply IH.
Qed.

Definition go_rel {E A} (R : A → A → Prop) (c1 c2 : go E A) : Prop :=
  match c1, c2 with
  | Ret a1, Ret a2 => R a1 a2
  | Err _, Err _ | Panic, Panic | OutOfFuel, OutOfFuel => True
  | _, _ => False
  end.

Lemma go_foldl_rel {E A B} (R : A → A → Prop) (f : A → B → go E A) l a1 a2 :
  (∀ a1 a2 b, R a1 a2 → go_rel R (f a1 b) (f a2 b)) → R a1 a2 →
  go_rel R (go_foldl f a1 l) (go_foldl f a2 l).
Proof.
  intros Hf. revert a1 a2. induction l as [|b l IH]; intros a1 a2 Ha; [done|]. cbn.
  specialize (Hf a1 a2 b Ha). destruct (f a1 b), (f a2 b); cbn in *; try done. by apply IH.
Qed.

Section frame.
Context `{RangeOrder}.

Lemma BuildParentIndexForZone_edges g zone t e :
  BuildParentIndexForZone g zone (set_Edges e t) = set_Edges e (BuildParentIndexForZone g zone t) ∧
  Edges (BuildParentIndexForZone g zone t) = Edges t.
Proof.
  assert (∀ d2g ta tb x, (ta = set_Edges e tb ∧ Edges tb = Edges t) →
    indexDeviceParents g zone d2g ta x = set_Edges e (indexDeviceParents g zone d2g tb x) ∧
    Edges (indexDeviceParents g zone d2g tb x) = Edges t) as Hd.
  { intros d2g ta tb x [-> Hed]. unfold indexDeviceParents. by case_decide. }
  assert (∀ d2g ta tb G, (ta = set_Edges e tb ∧ Edges tb = Edges t) →
    indexGroupParents g zone d2g ta G = set_Edges e (indexGroupParents g zone d2g tb G) ∧
    Edges (indexGroupParents g zone d2g tb G) = Edges t) as Hg.
  { intros d2g ta tb x [-> Hed]. unfold indexGroupParents. by case_decide. }
  assert (∀ {B} (f : Topology → B → Topology) l ta tb, (∀ ta tb b, ta = set_Edges e tb ∧ Edges tb = Edges t →
      f ta b = set_Edges e (f tb b) ∧ Edges (f tb b) = Edges t) → ta = set_Edges e tb ∧ Edges tb = Edges t →
    foldl f ta l = set_Edges e (foldl f tb l) ∧ Edges (foldl f tb l) = Edges t) as Hfold.
  { intros B f l ta tb Hf. revert ta tb. induction l as [|b l IH]; intros ta tb Hab; [done|]. apply IH, Hf, Hab. }
  unfold BuildParentIndexForZone. set (d2g := buildDeviceToGroupIndex zone t).
  change (buildDeviceToGroupIndex zone (set_Edges e t)) with d2g.
  assert (buildDeviceParentIndex g zone d2g (set_Edges e t) =
      set_Edges e (buildDeviceParentIndex g zone d2g t) ∧
    Edges (buildDeviceParentIndex g zone d2g t) = Edges t) as [-> Hed].
  { unfold buildDeviceParentIndex. apply Hfold; [|done]. intros ? ? ?. apply Hd. }
  unfold buildGroupParentIndex. apply Hfold; [|done].
  intros ta tb tier [-> Hed']. case_decide; [done|]. apply Hfold; [|done]. intros ? ? ?. apply Hg.
Qed.

Lemma buildTier_equiv g zone opts s1 s2 tier :
  topo_equiv s1.1 s2.1 ∧ s1.2 = s2.2 →
  go_rel (fun s1 s2 => topo_equiv s1.1 s2.1 ∧ s1.2 = s2.2)
    (buildTier g zone opts s1 tier) (buildTier g zone opts s2 tier).
Proof.
  destruct s1 as [a1 l1], s2 as [a2 l2]. cbn. intros [Ha <-].
  unfold buildTier. case_decide; [done|]. cbn. destruct (BuildTierGroups _ _ _ _ _); [|done..].
  cbn. by apply addGroups_equiv.
Qed.

Lemma buildZone_equiv g opts t1 t2 names :
  topo_equiv t1 t2 → go_rel topo_equiv (buildZone g opts t1 names) (buildZone g opts t2 names).
Proof.
  intros Heq. unfold buildZone. set (zone := BuildZoneDeviceView g names).
  pose proof (go_foldl_rel (E:=Empty_set) (fun s1 s2 => topo_equiv s1.1 s2.1 ∧ s1.2 = s2.2) (buildTier g zone opts)
    (sortedTierKeys (DevicesByTier zone)) (t1, hostGroups zone) (t2, hostGroups zone)) as Hf.
  specialize (Hf ltac:(intros; by apply buildTier_equiv) ltac:(done)).
  destruct (go_foldl _ (t1, _) _) as [s1| | |], (go_foldl _ (t2, _) _) as [s2| | |]; cbn in *; try done.
  destruct Hf as [[Hs Hp]%topo_equiv_edges _].
  destruct (BuildParentIndexForZone_edges g zone s1.1 (Edges s2.1)) as [Hz He].
  apply topo_equiv_edges. rewrite Hs, Hz. cbn. split; [done|]. by rewrite He.
Qed.
End frame.

(** ** Nodes and physical edges *)
Lemma addDeviceNodes_Nodes l x nd :
  NoDup l.*1 →
  Nodes (foldl addDeviceNode (MkTopology ∅ [] ∅ ∅ ∅) l) !! x = Some nd ↔
  ∃ d, (x, d) ∈ l ∧ 0 ≤ Tier d ∧ nd = MkNode x TopologyNodeDevice (Tier d) (Device_Type d) [].
Proof.
  intros Hnd. apply (foldl_inv (fun l (t : Topology) => Nodes t !! x = Some nd ↔
    ∃ d, (x, d) ∈ l ∧ 0 ≤ Tier d ∧ nd = MkNode x TopologyNodeDevice (Tier d) (Device_Type d) [])).
  { cbn. rewrite lookup_empty. set_solver. }
  intros seen [y d] todo t Heq IH.
  assert (∀ d', (y, d') ∉ seen) as Hy.
  { intros d' Hin. rewrite Heq, fmap_app in Hnd. apply NoDup_app in Hnd as (_ & Hdis & _).
    apply (Hdis y); [apply list_elem_of_fmap; by exists (y, d')|set_solver]. }
  setoid_rewrite elem_of_app. setoid_rewrite list_elem_of_singleton.
  unfold addDeviceNode. case_decide as Ht; cbn; [|rewrite lookup_insert_Some]; rewrite IH.
  - split; [naive_solver|]. intros (d' & [?|[= -> ->]] & ? & ?); [eauto|lia].
  - split.
    + intros [[-> <-]|[? (d' & ? & ? & ?)]]; [exists d; split_and!; [by right|lia|done]|eauto 10].
    + intros (d' & [Hin|[= -> ->]] & ? & ->); [|by left]. right. split; [intros ->; by apply (Hy d')|eauto].
Qed.

Definition devicesOfTier (l : list (string * Device)) (tier : Z) : list string :=
  (filter (fun nd : string * Device => 0 ≤ Tier nd.2 ∧ Tier nd.2 = tier) l).*1.

Lemma addDeviceNodes_NodesByTier l tier :
  NodesByTier (foldl addDeviceNode (MkTopology ∅ [] ∅ ∅ ∅) l) !! tier =
  match devicesOfTier l tier with [] => None | ns => Some ns end.
Proof.
  apply (foldl_inv (fun l (t : Topology) => NodesByTier t !! tier =
    match devicesOfTier l tier with [] => None | ns => Some ns end)); [done|].
  intros seen [x d] todo t _ IH. unfold devicesOfTier in *. rewrite filter_app, filter_cons, filter_nil, fmap_app.
  unfold addDeviceNode. cbn [fst snd]. case_decide as Ht.
  { rewrite decide_False by lia. cbn. by rewrite app_nil_r. }
  unfold append_at. cbn. destruct (decide (Tier d = tier)) as [Hd|Hd].
  - rewrite decide_True by lia. subst tier. rewrite lookup_insert_eq, IH. cbn.
    by destruct ((filter _ seen).*1).
  - rewrite decide_False by tauto. rewrite lookup_insert_ne, IH by done. cbn. by rewrite app_nil_r.
Qed.

Definition physicalEdges `{RangeOrder} (am : string * gmap string bool) : list TopologyEdge :=
  (fun bv : string * bool => MkEdge am.1 bv.1 "physical") <$>
    filter (fun bv : string * bool => negb (str_ltb bv.1 am.1) = true) (range am.2).

Lemma addPhysicalEdges_edges `{RangeOrder} l t :
  foldl addPhysicalEdges t l = set_Edges (Edges t ++ (l ≫= physicalEdges)) t.
Proof.
  revert t. induction l as [|[a m] l IH]; intros t; cbn [foldl].
  { cbn. rewrite app_nil_r. by destruct t. }
  assert (addPhysicalEdges t (a, m) = set_Edges (Edges t ++ physicalEdges (a, m)) t) as Hrow.
  { unfold addPhysicalEdges, physicalEdges. cbn. generalize (range m). intros r. revert t.
    induction r as [|[b v] r IHr]; intros t; cbn [foldl].
    { cbn. rewrite app_nil_r. by destruct t. }
    rewrite filter_cons. cbn [fst]. destruct (str_ltb b a); cbn.
    - rewrite decide_False by done. apply IHr.
    - rewrite decide_True by done. rewrite IHr. cbn. by rewrite <-app_assoc. }
  rewrite Hrow, IH. cbn. by rewrite <-app_assoc.
Qed.

Section result.
Context (o1 o2 : RangeOrder).

Lemma physicalEdges_perm am : @physicalEdges o1 am ≡ₚ @physicalEdges o2 am.
Proof. unfold physicalEdges. by rewrite !range_perm. Qed.

Lemma BuildTopology_start g :
  let start (o : RangeOrder) :=
    let topology := foldl addDeviceNode (MkTopology ∅ [] ∅ ∅ ∅) (range (Devices g)) in
    let topology := set_NodesByTier (sortNodesByTier (NodesByTier topology)) topology in
    foldl addPhysicalEdges topology (range (Adj g)) in
  topo_equiv (start o1) (start o2).
Proof.
  cbn. rewrite !addPhysicalEdges_edges. split_and!; cbn.
  - apply map_eq. intros x. apply option_eq. intros nd.
    rewrite !addDeviceNodes_Nodes by apply NoDup_range_keys. by setoid_rewrite elem_of_range.
  - rewrite !sortNodesByTier_fmap. apply map_eq. intros tier.
    rewrite !lookup_fmap, !addDeviceNodes_NodesByTier.
    assert (devicesOfTier (@range o1 _ _ _ _ (Devices g)) tier ≡ₚ
      devicesOfTier (@range o2 _ _ _ _ (Devices g)) tier) as Hp.
    { unfold devicesOfTier. by rewrite !range_perm. }
    destruct (devicesOfTier (@range o1 _ _ _ _ (Devices g)) tier) as [|x l1],
      (devicesOfTier (@range o2 _ _ _ _ (Devices g)) tier) as [|y l2]; try done.
    + by apply Permutation_nil_cons in Hp.
    + symmetry in Hp. by apply Permutation_nil_cons in Hp.
    + apply (f_equal (fun l => Some (dedupeSortedStrings l)) (sort_strings_proper _ _ Hp)).
  - by destruct (addDeviceNodes_frame (@range o1 _ _ _ _ (Devices g)) (MkTopology ∅ [] ∅ ∅ ∅)) as [-> _],
      (addDeviceNodes_frame (@range o2 _ _ _ _ (Devices g)) (MkTopology ∅ [] ∅ ∅ ∅)) as [-> _].
  - by destruct (addDeviceNodes_frame (@range o1 _ _ _ _ (Devices g)) (MkTopology ∅ [] ∅ ∅ ∅)) as [_ ->],
      (addDeviceNodes_frame (@range o2 _ _ _ _ (Devices g)) (MkTopology ∅ [] ∅ ∅ ∅)) as [_ ->].
  - assert (∀ (l : list (string * Device)) t, Edges (foldl addDeviceNode t l) = Edges t) as Hed.
    { induction l as [|[x d] l IH]; intros t; [done|]. cbn [foldl]. rewrite IH. unfold addDeviceNode. by case_decide. }
    rewrite !Hed. cbn. transitivity (@range o2 _ _ _ _ (Adj g) ≫= @physicalEdges o1); [by rewrite !range_perm|].
    induction (@range o2 _ _ _ _ (Adj g)) as [|am l IH]; [done|]. cbn. by rewrite IH, physicalEdges_perm.
Qed.

Lemma BuildTopology_order g opts :
  go_rel topo_equiv (@BuildTopology o1 g opts) (@BuildTopology o2 g opts).
Proof.
  unfold BuildTopology. rewrite (CollectConnectedZones_fn o1 o2), (buildZone_fn o1 o2).
  destruct (@CollectConnectedZones o2 g) as [zones| | |]; cbn; [|done..].
  pose proof (go_foldl_rel topo_equiv (@buildZone o2 g opts) zones _ _
    (fun t1 t2 names => @buildZone_equiv o2 g opts t1 t2 names) (BuildTopology_start g)) as Hz.
  cbv zeta in Hz.
  destruct (go_foldl _ _ zones) as [t1| | |], (go_foldl _ _ zones) as [t2| | |]; cbn in *; try done.
  destruct Hz as (HN & HT & HG & HP & HE). split_and!; cbn; try done.
  - rewrite !sortNodesByTier_fmap. by rewrite HT.
  - by rewrite HG, (sortGroupsByTier_fn o1 o2).
Qed.

Lemma DiscoverTopology_order hosts switches options :
  go_rel topo_equiv (@DiscoverTopology o1 hosts switches options) (@DiscoverTopology o2 hosts switches options).
Proof.
  unfold DiscoverTopology.
  destruct (prepared_fn o1 o2 hosts switches) as (g1 & g & -> & -> & HN1 & HN2). cbn.
  rewrite HN1, HN2. cbn. apply BuildTopology_order.
Qed.
End result.

(** C1.  [DiscoverTopology] returns for every list of hosts and switches (no panic,
    no endless loop), and every entry of the parent index of the result names
    exactly one parent: a device or group never has two parents one tier up. *)
Theorem discover_single_parent `{RangeOrder} hosts switches options :
  ∃ t, DiscoverTopology hosts switches options = Ret t ∧
    ∀ name parents, ParentIndex t !! name = Some parents → ∃ parent, parents = [parent].
Proof. destruct (DiscoverTopology_total hosts switches options) as (t & Ht & Hs & _). by exists t. Qed.

(** C2.  [InferTiers] returns on every graph [BuildTopologyGraph] builds, leaves
    edges, links and hosts alone, and gives each switch the length of its shortest
    walk through switches to a host, or -1 when there is no such walk. *)
Theorem infer_tiers_distance `{RangeOrder} hosts switches :
  let g0 := BuildTopologyGraph hosts switches in
  ∃ g, InferTiers g0 = Ret g ∧ Adj g = Adj g0 ∧ Links g = Links g0 ∧
    (∀ x, ~ is_switch g0 x → Devices g !! x = Devices g0 !! x) ∧
    ∀ x, is_switch g0 x → is_switch g x ∧
      (lab g x = -1 ∧ (∀ n, ~ tier_path g0 x n) ∨ lab g x ≠ -1 ∧ tier_distance g0 x (lab g x)).
Proof.
  intros g0. destruct (InferTiers_correct g0) as (g & Hg & Hs & Ht);
    [apply BuildTopologyGraph_wf|apply built_unset|].
  exists g. split_and!; [done|apply Hs..|]. intros x Hx.
  split; [by apply (same_shape_switch g0 g)|by apply Ht].
Qed.

(** C3.  On a well-formed graph [NormalizeTierEdges] never writes into a missing
    row: it returns a well-formed graph with the same devices and exactly the edges
    whose ends are in neighbouring non-negative tiers. *)
Theorem normalize_tier_edges `{RangeOrder} g :
  wf_graph g →
  ∃ g', NormalizeTierEdges g = Ret g' ∧ Devices g' = Devices g ∧ Links g' = Links g ∧ wf_graph g' ∧
    ∀ a b, edge g' a b ↔ edge g a b ∧ adjacent_tiers g a b.
Proof. apply NormalizeTierEdges_correct. Qed.

Lemma normalize_tier_edges_witness :
  let g := @BuildTopologyGraph canonical_order Sample.hosts Sample.switches in
  ∃ g', @NormalizeTierEdges canonical_order g = Ret g' ∧ Devices g' = Devices g ∧ Links g' = Links g ∧
    wf_graph g' ∧ ∀ a b, edge g' a b ↔ edge g a b ∧ adjacent_tiers g a b.
Proof. apply (@normalize_tier_edges canonical_order). apply BuildTopologyGraph_wf. Defined.

(** C4.  [CollectConnectedZones] returns on every well-formed graph: every zone is
    the sorted list of the devices connected to some host, every host is in a zone
    and no device is in two zones or twice in one. *)
Theorem zones_partition `{RangeOrder} g :
  wf_graph g →
  ∃ zones, CollectConnectedZones g = Ret zones ∧
    (∀ zone, zone ∈ zones → ∃ h, is_host g h ∧
       Sorted String.le zone ∧ NoDup zone ∧ ∀ x, x ∈ zone ↔ connected g h x) ∧
    (∀ h, is_host g h → ∃ zone, zone ∈ zones ∧ h ∈ zone) ∧
    NoDup (mjoin zones).
Proof. apply CollectConnectedZones_correct. Qed.

Lemma zones_partition_witness :
  let g := @BuildTopologyGraph canonical_order Sample.hosts Sample.switches in
  ∃ zones, @CollectConnectedZones canonical_order g = Ret zones ∧
    (∀ zone, zone ∈ zones → ∃ h, is_host g h ∧
       Sorted String.le zone ∧ NoDup zone ∧ ∀ x, x ∈ zone ↔ connected g h x) ∧
    (∀ h, is_host g h → ∃ zone, zone ∈ zones ∧ h ∈ zone) ∧ NoDup (mjoin zones).
Proof. apply (@zones_partition canonical_order). apply BuildTopologyGraph_wf. Defined.

(** C5.  [BuildTierGroups] returns for every zone and tier.  Each group is the
    sorted set of devices that a chain of shared lower groups joins to one of its
    members, with exactly the lower and upper neighbours of its members, and the
    groups partition the devices of the tier. *)
Theorem tier_groups_partition `{RangeOrder} g zone tier lower opts :
  ∃ groups, BuildTierGroups g zone tier lower opts = Ret groups ∧
    (∀ G, G ∈ groups → ∃ s, inTier zone tier s ∧ groupOf g zone tier lower opts s G) ∧
    (∀ x, x ∈ mjoin (Members <$> groups) ↔ inTier zone tier x) ∧
    NoDup (mjoin (Members <$> groups)).
Proof. apply BuildTierGroups_correct. Qed.

(**  [BuildTopologyGraph] holds one device per name (a switch wins over a host
    of the same name, hosts in tier 0, switches in tier -1), and joins two devices
    by an edge exactly when one of them is a switch that reports the other behind a
    port of its own; edges are symmetric. *)
Theorem graph_edges `{RangeOrder} hosts switches :
  let g := BuildTopologyGraph hosts switches in
  wf_graph g ∧ (∀ x, Devices g !! x = namedDevice hosts switches x) ∧
  ∀ a b, edge g a b ↔ declared hosts switches a b ∨ declared hosts switches b a.
Proof.
  split; [apply BuildTopologyGraph_wf|]. split; [apply BuildTopologyGraph_Devices|].
  apply BuildTopologyGraph_edge.
Qed.

(** C6.  Whatever two orders the runtime iterates over maps in, [DiscoverTopology]
    gives the same nodes, tiers, groups and parents, and the same edges up to their
    order. *)
Theorem discover_order_independent (o1 o2 : RangeOrder) hosts switches options :
  ∃ t1 t2, @DiscoverTopology o1 hosts switches options = Ret t1 ∧
    @DiscoverTopology o2 hosts switches options = Ret t2 ∧
    Nodes t1 = Nodes t2 ∧ NodesByTier t1 = NodesByTier t2 ∧ GroupsByTier t1 = GroupsByTier t2 ∧
    ParentIndex t1 = ParentIndex t2 ∧ Edges t1 ≡ₚ Edges t2.
Proof.
  destruct (@DiscoverTopology_total o1 hosts switches options) as (t1 & H1 & _).
  destruct (@DiscoverTopology_total o2 hosts switches options) as (t2 & H2 & _).
  pose proof (DiscoverTopology_order o1 o2 hosts switches options) as Hr.
  rewrite H1, H2 in Hr. exists t1, t2. split; [done|]. split; [done|exact Hr].
Qed.

(**  [QueryParentChain] returns for every topology, even one whose parent index
    has a cycle: the chain follows first parents, lists no name twice, and stops
    only where there is no parent or the next parent is already in the chain. *)
Theorem parent_chain_terminates t name :
  ∃ chain, QueryParentChain t name = Ret chain ∧ linked t name chain ∧ NoDup chain ∧
    ∀ p, firstParent t (default name (last chain)) = Some p → p ∈ chain.
Proof. apply QueryParentChain_total. Qed.
