(* ===== verification/LabelTemplate.v ===== *)
(** * Topology label templates

    The template language of src/pkg/topologylabel/template.go: a label key with
    one tier number in it.  Templates are compiled from the syntax tree of
    text/template, rendered, matched in reverse, and checked to be pairwise
    disjoint by exploring the product of two automata. *)
From stdpp Require Import base gmap sets list strings sorting.
From Stdlib Require Import ZArith Ascii.
From S2P Require Import Prelude GoStrings GoNumbers.
Local Open Scope Z_scope.

(** ** Syntax trees of text/template/parse *)
Inductive ArgNode :=
| FieldNode (Ident : list string)
| OtherArg.

Record CommandNode := MkCommand { Args : list ArgNode }.

Record PipeNode := MkPipe {
  Decl : list string;
  IsAssign : bool;
  Cmds : list (option CommandNode)
}.

Inductive Node :=
| TextNode (Text : string)
| ActionNode (Pipe : option PipeNode)
| OtherNode.

Inductive labelError :=
| ErrEmpty (name : string)
| ErrParse (name : string)
| ErrNoTree (name : string)
| ErrAction (name : string)
| ErrPipeline (name : string)
| ErrField (name : string)
| ErrOnlyText (name : string)
| ErrActions (name : string)
| ErrNotCompiled
| ErrTier
| ErrExecute
| ErrRender (name : string) (tier : Z)
| ErrInvalid (name : string) (tier : Z) (key : string)
| ErrOverlap (left right : string) (example : string).

(** ** The matching expression

    An anchored sequence of quoted texts and tier groups, a tier group being a
    digit from 1 to 9 followed by any digits. *)
Inductive piece := Quoted (text : string) | TierGroup.

(** The ways to read a run of digits at the start of [s], longest first. *)
Fixpoint digit_splits (s : string) : list (string * string) :=
  match s with
  | EmptyString => [("", "")]
  | String c r =>
    (if is_digit c then (fun '(d, rest) => (String c d, rest)) <$> digit_splits r else []) ++ [("", s)]
  end.

Definition tier_splits (s : string) : list (string * string) :=
  match s with
  | EmptyString => []
  | String c r =>
    if is_nonzero_digit c then (fun '(d, rest) => (String c d, rest)) <$> digit_splits r else []
  end.

(** [FindStringSubmatch] of the anchored expression: the captured groups. *)
Fixpoint match_pieces (pieces : list piece) (s : string) : option (list string) :=
  match pieces with
  | [] => if decide (s = "") then Some [] else None
  | Quoted text :: pieces => r ← strip_prefix text s; match_pieces pieces r
  | TierGroup :: pieces =>
    head (omap (fun '(d, rest) => (fun caps => d :: caps) <$> match_pieces pieces rest) (tier_splits s))
  end.

Record Template := MkTemplate {
  raw : string;
  parsed : list Node;
  matcher : list piece;
  prefix : string;
  suffix : string
}.

(** ** Rendering and matching *)

(** [Execute] on the nodes a compiled template can hold. *)
Definition exec_node (tier : Z) (n : Node) : option string :=
  match n with
  | TextNode text => Some text
  | ActionNode (Some (MkPipe [] false [Some (MkCommand [FieldNode ["Tier"]])])) => Some (Itoa tier)
  | _ => None
  end.

Definition execute (nodes : list Node) (tier : Z) : option string :=
  foldl (fun out n => o ← out; s ← exec_node tier n; Some (o +:+ s)) (Some "") nodes.

Definition Raw (t : option Template) : string :=
  match t with None => "" | Some t => raw t end.

Definition Render (t : option Template) (tier : Z) : go labelError string :=
  match t with
  | None => Err ErrNotCompiled
  | Some t =>
    if decide (tier < 1) then Err ErrTier
    else match execute (parsed t) tier with
         | None => Err ErrExecute
         | Some s => Ret s
         end
  end.

Definition MatchTier (t : option Template) (key : string) : Z * bool :=
  match t with
  | None => (0, false)
  | Some t =>
    match match_pieces (matcher t) key with
    | Some [group] =>
      match Atoi group with
      | Some tier => if decide (tier < 1) then (0, false) else (tier, true)
      | None => (0, false)
      end
    | _ => (0, false)
    end
  end.

(** ** Compilation *)
Definition validateTierAction (name : string) (action : option PipeNode) : go labelError unit :=
  match action with
  | None => Err (ErrAction name)
  | Some pipe =>
    if decide (Decl pipe ≠ [] ∨ IsAssign pipe = true ∨ length (Cmds pipe) ≠ 1%nat) then Err (ErrAction name)
    else match Cmds pipe with
         | Some command :: _ =>
           if decide (length (Args command) ≠ 1%nat) then Err (ErrPipeline name)
           else match Args command with
                | FieldNode ident :: _ =>
                  if decide (ident = ["Tier"]) then Ret () else Err (ErrField name)
                | _ => Err (ErrField name)
                end
         | _ => Err (ErrPipeline name)
         end
  end.

Record compileState := CompileState {
  c_matcher : list piece;
  c_prefix : string;
  c_suffix : string;
  c_actions : nat;
  c_seen : bool
}.

Definition compileNode (name : string) (st : compileState) (n : Node) : go labelError compileState :=
  match n with
  | TextNode text =>
    let m := c_matcher st ++ [Quoted text] in
    if c_seen st then Ret (CompileState m (c_prefix st) (c_suffix st +:+ text) (c_actions st) (c_seen st))
    else Ret (CompileState m (c_prefix st +:+ text) (c_suffix st) (c_actions st) (c_seen st))
  | ActionNode pipe =>
    _ ← validateTierAction name pipe;
    Ret (CompileState (c_matcher st ++ [TierGroup]) (c_prefix st) (c_suffix st) (S (c_actions st)) true)
  | OtherNode => Err (ErrOnlyText name)
  end.

Section compile.
(** The parser of text/template, and the label-key check of Kubernetes. *)
Context (Parse : string → option (option (list Node))) (IsQualifiedName : string → list string).

Definition checkRendered (name : string) (compiled : Template) (_ : unit) (tier : Z) : go labelError unit :=
  match Render (Some compiled) tier with
  | Ret key =>
    if decide (IsQualifiedName key = []) then Ret () else Err (ErrInvalid name tier key)
  | _ => Err (ErrRender name tier)
  end.

Definition Compile (name rawText : string) : go labelError Template :=
  if decide (rawText = "") then Err (ErrEmpty name)
  else match Parse rawText with
  | None => Err (ErrParse name)
  | Some None => Err (ErrNoTree name)
  | Some (Some nodes) =>
    st ← go_foldl (compileNode name) (CompileState [] "" "" 0 false) nodes;
    if decide (c_actions st ≠ 1%nat) then Err (ErrActions name)
    (* [regexp.MustCompile] panics on an expression that is not valid UTF-8 *)
    else if negb (utf8_valid (c_prefix st) && utf8_valid (c_suffix st)) then Panic
    else
      let compiled := MkTemplate rawText nodes (c_matcher st) (c_prefix st) (c_suffix st) in
      _ ← go_foldl (checkRendered name compiled) () [1; 12];
      Ret compiled
  end.
End compile.

(** ** Automata *)
Record tierLanguage := MkLanguage {
  l_prefix : list Z;
  l_suffix : list Z;
  digitState : nat;
  suffixStart : nat;
  acceptState : nat
}.

Definition newTierLanguage (value : Template) : tierLanguage :=
  let digit := (String.length (prefix value) + 1)%nat in
  let start := (digit + 1)%nat in
  MkLanguage (bytes (prefix value)) (bytes (suffix value)) digit start
    (start + String.length (suffix value))%nat.

Definition cloneStateSet (states : gset nat) : gset nat := states.

Definition closure (n : tierLanguage) (states : gset nat) : gset nat :=
  let result := cloneStateSet states in
  if decide (digitState n ∈ result) then {[ suffixStart n ]} ∪ result else result.

(** The state one character leads to. *)
Definition stepState (n : tierLanguage) (character : Z) (state : nat) : option nat :=
  if decide (state < length (l_prefix n))%nat then
    if decide (l_prefix n !! state = Some character) then Some (S state) else None
  else if decide (state = length (l_prefix n)) then
    if decide (49 ≤ character ≤ 57) then Some (digitState n) else None
  else if decide (state = digitState n) then
    if decide (48 ≤ character ≤ 57) then Some (digitState n) else None
  else if decide (suffixStart n ≤ state < acceptState n)%nat then
    if decide (l_suffix n !! (state - suffixStart n)%nat = Some character) then Some (S state) else None
  else None.

Definition transition (n : tierLanguage) (states : gset nat) (character : Z) : gset nat :=
  closure n (list_to_set (omap (stepState n character) (elements states))).

Definition accepts (n : tierLanguage) (states : gset nat) : bool :=
  bool_decide (acceptState n ∈ states).

Definition stateSetKey (states : gset nat) : string :=
  foldl (fun result state => result +:+ Itoa state +:+ ",") ""
    (sort_ints (Z.of_nat <$> elements states)).

Definition pairStateKey (left right : gset nat) : string :=
  stateSetKey left +:+ "|" +:+ stateSetKey right.

Definition languageAlphabet (values : list tierLanguage) : list Z :=
  let digits := [48; 49; 50; 51; 52; 53; 54; 55; 56; 57] in
  let set : gset Z := foldl (fun set value => set ∪ list_to_set (l_prefix value ++ l_suffix value))
    (list_to_set digits) values in
  sort_ints (elements set).

Record languagePairState := MkPairState {
  left : gset nat;
  right : gset nat;
  example : string
}.

Record searchState := MkSearch {
  s_queue : list languagePairState;
  s_visited : gset string
}.

Section search.
Context (leftNFA rightNFA : tierLanguage).

Definition extend (current : languagePairState) (st : searchState) (character : Z) : searchState :=
  let nextLeft := transition leftNFA (left current) character in
  let nextRight := transition rightNFA (right current) character in
  if decide (nextLeft = ∅ ∨ nextRight = ∅) then st
  else
    let key := pairStateKey nextLeft nextRight in
    if decide (key ∈ s_visited st) then st
    else MkSearch
      (s_queue st ++ [MkPairState nextLeft nextRight
         (example current +:+ of_bytes (encode_rune character))])
      ({[ key ]} ∪ s_visited st).

Definition searchStep (alphabet : list Z) (st : searchState) : searchState + (string * bool) :=
  match s_queue st with
  | [] => inr ("", false)
  | current :: queue =>
    if accepts leftNFA (left current) && accepts rightNFA (right current) then
      inr (example current, true)
    else inl (foldl (extend current) (MkSearch queue (s_visited st)) alphabet)
  end.

(** Each pair of state sets is enqueued at most once. *)
Definition searchFuel : N :=
  (2 ^ N.of_nat (S (acceptState leftNFA)) * 2 ^ N.of_nat (S (acceptState rightNFA)) + 2)%N.
End search.

Definition intersectionExample (leftT rightT : Template) : go labelError (string * bool) :=
  let leftNFA := newTierLanguage leftT in
  let rightNFA := newTierLanguage rightT in
  let start := MkPairState (closure leftNFA {[ 0%nat ]}) (closure rightNFA {[ 0%nat ]}) "" in
  let visited := {[ pairStateKey (left start) (right start) ]} in
  let alphabet := languageAlphabet [leftNFA; rightNFA] in
  while_go (searchStep leftNFA rightNFA alphabet) (searchFuel leftNFA rightNFA) (MkSearch [start] visited).

(** ** Sets of templates *)
Record LabelSet := MkSet {
  ScaleUp : option Template;
  ScaleOut : option Template;
  Storage : option Template
}.

Section compile_set.
Context (Parse : string → option (option (list Node))) (IsQualifiedName : string → list string).

Definition checkDisjoint (leftV : string * Template) (_ : unit) (rightV : string * Template)
    : go labelError unit :=
  r ← intersectionExample leftV.2 rightV.2;
  if (r.2 : bool) then Err (ErrOverlap leftV.1 rightV.1 r.1) else Ret ().

(** The double loop [for left … for right := left + 1 …]. *)
Fixpoint checkPairs (compiled : list (string * Template)) : go labelError unit :=
  match compiled with
  | [] => Ret ()
  | value :: rest =>
    _ ← go_foldl (checkDisjoint value) () rest;
    checkPairs rest
  end.

Definition CompileSet (scaleUp scaleOut storage : string) : go labelError LabelSet :=
  let values := [("topologyLabels.scaleUp", scaleUp); ("topologyLabels.scaleOut", scaleOut);
                 ("topologyLabels.storage", storage)] in
  compiled ← go_foldl (fun compiled '(name, rawText) =>
      item ← Compile Parse IsQualifiedName name rawText;
      Ret (compiled ++ [(name, item)])) [] values;
  _ ← checkPairs compiled;
  Ret (MkSet (snd <$> compiled !! 0%nat) (snd <$> compiled !! 1%nat) (snd <$> compiled !! 2%nat)).
End compile_set.

Definition ForTopology (s : option LabelSet) (name : string) : option Template :=
  match s with
  | None => None
  | Some s =>
    if decide (name = "scaleup") then ScaleUp s
    else if decide (name = "scaleout") then ScaleOut s
    else if decide (name = "storage") then Storage s
    else None
  end.

Definition All (s : option LabelSet) : list (option Template) :=
  match s with
  | None => []
  | Some s => [ScaleUp s; ScaleOut s; Storage s]
  end.
