(* ===== verification/Config.v ===== *)
(** * Configuration

    src/pkg/config and the level names of src/pkg/logger: the configuration records of
    the four programs, their defaults and their validation.  An error carries the name of
    the field that is refused.  The contents of files, the YAML library and the search for
    a kubeconfig are arguments of the readers at the end. *)
From stdpp Require Import base list numbers strings.
From Stdlib Require Import ZArith.
From S2P Require Import Prelude GoStrings GoText GoNet LabelTemplate.
Local Open Scope Z_scope.

Inductive configError :=
| BadField (field : string)
| LabelErr (e : labelError).

Definition checked : Type → Type := go configError.

(** ** Levels (src/pkg/logger/logger.go) *)
Definition LevelDebug : string := "debug".
Definition LevelInfo : string := "info".
Definition LevelWarn : string := "warn".
Definition LevelError : string := "error".

Definition NormalizeLevel (level : string) : option string :=
  let l := ToLower (TrimSpace level) in
  if decide (l = "" ∨ l = LevelInfo) then Some LevelInfo
  else if decide (l = LevelDebug) then Some LevelDebug
  else if decide (l = LevelWarn) then Some LevelWarn
  else if decide (l = LevelError) then Some LevelError
  else None.

Definition normalizeLevelField (field level : string) : checked string :=
  match NormalizeLevel level with
  | Some l => Ret l
  | None => Err (BadField field)
  end.

(** ** Helpers *)
Definition setDefault (field value : string) : string := if decide (field = "") then value else field.

Definition setDefaultBool (field : option bool) (value : bool) : option bool :=
  match field with None => Some value | Some _ => field end.

(** [strings.SplitN(selector, "=", 2)] has two parts exactly when there is an equals
    sign. *)
Definition validateInterfaceSelector (field selector : string) : checked unit :=
  if decide (selector = "") then Ret ()
  else match split_first 61 (bytes selector) with
  | Some _ => Ret ()
  | None => Err (BadField field)
  end.

Definition validateBindAddress (field address : string) : checked unit :=
  match SplitHostPort address with
  | Some _ => Ret ()
  | None => Err (BadField field)
  end.

(** A duration that must parse. *)
Definition validateDuration (field value : string) : checked Z :=
  match ParseDuration value with
  | Some d => Ret d
  | None => Err (BadField field)
  end.

(** ** sFlow collector (src/pkg/config/sflow.go) *)
Record SFlowOtelConfig := MkOtel {
  Otel_Endpoint : string;
  Otel_Insecure : bool;
  Otel_Timeout : string
}.

Record SFlowWriterConfig := MkWriter {
  Writer_BatchSize : Z;
  Writer_FlushInterval : string;
  Writer_QueueSize : Z
}.

Record SFlowConfig := MkSFlow {
  SF_LogLevel : string;
  SF_Listen : string;
  SF_Metrics : string;
  SF_HealthProbe : string;
  SF_Otel : SFlowOtelConfig;
  SF_Writer : SFlowWriterConfig
}.

Definition positive (field : string) (d : Z) : checked unit := if decide (d ≤ 0) then Err (BadField field) else Ret ().

Definition NormalizeSFlowConfig (cfg : SFlowConfig) : checked SFlowConfig :=
  level ← normalizeLevelField "sflow.logLevel" (SF_LogLevel cfg);
  let listen := setDefault (SF_Listen cfg) ":6343" in
  let metrics := setDefault (SF_Metrics cfg) ":8084" in
  let health := setDefault (SF_HealthProbe cfg) ":8085" in
  _ ← validateBindAddress "sflow.listen.bindAddress" listen;
  _ ← validateBindAddress "sflow.metrics.bindAddress" metrics;
  _ ← validateBindAddress "sflow.healthProbe.bindAddress" health;
  let otel := SF_Otel cfg in
  if decide (Otel_Endpoint otel = "") then Err (BadField "sflow.otel.endpoint")
  else
    _ ← validateBindAddress "sflow.otel.endpoint" (Otel_Endpoint otel);
    let timeoutText := setDefault (Otel_Timeout otel) "10s" in
    timeout ← validateDuration "sflow.otel.timeout" timeoutText;
    _ ← positive "sflow.otel.timeout" timeout;
    let writer := SF_Writer cfg in
    let batchSize := if decide (Writer_BatchSize writer = 0) then 2000 else Writer_BatchSize writer in
    if decide (batchSize < 0) then Err (BadField "sflow.writer.batchSize")
    else
      let flushText := setDefault (Writer_FlushInterval writer) "2s" in
      flushInterval ← validateDuration "sflow.writer.flushInterval" flushText;
      _ ← positive "sflow.writer.flushInterval" flushInterval;
      let queueSize := if decide (Writer_QueueSize writer = 0) then 65536 else Writer_QueueSize writer in
      if decide (queueSize < 0) then Err (BadField "sflow.writer.queueSize")
      else Ret (MkSFlow level listen metrics health (MkOtel (Otel_Endpoint otel) (Otel_Insecure otel) timeoutText)
                  (MkWriter batchSize flushText queueSize)).

(** ** Switch agent (src/pkg/config/switchagent.go, env.go) *)
Record SwitchAgentMTLSConfig := MkAgentMTLS {
  AM_Enabled : option bool;
  AM_CertFile : string;
  AM_KeyFile : string;
  AM_PeerCertFile : string
}.

Record SwitchAgentLLDPConfig := MkAgentLLDP {
  RefreshInterval : string;
  CollectionMode : string;
  SocketPath : string;
  CLIVersion : string
}.

Record SwitchAgentConfig := MkSwitchAgent {
  SA_LogLevel : string;
  SA_SwitchName : string;
  SA_ListenAddress : string;
  SA_MTLS : SwitchAgentMTLSConfig;
  SA_LLDP : SwitchAgentLLDPConfig
}.

Definition MTLSEnabled (cfg : SwitchAgentConfig) : bool := default true (AM_Enabled (SA_MTLS cfg)).

Definition normalizeSwitchAgentLLDPConfig (cfg : SwitchAgentLLDPConfig) : checked SwitchAgentLLDPConfig :=
  refresh ← (if decide (RefreshInterval cfg = "") then Ret "10s"
             else _ ← validateDuration "switchAgent.lldp.refreshInterval" (RefreshInterval cfg); Ret (RefreshInterval cfg));
  let mode := setDefault (CollectionMode cfg) "socket" in
  if decide (mode ≠ "socket" ∧ mode ≠ "hostProc") then Err (BadField "switchAgent.lldp.collectionMode")
  else
    let socket := setDefault (SocketPath cfg) "/run/lldpd.socket" in
    let version := setDefault (CLIVersion cfg) "1.0.16" in
    if decide (version ≠ "1.0.4" ∧ version ≠ "1.0.16") then Err (BadField "switchAgent.lldp.cliVersion")
    else Ret (MkAgentLLDP refresh mode socket version).

Definition normalizeSwitchAgentMTLSConfig (cfg : SwitchAgentMTLSConfig) : SwitchAgentMTLSConfig :=
  MkAgentMTLS (setDefaultBool (AM_Enabled cfg) true)
    (setDefault (AM_CertFile cfg) "/etc/unifabric/switch-mtls/tls.crt")
    (setDefault (AM_KeyFile cfg) "/etc/unifabric/switch-mtls/tls.key")
    (setDefault (AM_PeerCertFile cfg) "/etc/unifabric/switch-mtls/peer.crt").

(** The host name is the operating system's; [None] is its error. *)
Definition normalizeSwitchAgentConfig (Hostname : option string) (cfg : SwitchAgentConfig) : checked SwitchAgentConfig :=
  level ← normalizeLevelField "switchAgent.logLevel" (SA_LogLevel cfg);
  let listen := setDefault (SA_ListenAddress cfg) ":8090" in
  name ← (if decide (SA_SwitchName cfg = "") then
            match Hostname with Some h => Ret h | None => Err (BadField "switchAgent.switchName") end
          else Ret (SA_SwitchName cfg));
  lldp ← normalizeSwitchAgentLLDPConfig (SA_LLDP cfg);
  Ret (MkSwitchAgent level name listen (normalizeSwitchAgentMTLSConfig (SA_MTLS cfg)) lldp).

(** [strconv.ParseBool] *)
Definition ParseBool (raw : string) : option bool :=
  if decide (raw ∈ ["1"; "t"; "T"; "TRUE"; "true"; "True"]) then Some true
  else if decide (raw ∈ ["0"; "f"; "F"; "FALSE"; "false"; "False"]) then Some false
  else None.

Section environment.
(** [os.LookupEnv] *)
Context (LookupEnv : string → option string).

Definition envString (key : string) (field : string) : string := default field (LookupEnv key).

Definition envBool (key : string) (field : option bool) : checked (option bool) :=
  match LookupEnv key with
  | None => Ret field
  | Some raw => match ParseBool raw with Some b => Ret (Some b) | None => Err (BadField key) end
  end.

(** [applyEnvTags] on the one structure it is used with; the only field that can fail
    is the boolean. *)
Definition applyEnvTags (cfg : SwitchAgentConfig) : checked SwitchAgentConfig :=
  let mtls := SA_MTLS cfg in
  let lldp := SA_LLDP cfg in
  enabled ← envBool "UNIFABRIC_SWITCH_AGENT_MTLS_ENABLED" (AM_Enabled mtls);
  Ret (MkSwitchAgent
    (envString "UNIFABRIC_SWITCH_AGENT_LOG_LEVEL" (SA_LogLevel cfg))
    (envString "UNIFABRIC_SWITCH_AGENT_SWITCH_NAME" (SA_SwitchName cfg))
    (envString "UNIFABRIC_SWITCH_AGENT_LISTEN_ADDRESS" (SA_ListenAddress cfg))
    (MkAgentMTLS enabled
      (envString "UNIFABRIC_SWITCH_AGENT_MTLS_CERT_FILE" (AM_CertFile mtls))
      (envString "UNIFABRIC_SWITCH_AGENT_MTLS_KEY_FILE" (AM_KeyFile mtls))
      (envString "UNIFABRIC_SWITCH_AGENT_MTLS_PEER_CERT_FILE" (AM_PeerCertFile mtls)))
    (MkAgentLLDP
      (envString "UNIFABRIC_SWITCH_AGENT_LLDP_REFRESH_INTERVAL" (RefreshInterval lldp))
      (envString "UNIFABRIC_SWITCH_AGENT_LLDP_COLLECTION_MODE" (CollectionMode lldp))
      (envString "UNIFABRIC_SWITCH_AGENT_LLDP_SOCKET_PATH" (SocketPath lldp))
      (envString "UNIFABRIC_SWITCH_AGENT_LLDP_CLI_VERSION" (CLIVersion lldp)))).

Definition ReadSwitchAgentConfigFromEnv (Hostname : option string) : checked SwitchAgentConfig :=
  cfg ← applyEnvTags (MkSwitchAgent "" "" "" (MkAgentMTLS None "" "" "") (MkAgentLLDP "" "" "" ""));
  normalizeSwitchAgentConfig Hostname cfg.
End environment.

(** ** Node agent (src/pkg/config/agent.go) *)
Definition AgentNodeRoleGPU : string := "gpu".
Definition AgentNodeRoleStorage : string := "storage".

Record AgentNodeConfig := MkAgentNode {
  AN_Name : string;
  AN_Role : string;
  DefaultRouteProbe : string
}.

Record NodeTopologyDiscoveryConfig := MkNodeTopology {
  NT_RefreshInterval : string;
  NT_InitialScanDelay : string;
  NT_ScaleOutInterfaceSelector : string;
  NT_StorageInterfaceSelector : string;
  NT_ScaleUpInterfaceSelector : string
}.

Record EBPFFlowEndpointConfig := MkEndpoint {
  EP_Enabled : option bool;
  EP_Interval : string;
  EP_MinInterval : string;
  EP_AllPods : bool
}.

Record EBPFFlowFlowEventsConfig := MkFlowEvents {
  FE_Enabled : option bool;
  FE_Queue : Z;
  FE_Batch : Z;
  FE_Flush : string;
  FE_Sample : Z;
  FE_Aggregate : string
}.

Record EBPFFlowOTLPConfig := MkOTLP {
  OTLP_Endpoint : string;
  OTLP_Insecure : option bool;
  OTLP_Timeout : string
}.

Record EBPFFlowConfig := MkEBPFFlow {
  EB_Enabled : bool;
  PinDir : string;
  OffsetCache : string;
  DiscoveryInterval : string;
  ReportInterval : string;
  EB_Endpoint : EBPFFlowEndpointConfig;
  EB_FlowEvents : EBPFFlowFlowEventsConfig;
  EB_OTLP : EBPFFlowOTLPConfig
}.

Record AgentConfig := MkAgent {
  AG_LogLevel : string;
  AG_Metrics : string;
  AG_HealthProbe : string;
  AG_Node : AgentNodeConfig;
  AG_NodeTopologyDiscovery : NodeTopologyDiscoveryConfig;
  AG_EBPFFlow : EBPFFlowConfig
}.

(** A duration with a default for the empty text. *)
Definition durationOr (field value fallback : string) : checked string :=
  if decide (value = "") then Ret fallback else _ ← validateDuration field value; Ret value.

Definition normalizeNodeTopologyDiscoveryConfig (cfg : NodeTopologyDiscoveryConfig) : checked NodeTopologyDiscoveryConfig :=
  _ ← validateInterfaceSelector "nodeTopologyDiscovery.scaleOutInterfaceSelector" (NT_ScaleOutInterfaceSelector cfg);
  _ ← validateInterfaceSelector "nodeTopologyDiscovery.storageInterfaceSelector" (NT_StorageInterfaceSelector cfg);
  _ ← validateInterfaceSelector "nodeTopologyDiscovery.scaleUpInterfaceSelector" (NT_ScaleUpInterfaceSelector cfg);
  refresh ← durationOr "nodeTopologyDiscovery.refreshInterval" (NT_RefreshInterval cfg) "1m";
  delay ← durationOr "nodeTopologyDiscovery.initialScanDelay" (NT_InitialScanDelay cfg) "1m";
  Ret (MkNodeTopology refresh delay (NT_ScaleOutInterfaceSelector cfg) (NT_StorageInterfaceSelector cfg) (NT_ScaleUpInterfaceSelector cfg)).

Definition orDefault (value fallback : Z) : Z := if decide (value = 0) then fallback else value.

(** The defaults of [normalizeEBPFFlowConfig]. *)
Definition ebpfFlowDefaults (cfg : EBPFFlowConfig) : EBPFFlowConfig :=
  let e := EB_Endpoint cfg in
  let f := EB_FlowEvents cfg in
  let o := EB_OTLP cfg in
  MkEBPFFlow (EB_Enabled cfg)
    (setDefault (PinDir cfg) "/sys/fs/bpf/unifabric")
    (setDefault (OffsetCache cfg) "/var/lib/unifabric/ebpf-flow/callback-offsets.json")
    (setDefault (DiscoveryInterval cfg) "5s")
    (setDefault (ReportInterval cfg) "5s")
    (MkEndpoint (setDefaultBool (EP_Enabled e) true) (setDefault (EP_Interval e) "30s") (setDefault (EP_MinInterval e) "3s") (EP_AllPods e))
    (MkFlowEvents (setDefaultBool (FE_Enabled f) false) (orDefault (FE_Queue f) 200000) (orDefault (FE_Batch f) 10000)
       (setDefault (FE_Flush f) "1s") (orDefault (FE_Sample f) 1) (setDefault (FE_Aggregate f) "0s"))
    (MkOTLP (OTLP_Endpoint o) (setDefaultBool (OTLP_Insecure o) true) (setDefault (OTLP_Timeout o) "10s")).

(** The map of durations that is checked, in no particular order. *)
Definition ebpfFlowDurations (cfg : EBPFFlowConfig) : list (string * string) :=
  [("ebpfFlow.discoveryInterval", DiscoveryInterval cfg); ("ebpfFlow.reportInterval", ReportInterval cfg);
   ("ebpfFlow.endpoint.interval", EP_Interval (EB_Endpoint cfg)); ("ebpfFlow.endpoint.minInterval", EP_MinInterval (EB_Endpoint cfg));
   ("ebpfFlow.flowEvents.flush", FE_Flush (EB_FlowEvents cfg)); ("ebpfFlow.flowEvents.aggregate", FE_Aggregate (EB_FlowEvents cfg));
   ("ebpfFlow.otlp.timeout", OTLP_Timeout (EB_OTLP cfg))].

(** [order] is the order in which the map is ranged over. *)
Definition normalizeEBPFFlowConfig (order : list (string * string) → list (string * string)) (cfg : EBPFFlowConfig) : checked EBPFFlowConfig :=
  let cfg := ebpfFlowDefaults cfg in
  _ ← go_foldl (fun _ '(field, value) => _ ← validateDuration field value; Ret ()) () (order (ebpfFlowDurations cfg));
  if decide (FE_Queue (EB_FlowEvents cfg) < 0 ∨ FE_Batch (EB_FlowEvents cfg) < 0) then Err (BadField "ebpfFlow.flowEvents.queue")
  else Ret cfg.

(** [ReadAgentConfig] after the file has been decoded. *)
Definition normalizeAgentConfig (order : list (string * string) → list (string * string)) (cfg : AgentConfig) : checked AgentConfig :=
  let metrics := setDefault (AG_Metrics cfg) ":8082" in
  level ← normalizeLevelField "agent.logLevel" (AG_LogLevel cfg);
  let health := setDefault (AG_HealthProbe cfg) ":8083" in
  let role := setDefault (AN_Role (AG_Node cfg)) AgentNodeRoleGPU in
  if decide (role ≠ AgentNodeRoleGPU ∧ role ≠ AgentNodeRoleStorage) then Err (BadField "node.role")
  else
    topology ← normalizeNodeTopologyDiscoveryConfig (AG_NodeTopologyDiscovery cfg);
    flow ← normalizeEBPFFlowConfig order (AG_EBPFFlow cfg);
    probe ← (let probe := DefaultRouteProbe (AG_Node cfg) in
             if decide (probe = "") then Ret "1.1.1.1:53"
             else _ ← validateBindAddress "node.defaultRouteProbe" probe; Ret probe);
    Ret (MkAgent level metrics health (MkAgentNode (AN_Name (AG_Node cfg)) role probe) topology flow).

(** ** Controller (src/pkg/config/controller.go) *)
Record LeaderElectionConfig := MkLeader {
  LE_Enabled : bool;
  LE_Namespace : string;
  LE_ID : string
}.

Record TopologyLabelsConfig := MkLabels {
  TL_ScaleUp : string;
  TL_ScaleOut : string;
  TL_Storage : string;
  ScaleOutLeaf : string;
  ScaleOutSpine : string;
  ScaleOutCore : string
}.

Record SwitchDiscoveryMTLSConfig := MkSwitchMTLS {
  SM_Enabled : option bool;
  ControllerSecretName : string;
  SwitchAgentSecretName : string
}.

Record TopologyGroupNamingConfig := MkGroupNaming {
  LabelValueFormat : string;
  HashLength : Z
}.

Record ScaleOutSwitchesConfig := MkSwitches {
  SW_Enabled : bool;
  ManageScaleOut : bool;
  ManageStorage : bool;
  DialTimeout : string;
  ReconnectBackoff : string;
  MaxRecvMsgSize : Z;
  KeepaliveTime : string;
  DefaultGrpcPort : Z;
  IgnoreSwitchPorts : list string;
  SW_MTLS : SwitchDiscoveryMTLSConfig;
  GroupNaming : TopologyGroupNamingConfig
}.

Record ControllerNodeTopologyConfig := MkControllerNodeTopology {
  CN_ScaleOutInterfaceSelector : string;
  CN_StorageInterfaceSelector : string;
  CN_ScaleUpInterfaceSelector : string
}.

Record ControllerConfig := MkController {
  CT_LogLevel : string;
  CT_Metrics : string;
  CT_HealthProbe : string;
  CT_Pprof : string;
  TopologyAPI_Enabled : bool;
  TopologyAPI_BindAddress : string;
  LeaderElection : LeaderElectionConfig;
  TopologyLabels : TopologyLabelsConfig;
  InternalTopologyLabelWriter_Enabled : option bool;
  CT_NodeTopologyDiscovery : ControllerNodeTopologyConfig;
  Switches : ScaleOutSwitchesConfig;
  TopologyLabelTemplates : option LabelSet
}.

Definition defaultIgnoredSwitchPorts : list string := ["mgmt*"; "Management*"; "oob*"].

Definition normalizeSwitchDiscoveryDuration (field value fallback : string) : checked string := durationOr field value fallback.

Definition normalizeControllerNodeTopologyConfig (cfg : ControllerNodeTopologyConfig) : checked unit :=
  _ ← validateInterfaceSelector "nodeTopologyDiscovery.scaleOutInterfaceSelector" (CN_ScaleOutInterfaceSelector cfg);
  _ ← validateInterfaceSelector "nodeTopologyDiscovery.storageInterfaceSelector" (CN_StorageInterfaceSelector cfg);
  validateInterfaceSelector "nodeTopologyDiscovery.scaleUpInterfaceSelector" (CN_ScaleUpInterfaceSelector cfg).

Definition normalizeScaleOutDiscoveryConfig (cfg : ScaleOutSwitchesConfig) : checked ScaleOutSwitchesConfig :=
  let legacy := SW_Enabled cfg && negb (ManageScaleOut cfg) && negb (ManageStorage cfg) in
  let manageScaleOut := legacy || ManageScaleOut cfg in
  let manageStorage := legacy || ManageStorage cfg in
  let enabled := manageScaleOut || manageStorage || SW_Enabled cfg in
  dialTimeout ← normalizeSwitchDiscoveryDuration "scaleOutDiscovery.switches.dialTimeout" (DialTimeout cfg) "5s";
  reconnectBackoff ← normalizeSwitchDiscoveryDuration "scaleOutDiscovery.switches.reconnectBackoff" (ReconnectBackoff cfg) "30s";
  keepaliveTime ← normalizeSwitchDiscoveryDuration "scaleOutDiscovery.switches.keepaliveTime" (KeepaliveTime cfg) "30s";
  let maxRecv := if decide (MaxRecvMsgSize cfg ≤ 0) then 4 * 1024 * 1024 else MaxRecvMsgSize cfg in
  let port := orDefault (DefaultGrpcPort cfg) 8090 in
  if decide (port < 1 ∨ 65535 < port) then Err (BadField "scaleOutDiscovery.switches.defaultGrpcPort")
  else
    let ignore := if decide (IgnoreSwitchPorts cfg = []) then defaultIgnoredSwitchPorts else IgnoreSwitchPorts cfg in
    let mtls := MkSwitchMTLS (setDefaultBool (SM_Enabled (SW_MTLS cfg)) true)
      (setDefault (ControllerSecretName (SW_MTLS cfg)) "switch-controller-mtls-controller")
      (setDefault (SwitchAgentSecretName (SW_MTLS cfg)) "switch-controller-mtls-agent") in
    let format := setDefault (LabelValueFormat (GroupNaming cfg)) "hash" in
    if decide (format ≠ "name" ∧ format ≠ "hash") then Err (BadField "scaleOutDiscovery.switches.groupNaming.labelValueFormat")
    else
      let hashLength := if decide (HashLength (GroupNaming cfg) ≤ 0) then 7 else HashLength (GroupNaming cfg) in
      Ret (MkSwitches enabled manageScaleOut manageStorage dialTimeout reconnectBackoff maxRecv keepaliveTime port ignore mtls
             (MkGroupNaming format hashLength)).

Section controller.
Context (Parse : string → option (option (list Node))) (IsQualifiedName : string → list string).

Definition normalizeTopologyLabels (cfg : ControllerConfig) : checked ControllerConfig :=
  let l := TopologyLabels cfg in
  let labels := MkLabels (setDefault (TL_ScaleUp l) "scale-up.unifabric.io/tier-{{ .Tier }}")
    (setDefault (TL_ScaleOut l) "scale-out.unifabric.io/tier-{{ .Tier }}")
    (setDefault (TL_Storage l) "storage.unifabric.io/tier-{{ .Tier }}")
    (setDefault (ScaleOutLeaf l) "unifabric.io/scale-out-leaf")
    (setDefault (ScaleOutSpine l) "unifabric.io/scale-out-spine")
    (setDefault (ScaleOutCore l) "unifabric.io/scale-out-core") in
  compiled ← match CompileSet Parse IsQualifiedName (TL_ScaleUp labels) (TL_ScaleOut labels) (TL_Storage labels) with
    | Ret set => Ret set
    | Err e => Err (LabelErr e)
    | Panic => Panic
    | OutOfFuel => OutOfFuel
    end;
  Ret (MkController (CT_LogLevel cfg) (CT_Metrics cfg) (CT_HealthProbe cfg) (CT_Pprof cfg) (TopologyAPI_Enabled cfg)
    (TopologyAPI_BindAddress cfg) (LeaderElection cfg) labels (InternalTopologyLabelWriter_Enabled cfg)
    (CT_NodeTopologyDiscovery cfg) (Switches cfg) (Some compiled)).

(** A nil configuration is an error. *)
Definition EnsureTopologyLabelTemplates (cfg : option ControllerConfig) : checked ControllerConfig :=
  match cfg with
  | None => Err (BadField "controller config")
  | Some cfg =>
    match TopologyLabelTemplates cfg with
    | Some _ => Ret cfg
    | None => normalizeTopologyLabels cfg
    end
  end.

(** [ReadControllerConfig] after the file has been decoded. *)
Definition normalizeControllerConfig (cfg : ControllerConfig) : checked ControllerConfig :=
  let metrics := setDefault (CT_Metrics cfg) ":8080" in
  level ← normalizeLevelField "controller.logLevel" (CT_LogLevel cfg);
  let health := setDefault (CT_HealthProbe cfg) ":8081" in
  let api := setDefault (TopologyAPI_BindAddress cfg) ":8082" in
  let le := LeaderElection cfg in
  let leader := MkLeader (LE_Enabled le) (LE_Namespace le) (setDefault (LE_ID le) "unifabric-controller") in
  cfg ← normalizeTopologyLabels (MkController level metrics health (CT_Pprof cfg) (TopologyAPI_Enabled cfg) api leader
          (TopologyLabels cfg) (InternalTopologyLabelWriter_Enabled cfg) (CT_NodeTopologyDiscovery cfg) (Switches cfg)
          (TopologyLabelTemplates cfg));
  let writer := setDefaultBool (InternalTopologyLabelWriter_Enabled cfg) true in
  _ ← normalizeControllerNodeTopologyConfig (CT_NodeTopologyDiscovery cfg);
  switches ← normalizeScaleOutDiscoveryConfig (Switches cfg);
  Ret (MkController (CT_LogLevel cfg) (CT_Metrics cfg) (CT_HealthProbe cfg) (CT_Pprof cfg) (TopologyAPI_Enabled cfg)
    (TopologyAPI_BindAddress cfg) (LeaderElection cfg) (TopologyLabels cfg) writer (CT_NodeTopologyDiscovery cfg) switches
    (TopologyLabelTemplates cfg)).
End controller.

(** ** Reading

    [Unmarshal] decodes into an empty record; what [ctrl.GetConfig] finds is returned beside
    the record it is stored in. *)
Inductive readError :=
| FileUnreadable
| FileUndecodable
| NoKubeconfig
| Refused (e : configError).

Definition refusing {A} (c : checked A) : go readError A :=
  match c with
  | Ret a => Ret a
  | Err e => Err (Refused e)
  | Panic => Panic
  | OutOfFuel => OutOfFuel
  end.

Definition or_error {A E} (e : E) (o : option A) : go E A := match o with Some a => Ret a | None => Err e end.

Lemma or_error_ret {A E} (e : E) (o : option A) a : or_error e o = Ret a → o = Some a.
Proof. destruct o; cbn; congruence. Qed.

Lemma refusing_ret {A} (c : checked A) a : refusing c = Ret a → c = Ret a.
Proof. destruct c; cbn; congruence. Qed.

Section readers.
Context {Data Kube : Type} (ReadFile : string → option Data) (GetConfig : option Kube).

Definition ReadControllerConfig (Unmarshal : Data → option ControllerConfig) Parse IsQualifiedName (filename : string)
    : go readError (ControllerConfig * Kube) :=
  data ← or_error FileUnreadable (ReadFile filename);
  cfg ← or_error FileUndecodable (Unmarshal data);
  kube ← or_error NoKubeconfig GetConfig;
  cfg ← refusing (normalizeControllerConfig Parse IsQualifiedName cfg);
  Ret (cfg, kube).

Definition ReadAgentConfig (Unmarshal : Data → option AgentConfig) order (filename : string) : go readError (AgentConfig * Kube) :=
  data ← or_error FileUnreadable (ReadFile filename);
  cfg ← or_error FileUndecodable (Unmarshal data);
  kube ← or_error NoKubeconfig GetConfig;
  cfg ← refusing (normalizeAgentConfig order cfg);
  Ret (cfg, kube).

Definition ParseSFlowConfig (Unmarshal : Data → option SFlowConfig) (data : Data) : go readError SFlowConfig :=
  cfg ← or_error FileUndecodable (Unmarshal data);
  refusing (NormalizeSFlowConfig cfg).

Definition ReadSFlowConfig (Unmarshal : Data → option SFlowConfig) (filename : string) : go readError (SFlowConfig * Kube) :=
  data ← or_error FileUnreadable (ReadFile filename);
  cfg ← ParseSFlowConfig Unmarshal data;
  kube ← or_error NoKubeconfig GetConfig;
  Ret (cfg, kube).

(** What is read is a normalised configuration. *)
Lemma ReadControllerConfig_ret Unmarshal Parse IsQualifiedName filename cfg' kube :
  ReadControllerConfig Unmarshal Parse IsQualifiedName filename = Ret (cfg', kube) ↔
  ∃ data cfg, ReadFile filename = Some data ∧ Unmarshal data = Some cfg ∧ GetConfig = Some kube ∧
    normalizeControllerConfig Parse IsQualifiedName cfg = Ret cfg'.
Proof.
  unfold ReadControllerConfig. split.
  - intros Hr. go_inv. subst. eauto 10 using or_error_ret, refusing_ret.
  - intros (data & cfg & Hf & Hu & Hk & Hn). rewrite Hf. cbn. rewrite Hu. cbn. rewrite ?Hk. cbn. rewrite Hn. cbn. by rewrite ?Hk.
Qed.

Lemma ReadAgentConfig_ret Unmarshal order filename cfg' kube :
  ReadAgentConfig Unmarshal order filename = Ret (cfg', kube) ↔
  ∃ data cfg, ReadFile filename = Some data ∧ Unmarshal data = Some cfg ∧ GetConfig = Some kube ∧
    normalizeAgentConfig order cfg = Ret cfg'.
Proof.
  unfold ReadAgentConfig. split.
  - intros Hr. go_inv. subst. eauto 10 using or_error_ret, refusing_ret.
  - intros (data & cfg & Hf & Hu & Hk & Hn). rewrite Hf. cbn. rewrite Hu. cbn. rewrite ?Hk. cbn. rewrite Hn. cbn. by rewrite ?Hk.
Qed.

Lemma ReadSFlowConfig_ret Unmarshal filename cfg' kube :
  ReadSFlowConfig Unmarshal filename = Ret (cfg', kube) ↔
  ∃ data cfg, ReadFile filename = Some data ∧ Unmarshal data = Some cfg ∧ GetConfig = Some kube ∧ NormalizeSFlowConfig cfg = Ret cfg'.
Proof.
  unfold ReadSFlowConfig, ParseSFlowConfig. split.
  - intros Hr. go_inv. subst. eauto 10 using or_error_ret, refusing_ret.
  - intros (data & cfg & Hf & Hu & Hk & Hn). rewrite Hf. cbn. rewrite Hu. cbn. rewrite ?Hk. cbn. rewrite Hn. cbn. by rewrite ?Hk.
Qed.
End readers.
