(* ===== verification/LabelTemplateFacts.v ===== *)
(** * Label templates: rendering, matching, disjointness

    A compiled template of src/pkg/topologylabel/template.go is a prefix, a tier
    and a suffix: rendering and matching are inverse, and the automaton product
    decides whether two templates can produce the same key. *)
From stdpp Require Import base gmap sets list strings sorting.
From Stdlib Require Import ZArith Ascii.
From S2P Require Import Prelude GoStrings GoNumbers LabelTemplate.
Local Open Scope Z_scope.

(** ** The matching expression *)
Definition concat (l : list string) : string := foldr (fun a b => a +:+ b) "" l.

Lemma concat_snoc l x : concat (l ++ [x]) = concat l +:+ x.
Proof.
  induction l as [|y l IH]; [apply str_app_nil_r|]. cbn [app].
  change (y +:+ concat (l ++ [x]) = (y +:+ concat l) +:+ x). by rewrite IH, str_app_assoc.
Qed.

Lemma strip_prefix_app a b s : strip_prefix (a +:+ b) s = r ← strip_prefix a s; strip_prefix b r.
Proof.
  revert s. induction a as [|x a IH]; intros s; [done|]. rewrite str_app_cons. cbn [strip_prefix].
  destruct s as [|y s]; [done|]. case_decide; [apply IH|done].
Qed.

Lemma match_quoted ts ps s :
  match_pieces ((Quoted <$> ts) ++ ps) s = r ← strip_prefix (concat ts) s; match_pieces ps r.
Proof.
  revert s. induction ts as [|t ts IH]; intros s; [done|]. cbn [fmap list_fmap app match_pieces concat foldr].
  fold (concat ts). rewrite strip_prefix_app. destruct (strip_prefix t s) as [r|]; [|done]. cbn. apply IH.
Qed.

Lemma elem_of_digit_splits s d r : (d, r) ∈ digit_splits s ↔ s = d +:+ r ∧ all_digits d = true.
Proof.
  revert d r. induction s as [|c s IH]; intros d r; cbn [digit_splits].
  - rewrite list_elem_of_singleton. split; [by intros [= -> ->]|]. intros [Hs _]. by destruct d, r.
  - rewrite elem_of_app, list_elem_of_singleton. split.
    + intros [Hin|[= -> ->]]; [|done]. destruct (is_digit c) eqn:Hc; [|set_solver].
      apply list_elem_of_fmap in Hin as ([d' r'] & [= -> ->] & Hin). apply IH in Hin as [-> Hd].
      split; [done|]. cbn. by rewrite Hc.
    + intros [Hs Hd]. destruct d as [|c' d]; [right; by rewrite Hs|]. left.
      rewrite str_app_cons in Hs. injection Hs as <- Hs. cbn in Hd. apply andb_true_iff in Hd as [-> Hd].
      apply list_elem_of_fmap. exists (d, r). split; [done|]. by apply IH.
Qed.

Lemma elem_of_tier_splits s d r : (d, r) ∈ tier_splits s ↔ s = d +:+ r ∧ tier_digits d = true.
Proof.
  destruct s as [|c s]; cbn [tier_splits].
  - split; [set_solver|]. intros [Hs Hd]. by destruct d.
  - split.
    + destruct (is_nonzero_digit c) eqn:Hc; [|set_solver]. intros Hin.
      apply list_elem_of_fmap in Hin as ([d' r'] & [= -> ->] & [-> Hd]%elem_of_digit_splits).
      split; [done|]. cbn. by rewrite Hc.
    + intros [Hs Hd]. destruct d as [|c' d]; [done|]. rewrite str_app_cons in Hs. injection Hs as <- ->.
      cbn in Hd. apply andb_true_iff in Hd as [-> Hd]. apply list_elem_of_fmap. exists (d, r).
      split; [done|]. by apply elem_of_digit_splits.
Qed.

(** The middle part is determined by the ends. *)
Lemma str_app_inj_r (a b c : string) : a +:+ c = b +:+ c → a = b.
Proof.
  revert b. induction a as [|x a IH]; intros [|y b] Heq; [done| | |].
  - apply (f_equal String.length) in Heq. rewrite !str_length_app in Heq. cbn in Heq. lia.
  - apply (f_equal String.length) in Heq. rewrite !str_length_app in Heq. cbn in Heq. lia.
  - rewrite !str_app_cons in Heq. injection Heq as -> Heq. by rewrite (IH b).
Qed.

Lemma match_tier_template ts1 ts2 key caps :
  match_pieces ((Quoted <$> ts1) ++ TierGroup :: (Quoted <$> ts2)) key = Some caps ↔
  ∃ d, key = concat ts1 +:+ d +:+ concat ts2 ∧ tier_digits d = true ∧ caps = [d].
Proof.
  rewrite match_quoted.
  assert (∀ rest, match_pieces (Quoted <$> ts2) rest = Some [] ↔ rest = concat ts2) as Hend.
  { intros rest. rewrite <-(app_nil_r (Quoted <$> ts2)), match_quoted. split.
    - intros (r & Hr%strip_prefix_spec & Hm)%bind_Some. cbn in Hm. case_decide; [|done].
      subst. by rewrite str_app_nil_r.
    - intros ->. rewrite (proj2 (strip_prefix_spec _ _ "")); [done|]. by rewrite str_app_nil_r. }
  assert (∀ rest l, match_pieces (Quoted <$> ts2) rest = Some l → l = []) as Hnil.
  { intros rest l. rewrite <-(app_nil_r (Quoted <$> ts2)), match_quoted.
    intros (r & _ & Hm)%bind_Some. cbn in Hm. by case_decide; simplify_eq. }
  set (f := fun '(d, rest) => (fun caps => d :: caps) <$> match_pieces (Quoted <$> ts2) rest).
  assert (∀ s c, c ∈ omap f (tier_splits s) ↔ ∃ d, s = d +:+ concat ts2 ∧ tier_digits d = true ∧ c = [d]) as Hom.
  { intros s c. rewrite list_elem_of_omap. split.
    - intros ([d rest] & [-> Hd]%elem_of_tier_splits & (l & Hl & ->)%fmap_Some).
      pose proof (Hnil _ _ Hl) as ->. apply Hend in Hl as ->. eauto.
    - intros (d & -> & Hd & ->). exists (d, concat ts2). split; [by apply elem_of_tier_splits|].
      unfold f. by rewrite (proj2 (Hend _) eq_refl). }
  split.
  - intros (r & ->%strip_prefix_spec & Hm)%bind_Some. cbn [match_pieces] in Hm. fold f in Hm.
    apply head_Some_elem_of in Hm. apply Hom in Hm as (d & -> & ? & ->). eauto.
  - intros (d & -> & Hd & ->). rewrite (proj2 (strip_prefix_spec _ _ _) eq_refl). cbn [mbind option_bind match_pieces].
    fold f. assert ([d] ∈ omap f (tier_splits (d +:+ concat ts2))) as Hin by (apply Hom; eauto).
    destruct (omap f (tier_splits (d +:+ concat ts2))) as [|c l] eqn:Hl; [set_solver|]. cbn. f_equal.
    assert (c ∈ omap f (tier_splits (d +:+ concat ts2))) as (d' & Heq & _ & ->)%Hom by (rewrite Hl; set_solver).
    by apply str_app_inj_r in Heq as ->.
Qed.

(** ** What [Compile] accepts *)
Record compiledOk (t : Template) : Prop := {
  ok_execute : ∀ tier, execute (parsed t) tier = Some (prefix t +:+ Itoa tier +:+ suffix t);
  ok_match : ∀ key caps, match_pieces (matcher t) key = Some caps ↔
    ∃ d, key = prefix t +:+ d +:+ suffix t ∧ tier_digits d = true ∧ caps = [d]
}.

Lemma execute_snoc nodes n tier :
  execute (nodes ++ [n]) tier = o ← execute nodes tier; s ← exec_node tier n; Some (o +:+ s).
Proof. unfold execute. by rewrite foldl_app. Qed.

Lemma validateTierAction_ok name pipe tier :
  validateTierAction name pipe = Ret () → exec_node tier (ActionNode pipe) = Some (Itoa tier).
Proof.
  destruct pipe as [[decl assign cmds]|]; [|done]. cbn. case_decide as Hd; [done|].
  destruct decl as [|]; [|by destruct Hd; left]. destruct assign; [by destruct Hd; right; left|].
  destruct cmds as [|[command|] [|]]; try done; [|by destruct Hd; right; right].
  destruct command as [args]. cbn. case_decide as Ha; [done|].
  destruct args as [|[ident|] [|]]; try done. by case_decide as Hi; subst.
Qed.

(** What holds while the nodes are scanned. *)
Record scanInv (seen : list Node) (st : compileState) : Prop := {
  si_seen : c_seen st = bool_decide (0 < c_actions st)%nat;
  si_none : c_actions st = 0%nat → c_suffix st = "" ∧
    (∀ tier, execute seen tier = Some (c_prefix st)) ∧
    ∃ ts, c_matcher st = Quoted <$> ts ∧ c_prefix st = concat ts;
  si_one : c_actions st = 1%nat →
    (∀ tier, execute seen tier = Some (c_prefix st +:+ Itoa tier +:+ c_suffix st)) ∧
    ∃ ts1 ts2, c_matcher st = (Quoted <$> ts1) ++ TierGroup :: (Quoted <$> ts2) ∧
      c_prefix st = concat ts1 ∧ c_suffix st = concat ts2
}.

Lemma scanInv_text name seen st text st' :
  scanInv seen st → compileNode name st (TextNode text) = Ret st' → scanInv (seen ++ [TextNode text]) st'.
Proof.
  intros [Hs H0 H1]. cbn. rewrite Hs. case_bool_decide as Hact; intros [= <-]; split; cbn.
  - by rewrite bool_decide_true.
  - lia.
  - intros Hone. destruct (H1 Hone) as [Hex (ts1 & ts2 & Hm & Hp & Hsuf)]. split.
    + intros tier. rewrite execute_snoc, Hex. cbn. by rewrite !str_app_assoc.
    + exists ts1, (ts2 ++ [text]). rewrite Hm, Hsuf, concat_snoc, fmap_app, <-app_assoc. done.
  - by rewrite bool_decide_false.
  - intros Hz. destruct (H0 Hz) as (Hsuf & Hex & ts & Hm & Hp). split_and!; [done| |].
    + intros tier. by rewrite execute_snoc, Hex.
    + exists (ts ++ [text]). by rewrite Hm, Hp, concat_snoc, fmap_app.
  - lia.
Qed.

Lemma scanInv_action name seen st pipe st' :
  scanInv seen st → compileNode name st (ActionNode pipe) = Ret st' → scanInv (seen ++ [ActionNode pipe]) st'.
Proof.
  intros [Hs H0 H1]. cbn. destruct (validateTierAction name pipe) as [[]| | |] eqn:Hv; cbn; try done.
  intros [= <-]. split; cbn; [done|lia|]. intros Hone. assert (c_actions st = 0%nat) as Hz by lia.
  destruct (H0 Hz) as (Hsuf & Hex & ts & Hm & Hp). split.
  - intros tier. rewrite execute_snoc, Hex. cbn [mbind option_bind].
    rewrite (validateTierAction_ok name pipe tier Hv). cbn. by rewrite Hsuf, str_app_nil_r.
  - exists ts, []. rewrite Hm, Hsuf. done.
Qed.

Lemma scan_nodes name nodes st :
  go_foldl (compileNode name) (CompileState [] "" "" 0 false) nodes = Ret st → scanInv nodes st.
Proof.
  assert (∀ todo seen st0, scanInv seen st0 → go_foldl (compileNode name) st0 todo = Ret st →
    scanInv (seen ++ todo) st) as Hgen.
  { induction todo as [|n todo IH]; intros seen st0 Hi; cbn [go_foldl].
    - intros [= <-]. by rewrite app_nil_r.
    - intros Hr. destruct (compileNode name st0 n) as [st1| | |] eqn:Hn; cbn in Hr; try done.
      change (n :: todo) with ([n] ++ todo). rewrite app_assoc. apply IH with st1; [|done].
      destruct n as [text|pipe|]; [by eapply scanInv_text|by eapply scanInv_action|done]. }
  apply (Hgen nodes []). split; cbn; [done| |done]. intros _. split_and!; [done..|]. by exists [].
Qed.

Lemma Compile_ok Parse IsQualifiedName name rawText t :
  Compile Parse IsQualifiedName name rawText = Ret t →
  compiledOk t ∧ raw t = rawText ∧ Parse rawText = Some (Some (parsed t)) ∧
  (∀ tier, tier = 1 ∨ tier = 12 → IsQualifiedName (prefix t +:+ Itoa tier +:+ suffix t) = []).
Proof.
  unfold Compile. case_decide; [done|]. destruct (Parse rawText) as [[nodes|]|]; try done.
  intros Hc. destruct (go_foldl (compileNode name) _ nodes) as [st| | |] eqn:Hst; cbn [mbind go_bind] in Hc; try done.
  apply scan_nodes in Hst as [_ _ H1]. case_decide as Ha; [done|].
  assert (c_actions st = 1%nat) as Hone by lia. destruct (H1 Hone) as [Hex (ts1 & ts2 & Hm & Hp & Hsuf)].
  destruct (negb _); [done|]. set (compiled := MkTemplate _ _ _ _ _) in Hc.
  assert (compiledOk compiled) as Hok.
  { split; cbn; [done|]. intros key caps. rewrite Hm, Hp, Hsuf. apply match_tier_template. }
  assert (∀ tier, 1 ≤ tier → Render (Some compiled) tier = Ret (prefix compiled +:+ Itoa tier +:+ suffix compiled)) as Hr.
  { intros tier Ht. unfold Render. rewrite decide_False by lia. by rewrite (ok_execute _ Hok). }
  cbn [go_foldl] in Hc. unfold checkRendered in Hc. rewrite !Hr in Hc by lia.
  destruct (decide (IsQualifiedName (prefix compiled +:+ Itoa 1 +:+ suffix compiled) = [])) as [Hq1|];
    simplify_eq/=.
  destruct (decide (IsQualifiedName (c_prefix st +:+ Itoa 12 +:+ c_suffix st) = [])) as [Hq12|];
    simplify_eq/=. split_and!; [done..|]. intros tier [->| ->]; done.
Qed.

(** ** Rendering and matching are inverse *)
Lemma MatchTier_spec t key tier :
  compiledOk t →
  MatchTier (Some t) key = (tier, true) ↔
  1 ≤ tier ≤ max_int ∧ Render (Some t) tier = Ret key.
Proof.
  intros [Hex Hm]. unfold MatchTier, Render. rewrite Hex. split.
  - destruct (match_pieces (matcher t) key) as [caps|] eqn:Hc; [|done].
    apply Hm in Hc as (d & -> & Hd & ->). destruct (Atoi d) as [z|] eqn:Hz; [|done].
    destruct (Itoa_Atoi d z Hd Hz) as [Hi Hpos]. case_decide; [done|]. intros [= <-].
    assert (z ≤ max_int) as Hmax.
    { destruct (tier_digits_cons d Hd) as (c & r & -> & Hc & _).
      rewrite Atoi_digits in Hz by (by apply is_nonzero_digit_digit).
      apply bind_Some in Hz as (n & _ & Hz). unfold in_int, int_ok in Hz. case_decide; [|done]. simplify_eq. lia. }
    split; [lia|]. rewrite decide_False by lia. by rewrite Hi.
  - intros [Ht Hr]. rewrite decide_False in Hr by lia. injection Hr as <-.
    rewrite (proj2 (Hm _ [Itoa tier])); [|exists (Itoa tier); split_and!; [done| |done]; apply Itoa_tier_digits; lia].
    rewrite Atoi_Itoa by (unfold int_ok, min_int; lia). by rewrite decide_False by lia.
Qed.
