(* ===== verification/LabelAutomata.v ===== *)
(** * Disjoint label templates

    The automaton product of src/pkg/topologylabel/template.go decides whether two
    templates can render the same key: the search terminates, what it reports is a
    common key, and what it does not report does not exist. *)
From stdpp Require Import base gmap sets list strings sorting.
From Stdlib Require Import ZArith Ascii.
From S2P Require Import Prelude GoStrings GoNumbers LabelTemplate LabelTemplateFacts.
Local Open Scope Z_scope.

(** ** The language of one template *)
Definition digit_byte (c : Z) : bool := bool_decide (48 ≤ c ≤ 57).
Definition tier_bytes (d : list Z) : bool :=
  match d with
  | [] => false
  | c :: d => bool_decide (49 ≤ c ≤ 57) && forallb digit_byte d
  end.

Definition in_language (p s w : list Z) : Prop := ∃ d, w = p ++ d ++ s ∧ tier_bytes d = true.

Lemma tier_bytes_snoc d c : d ≠ [] → tier_bytes (d ++ [c]) = tier_bytes d && digit_byte c.
Proof. destruct d as [|x d]; [done|]. cbn. by rewrite forallb_app, andb_assoc; cbn; rewrite andb_true_r. Qed.

Lemma tier_bytes_digits s : tier_bytes (bytes s) = tier_digits s.
Proof.
  destruct s as [|c s]; [done|]. rewrite bytes_cons. cbn. f_equal.
  induction s as [|x s IH]; [done|]. rewrite bytes_cons. cbn. by rewrite IH.
Qed.

Section language.
Context (p s : list Z).
Let n := MkLanguage p s (length p + 1) (length p + 1 + 1) (length p + 1 + 1 + length s).

(** Where the automaton can be after reading [w]. *)
Definition at_state (w : list Z) (x : nat) : Prop :=
  (x ≤ length p)%nat ∧ w = take x p ∨
  x = (length p + 1)%nat ∧ (∃ d, w = p ++ d ∧ tier_bytes d = true) ∨
  ∃ j, (j ≤ length s)%nat ∧ x = (length p + 2 + j)%nat ∧ ∃ d, w = p ++ d ++ take j s ∧ tier_bytes d = true.

Definition run (w : list Z) : gset nat := foldl (transition n) (closure n {[ 0%nat ]}) w.

Lemma run_snoc w c : run (w ++ [c]) = transition n (run w) c.
Proof. unfold run. by rewrite foldl_app. Qed.

Lemma elem_of_transition S c x :
  x ∈ transition n S c ↔
  (∃ y, y ∈ S ∧ stepState n c y = Some x) ∨
  x = (length p + 2)%nat ∧ ∃ y, y ∈ S ∧ stepState n c y = Some (length p + 1)%nat.
Proof.
  unfold transition, closure, cloneStateSet. cbn [digitState suffixStart n].
  assert (∀ z, z ∈ (list_to_set (omap (stepState n c) (elements S)) : gset nat) ↔
    ∃ y, y ∈ S ∧ stepState n c y = Some z) as Hl.
  { intros z. rewrite elem_of_list_to_set, list_elem_of_omap. by setoid_rewrite elem_of_elements. }
  replace (length p + 1 + 1)%nat with (length p + 2)%nat by lia.
  case_decide as Hd; [rewrite elem_of_union, elem_of_singleton|]; rewrite Hl in *; naive_solver.
Qed.

Lemma snoc_take (l : list Z) y w c :
  (y < length l)%nat → w ++ [c] = take (S y) l ↔ w = take y l ∧ l !! y = Some c.
Proof.
  intros Hy. destruct (lookup_lt_is_Some_2 l y Hy) as [z Hz]. rewrite (take_S_r _ _ z Hz). split.
  - intros [-> [= <-]]%app_inj_tail. done.
  - intros [-> Hc]. congruence.
Qed.

(** Reading one more character. *)
Lemma at_state_step_1 w c y x : at_state w y → stepState n c y = Some x → at_state (w ++ [c]) x.
Proof.
  intros Hat. unfold stepState. cbn [l_prefix l_suffix digitState suffixStart acceptState n].
  destruct Hat as [[Hy ->]|[[-> (d & -> & Hd)]|(j & Hj & -> & d & -> & Hd)]].
  - case_decide as Hlt.
    { case_decide as Hc; [|done]. intros [= <-]. left. split; [lia|]. by apply snoc_take. }
    rewrite decide_True by lia. case_decide as Hc; [|done]. intros [= <-]. right. left. split; [done|].
    exists [c]. rewrite take_ge by lia. split; [done|]. cbn. by rewrite bool_decide_true.
  - rewrite !decide_False by lia. rewrite decide_True by done. case_decide as Hc; [|done]. intros [= <-].
    right. left. split; [done|]. exists (d ++ [c]). rewrite app_assoc. split; [done|].
    rewrite tier_bytes_snoc by (by intros ->). rewrite Hd. cbn. unfold digit_byte. by rewrite bool_decide_true.
  - rewrite !decide_False by lia. case_decide as Hlt; [|done]. case_decide as Hc; [|done]. intros [= <-].
    right. right. exists (S j). split_and!; [lia..|]. exists d. split; [|done].
    rewrite <-!app_assoc. do 2 f_equal. apply snoc_take; [lia|].
    split; [done|]. by replace (length p + 2 + j - (length p + 1 + 1))%nat with j in Hc by lia.
Qed.

(** Ending a tier with the character [c]. *)
Lemma tier_end w c d :
  w ++ [c] = p ++ d → tier_bytes d = true →
  ∃ y, at_state w y ∧ stepState n c y = Some (length p + 1)%nat.
Proof.
  intros Heq Hd. destruct d as [|z d _] using rev_ind; [done|].
  rewrite app_assoc in Heq. apply app_inj_tail in Heq as [-> <-].
  unfold stepState. cbn [l_prefix l_suffix digitState suffixStart acceptState n].
  destruct (decide (d = [])) as [->|Hne].
  - exists (length p). split; [left; split; [lia|]; by rewrite take_ge, app_nil_r|].
    cbn in Hd. rewrite andb_true_r in Hd. apply bool_decide_eq_true in Hd.
    rewrite decide_False by lia. rewrite decide_True by done. by rewrite decide_True.
  - rewrite tier_bytes_snoc in Hd by done. apply andb_true_iff in Hd as [Hd Hc%bool_decide_eq_true].
    exists (length p + 1)%nat. split; [right; left; eauto|].
    rewrite !decide_False by lia. rewrite decide_True by done. by rewrite decide_True.
Qed.

Lemma at_state_step_2 w c x :
  at_state (w ++ [c]) x →
  (∃ y, at_state w y ∧ stepState n c y = Some x) ∨
  x = (length p + 2)%nat ∧ ∃ y, at_state w y ∧ stepState n c y = Some (length p + 1)%nat.
Proof.
  intros [[Hx Hw]|[[-> (d & Hw & Hd)]|(j & Hj & -> & d & Hw & Hd)]].
  - left. destruct x as [|y]; [by destruct w|]. apply snoc_take in Hw as [-> Hc]; [|lia].
    exists y. split; [left; split; [lia|done]|]. unfold stepState. cbn [l_prefix n].
    rewrite decide_True by lia. by rewrite decide_True.
  - left. by eapply tier_end.
  - destruct j as [|j].
    { right. split; [lia|]. eapply tier_end; [|done]. by rewrite Hw, app_nil_r. }
    left. destruct (lookup_lt_is_Some_2 s j) as [z Hz]; [lia|]. rewrite (take_S_r _ _ z Hz) in Hw.
    rewrite !app_assoc in Hw. apply app_inj_tail in Hw as [-> <-].
    exists (length p + 2 + j)%nat. split.
    { right. right. exists j. split_and!; [lia|done|]. exists d. by rewrite app_assoc. }
    unfold stepState. cbn [l_prefix l_suffix digitState suffixStart acceptState n].
    rewrite !decide_False by lia. rewrite decide_True by lia.
    replace (length p + 2 + j - (length p + 1 + 1))%nat with j by lia. rewrite decide_True by done. f_equal. lia.
Qed.

Lemma run_spec w x : x ∈ run w ↔ at_state w x.
Proof.
  revert x. induction w as [|c w IH] using rev_ind; intros x.
  - unfold run. cbn [foldl]. unfold closure, cloneStateSet. cbn [digitState n].
    rewrite decide_False by (rewrite elem_of_singleton; lia). rewrite elem_of_singleton. split.
    + intros ->. left. split; [lia|done].
    + intros [[Hx Hw]|[[_ (d & Hw & Hd)]|(j & _ & _ & d & Hw & Hd)]].
      * destruct x; [done|]. by destruct p; [cbn in Hx; lia|].
      * by destruct p, d.
      * by destruct p, d.
  - rewrite run_snoc, elem_of_transition. setoid_rewrite IH. split; [|apply at_state_step_2].
    intros [(y & ? & ?)|[-> (y & Hy & Hs)]]; [by eapply at_state_step_1|].
    apply (at_state_step_1 w c) in Hs; [|done].
    destruct Hs as [[Hx _]|[[_ (d & -> & Hd)]|(j & _ & Hj & _)]]; [lia| |lia].
    right. right. exists 0%nat. split_and!; [lia..|]. exists d. by rewrite app_nil_r.
Qed.

Lemma run_accepts w : accepts n (run w) = true ↔ in_language p s w.
Proof.
  unfold accepts. rewrite bool_decide_eq_true, run_spec. cbn [acceptState n]. split.
  - intros [[Hx _]|[[Hx _]|(j & Hj & Hx & d & -> & Hd)]]; [lia|lia|].
    exists d. by rewrite take_ge by lia.
  - intros (d & -> & Hd). right. right. exists (length s). split_and!; [lia..|]. exists d. by rewrite take_ge.
Qed.

Lemma run_bound w x : x ∈ run w → (x ≤ acceptState n)%nat.
Proof. rewrite run_spec. cbn. intros [[? _]|[[? _]|(j & ? & ? & _)]]; lia. Qed.

(** Only characters of the alphabet lead anywhere. *)
Lemma step_alphabet c y x :
  stepState n c y = Some x → digit_byte c = true ∨ c ∈ p ++ s.
Proof.
  unfold stepState, digit_byte. cbn [l_prefix l_suffix digitState suffixStart acceptState n].
  rewrite bool_decide_eq_true. repeat case_decide; try done; intros _; try (left; lia);
    right; apply elem_of_app; [left|right]; by eapply list_elem_of_lookup_2.
Qed.

Lemma transition_alphabet S c : transition n S c ≠ ∅ → digit_byte c = true ∨ c ∈ p ++ s.
Proof.
  intros Hne. apply set_choose_L in Hne as [x Hx]. apply elem_of_transition in Hx.
  destruct Hx as [(y & _ & Hs)|[_ (y & _ & Hs)]]; by eapply step_alphabet.
Qed.

Lemma transition_empty c : transition n ∅ c = ∅.
Proof.
  apply set_eq. intros x. rewrite elem_of_transition. set_solver.
Qed.
End language.

(** ** Keys identify pairs of state sets *)
Definition render_states (l : list Z) : string := foldl (fun result state => result +:+ Itoa state +:+ ",") "" l.

Lemma render_states_cons z l : render_states (z :: l) = Itoa z +:+ "," +:+ render_states l.
Proof.
  unfold render_states. cbn [foldl]. change ("" +:+ ?a) with a.
  assert (∀ acc, foldl (fun result state => result +:+ Itoa state +:+ ",") acc l =
    acc +:+ foldl (fun result state => result +:+ Itoa state +:+ ",") "" l) as Hacc.
  { clear z. induction l as [|z l IH]; intros acc; cbn [foldl]; [by rewrite str_app_nil_r|].
    rewrite (IH (acc +:+ _)), (IH ("" +:+ _)). by rewrite !str_app_assoc. }
  rewrite Hacc. by rewrite str_app_assoc.
Qed.

(** The digits before the first other character are determined. *)
Lemma digits_prefix_inj d1 d2 c1 c2 r1 r2 :
  all_digits d1 = true → all_digits d2 = true → is_digit c1 = false → is_digit c2 = false →
  d1 +:+ String c1 r1 = d2 +:+ String c2 r2 → d1 = d2 ∧ c1 = c2 ∧ r1 = r2.
Proof.
  revert d2. induction d1 as [|x d1 IH]; intros [|y d2] H1 H2 Hc1 Hc2 Heq; cbn in H1, H2;
    rewrite ?str_app_cons in Heq.
  - injection Heq as -> ->. done.
  - apply andb_true_iff in H2 as [Hy _]. injection Heq as -> _. congruence.
  - apply andb_true_iff in H1 as [Hx _]. injection Heq as -> _. congruence.
  - apply andb_true_iff in H1 as [_ H1], H2 as [_ H2]. injection Heq as -> Heq.
    destruct (IH d2 H1 H2 Hc1 Hc2 Heq) as (-> & -> & ->). done.
Qed.

Lemma Itoa_nonneg z : 0 ≤ z → all_digits (Itoa z) = true ∧ digits_value (Itoa z) = Some (Z.to_N z).
Proof.
  intros Hz. unfold Itoa. rewrite decide_False by lia. split; [apply itoa_N_digits|apply digits_value_itoa].
Qed.

Definition terminator (r : string) : Prop := match r with EmptyString => True | String c _ => is_digit c = false end.

Lemma render_states_inj l1 l2 r1 r2 :
  Forall (fun z => 0 ≤ z) l1 → Forall (fun z => 0 ≤ z) l2 → terminator r1 → terminator r2 →
  render_states l1 +:+ r1 = render_states l2 +:+ r2 → l1 = l2 ∧ r1 = r2.
Proof.
  assert (∀ z l r r', 0 ≤ z → terminator r → r = render_states (z :: l) +:+ r' → False) as Hno.
  { intros z l r r' Hz Hr ->. rewrite render_states_cons in Hr.
    destruct (Itoa_nonneg z Hz) as [Hd Hv]. destruct (Itoa z) as [|c s]; [done|].
    cbn in Hr, Hd. apply andb_true_iff in Hd as [Hd _]. congruence. }
  intros H1. revert l2. induction H1 as [|z1 l1 Hz1 H1 IH]; intros l2 H2 Hr1 Hr2 Heq.
  - destruct H2 as [|z2 l2 Hz2 H2]; [done|]. destruct (Hno z2 l2 r1 r2); done.
  - destruct H2 as [|z2 l2 Hz2 H2]; [by destruct (Hno z1 l1 r2 r1)|].
    rewrite !render_states_cons, !str_app_assoc in Heq.
    destruct (Itoa_nonneg z1 Hz1) as [Hd1 Hv1], (Itoa_nonneg z2 Hz2) as [Hd2 Hv2].
    change ("," +:+ ?a) with (String "," a) in Heq.
    apply digits_prefix_inj in Heq as (Hi & _ & Heq); [|done..]. rewrite Hi, Hv2 in Hv1.
    assert (z1 = z2) as -> by (injection Hv1; lia).
    destruct (IH l2 H2 Hr1 Hr2 Heq) as [-> ->]. done.
Qed.

Lemma sorted_states_inj (X Y : gset nat) :
  sort_ints (Z.of_nat <$> elements X) = sort_ints (Z.of_nat <$> elements Y) → X = Y.
Proof.
  intros Heq. apply set_eq. intros x.
  assert (∀ S : gset nat, x ∈ S ↔ Z.of_nat x ∈ sort_ints (Z.of_nat <$> elements S)) as Hs.
  { intros S. rewrite elem_of_sort_ints, list_elem_of_fmap. setoid_rewrite elem_of_elements. split.
    - intros Hx. by exists x.
    - intros (y & Hy & HyS). apply Nat2Z.inj in Hy. by subst. }
  by rewrite (Hs X), (Hs Y), Heq.
Qed.

Lemma states_nonneg (X : gset nat) : Forall (fun z => 0 ≤ z) (sort_ints (Z.of_nat <$> elements X)).
Proof.
  apply Forall_forall. intros z. rewrite elem_of_sort_ints, list_elem_of_fmap. intros (y & -> & _). lia.
Qed.

Lemma pairStateKey_inj X Y X' Y' : pairStateKey X Y = pairStateKey X' Y' → X = X' ∧ Y = Y'.
Proof.
  unfold pairStateKey, stateSetKey. intros Heq.
  apply render_states_inj in Heq as [HX HY]; [|apply states_nonneg..|done|done].
  apply (str_app_inj_l "|") in HY.
  assert (render_states (sort_ints (Z.of_nat <$> elements Y)) +:+ "" =
    render_states (sort_ints (Z.of_nat <$> elements Y')) +:+ "") as HY' by (by rewrite !str_app_nil_r).
  apply render_states_inj in HY' as [HY' _]; [|apply states_nonneg..|done|done].
  split; by apply sorted_states_inj.
Qed.

(** ** Finitely many state sets *)
Fixpoint subsets (k : nat) : list (gset nat) :=
  match k with
  | O => [∅]
  | S k => subsets k ++ ((fun X => {[ k ]} ∪ X) <$> subsets k)
  end.

Lemma length_subsets k : length (subsets k) = (2 ^ k)%nat.
Proof. induction k as [|k IH]; [done|]. cbn [subsets]. rewrite length_app, length_fmap, IH. cbn. lia. Qed.

Lemma elem_of_subsets k X : (∀ x, x ∈ X → (x < k)%nat) → X ∈ subsets k.
Proof.
  revert X. induction k as [|k IH]; intros X HX; cbn [subsets].
  - apply list_elem_of_singleton. apply set_eq. intros x. split; [|set_solver]. intros Hx. apply HX in Hx. lia.
  - apply elem_of_app. destruct (decide (k ∈ X)) as [Hk|Hk].
    + right. apply list_elem_of_fmap. exists (X ∖ {[ k ]}). split.
      * apply set_eq. intros x. destruct (decide (x = k)); set_solver.
      * apply IH. intros x Hx. assert (x < S k)%nat by (apply HX; set_solver). assert (x ≠ k) by set_solver. lia.
    + left. apply IH. intros x Hx. assert (x < S k)%nat by (apply HX; set_solver).
      assert (x ≠ k) by (intros ->; done). lia.
Qed.

(** ** The search *)
Definition language (p s : list Z) : tierLanguage :=
  MkLanguage p s (length p + 1) (length p + 1 + 1) (length p + 1 + 1 + length s).

Section product.
Context (pl sl pr sr : list Z).
Let nl := language pl sl.
Let nr := language pr sr.
Let alphabet := languageAlphabet [nl; nr].
Let runL := run pl sl.
Let runR := run pr sr.

(** Reading [w] is possible in both automata. *)
Definition alive (w : list Z) : Prop := runL w ≠ ∅ ∧ runR w ≠ ∅.
Definition key (w : list Z) : string := pairStateKey (runL w) (runR w).

Lemma elem_of_alphabet c :
  c ∈ alphabet ↔ digit_byte c = true ∨ c ∈ pl ++ sl ∨ c ∈ pr ++ sr.
Proof.
  unfold alphabet, languageAlphabet. cbn [foldl l_prefix l_suffix nl nr language].
  rewrite elem_of_sort_ints, elem_of_elements, !elem_of_union, !elem_of_list_to_set.
  unfold digit_byte. rewrite bool_decide_eq_true.
  assert (c ∈ [48; 49; 50; 51; 52; 53; 54; 55; 56; 57] ↔ 48 ≤ c ≤ 57) as ->; [|tauto].
  rewrite !elem_of_cons, elem_of_nil. lia.
Qed.

Lemma alive_snoc w c : alive (w ++ [c]) → alive w ∧ c ∈ alphabet.
Proof.
  unfold alive, runL, runR. rewrite !run_snoc. intros [Hl Hr]. split.
  - split; intros Hz; [apply Hl|apply Hr]; rewrite Hz; apply transition_empty.
  - apply elem_of_alphabet. apply transition_alphabet in Hl. tauto.
Qed.

(** A pair in the queue is reached by a word, its example when that is ASCII. *)
Definition reached (e : languagePairState) (w : list Z) : Prop :=
  left e = runL w ∧ right e = runR w ∧ (Forall (fun b => 0 ≤ b < 128) w → bytes (example e) = w).

Record searchInv (st : searchState) : Prop := {
  sv_queue : ∀ e, e ∈ s_queue st → ∃ w, reached e w;
  sv_visited : ∀ k, k ∈ s_visited st → ∃ w, k = key w;
  sv_start : key [] ∈ s_visited st;
  sv_closed : ∀ w, alive w → key w ∈ s_visited st →
    (∃ e, e ∈ s_queue st ∧ left e = runL w ∧ right e = runR w) ∨
    ~ (accepts nl (runL w) = true ∧ accepts nr (runR w) = true) ∧
    ∀ c, c ∈ alphabet → alive (w ++ [c]) → key (w ++ [c]) ∈ s_visited st
}.

Definition searchPost (r : string * bool) : Prop :=
  if r.2 then ∃ w, in_language pl sl w ∧ in_language pr sr w ∧
                (Forall (fun b => 0 ≤ b < 128) w → bytes r.1 = w)
  else ∀ w, ~ (in_language pl sl w ∧ in_language pr sr w).

Lemma key_runs w w' : key w = key w' → runL w = runL w' ∧ runR w = runR w'.
Proof. apply pairStateKey_inj. Qed.

Lemma in_language_alive w : in_language pl sl w → in_language pr sr w → alive w.
Proof.
  intros Hl%run_accepts Hr%run_accepts. unfold accepts in *. apply bool_decide_eq_true in Hl, Hr.
  split; intros Hz; [unfold runL in Hz; rewrite Hz in Hl|unfold runR in Hz; rewrite Hz in Hr]; set_solver.
Qed.

Lemma search_exhausted visited : searchInv (MkSearch [] visited) → searchPost ("", false).
Proof.
  intros [_ _ Hs Hc]. cbn in *. intros w [Hl Hr].
  assert (∀ w, alive w → key w ∈ visited) as Hall.
  { clear w Hl Hr. induction w as [|c w IH] using rev_ind; [done|]. intros Ha.
    destruct (alive_snoc w c Ha) as [Hw Hin].
    destruct (Hc w Hw (IH Hw)) as [(e & He & _)|[_ Hn]]; [set_solver|by apply Hn]. }
  pose proof (in_language_alive w Hl Hr) as Ha.
  destruct (Hc w Ha (Hall w Ha)) as [(e & He & _)|[Hn _]]; [set_solver|].
  apply Hn. split; by apply run_accepts.
Qed.

Lemma example_snoc ex w c :
  (Forall (fun b => 0 ≤ b < 128) w → bytes ex = w) →
  Forall (fun b => 0 ≤ b < 128) (w ++ [c]) → bytes (ex +:+ of_bytes (encode_rune c)) = w ++ [c].
Proof.
  intros Hex [Hw Hc]%Forall_app. apply Forall_cons in Hc as [Hc _]. rewrite bytes_app, Hex by done.
  f_equal. unfold encode_rune. rewrite (decide_True (P := (0 ≤ c < 55296 ∨ 57344 ≤ c < 1114112))) by lia.
  rewrite decide_True by lia. apply bytes_of_bytes. constructor; [lia|constructor].
Qed.

(** One character: the new pair is visited, the queue grows with it. *)
Lemma extend_spec current w st c :
  reached current w →
  let st' := extend nl nr current st c in
  (∀ e, e ∈ s_queue st → e ∈ s_queue st') ∧
  (∀ e, e ∈ s_queue st' → e ∈ s_queue st ∨ reached e (w ++ [c])) ∧
  (∀ k, k ∈ s_visited st → k ∈ s_visited st') ∧
  (∀ k, k ∈ s_visited st' → k ∈ s_visited st ∨ k = key (w ++ [c]) ∧
     ∃ e, e ∈ s_queue st' ∧ left e = runL (w ++ [c]) ∧ right e = runR (w ++ [c])) ∧
  (alive (w ++ [c]) → key (w ++ [c]) ∈ s_visited st') ∧
  (length (s_queue st') + size (s_visited st) = length (s_queue st) + size (s_visited st'))%nat.
Proof.
  intros (Hl & Hr & Hex). unfold extend. rewrite Hl, Hr.
  assert (transition nl (runL w) c = runL (w ++ [c])) as -> by (symmetry; apply run_snoc).
  assert (transition nr (runR w) c = runR (w ++ [c])) as -> by (symmetry; apply run_snoc).
  fold (key (w ++ [c])). unfold alive.
  case_decide as Hdead; [naive_solver|]. case_decide as Hseen; [naive_solver|]. cbn.
  set (e0 := MkPairState _ _ _).
  assert (reached e0 (w ++ [c])) as He0.
  { split; [done|]. split; [done|]. by apply example_snoc. }
  split_and!.
  - set_solver.
  - intros e [?|He%list_elem_of_singleton]%elem_of_app; [by left|right]. by subst e.
  - set_solver.
  - intros k [Hk%elem_of_singleton|?]%elem_of_union; [right|by left]. split; [done|]. exists e0. set_solver.
  - set_solver.
  - rewrite length_app, size_union, size_singleton by set_solver. cbn. lia.
Qed.

Lemma extend_all current w queue visited cs :
  reached current w →
  let st' := foldl (extend nl nr current) (MkSearch queue visited) cs in
  (∀ e, e ∈ queue → e ∈ s_queue st') ∧
  (∀ e, e ∈ s_queue st' → e ∈ queue ∨ ∃ c, reached e (w ++ [c])) ∧
  (∀ k, k ∈ visited → k ∈ s_visited st') ∧
  (∀ k, k ∈ s_visited st' → k ∈ visited ∨ ∃ c e, k = key (w ++ [c]) ∧
     e ∈ s_queue st' ∧ left e = runL (w ++ [c]) ∧ right e = runR (w ++ [c])) ∧
  (∀ c, c ∈ cs → alive (w ++ [c]) → key (w ++ [c]) ∈ s_visited st') ∧
  (length (s_queue st') + size visited = length queue + size (s_visited st'))%nat.
Proof.
  intros Hcur. apply (foldl_inv (fun cs st' => (∀ e, e ∈ queue → e ∈ s_queue st') ∧
    (∀ e, e ∈ s_queue st' → e ∈ queue ∨ ∃ c, reached e (w ++ [c])) ∧
    (∀ k, k ∈ visited → k ∈ s_visited st') ∧
    (∀ k, k ∈ s_visited st' → k ∈ visited ∨ ∃ c e, k = key (w ++ [c]) ∧
       e ∈ s_queue st' ∧ left e = runL (w ++ [c]) ∧ right e = runR (w ++ [c])) ∧
    (∀ c, c ∈ cs → alive (w ++ [c]) → key (w ++ [c]) ∈ s_visited st') ∧
    (length (s_queue st') + size visited = length queue + size (s_visited st'))%nat)).
  { split_and!; cbn; auto. set_solver. }
  intros seen c todo st _ (Hq & Hnew & Hv & Hvn & Hall & Hsz).
  destruct (extend_spec current w st c Hcur) as (Hq' & Hnew' & Hv' & Hvn' & Hall' & Hsz').
  split_and!; auto; try lia.
  - intros e [He|He]%Hnew'; [auto|]. right. eauto.
  - intros k [Hk|(-> & e & He & ? & ?)]%Hvn'; [|right; by exists c, e].
    destruct (Hvn k Hk) as [?|(c' & e & ? & ? & ? & ?)]; [by left|right]. exists c', e. auto.
  - intros c' [Hc|Hc%list_elem_of_singleton]%elem_of_app Ha; [auto|subst; auto].
Qed.

Lemma next_runs w w' c :
  runL w = runL w' → runR w = runR w' → runL (w ++ [c]) = runL (w' ++ [c]) ∧ runR (w ++ [c]) = runR (w' ++ [c]).
Proof. unfold runL, runR. rewrite !run_snoc. by intros -> ->. Qed.

Lemma searchInv_step current queue visited :
  searchInv (MkSearch (current :: queue) visited) →
  accepts nl (left current) && accepts nr (right current) = false →
  searchInv (foldl (extend nl nr current) (MkSearch queue visited) alphabet).
Proof.
  intros [Hq Hv Hs Hc] Hacc. cbn in *. destruct (Hq current) as [w0 Hcur]; [set_solver|].
  destruct (extend_all current w0 queue visited alphabet Hcur) as (Eq & En & Ev & Evn & Eall & _).
  destruct Hcur as (Hl0 & Hr0 & _). split.
  - intros e [He|(c & He)]%En; [apply Hq; set_solver|eauto].
  - intros k [Hk|(c & e & -> & _)]%Evn; [auto|eauto].
  - auto.
  - intros w Hw [Hk|(c & e & Hk & He & Hle & Hre)]%Evn; last first.
    { left. exists e. apply key_runs in Hk as [-> ->]. auto. }
    destruct (Hc w Hw Hk) as [(e & He & Hle & Hre)|[Hna Hn]]; [|right; split; [done|]; auto].
    apply elem_of_cons in He as [->|He]; [|left; by eauto]. right.
    rewrite Hl0 in Hle. rewrite Hr0 in Hre. rewrite Hl0, Hr0, Hle, Hre in Hacc. split.
    { intros [H1 H2]. by rewrite H1, H2 in Hacc. }
    intros c Hin [HaL HaR]. destruct (next_runs w0 w c Hle Hre) as [HL HR].
    assert (key (w ++ [c]) = key (w0 ++ [c])) as -> by (unfold key; by rewrite HL, HR).
    apply Eall; [done|]. split; [by rewrite HL|by rewrite HR].
Qed.

(** All keys, which bounds the search. *)
Definition allKeys : gset string :=
  list_to_set ((fun '(X, Y) => pairStateKey X Y) <$>
    (X ← subsets (S (acceptState nl)); Y ← subsets (S (acceptState nr)); [(X, Y)])).

Lemma key_allKeys w : key w ∈ allKeys.
Proof.
  unfold allKeys. apply elem_of_list_to_set, list_elem_of_fmap. exists (runL w, runR w). split; [done|].
  apply list_elem_of_bind. exists (runL w). split.
  - apply list_elem_of_bind. exists (runR w). split; [set_solver|]. apply elem_of_subsets.
    intros x Hx%run_bound. cbn in *. lia.
  - apply elem_of_subsets. intros x Hx%run_bound. cbn in *. lia.
Qed.

Lemma size_list_to_set_le (l : list string) : (size (list_to_set l : gset string) ≤ length l)%nat.
Proof.
  induction l as [|x l IH]; [done|]. cbn [list_to_set length].
  transitivity (size ({[x]} : gset string) + size (list_to_set l : gset string))%nat.
  - rewrite size_union_alt.
    assert (size (list_to_set l ∖ {[x]} : gset string) ≤ size (list_to_set l : gset string))%nat; [|lia].
    apply subseteq_size. set_solver.
  - rewrite size_singleton. lia.
Qed.

Lemma size_allKeys : (N.of_nat (size allKeys) + 2 ≤ searchFuel nl nr)%N.
Proof.
  unfold searchFuel. pose proof (size_list_to_set_le ((fun '(X, Y) => pairStateKey X Y) <$>
    (X ← subsets (S (acceptState nl)); Y ← subsets (S (acceptState nr)); [(X, Y)]))) as Hle.
  rewrite length_fmap in Hle.
  assert (∀ (l : list (gset nat)) (r : list (gset nat)),
    length (X ← l; Y ← r; [(X, Y)]) = (length l * length r)%nat) as Hlen.
  { intros l r. induction l as [|X l IH]; [done|]. cbn. rewrite length_app, IH. f_equal.
    clear. induction r as [|Y r IH]; [done|]. cbn. by rewrite IH. }
  rewrite Hlen, !length_subsets in Hle. unfold allKeys.
  assert (∀ k, (2 ^ N.of_nat k = N.of_nat (2 ^ k))%N) as Hpow.
  { intros k. by rewrite Nat2N.inj_pow. }
  rewrite !Hpow, <-Nat2N.inj_mul. lia.
Qed.

Lemma search_total {E} st :
  searchInv st → (length (s_queue st) ≤ 1)%nat →
  ∃ r, while_go (E:=E) (searchStep nl nr alphabet) (searchFuel nl nr) st = Ret r ∧ searchPost r.
Proof.
  intros Hinv Hlen.
  eapply (while_go_total (searchStep nl nr alphabet) searchInv
    (fun st => N.of_nat (length (s_queue st) + (size allKeys - size (s_visited st))))); [|done|].
  - intros [[|current queue] visited] Hi; unfold searchStep; cbn [s_queue s_visited].
    { by apply (search_exhausted visited). }
    destruct (accepts nl (left current) && accepts nr (right current)) eqn:Hacc.
    + apply andb_true_iff in Hacc as [Hl Hr]. destruct (sv_queue _ Hi current) as (w & Hle & Hre & Hex); [set_solver|].
      rewrite Hle in Hl. rewrite Hre in Hr. exists w. split_and!; [by apply run_accepts..|done].
    + pose proof (searchInv_step current queue visited Hi Hacc) as Hi'. split; [done|].
      destruct (sv_queue _ Hi current) as (w & Hcur); [set_solver|].
      destruct (extend_all current w queue visited alphabet Hcur) as (_ & _ & _ & _ & _ & Hsz).
      cbn in Hsz. cbn [length].
      assert (size (s_visited (foldl (extend nl nr current) (MkSearch queue visited) alphabet)) ≤ size allKeys)%nat.
      { apply subseteq_size. intros k Hk. destruct (sv_visited _ Hi' k Hk) as [w' ->]. apply key_allKeys. }
      lia.
  - pose proof size_allKeys. lia.
Qed.

Lemma start_inv : searchInv (MkSearch [MkPairState (closure nl {[0%nat]}) (closure nr {[0%nat]}) ""]
    {[ pairStateKey (closure nl {[0%nat]}) (closure nr {[0%nat]}) ]}).
Proof.
  split; cbn.
  - intros e He%list_elem_of_singleton. subst e. exists []. by split_and!.
  - intros k Hk%elem_of_singleton. subst k. by exists [].
  - by apply elem_of_singleton.
  - intros w _ Hk%elem_of_singleton. apply (key_runs w []) in Hk as [-> ->]. left.
    eexists. split; [by apply list_elem_of_singleton|done].
Qed.
End product.

(** The search decides whether two templates have a key in common. *)
Lemma intersectionExample_decides t1 t2 :
  ∃ r, intersectionExample t1 t2 = Ret r ∧
    searchPost (bytes (prefix t1)) (bytes (suffix t1)) (bytes (prefix t2)) (bytes (suffix t2)) r.
Proof.
  unfold intersectionExample.
  assert (∀ t, newTierLanguage t = language (bytes (prefix t)) (bytes (suffix t))) as Hn.
  { intros t. unfold newTierLanguage, language. by rewrite !length_bytes. }
  rewrite !Hn. apply search_total; [apply start_inv|done].
Qed.

Lemma in_language_key t w :
  in_language (bytes (prefix t)) (bytes (suffix t)) w ↔
  ∃ d, w = bytes (prefix t +:+ d +:+ suffix t) ∧ tier_digits d = true.
Proof.
  split.
  - intros (d & -> & Hd). exists (of_bytes d).
    assert (bytes (of_bytes d) = d) as Hb.
    { apply bytes_of_bytes. destruct d as [|c d]; [done|]. cbn in Hd.
      apply andb_true_iff in Hd as [Hc%bool_decide_eq_true Hd]. constructor; [lia|].
      apply Forall_forall. intros x Hx. rewrite forallb_forall in Hd.
      apply list_elem_of_In, Hd, bool_decide_eq_true in Hx. lia. }
    by rewrite !bytes_app, Hb, <-tier_bytes_digits, Hb.
  - intros (d & -> & Hd). exists (bytes d). by rewrite !bytes_app, tier_bytes_digits.
Qed.
