(* ===== verification/LabelProperties.v ===== *)
(** * Properties of label templates

    The claims about src/pkg/topologylabel/template.go. *)
From stdpp Require Import base gmap sets list strings sorting.
From Stdlib Require Import ZArith Ascii.
From S2P Require Import Prelude GoStrings GoNumbers LabelTemplate LabelTemplateFacts LabelAutomata.
Local Open Scope Z_scope.

(** ** Compiled sets *)
Section sets.
Context (Parse : string → option (option (list Node))) (IsQualifiedName : string → list string).

(** No two templates have a key in common. *)
Definition disjoint_templates (t1 t2 : Template) : Prop :=
  ∀ d1 d2, tier_digits d1 = true → tier_digits d2 = true →
    prefix t1 +:+ d1 +:+ suffix t1 ≠ prefix t2 +:+ d2 +:+ suffix t2.

Lemma intersection_none t1 t2 ex :
  intersectionExample t1 t2 = Ret (ex, false) → disjoint_templates t1 t2.
Proof.
  destruct (intersectionExample_decides t1 t2) as (r & -> & Hp). intros [= ->]. cbn in Hp.
  intros d1 d2 H1 H2 Heq. apply (Hp (bytes (prefix t1 +:+ d1 +:+ suffix t1))).
  split; apply in_language_key; [by exists d1|]. exists d2. by rewrite Heq.
Qed.

Lemma checkRow_ok v rest :
  go_foldl (checkDisjoint v) () rest = Ret () → Forall (fun w => disjoint_templates v.2 w.2) rest.
Proof.
  induction rest as [|w rest IH]; [constructor|]. cbn [go_foldl]. intros Hr.
  destruct (checkDisjoint v () w) as [[]| | |] eqn:Hc; cbn [mbind go_bind] in Hr; try done.
  unfold checkDisjoint in Hc.
  destruct (intersectionExample v.2 w.2) as [[ex []]| | |] eqn:Hi; cbn [mbind go_bind snd] in Hc; try done.
  constructor; [exact (intersection_none _ _ _ Hi)|by apply IH].
Qed.

Lemma CompileSet_ok a b c s :
  CompileSet Parse IsQualifiedName a b c = Ret s →
  ∃ t1 t2 t3, s = MkSet (Some t1) (Some t2) (Some t3) ∧ compiledOk t1 ∧ compiledOk t2 ∧ compiledOk t3 ∧
    disjoint_templates t1 t2 ∧ disjoint_templates t1 t3 ∧ disjoint_templates t2 t3.
Proof.
  unfold CompileSet. cbn [go_foldl].
  destruct (Compile Parse IsQualifiedName _ a) as [t1| | |] eqn:H1; cbn [mbind go_bind]; try done.
  destruct (Compile Parse IsQualifiedName _ b) as [t2| | |] eqn:H2; cbn [mbind go_bind]; try done.
  destruct (Compile Parse IsQualifiedName _ c) as [t3| | |] eqn:H3; cbn [mbind go_bind app]; try done.
  apply Compile_ok in H1 as [H1 _], H2 as [H2 _], H3 as [H3 _]. cbn [checkPairs].
  destruct (go_foldl (checkDisjoint (_, t1)) () _) as [[]| | |] eqn:Hr1; cbn [mbind go_bind]; try done.
  destruct (go_foldl (checkDisjoint (_, t2)) () _) as [[]| | |] eqn:Hr2; cbn [mbind go_bind]; try done.
  apply checkRow_ok in Hr1, Hr2. cbn. intros [= <-]. exists t1, t2, t3.
  apply Forall_cons in Hr1 as [Hd12 Hr1]. apply Forall_cons in Hr1 as [Hd13 _].
  apply Forall_cons in Hr2 as [Hd23 _]. by split_and!.
Qed.
End sets.

Lemma disjoint_MatchTier t1 t2 key a b :
  compiledOk t1 → compiledOk t2 → disjoint_templates t1 t2 →
  MatchTier (Some t1) key = (a, true) → MatchTier (Some t2) key = (b, true) → False.
Proof.
  intros H1 H2 Hd [Ha Hr]%(MatchTier_spec _ _ _ H1) [Hb Hr']%(MatchTier_spec _ _ _ H2).
  unfold Render in Hr, Hr'. rewrite decide_False in Hr by lia. rewrite decide_False in Hr' by lia.
  rewrite (ok_execute _ H1) in Hr. rewrite (ok_execute _ H2) in Hr'.
  apply (Hd (Itoa a) (Itoa b)); [apply Itoa_tier_digits; lia..|congruence].
Qed.

(** ** A concrete configuration *)
Module Sample.
Definition tierAction : Node := ActionNode (Some (MkPipe [] false [Some (MkCommand [FieldNode ["Tier"]])])).

Definition Parse (r : string) : option (option (list Node)) :=
  if decide (r = "up/tier-{{ .Tier }}") then Some (Some [TextNode "up/tier-"; tierAction])
  else if decide (r = "out/tier-{{ .Tier }}-x") then Some (Some [TextNode "out/tier-"; tierAction; TextNode "-x"])
  else if decide (r = "out/tier-{{ .Tier }}") then Some (Some [TextNode "out/tier-"; tierAction])
  else if decide (r = "out/tier-1{{ .Tier }}") then Some (Some [TextNode "out/tier-1"; tierAction])
  else None.

Definition anyName (_ : string) : list string := [].

Definition set : LabelSet := MkSet
  (Some (MkTemplate "up/tier-{{ .Tier }}" [TextNode "up/tier-"; tierAction] [Quoted "up/tier-"; TierGroup] "up/tier-" ""))
  (Some (MkTemplate "out/tier-{{ .Tier }}-x" [TextNode "out/tier-"; tierAction; TextNode "-x"]
    [Quoted "out/tier-"; TierGroup; Quoted "-x"] "out/tier-" "-x"))
  (Some (MkTemplate "out/tier-{{ .Tier }}" [TextNode "out/tier-"; tierAction] [Quoted "out/tier-"; TierGroup] "out/tier-" "")).

Example compiles :
  CompileSet Parse anyName "up/tier-{{ .Tier }}" "out/tier-{{ .Tier }}-x" "out/tier-{{ .Tier }}" = Ret set.
Proof. vm_compute. reflexivity. Qed.

Example overlaps :
  CompileSet Parse anyName "up/tier-{{ .Tier }}" "out/tier-{{ .Tier }}" "out/tier-1{{ .Tier }}" =
  Err (ErrOverlap "topologyLabels.scaleOut" "topologyLabels.storage" "out/tier-11").
Proof. vm_compute. reflexivity. Qed.
End Sample.

(** ** The claims *)

(** C7.  For a template [Compile] accepts, [MatchTier] inverts [Render]: a key
    matches tier [n] exactly when [n] is a positive 64-bit number and rendering [n]
    gives the key. *)
Theorem template_roundtrip Parse IsQualifiedName name rawText t :
  Compile Parse IsQualifiedName name rawText = Ret t →
  ∀ key tier, MatchTier (Some t) key = (tier, true) ↔
    1 ≤ tier ≤ max_int ∧ Render (Some t) tier = Ret key.
Proof. intros Hc key tier. apply MatchTier_spec. by apply (Compile_ok _ _ _ _ _ Hc). Qed.

Lemma template_roundtrip_witness :
  MatchTier (ScaleOut Sample.set) "out/tier-42-x" = (42, true) ↔
  1 ≤ 42 ≤ max_int ∧ Render (ScaleOut Sample.set) 42 = Ret "out/tier-42-x".
Proof.
  apply (template_roundtrip Sample.Parse Sample.anyName "scaleOut" "out/tier-{{ .Tier }}-x").
  vm_compute. reflexivity.
Defined.

(** C8.  When [CompileSet] accepts three templates, all three are present and a
    label key matches at most one of them: no node label can be taken for a tier of
    two topologies. *)
Theorem compile_set_disjoint Parse IsQualifiedName scaleUp scaleOut storage s :
  CompileSet Parse IsQualifiedName scaleUp scaleOut storage = Ret s →
  ∃ t1 t2 t3, All (Some s) = [Some t1; Some t2; Some t3] ∧
    ∀ key a b,
      ~ (MatchTier (Some t1) key = (a, true) ∧ MatchTier (Some t2) key = (b, true)) ∧
      ~ (MatchTier (Some t1) key = (a, true) ∧ MatchTier (Some t3) key = (b, true)) ∧
      ~ (MatchTier (Some t2) key = (a, true) ∧ MatchTier (Some t3) key = (b, true)).
Proof.
  intros (t1 & t2 & t3 & -> & H1 & H2 & H3 & H12 & H13 & H23)%CompileSet_ok.
  exists t1, t2, t3. split; [done|]. intros key a b.
  split_and!; (intros [? ?]).
  - by eapply (disjoint_MatchTier t1 t2).
  - by eapply (disjoint_MatchTier t1 t3).
  - by eapply (disjoint_MatchTier t2 t3).
Qed.

Lemma compile_set_disjoint_witness :
  ∃ t1 t2 t3, All (Some Sample.set) = [Some t1; Some t2; Some t3] ∧
    ∀ key a b,
      ~ (MatchTier (Some t1) key = (a, true) ∧ MatchTier (Some t2) key = (b, true)) ∧
      ~ (MatchTier (Some t1) key = (a, true) ∧ MatchTier (Some t3) key = (b, true)) ∧
      ~ (MatchTier (Some t2) key = (a, true) ∧ MatchTier (Some t3) key = (b, true)).
Proof.
  apply (compile_set_disjoint Sample.Parse Sample.anyName "up/tier-{{ .Tier }}" "out/tier-{{ .Tier }}-x"
    "out/tier-{{ .Tier }}").
  vm_compute. reflexivity.
Defined.

(** C9.  The automaton search of [intersectionExample] always ends, and reports an
    overlap exactly when some tier of the first template and some tier of the second
    give the same key; when that key is ASCII, the example it reports is such a key. *)
Theorem intersection_decides t1 t2 :
  ∃ ex found, intersectionExample t1 t2 = Ret (ex, found) ∧
    (found = true ↔ ∃ d1 d2, tier_digits d1 = true ∧ tier_digits d2 = true ∧
       prefix t1 +:+ d1 +:+ suffix t1 = prefix t2 +:+ d2 +:+ suffix t2) ∧
    (found = true → ∃ d1 w, tier_digits d1 = true ∧ w = prefix t1 +:+ d1 +:+ suffix t1 ∧
       (∃ d2, tier_digits d2 = true ∧ w = prefix t2 +:+ d2 +:+ suffix t2) ∧
       (Forall (fun b => 0 ≤ b < 128) (bytes w) → ex = w)).
Proof.
  destruct (intersectionExample_decides t1 t2) as ([ex found] & Hi & Hp). exists ex, found.
  split; [done|]. destruct found; cbn in Hp.
  - destruct Hp as (w & (d1 & -> & Hd1)%in_language_key & (d2 & Heq & Hd2)%in_language_key & Hex).
    apply (inj bytes) in Heq. split; [split; [|done]; intros _; by exists d1, d2|]. intros _.
    exists d1, (prefix t1 +:+ d1 +:+ suffix t1). split_and!; [done..|by exists d2|].
    intros Hascii. apply (inj bytes). by apply Hex.
  - split; [|done]. split; [done|]. intros (d1 & d2 & H1 & H2 & Heq). exfalso.
    by apply (intersection_none t1 t2 ex Hi d1 d2).
Qed.
