(* ===== verification/TopologyInputs.v ===== *)
(** * Topology inputs

    src/pkg/controller/switchtopology/topology_inputs.go: the hosts and switches
    [DiscoverTopology] is given, built from FabricNode and Switch objects for one
    role.  Switch names are matched after normalisation. *)
From stdpp Require Import base gmap sets list strings sorting.
From Stdlib Require Import ZArith Ascii.
From S2P Require Import Prelude GoStrings GoText Api Topology.
Local Open Scope Z_scope.

Inductive inputError :=
| ErrNotJSON (switch : string)
| ErrEmptyNeighbor (switch : string)
| ErrUnknownNeighbor (switch : string) (role : string) (neighbor : string)
| ErrSelfNeighbor (switch : string).

Record topologyInputs := MkInputs {
  in_hosts : list Host;
  in_switches : list Switch;
  nodeOnly : bool;
  syntheticSwitches : gmap string bool
}.

Record topologySwitchBuilder := MkBuilder {
  b_data : Switch;
  b_seen : gmap string bool
}.

(** ** Names *)

(** The loop over the runes: letters and digits are kept, a run of anything else
    becomes one dash. *)
Definition normalizeRune (st : list Z * bool) (r : Z) : list Z * bool :=
  let '(out, previousDash) := st in
  if is_lower_alnum r then (out ++ [r], false)
  else if negb previousDash then (out ++ [45], true)
  else (out, previousDash).

Definition normalizeResourceName (name : string) : string :=
  let name := TrimSpace name in
  let '(out, _) := foldl normalizeRune ([], false) ((fun '(r, _) => lower_rune r) <$> runes (bytes name)) in
  TrimDash (of_bytes out).

Definition effectiveSwitchRole (sw : v1beta1.Switch) : v1beta1.SwitchRole :=
  if decide (v1beta1.Role sw = "") then v1beta1.SwitchRoleScaleOut else v1beta1.Role sw.

Definition nodeNicsForRole (node : v1beta1.FabricNode) (role : v1beta1.SwitchRole) : list v1beta1.NicInfo :=
  if decide (role = v1beta1.SwitchRoleScaleOut) then
    if decide (v1beta1.NodeRole node = v1beta1.NodeRoleStorage) then [] else v1beta1.ScaleOutNics node
  else if decide (role = v1beta1.SwitchRoleScaleUp) then []
  else if decide (role = v1beta1.SwitchRoleStorage) then v1beta1.StorageNics node
  else [].

Definition hasManualSwitchNeighbors (sw : v1beta1.Switch) : bool :=
  bool_decide (is_Some (v1beta1.SW_Annotations sw !! v1beta1.SwitchNeighborsAnnotation)).

(** [dedupeStrings] compares each entry with the one before it. *)
Definition dedupeStrings (values : list string) : list string := dedupeSortedStrings values.

(** The loop that trims the parsed names. *)
Fixpoint trimNeighbors (switch : string) (neighbors : list string) : go inputError (list string) :=
  match neighbors with
  | [] => Ret []
  | n :: neighbors =>
    let n := TrimSpace n in
    if decide (n = "") then Err (ErrEmptyNeighbor switch)
    else rest ← trimNeighbors switch neighbors; Ret (n :: rest)
  end.

Definition parseManualSwitchNeighbors (sw : v1beta1.Switch) : go inputError (list string) :=
  let raw := TrimSpace (default "" (v1beta1.SW_Annotations sw !! v1beta1.SwitchNeighborsAnnotation)) in
  if decide (raw = "") then Ret []
  else match json_string_array raw with
       | None => Err (ErrNotJSON (v1beta1.SW_Name sw))
       | Some neighbors =>
         neighbors ← trimNeighbors (v1beta1.SW_Name sw) neighbors;
         Ret (dedupeStrings (sort_strings neighbors))
       end.

(** ** Builders *)
Definition addNeighbor (b : topologySwitchBuilder) (neighbor : Neighbor) : topologySwitchBuilder :=
  if decide (RemoteSystemName neighbor = "") then b
  else
    let key := RemoteSystemName neighbor in
    if default false (b_seen b !! key) then b
    else MkBuilder (MkSwitch (Switch_Name (b_data b)) (Neighbors (b_data b) ++ [neighbor]))
           (<[key := true]> (b_seen b)).

Definition ensureSwitchBuilder (builders : gmap string topologySwitchBuilder) (switchName : string)
    : gmap string topologySwitchBuilder :=
  match builders !! switchName with
  | Some _ => builders
  | None => <[switchName := MkBuilder (MkSwitch switchName []) ∅]> builders
  end.

(** [ensureSwitchBuilder(name).addNeighbor(n)]: the builder is shared by pointer. *)
Definition addNeighborTo (builders : gmap string topologySwitchBuilder) (switchName : string) (n : Neighbor)
    : gmap string topologySwitchBuilder :=
  let builders := ensureSwitchBuilder builders switchName in
  match builders !! switchName with
  | Some b => <[switchName := addNeighbor b n]> builders
  | None => builders
  end.

Definition resolveSwitchName (raw : string) (normalizedSwitchNames : gmap string string)
    (existing : gmap string topologySwitchBuilder) : string * bool :=
  match existing !! raw with
  | Some _ => (raw, true)
  | None =>
    match normalizedSwitchNames !! normalizeResourceName raw with
    | None => ("", false)
    | Some switchName => (switchName, bool_decide (is_Some (existing !! switchName)))
    end
  end.

Definition canonicalRemoteSystemName (raw : string) (hostNames : gmap string bool)
    (normalizedSwitchNames : gmap string string) : string :=
  if default false (hostNames !! raw) then raw
  else default raw (normalizedSwitchNames !! normalizeResourceName raw).

(** ** The inputs of one role *)
Record inputState := MkInputState {
  is_builders : gmap string topologySwitchBuilder;
  is_synthetic : gmap string bool;
  is_participating : gmap string bool
}.

Section inputs.
Context `{RangeOrder}.

Definition sortedMapKeys (values : gmap string bool) : list string :=
  sort_strings (foldl (fun keys '(key, _) => keys ++ [key]) [] (range values)).

Definition buildersToBoolMap (values : gmap string topologySwitchBuilder) : gmap string bool :=
  foldl (fun result '(key, _) => <[key := true]> result) ∅ (range values).

(** Recording the names under which a switch is known. *)
Definition registerSwitch (role : v1beta1.SwitchRole)
    (st : list v1beta1.Switch * gmap string string) (sw : v1beta1.Switch)
    : list v1beta1.Switch * gmap string string :=
  let '(roleSwitches, normalized) := st in
  if decide (effectiveSwitchRole sw ≠ role) then st
  else
    let normalized := <[normalizeResourceName (v1beta1.SW_Name sw) := v1beta1.SW_Name sw]> normalized in
    let hostname := v1beta1.SS_Hostname (v1beta1.SW_Status sw) in
    (roleSwitches ++ [sw],
     if decide (hostname ≠ "") then <[normalizeResourceName hostname := v1beta1.SW_Name sw]> normalized
     else normalized).

(** One NIC of a node: a link from the switch on the other side to the node. *)
Definition addNic (normalized : gmap string string) (synthesize : bool) (nodeName : string)
    (st : inputState * bool) (nic : v1beta1.NicInfo) : inputState * bool :=
  let '(s, matchedHost) := st in
  let neighbor := v1beta1.Nic_LLDPNeighbor nic in
  if decide (v1beta1.State nic ≠ "up" ∨ v1beta1.Hostname neighbor = "" ∨ v1beta1.Port neighbor = "") then st
  else
    let '(switchName, matchedRealSwitch) := resolveSwitchName (v1beta1.Hostname neighbor) normalized (is_builders s) in
    let link switchName synthetic :=
      (MkInputState (addNeighborTo (is_builders s) switchName (MkNeighbor switchName nodeName))
         synthetic (is_participating s), true) in
    if negb matchedRealSwitch && synthesize then
      let switchName := normalizeResourceName (v1beta1.Hostname neighbor) in
      if decide (switchName = "") then st
      else link switchName (<[switchName := true]> (is_synthetic s))
    else if negb matchedRealSwitch then st
    else link switchName (is_synthetic s).

Definition addFabricNode (role : v1beta1.SwitchRole) (normalized : gmap string string) (synthesize : bool)
    (s : inputState) (node : v1beta1.FabricNode) : inputState :=
  let nics := nodeNicsForRole node role in
  if decide (nics = []) then s
  else
    let '(s, matchedHost) := foldl (addNic normalized synthesize (v1beta1.FN_Name node)) (s, false) nics in
    if (matchedHost : bool) then
      MkInputState (is_builders s) (is_synthetic s) (<[v1beta1.FN_Name node := true]> (is_participating s))
    else s.

(** One neighbour named by the annotation of a switch. *)
Definition addManualNeighbor (role : v1beta1.SwitchRole) (normalized : gmap string string) (sw : v1beta1.Switch)
    (s : inputState) (neighborName : string) : go inputError inputState :=
  let '(resolved, exists_) := resolveSwitchName neighborName normalized (is_builders s) in
  let '(resolved, exists_) :=
    if (exists_ : bool) then (resolved, true)
    else let n := normalizeResourceName neighborName in (n, default false (is_synthetic s !! n)) in
  if negb exists_ then Err (ErrUnknownNeighbor (v1beta1.SW_Name sw) role neighborName)
  else if decide (resolved = v1beta1.SW_Name sw) then Err (ErrSelfNeighbor (v1beta1.SW_Name sw))
  else Ret (MkInputState
    (addNeighborTo (is_builders s) (v1beta1.SW_Name sw) (MkNeighbor (v1beta1.SW_Name sw) resolved))
    (is_synthetic s) (is_participating s)).

(** One LLDP neighbour a switch reports; hosts are learnt from the nodes. *)
Definition addLLDPNeighbor (managed : gmap string bool) (normalized : gmap string string) (sw : v1beta1.Switch)
    (s : inputState) (neighbor : v1beta1.SwitchNeighbor) : inputState :=
  let remote := canonicalRemoteSystemName (v1beta1.SN_RemoteSystemName neighbor) managed normalized in
  if decide (v1beta1.RemoteSystemType neighbor = v1beta1.SwitchLLDPRemoteSystemTypeKubernetesNode ∨
             default false (managed !! remote) = true) then s
  else MkInputState
    (addNeighborTo (is_builders s) (v1beta1.SW_Name sw) (MkNeighbor (v1beta1.SW_Name sw) remote))
    (is_synthetic s) (is_participating s).

Definition addSwitchLinks (role : v1beta1.SwitchRole) (managed : gmap string bool) (normalized : gmap string string)
    (semiAutomatic : bool) (s : inputState) (sw : v1beta1.Switch) : go inputError inputState :=
  let s := MkInputState (ensureSwitchBuilder (is_builders s) (v1beta1.SW_Name sw)) (is_synthetic s)
             (is_participating s) in
  if semiAutomatic then
    manualNeighbors ← parseManualSwitchNeighbors sw;
    go_foldl (addManualNeighbor role normalized sw) s manualNeighbors
  else Ret (foldl (addLLDPNeighbor managed normalized sw) s (v1beta1.LLDPNeighbors (v1beta1.SW_Status sw))).

Definition neighbor_le (a b : Neighbor) : Prop := String.le (RemoteSystemName a) (RemoteSystemName b).
#[local] Instance neighbor_le_dec a b : Decision (neighbor_le a b) :=
  String.le_dec (RemoteSystemName a) (RemoteSystemName b).

Definition zeroBuilder : topologySwitchBuilder := MkBuilder (MkSwitch "" []) ∅.

Definition buildTopologyInputsForRole (role : v1beta1.SwitchRole) (fabricNodes : list v1beta1.FabricNode)
    (switches : list v1beta1.Switch) : go inputError topologyInputs :=
  let managed : gmap string bool := foldl (fun m node => <[v1beta1.FN_Name node := true]> m) ∅ fabricNodes in
  let '(roleSwitches, normalized) := foldl (registerSwitch role) ([], ∅) switches in
  let nodeOnly := bool_decide (roleSwitches = []) in
  let semiAutomatic := negb nodeOnly && forallb hasManualSwitchNeighbors roleSwitches in
  let builders := foldl (fun b sw => ensureSwitchBuilder b (v1beta1.SW_Name sw)) ∅ roleSwitches in
  let s := foldl (addFabricNode role normalized (nodeOnly || semiAutomatic)) (MkInputState builders ∅ ∅) fabricNodes in
  s ← go_foldl (addSwitchLinks role managed normalized semiAutomatic) s roleSwitches;
  let hosts := MkHost <$> sortedMapKeys (is_participating s) in
  let topoSwitches := (fun switchName =>
      let b := default zeroBuilder (is_builders s !! switchName) in
      MkSwitch (Switch_Name (b_data b)) (merge_sort neighbor_le (Neighbors (b_data b)))) <$>
    sortedMapKeys (buildersToBoolMap (is_builders s)) in
  Ret (MkInputs hosts topoSwitches nodeOnly (is_synthetic s)).
End inputs.

Example normalize_leaf : normalizeResourceName " Leaf_01.Example  Com- " = "leaf-01-example-com".
Proof. vm_compute. reflexivity. Qed.

Example normalize_kelvin : normalizeResourceName (of_bytes (encode_rune 8490 ++ bytes "8s")) = "k8s".
Proof. vm_compute. reflexivity. Qed.
