(* ===== verification/ApiServer.v ===== *)
(** * The API server

    The objects the controllers read and write, as a state that every call can
    change or fail on: a list of faults, one per call, says which calls fail and
    how.  [M E] is the monad of controller code with errors in [E]; an error type
    embeds the errors of the API server through the class [FromApi].  Triples say
    what a piece of controller code does whatever the faults are. *)
From stdpp Require Import base gmap sets list strings sorting.
From Stdlib Require Import ZArith.
From S2P Require Import Prelude Api.

(** ** The world *)
Record Cluster := MkCluster {
  c_topologies : gmap string v1beta1.Topology;
  c_fabricNodes : list v1beta1.FabricNode;
  c_switches : list v1beta1.Switch;
  c_nodes : list corev1.Node
}.

Inductive apiError := ApiFailed | ApiConflict | ApiExists.

Inductive fault := NoFault | Fails | Conflicts.

Record World := MkWorld {
  w_cluster : Cluster;
  w_faults : list fault
}.

Class FromApi (E : Type) := from_api : apiError → E.

Definition M (E A : Type) : Type := World → go E A * World.

#[export] Instance M_ret {E} : MRet (M E) := fun _ a w => (Ret a, w).
#[export] Instance M_bind {E} : MBind (M E) := fun _ _ f c w =>
  match c w with
  | (Ret a, w) => f a w
  | (Err e, w) => (Err e, w)
  | (Panic, w) => (Panic, w)
  | (OutOfFuel, w) => (OutOfFuel, w)
  end.

Definition pure {E A} (c : go E A) : M E A := fun w => (c, w).

Fixpoint M_foldl {E A B} (f : A → B → M E A) (a : A) (l : list B) : M E A :=
  match l with
  | [] => mret a
  | x :: l => a' ← f a x; M_foldl f a' l
  end.

(** A call whose error the caller looks at. *)
Definition try_call {E A} (f : Cluster → (A + apiError) * Cluster) : M E (A + apiError) := fun w =>
  match w_faults w with
  | Fails :: faults => (Ret (inr ApiFailed), MkWorld (w_cluster w) faults)
  | Conflicts :: faults => (Ret (inr ApiConflict), MkWorld (w_cluster w) faults)
  | NoFault :: faults => let '(r, c) := f (w_cluster w) in (Ret r, MkWorld c faults)
  | [] => let '(r, c) := f (w_cluster w) in (Ret r, MkWorld c [])
  end.

(** A call whose error is returned. *)
Definition call {E A} `{FromApi E} (f : Cluster → (A + apiError) * Cluster) : M E A :=
  r ← try_call f;
  match r with
  | inl a => mret a
  | inr e => pure (Err (from_api e))
  end.

Definition set_topologies v (c : Cluster) : Cluster := MkCluster v (c_fabricNodes c) (c_switches c) (c_nodes c).
Definition set_fabricNodes v (c : Cluster) : Cluster := MkCluster (c_topologies c) v (c_switches c) (c_nodes c).
Definition set_switches v (c : Cluster) : Cluster := MkCluster (c_topologies c) (c_fabricNodes c) v (c_nodes c).
Definition set_nodes v (c : Cluster) : Cluster := MkCluster (c_topologies c) (c_fabricNodes c) (c_switches c) v.

(** ** What the server does on a call *)
Definition put_topology (object : v1beta1.Topology) (c : Cluster) : (unit + apiError) * Cluster :=
  (* a deleted object goes away with its last finalizer *)
  let topologies :=
    if v1beta1.Deleting object && bool_decide (v1beta1.Finalizers object = []) then
      delete (v1beta1.T_Name object) (c_topologies c)
    else <[v1beta1.T_Name object := object]> (c_topologies c) in
  (inl (), set_topologies topologies c).

Definition add_topology (object : v1beta1.Topology) (c : Cluster) : (unit + apiError) * Cluster :=
  match c_topologies c !! v1beta1.T_Name object with
  | Some _ => (inr ApiExists, c)
  | None => (inl (), set_topologies (<[v1beta1.T_Name object := object]> (c_topologies c)) c)
  end.

Definition put_node (object : corev1.Node) (c : Cluster) : (unit + apiError) * Cluster :=
  (inl (), set_nodes ((fun n => if decide (corev1.Node_Name n = corev1.Node_Name object) then object else n) <$>
    c_nodes c) c).

Definition put_switch (object : v1beta1.Switch) (c : Cluster) : (unit + apiError) * Cluster :=
  (inl (), set_switches ((fun s => if decide (v1beta1.SW_Name s = v1beta1.SW_Name object) then object else s) <$>
    c_switches c) c).

Definition put_fabricNode (object : v1beta1.FabricNode) (c : Cluster) : (unit + apiError) * Cluster :=
  (inl (), set_fabricNodes ((fun n => if decide (v1beta1.FN_Name n = v1beta1.FN_Name object) then object else n) <$>
    c_fabricNodes c) c).

Section calls.
Context {E : Type} `{FromApi E}.

(** [None] is a NotFound error. *)
Definition getTopology (name : string) : M E (option v1beta1.Topology) :=
  call (fun c => (inl (c_topologies c !! name), c)).
Definition getNode (name : string) : M E (option corev1.Node) :=
  call (fun c => (inl (list_find (fun n => corev1.Node_Name n = name) (c_nodes c) ≫= fun p => Some p.2), c)).
Definition getFabricNode (name : string) : M E (option v1beta1.FabricNode) :=
  call (fun c => (inl (list_find (fun n => v1beta1.FN_Name n = name) (c_fabricNodes c) ≫= fun p => Some p.2), c)).
Definition getSwitch (name : string) : M E (option v1beta1.Switch) :=
  call (fun c => (inl (list_find (fun s => v1beta1.SW_Name s = name) (c_switches c) ≫= fun p => Some p.2), c)).

Definition listFabricNodes : M E (list v1beta1.FabricNode) := call (fun c => (inl (c_fabricNodes c), c)).
Definition listSwitches : M E (list v1beta1.Switch) := call (fun c => (inl (c_switches c), c)).
Definition listNodes : M E (list corev1.Node) := call (fun c => (inl (c_nodes c), c)).

Definition patchTopology (object : v1beta1.Topology) : M E unit := call (put_topology object).
Definition createTopology (object : v1beta1.Topology) : M E unit := call (add_topology object).
Definition patchNode (object : corev1.Node) : M E unit := call (put_node object).
Definition patchSwitch (object : v1beta1.Switch) : M E unit := call (put_switch object).
End calls.

(** ** Triples *)
Definition triple {E A} (P : Cluster → Prop) (c : M E A) (Q : A → Cluster → Prop) (X : Cluster → Prop) : Prop :=
  ∀ w, P (w_cluster w) →
    match c w with
    | (Ret a, w') => Q a (w_cluster w')
    | (_, w') => X (w_cluster w')
    end.

Lemma triple_bind {E A B} P (c : M E A) (f : A → M E B) Q R X :
  triple P c Q X → (∀ a, triple (Q a) (f a) R X) → triple P (c ≫= f) R X.
Proof.
  intros Hc Hf w Hw. specialize (Hc w Hw). unfold mbind, M_bind. destruct (c w) as [[a| | |] w']; [|done..].
  by apply Hf.
Qed.

Lemma triple_ret {E A} (P : Cluster → Prop) (a : A) (Q : A → Cluster → Prop) X :
  (∀ c, P c → Q a c) → triple (E:=E) P (mret a) Q X.
Proof. intros HQ w Hw. cbn. auto. Qed.

Lemma triple_pure {E A} (P : Cluster → Prop) (c : go E A) (Q : A → Cluster → Prop) (X : Cluster → Prop) :
  (∀ s, P s → X s) → (∀ a s, c = Ret a → P s → Q a s) → triple P (pure c) Q X.
Proof. intros HX HQ w Hw. unfold pure. destruct c; auto. Qed.

Lemma triple_call {E A} `{FromApi E} (P : Cluster → Prop) (f : Cluster → (A + apiError) * Cluster) Q
    (X : Cluster → Prop) :
  (∀ s, P s → X s) →
  (∀ s, P s → match f s with (inl a, s') => Q a s' | (inr _, s') => X s' end) → triple (E:=E) P (call f) Q X.
Proof.
  intros HX HQ w Hw. unfold call, try_call, mbind, M_bind. specialize (HQ _ Hw).
  destruct (w_faults w) as [|[] l]; [|destruct (f (w_cluster w)) as [[a|e] s]; done|by apply HX..].
  destruct (f (w_cluster w)) as [[a|e] s]; done.
Qed.

Lemma triple_conseq {E A} (P P' : Cluster → Prop) (c : M E A) (Q Q' : A → Cluster → Prop) (X X' : Cluster → Prop) :
  triple P c Q X → (∀ s, P' s → P s) → (∀ a s, Q a s → Q' a s) → (∀ s, X s → X' s) → triple P' c Q' X'.
Proof.
  intros Hc HP HQ HX w Hw. specialize (Hc w (HP _ Hw)). destruct (c w) as [[a| | |] w']; auto.
Qed.

(** A fact of the precondition that does not depend on the cluster. *)
Lemma triple_fact {E A} (φ : Prop) (P : Cluster → Prop) (c : M E A) Q X :
  (φ → triple P c Q X) → triple (fun s => φ ∧ P s) c Q X.
Proof. intros Hc w [Hφ Hw]. by apply Hc. Qed.

Lemma triple_foldl {E A B} (f : A → B → M E A) (l : list B) (a : A) (I : list B → A → Cluster → Prop) X :
  (∀ seen x todo a, l = seen ++ x :: todo → triple (I seen a) (f a x) (I (seen ++ [x])) X) →
  triple (I [] a) (M_foldl f a l) (I l) X.
Proof.
  intros Hstep.
  assert (∀ todo seen a, l = seen ++ todo → triple (I seen a) (M_foldl f a todo) (I l) X) as Hgen.
  { induction todo as [|x todo IH]; intros seen b Hl; cbn [M_foldl].
    - rewrite app_nil_r in Hl. subst. by apply triple_ret.
    - eapply triple_bind; [by eapply Hstep|]. intros b'. apply IH. by rewrite <-app_assoc. }
  by apply (Hgen l []).
Qed.

(** A loop over objects, with an invariant on those seen and those to come. *)
Lemma triple_each {E B} (f : B → M E unit) (l : list B) (I : list B → list B → Cluster → Prop) X :
  (∀ seen x todo, l = seen ++ x :: todo → triple (I seen (x :: todo)) (f x) (fun _ => I (seen ++ [x]) todo) X) →
  triple (I [] l) (M_foldl (fun _ => f) () l) (fun _ => I l []) X.
Proof.
  intros Hstep.
  assert (∀ todo seen, l = seen ++ todo →
    triple (I seen todo) (M_foldl (fun _ => f) () todo) (fun _ => I l []) X) as Hgen.
  { induction todo as [|x todo IH]; intros seen Hl; cbn [M_foldl].
    - rewrite app_nil_r in Hl. subst. by apply triple_ret.
    - eapply triple_bind; [by eapply Hstep|]. intros []. apply IH. by rewrite <-app_assoc. }
  by apply (Hgen l []).
Qed.

(** ** Replacing one object of a list *)
Section replace.
Context {T : Type} (name : T → string).

Lemma NoDup_name_inj (l : list T) a b : NoDup (name <$> l) → a ∈ l → b ∈ l → name a = name b → a = b.
Proof.
  intros Hnd [i Hi]%list_elem_of_lookup [j Hj]%list_elem_of_lookup Hn.
  assert (i = j) as ->; [|congruence].
  eapply (NoDup_lookup _ i j (name a) Hnd); rewrite list_lookup_fmap, ?Hi, ?Hj; cbn; congruence.
Qed.

(** An object is replaced by one in the same relation to the original. *)
Lemma replace_Forall2 (R : T → T → Prop) (l0 l : list T) (n0 object : T) :
  NoDup (name <$> l0) → (∀ a b, R a b → name a = name b) → n0 ∈ l0 → R n0 object →
  Forall2 R l0 l →
  Forall2 R l0 ((fun n => if decide (name n = name object) then object else n) <$> l).
Proof.
  intros Hnd Heq Hin HR Hall. apply Forall2_fmap_r, Forall2_same_length_lookup.
  apply Forall2_same_length_lookup in Hall as [Hlen Hall]. split; [done|].
  intros i a b Ha Hb. specialize (Hall _ _ _ Ha Hb). cbn. case_decide as Hn; [|done].
  assert (a = n0) as ->; [|done]. apply (NoDup_name_inj l0); [done|exact (list_elem_of_lookup_2 _ _ _ Ha)|done|].
  rewrite (Heq _ _ Hall), Hn. symmetry. by apply Heq.
Qed.

Lemma replace_at (l1 l2 : list T) (x y : T) :
  NoDup (name <$> l1 ++ x :: l2) → name y = name x →
  (fun n => if decide (name n = name y) then y else n) <$> l1 ++ x :: l2 = l1 ++ y :: l2.
Proof.
  intros Hnd Hy. rewrite fmap_app in Hnd. cbn in Hnd.
  apply NoDup_app in Hnd as (_ & Hd & [Hx _]%NoDup_cons).
  assert (∀ l : list T, name x ∉ name <$> l → (fun n => if decide (name n = name y) then y else n) <$> l = l) as Hid.
  { intros l Hl. rewrite <-(list_fmap_id l) at 2. apply list_fmap_ext. intros i n Hn. rewrite decide_False; [done|].
    intros Heq. destruct Hl. rewrite <-Hy, <-Heq. apply list_elem_of_fmap_2. by eapply list_elem_of_lookup_2. }
  rewrite fmap_app, fmap_cons, decide_True by done. f_equal; [|f_equal]; apply Hid; [|done].
  intros Hin. apply (Hd _ Hin). set_solver.
Qed.
End replace.

