(* ===== verification/AutoLabel.v ===== *)
(** * Automatic topology labels

    src/pkg/controller/switchtopology/autolabel_controller.go: the groups of a
    discovered topology are given names of the form tierN-groupM, existing labels
    lock the name of a group, and the missing labels are written to Nodes and
    Switches.  The Kubernetes API is a world of objects in which every call can
    fail. *)
From stdpp Require Import base gmap sets list strings sorting.
From Stdlib Require Import ZArith Ascii.
From S2P Require Import Prelude GoStrings GoNumbers GoText Api Topology LabelTemplate TopologyInputs.
Local Open Scope Z_scope.

Definition autoTopologyFinalizer : string := "unifabric.io/auto-discovered-topology-labels".

(** The two waits of the reconciler, in seconds. *)
Definition requeueSoon : Z := 1.
Definition autoTopologyResync : Z := 5 * 60.

(** [tier([1-9][0-9]...)-group([1-9][0-9]...)], anchored. *)
Definition autoDomainPattern : list piece := [Quoted "tier"; TierGroup; Quoted "-group"; TierGroup].

Record managedTopology := MkManaged {
  mt_name : string;
  mt_role : v1beta1.SwitchRole;
  labelTemplate : option Template
}.

Record autoLabelPlan := MkPlan {
  plan_nodes : gmap string (gmap string string);
  plan_switches : gmap string (gmap string string)
}.

Record discoveredGroup := MkDiscovered {
  internalName : string;
  dg_tier : Z;
  dg_members : list string;
  dg_nodes : list string;
  dg_lower : list string
}.

Inductive domainError := ErrFormat (value : string) | ErrBadTier (value : string) | ErrBadGroup (value : string)
  | ErrWrongTier (value : string) (tier expected : Z).

Inductive planError :=
| ErrInputs (e : inputError)
| ErrLabel (e : labelError)
| ErrNodeLabel (node key : string) (e : domainError)
| ErrSwitchLabel (switch : string) (e : domainError)
| ErrNodeConflict (node old new key : string)
| ErrSwitchConflict (switch old new key : string)
| ErrNodeOnlyTier (tier : Z)
| ErrNoNode (node : string)
| ErrNoSwitch (switch : string)
| ErrManyLocked (tier : Z) (members locked : list string)
| ErrNameShared (name : string)
| ErrNodeLocked (node current : string) (tier : Z) (required : string)
| ErrSwitchLocked (switch current required : string)
| ErrManyParents (resource : string) (parents : list string)
| ErrCycle (parent : string)
| ErrNotGroup (parent child : string)
| ErrDiscontinuous (node : string) (expected found : Z)
| ErrLockedLabel (key current required : string)
| ErrDisappeared (name : string)
| ErrApi.

(** 64-bit wrap-around of [int]. *)
Definition wrap_int (z : Z) : Z := (z - min_int) mod (2 ^ 64) + min_int.

Definition lift {E A} (f : E → planError) (c : go E A) : go planError A :=
  match c with
  | Ret a => Ret a
  | Err e => Err (f e)
  | Panic => Panic
  | OutOfFuel => OutOfFuel
  end.

(** ** Names of the form tierN-groupM *)
Definition autoDomainName (tier group : Z) : string := "tier" +:+ Itoa tier +:+ "-group" +:+ Itoa group.

Definition parseAutoDomainNameParts (value : string) : go domainError (Z * Z) :=
  match match_pieces autoDomainPattern value with
  | Some [t; g] =>
    match Atoi t with
    | None => Err (ErrBadTier value)
    | Some tier =>
      if decide (tier < 1) then Err (ErrBadTier value)
      else match Atoi g with
           | None => Err (ErrBadGroup value)
           | Some group => if decide (group < 1) then Err (ErrBadGroup value) else Ret (tier, group)
           end
    end
  | _ => Err (ErrFormat value)
  end.

Definition parseAutoDomainName (value : string) (expectedTier : Z) : go domainError Z :=
  '(tier, group) ← parseAutoDomainNameParts value;
  if decide (tier ≠ expectedTier) then Err (ErrWrongTier value tier expectedTier) else Ret group.

(** ** Plans *)
Definition newAutoLabelPlan : autoLabelPlan := MkPlan ∅ ∅.

Definition addNode (p : autoLabelPlan) (name key value : string) : go planError autoLabelPlan :=
  let labels := default ∅ (plan_nodes p !! name) in
  match labels !! key with
  | Some existing =>
    if decide (existing ≠ value) then Err (ErrNodeConflict name existing value key)
    else Ret (MkPlan (<[name := <[key := value]> labels]> (plan_nodes p)) (plan_switches p))
  | None => Ret (MkPlan (<[name := <[key := value]> labels]> (plan_nodes p)) (plan_switches p))
  end.

Definition addSwitch (p : autoLabelPlan) (name key value : string) : go planError autoLabelPlan :=
  let labels := default ∅ (plan_switches p !! name) in
  match labels !! key with
  | Some existing =>
    if decide (existing ≠ value) then Err (ErrSwitchConflict name existing value key)
    else Ret (MkPlan (plan_nodes p) (<[name := <[key := value]> labels]> (plan_switches p)))
  | None => Ret (MkPlan (plan_nodes p) (<[name := <[key := value]> labels]> (plan_switches p)))
  end.

Definition plan_empty (p : autoLabelPlan) : bool :=
  bool_decide (plan_nodes p = ∅) && bool_decide (plan_switches p = ∅).

Section plans.
Context `{RangeOrder}.

Definition merge (p other : autoLabelPlan) : go planError autoLabelPlan :=
  p ← go_foldl (fun p '(name, labels) =>
        go_foldl (fun p '(key, value) => addNode p name key value) p (range labels))
      p (range (plan_nodes other));
  go_foldl (fun p '(name, labels) =>
      go_foldl (fun p '(key, value) => addSwitch p name key value) p (range labels))
    p (range (plan_switches other)).

Definition sortedStringSet (values : gset string) : list string :=
  sort_strings (elements values).

(** ** Existing names *)
Definition raiseMax (maxByTier : gmap Z Z) (tier group : Z) : gmap Z Z :=
  if decide (group > default 0 (maxByTier !! tier)) then <[tier := group]> maxByTier else maxByTier.

Definition scanExistingAutoNames (template : option Template) (labels : gmap string string)
    (maxByTier : gmap Z Z) (name : string) : go planError (gmap Z Z) :=
  go_foldl (fun maxByTier '(key, value) =>
      let '(tier, ok) := MatchTier template key in
      if negb ok then Ret maxByTier
      else
        group ← lift (ErrNodeLabel name key) (parseAutoDomainName value tier);
        Ret (raiseMax maxByTier tier group))
    maxByTier (range labels).

Definition scanExistingAutoMemberName (labels : gmap string string) (maxByTier : gmap Z Z) (name : string)
    : go planError (gmap Z Z) :=
  let value := default "" (labels !! v1beta1.TopologyDomainLabel) in
  if decide (value = "") then Ret maxByTier
  else
    '(tier, group) ← lift (ErrSwitchLabel name) (parseAutoDomainNameParts value);
    Ret (raiseMax maxByTier tier group).

(** ** The discovered groups *)
Definition indexGroup (st : gmap string TopologyGroup * gmap string string) (group : TopologyGroup)
    : gmap string TopologyGroup * gmap string string :=
  (<[Group_Name group := group]> st.1,
   foldl (fun m member => <[member := Group_Name group]> m) st.2 (Members group)).

Record climbState := MkClimb {
  cl_current : string;
  cl_tier : Z;
  cl_seen : gset string;
  cl_nodes : gmap string (gset string)
}.

(** One step up from a host: the loop ends at a resource without parents. *)
Definition climbStep (discovered : Topology) (groupsByName : gmap string TopologyGroup) (host : string)
    (st : climbState) : climbState + go planError (gmap string (gset string)) :=
  match default [] (ParentIndex discovered !! cl_current st) with
  | [] => inr (Ret (cl_nodes st))
  | [parent] =>
    if decide (parent ∈ cl_seen st) then inr (Err (ErrCycle parent))
    else match groupsByName !! parent with
         | None => inr (Err (ErrNotGroup parent (cl_current st)))
         | Some group =>
           if decide (Group_Tier group ≠ cl_tier st) then
             inr (Err (ErrDiscontinuous host (cl_tier st) (Group_Tier group)))
           else inl (MkClimb parent (cl_tier st + 1) ({[ parent ]} ∪ cl_seen st)
             (<[parent := {[ host ]} ∪ default ∅ (cl_nodes st !! parent)]> (cl_nodes st)))
         end
  | parents => inr (Err (ErrManyParents (cl_current st) parents))
  end.

Definition climb (discovered : Topology) (groupsByName : gmap string TopologyGroup)
    (nodesByGroup : gmap string (gset string)) (host : Host) : go planError (gmap string (gset string)) :=
  r ← while_go (climbStep discovered groupsByName (Host_Name host))
    (N.of_nat (2 + size groupsByName)) (MkClimb (Host_Name host) 1 ∅ nodesByGroup);
  r.

Definition normalizeGroup (deviceToGroup : gmap string string) (nodesByGroup : gmap string (gset string))
    (tier : Z) (group : TopologyGroup) : discoveredGroup :=
  let lower :=
    if decide (tier = 1) then LowerTierNodes group
    else sortedStringSet (list_to_set (filter (fun G => G ≠ "")
      ((fun device => default "" (deviceToGroup !! device)) <$> LowerTierNodes group))) in
  MkDiscovered (Group_Name group) tier (sort_strings (Members group))
    (sortedStringSet (default ∅ (nodesByGroup !! Group_Name group))) (sort_strings lower).

Definition normalizeDiscoveredGroups (discovered : Topology) (hosts : list Host)
    : go planError (list discoveredGroup) :=
  let '(groupsByName, deviceToGroup) := foldl (fun st '(tier, groups) =>
      if decide (tier < 1) then st else foldl indexGroup st groups)
    (∅, ∅) (range (GroupsByTier discovered)) in
  nodesByGroup ← go_foldl (climb discovered groupsByName) ∅ hosts;
  Ret (foldl (fun result '(tier, groups) =>
      if decide (tier < 1) then result
      else result ++ (normalizeGroup deviceToGroup nodesByGroup tier <$> groups))
    [] (range (GroupsByTier discovered))).

(** ** The plan of one role *)
Definition groupSortKey (g : discoveredGroup) : string :=
  let nul := String (ascii_of_nat 0) "" in
  join nul (dg_members g) +:+ String (ascii_of_nat 1) "" +:+ join nul (dg_lower g).

Definition discovered_le (a b : discoveredGroup) : Prop := String.le (groupSortKey a) (groupSortKey b).
#[local] Instance discovered_le_dec a b : Decision (discovered_le a b) :=
  String.le_dec (groupSortKey a) (groupSortKey b).

Record planState := MkPlanState {
  ps_plan : autoLabelPlan;
  ps_max : gmap Z Z;
  ps_owners : gmap string string
}.

(** What a plan is built from. *)
Record planContext := MkContext {
  pc_nodes : gmap string corev1.Node;
  pc_switches : gmap string v1beta1.Switch;
  pc_synthetic : gmap string bool;
  pc_key : string;
  pc_tier : Z
}.

Section group_plan.
Context (c : planContext) (group : discoveredGroup).

Definition lockNode (locked : gset string) (nodeName : string) : go planError (gset string) :=
  match pc_nodes c !! nodeName with
  | None => Err (ErrNoNode nodeName)
  | Some node =>
    match corev1.Node_Labels node !! pc_key c with
    | None => Ret locked
    | Some value =>
      _ ← lift (ErrNodeLabel nodeName (pc_key c)) (parseAutoDomainName value (pc_tier c));
      Ret ({[ value ]} ∪ locked)
    end
  end.

Definition lockSwitch (locked : gset string) (switchName : string) : go planError (gset string) :=
  match pc_switches c !! switchName with
  | None => if default false (pc_synthetic c !! switchName) then Ret locked else Err (ErrNoSwitch switchName)
  | Some sw =>
    let value := default "" (v1beta1.SW_Labels sw !! v1beta1.TopologyDomainLabel) in
    if decide (value = "") then Ret locked
    else
      _ ← lift (ErrSwitchLabel switchName) (parseAutoDomainName value (pc_tier c));
      Ret ({[ value ]} ∪ locked)
  end.

Definition planNode (assigned : string) (p : autoLabelPlan) (nodeName : string) : go planError autoLabelPlan :=
  let labels := default ∅ (corev1.Node_Labels <$> pc_nodes c !! nodeName) in
  match labels !! pc_key c with
  | Some current =>
    if decide (current ≠ assigned) then Err (ErrNodeLocked nodeName current (pc_tier c) assigned) else Ret p
  | None => addNode p nodeName (pc_key c) assigned
  end.

Definition planSwitch (assigned : string) (p : autoLabelPlan) (switchName : string) : go planError autoLabelPlan :=
  match pc_switches c !! switchName with
  | None => if default false (pc_synthetic c !! switchName) then Ret p else Err (ErrNoSwitch switchName)
  | Some sw =>
    let current := default "" (v1beta1.SW_Labels sw !! v1beta1.TopologyDomainLabel) in
    if decide (current ≠ "") then
      if decide (current ≠ assigned) then Err (ErrSwitchLocked switchName current assigned) else Ret p
    else addSwitch p switchName v1beta1.TopologyDomainLabel assigned
  end.

(** Naming a group and planning its labels. *)
Definition planGroup (st : planState) : go planError planState :=
  locked ← go_foldl lockNode ∅ (dg_nodes group);
  locked ← go_foldl lockSwitch locked (dg_members group);
  if decide (1 < size locked)%nat then
    Err (ErrManyLocked (pc_tier c) (dg_members group) (sortedStringSet locked))
  else
    let '(assigned, maxByTier) :=
      match sortedStringSet locked with
      | name :: _ => (name, ps_max st)
      | [] =>
        let next := wrap_int (default 0 (ps_max st !! pc_tier c) + 1) in
        (autoDomainName (pc_tier c) next, <[pc_tier c := next]> (ps_max st))
      end in
    let owner := "tier" +:+ Itoa (pc_tier c) +:+ ":" +:+ internalName group in
    if match ps_owners st !! assigned with Some o => bool_decide (o ≠ owner) | None => false end
    then Err (ErrNameShared assigned)
    else
      p ← go_foldl (planNode assigned) (ps_plan st) (dg_nodes group);
      p ← go_foldl (planSwitch assigned) p (dg_members group);
      Ret (MkPlanState p maxByTier (<[assigned := owner]> (ps_owners st))).
End group_plan.

Definition planTier (template : option Template) (inputs : topologyInputs) (nodesByName : gmap string corev1.Node)
    (switchesByName : gmap string v1beta1.Switch) (groupsByTier : gmap Z (list discoveredGroup))
    (st : planState) (tier : Z) : go planError planState :=
  if nodeOnly inputs && bool_decide (tier ≠ 1) then Err (ErrNodeOnlyTier tier)
  else
    let tierGroups := merge_sort discovered_le (default [] (groupsByTier !! tier)) in
    key ← lift ErrLabel (Render template tier);
    go_foldl (fun st group =>
        planGroup (MkContext nodesByName switchesByName (syntheticSwitches inputs) key tier) group st)
      st tierGroups.

Definition lift_discovery {A} (c : go Empty_set A) : go planError A :=
  match c with
  | Ret a => Ret a
  | Err e => match e with end
  | Panic => Panic
  | OutOfFuel => OutOfFuel
  end.

(** The largest group numbers in use. *)
Definition scanExisting (role : v1beta1.SwitchRole) (template : option Template) (switches : list v1beta1.Switch)
    (nodes : list corev1.Node) : go planError (gmap Z Z) :=
  maxByTier ← go_foldl (fun m node =>
      scanExistingAutoNames template (corev1.Node_Labels node) m (corev1.Node_Name node)) ∅ nodes;
  go_foldl (fun m sw =>
      if decide (effectiveSwitchRole sw ≠ role) then Ret m
      else scanExistingAutoMemberName (v1beta1.SW_Labels sw) m (v1beta1.SW_Name sw)) maxByTier switches.

Definition buildAutoLabelPlan (role : v1beta1.SwitchRole) (template : option Template)
    (fabricNodes : list v1beta1.FabricNode) (switches : list v1beta1.Switch) (nodes : list corev1.Node)
    : go planError autoLabelPlan :=
  maxByTier ← scanExisting role template switches nodes;
  let nodeNames : gset string := list_to_set (corev1.Node_Name <$> nodes) in
  let eligible := filter (fun fn => v1beta1.FN_Name fn ∈ nodeNames) fabricNodes in
  inputs ← lift ErrInputs (buildTopologyInputsForRole role eligible switches);
  if bool_decide (in_hosts inputs = []) || bool_decide (in_switches inputs = []) then Ret newAutoLabelPlan
  else
    discovered ← lift_discovery
      (DiscoverTopology (in_hosts inputs) (in_switches inputs) [WithHashGroupName; WithHashLength 40]);
    groups ← normalizeDiscoveredGroups discovered (in_hosts inputs);
    let nodesByName : gmap string corev1.Node :=
      foldl (fun m node => <[corev1.Node_Name node := node]> m) ∅ nodes in
    let switchesByName : gmap string v1beta1.Switch :=
      foldl (fun m sw => <[v1beta1.SW_Name sw := sw]> m) ∅ switches in
    let groupsByTier : gmap Z (list discoveredGroup) :=
      foldl (fun m group => append_at (dg_tier group) group m) ∅ groups in
    st ← go_foldl (planTier template inputs nodesByName switchesByName groupsByTier)
      (MkPlanState newAutoLabelPlan maxByTier ∅) (sortedTierKeys groupsByTier);
    Ret (ps_plan st).

(** ** Label maps *)

(** The loop that removes labels. *)
Definition dropLabel (rm : string → bool) (st : gmap string string * bool) (entry : string * string)
    : gmap string string * bool :=
  if rm entry.1 then (delete entry.1 st.1, true) else st.

(** The loop that sets the desired labels. *)
Definition setLabel (st : gmap string string * bool) (entry : string * string)
    : go planError (gmap string string * bool) :=
  let '(result, changed) := st in
  let '(key, value) := entry in
  match result !! key with
  | Some current =>
    if decide (current ≠ "") then
      if decide (current ≠ value) then Err (ErrLockedLabel key current value)
      else Ret (result, changed)
    else Ret (<[key := value]> result, true)
  | None => Ret (<[key := value]> result, true)
  end.

Definition reconcileLabelMap (existing desired : gmap string string) (removeLabel : option (string → bool))
    : go planError (gmap string string * bool) :=
  let st :=
    match removeLabel with
    | None => (existing, false)
    | Some rm => foldl (dropLabel rm) (existing, false) (range existing)
    end in
  go_foldl setLabel st (range desired).

Definition sortedNestedMapKeys (values : gmap string (gmap string string)) : list string :=
  sort_strings (foldl (fun keys '(key, _) => keys ++ [key]) [] (range values)).

Definition containsString (values : list string) (target : string) : bool :=
  existsb (fun value => bool_decide (value = target)) values.

Definition removeString (values : list string) (target : string) : list string :=
  filter (fun value => value ≠ target) values.
End plans.
