(* ===== verification/AutoLabelReconcile.v ===== *)
(** * The label reconciler

    The effects of src/pkg/controller/switchtopology/autolabel_controller.go on the
    objects of the API server.  Metrics, logs and events have no effect on them. *)
From stdpp Require Import base gmap sets list strings sorting.
From Stdlib Require Import ZArith.
From S2P Require Import Prelude GoStrings GoNumbers GoText Api Topology LabelTemplate Config TopologyInputs ApiServer AutoLabel.
Local Open Scope Z_scope.

#[export] Instance planError_api : FromApi planError := fun _ => ErrApi.

Definition with_labels (labels : gmap string string) (sw : v1beta1.Switch) : v1beta1.Switch :=
  v1beta1.MkSwitch (v1beta1.SW_Name sw) (v1beta1.SW_Generation sw) labels (v1beta1.SW_Annotations sw) (v1beta1.MgmtIP sw)
    (v1beta1.Role sw) (v1beta1.GrpcPort sw) (v1beta1.SW_Status sw).

Definition with_finalizers (finalizers : list string) (t : v1beta1.Topology) : v1beta1.Topology :=
  v1beta1.MkTopology (v1beta1.T_Name t) (v1beta1.Deleting t) finalizers (v1beta1.T_Status t).

(** The topologies a configuration tells to manage; one without compiled templates panics. *)
Definition configuredManagedTopologies (cfg : ControllerConfig) : go unit (list managedTopology) :=
  let scaleOut := ManageScaleOut (Switches cfg) in
  let storage := ManageStorage (Switches cfg) in
  match TopologyLabelTemplates cfg with
  | None => if scaleOut || storage then Panic else Ret []
  | Some templates =>
    Ret ((if scaleOut then [MkManaged v1beta1.TopologyScaleOut v1beta1.SwitchRoleScaleOut (ScaleOut templates)] else []) ++
         (if storage then [MkManaged v1beta1.TopologyStorage v1beta1.SwitchRoleStorage (Storage templates)] else []))
  end.

Section reconcile.
Context `{RangeOrder} (managedTopologies : list managedTopology).

(** ** Patching labels *)
Definition patchNodeLabels (object : corev1.Node) (desired : gmap string string) (removeMatching : bool)
    (template : option Template) : M planError unit :=
  let removeLabel : option (string → bool) :=
    if removeMatching then Some (fun key => (MatchTier template key).2) else None in
  r ← pure (reconcileLabelMap (corev1.Node_Labels object) desired removeLabel);
  if negb r.2 then mret () else patchNode (corev1.MkNode (corev1.Node_Name object) r.1).

Definition patchSwitchLabels (object : v1beta1.Switch) (desired : gmap string string) (removeMatching : bool)
    : M planError unit :=
  let removeLabel : option (string → bool) :=
    if removeMatching then Some (fun key => bool_decide (key = v1beta1.TopologyDomainLabel)) else None in
  r ← pure (reconcileLabelMap (v1beta1.SW_Labels object) desired removeLabel);
  if negb r.2 then mret () else patchSwitch (with_labels r.1 object).

Definition applyPlan (plan : autoLabelPlan) (nodes : list corev1.Node) (switches : list v1beta1.Switch) : M planError unit :=
  let nodesByName : gmap string corev1.Node := foldl (fun m n => <[corev1.Node_Name n := n]> m) ∅ nodes in
  let switchesByName : gmap string v1beta1.Switch := foldl (fun m s => <[v1beta1.SW_Name s := s]> m) ∅ switches in
  _ ← M_foldl (fun _ name =>
      match nodesByName !! name with
      | None => pure (Err (ErrDisappeared name))
      | Some node => patchNodeLabels node (default ∅ (plan_nodes plan !! name)) false None
      end) () (sortedNestedMapKeys (plan_nodes plan));
  M_foldl (fun _ name =>
      match switchesByName !! name with
      | None => pure (Err (ErrDisappeared name))
      | Some sw => patchSwitchLabels sw (default ∅ (plan_switches plan !! name)) false
      end) () (sortedNestedMapKeys (plan_switches plan)).

(** ** Finalizers *)
Definition ensureTopologyFinalizer (name : string) (createIfMissing : bool) : M planError unit :=
  object ← getTopology name;
  match object with
  | None =>
    if negb createIfMissing then mret ()
    else createTopology (v1beta1.MkTopology name false [autoTopologyFinalizer] (v1beta1.MkStatus [] []))
  | Some object =>
    if v1beta1.Deleting object || containsString (v1beta1.Finalizers object) autoTopologyFinalizer then mret ()
    else patchTopology (with_finalizers
      (sort_strings (v1beta1.Finalizers object ++ [autoTopologyFinalizer])) object)
  end.

(** The loop stops at the first finalizer it releases. *)
Fixpoint releaseFinalizers (managedNames : gset string) (names : list string) : M planError bool :=
  match names with
  | [] => mret false
  | name :: names =>
    if decide (name ∈ managedNames) then releaseFinalizers managedNames names
    else
      object ← getTopology name;
      match object with
      | None => releaseFinalizers managedNames names
      | Some object =>
        if negb (containsString (v1beta1.Finalizers object) autoTopologyFinalizer) then
          releaseFinalizers managedNames names
        else
          _ ← patchTopology (with_finalizers
            (removeString (v1beta1.Finalizers object) autoTopologyFinalizer) object);
          mret true
      end
  end.

Definition releaseUnmanagedFinalizers : M planError bool :=
  releaseFinalizers (list_to_set (mt_name <$> managedTopologies))
    [v1beta1.TopologyScaleOut; v1beta1.TopologyStorage].

Definition resetTopology (object : v1beta1.Topology) (template : option Template) (role : v1beta1.SwitchRole)
    : M planError unit :=
  nodes ← listNodes;
  switches ← listSwitches;
  _ ← M_foldl (fun _ node => patchNodeLabels node ∅ true template) () nodes;
  _ ← M_foldl (fun _ sw =>
      if decide (effectiveSwitchRole sw ≠ role) then mret ()
      else patchSwitchLabels sw ∅ true) () switches;
  patchTopology (with_finalizers (removeString (v1beta1.Finalizers object) autoTopologyFinalizer) object).

(** ** One reconciliation *)

(** The loop over deleted topologies: [Some after] when the reconciliation ends
    here. *)
Fixpoint handleDeletions (topologies : list managedTopology) : M planError (option Z) :=
  match topologies with
  | [] => mret None
  | t :: topologies =>
    object ← getTopology (mt_name t);
    match object with
    | None => handleDeletions topologies
    | Some object =>
      if v1beta1.Deleting object then
        _ ← (if containsString (v1beta1.Finalizers object) autoTopologyFinalizer then
               resetTopology object (labelTemplate t) (mt_role t)
             else mret ());
        mret (Some requeueSoon)
      else handleDeletions topologies
    end
  end.

Definition planTopology (fabricNodes : list v1beta1.FabricNode) (switches : list v1beta1.Switch)
    (nodes : list corev1.Node) (plan : autoLabelPlan) (t : managedTopology) : M planError autoLabelPlan :=
  rolePlan ← pure (buildAutoLabelPlan (mt_role t) (labelTemplate t) fabricNodes switches nodes);
  _ ← ensureTopologyFinalizer (mt_name t) (negb (plan_empty rolePlan));
  pure (merge plan rolePlan).

(** The answer is the time after which to reconcile again. *)
Definition Reconcile : M planError Z :=
  released ← releaseUnmanagedFinalizers;
  if (released : bool) then mret requeueSoon
  else
    deleted ← handleDeletions managedTopologies;
    match deleted with
    | Some after => mret after
    | None =>
      fabricNodes ← listFabricNodes;
      switches ← listSwitches;
      nodes ← listNodes;
      plan ← M_foldl (planTopology fabricNodes switches nodes) newAutoLabelPlan managedTopologies;
      _ ← applyPlan plan nodes switches;
      mret autoTopologyResync
    end.
End reconcile.

(** ** Fingerprints of the inputs

    An update event is ignored when the fingerprint of the object is unchanged. *)
Record nicInputFingerprint := MkNicFingerprint {
  NF_State : string;
  NF_Hostname : string;
  NF_Port : string
}.

#[export] Instance nicInputFingerprint_eq_dec : EqDecision nicInputFingerprint.
Proof. solve_decision. Defined.

Definition nic_le (a b : nicInputFingerprint) : Prop :=
  str_ltb (NF_Hostname a) (NF_Hostname b) = true ∨ NF_Hostname a = NF_Hostname b ∧
  (str_ltb (NF_Port a) (NF_Port b) = true ∨ NF_Port a = NF_Port b ∧ String.le (NF_State a) (NF_State b)).
#[export] Instance nic_le_dec a b : Decision (nic_le a b).
Proof. unfold nic_le. apply _. Defined.

(** Entries equal to their predecessor are dropped. *)
Fixpoint dropRepeats_after {A} `{EqDecision A} (previous : A) (l : list A) : list A :=
  match l with
  | [] => []
  | x :: l => if decide (x ≠ previous) then x :: dropRepeats_after x l else dropRepeats_after x l
  end.

Definition dropRepeats {A} `{EqDecision A} (l : list A) : list A :=
  match l with
  | [] => []
  | x :: l => x :: dropRepeats_after x l
  end.

Definition nicFingerprints (nics : list v1beta1.NicInfo) : list nicInputFingerprint :=
  dropRepeats (merge_sort nic_le ((fun nic => MkNicFingerprint (v1beta1.State nic)
    (v1beta1.Hostname (v1beta1.Nic_LLDPNeighbor nic)) (v1beta1.Port (v1beta1.Nic_LLDPNeighbor nic))) <$> nics)).

Record fabricNodeInputFingerprint := MkFabricNodeFingerprint {
  FF_Role : string;
  FF_ScaleOut : list nicInputFingerprint;
  FF_Storage : list nicInputFingerprint
}.

#[export] Instance fabricNodeInputFingerprint_eq_dec : EqDecision fabricNodeInputFingerprint.
Proof. solve_decision. Defined.

Definition fabricNodeFingerprint (node : v1beta1.FabricNode) : fabricNodeInputFingerprint :=
  MkFabricNodeFingerprint (v1beta1.NodeRole node) (nicFingerprints (v1beta1.ScaleOutNics node))
    (nicFingerprints (v1beta1.StorageNics node)).

Record switchNeighborFingerprint := MkSwitchNeighborFingerprint {
  SF_Type : string;
  SF_Name : string
}.

#[export] Instance switchNeighborFingerprint_eq_dec : EqDecision switchNeighborFingerprint.
Proof. solve_decision. Defined.

Definition switch_neighbor_le (a b : switchNeighborFingerprint) : Prop :=
  str_ltb (SF_Name a) (SF_Name b) = true ∨ SF_Name a = SF_Name b ∧ String.le (SF_Type a) (SF_Type b).
#[export] Instance switch_neighbor_le_dec a b : Decision (switch_neighbor_le a b).
Proof. unfold switch_neighbor_le. apply _. Defined.

Record switchInputFingerprint := MkSwitchFingerprint {
  SI_Role : string;
  SI_Hostname : string;
  HasManualNeighbors : bool;
  ManualNeighbors : string;
  SI_Neighbors : list switchNeighborFingerprint
}.

#[export] Instance switchInputFingerprint_eq_dec : EqDecision switchInputFingerprint.
Proof. solve_decision. Defined.

Definition switchFingerprint (sw : v1beta1.Switch) : switchInputFingerprint :=
  let neighbors := (fun n => MkSwitchNeighborFingerprint (v1beta1.RemoteSystemType n)
    (v1beta1.SN_RemoteSystemName n)) <$> v1beta1.LLDPNeighbors (v1beta1.SW_Status sw) in
  let manual := v1beta1.SW_Annotations sw !! v1beta1.SwitchNeighborsAnnotation in
  MkSwitchFingerprint (v1beta1.Role sw) (v1beta1.SS_Hostname (v1beta1.SW_Status sw))
    (bool_decide (is_Some manual)) (default "" manual)
    (dropRepeats (merge_sort switch_neighbor_le neighbors)).

(** The [UpdateFunc]s of the three predicates. *)
Definition fabricNodeTopologyInputPredicate (old new : v1beta1.FabricNode) : bool :=
  bool_decide (fabricNodeFingerprint old ≠ fabricNodeFingerprint new).

Definition switchTopologyInputPredicate (old new : v1beta1.Switch) : bool :=
  bool_decide (switchFingerprint old ≠ switchFingerprint new).

Definition autoTopologyPredicate (old new : v1beta1.Topology) : bool :=
  (bool_decide (v1beta1.T_Name new = v1beta1.TopologyScaleOut) ||
   bool_decide (v1beta1.T_Name new = v1beta1.TopologyStorage)) &&
  (bool_decide (v1beta1.Deleting old ≠ v1beta1.Deleting new) ||
   bool_decide (v1beta1.Finalizers old ≠ v1beta1.Finalizers new)).
