(* ===== verification/AutoLabelFacts.v ===== *)
(** * Names, label maps and plans

    Facts about src/pkg/controller/switchtopology/autolabel_controller.go used by
    its properties. *)
From stdpp Require Import base gmap sets list strings sorting.
From Stdlib Require Import ZArith Ascii.
From S2P Require Import Prelude GoStrings GoNumbers GoText Api Topology GraphFacts Parents LabelTemplate LabelTemplateFacts LabelAutomata TopologyInputs AutoLabel.
Local Open Scope Z_scope.

(** ** Names *)
Lemma match_autoDomain value caps :
  match_pieces autoDomainPattern value = Some caps ↔
  ∃ t g, value = "tier" +:+ t +:+ "-group" +:+ g ∧ tier_digits t = true ∧ tier_digits g = true ∧ caps = [t; g].
Proof.
  unfold autoDomainPattern. cbn [match_pieces].
  set (inner := fun '(d, rest) => (fun caps => d :: caps) <$> (if decide (rest = "") then Some [] else None : option (list string))).
  assert (∀ s c, head (omap inner (tier_splits s)) = Some c ↔ tier_digits s = true ∧ c = [s]) as Hin.
  { intros s c.
    assert (∀ c, c ∈ omap inner (tier_splits s) ↔ tier_digits s = true ∧ c = [s]) as Hom.
    { intros c'. rewrite list_elem_of_omap. split.
      - intros ([d rest] & [-> Hd]%elem_of_tier_splits & Hi). unfold inner in Hi. case_decide; [|done].
        subst rest. rewrite str_app_nil_r. cbn in Hi. simplify_eq. done.
      - intros [Hd ->]. exists (s, ""). split; [apply elem_of_tier_splits; by rewrite str_app_nil_r|done]. }
    split; [intros Hh; by apply Hom, head_Some_elem_of|]. intros Hc. apply Hom in Hc as Hc'.
    destruct (omap inner (tier_splits s)) as [|c' l] eqn:Hl; [set_solver|]. cbn. f_equal.
    assert (c' ∈ c' :: l) as [_ ->]%Hom by set_solver. by destruct Hc as [_ ->]. }
  set (outer := fun '(d, rest) => (fun caps => d :: caps) <$>
    (r ← strip_prefix "-group" rest; head (omap inner (tier_splits r)))).
  assert (∀ s c, c ∈ omap outer (tier_splits s) ↔
    ∃ t g, s = t +:+ "-group" +:+ g ∧ tier_digits t = true ∧ tier_digits g = true ∧ c = [t; g]) as Hout.
  { intros s c. rewrite list_elem_of_omap. split.
    - intros ([d rest] & [-> Hd]%elem_of_tier_splits & (l & (r & ->%strip_prefix_spec & [Hr ->]%Hin)%bind_Some & ->)%fmap_Some).
      by exists d, r.
    - intros (t & g & -> & Ht & Hg & ->). exists (t, "-group" +:+ g). split; [by apply elem_of_tier_splits|].
      unfold outer. rewrite (proj2 (strip_prefix_spec _ _ _) eq_refl). cbn [mbind option_bind].
      by rewrite (proj2 (Hin g [g]) (conj Hg eq_refl)). }
  assert (∀ t g t' g', tier_digits t = true → tier_digits t' = true →
    t +:+ "-group" +:+ g = t' +:+ "-group" +:+ g' → t = t' ∧ g = g') as Huniq.
  { intros t g t' g' (? & ? & _ & _ & Ht)%tier_digits_cons (? & ? & _ & _ & Ht')%tier_digits_cons Heq.
    change ("-group" +:+ ?a) with (String "-" ("group" +:+ a)) in Heq.
    apply digits_prefix_inj in Heq as (-> & _ & Heq); [|done..]. split; [done|].
    by apply (str_app_inj_l "group") in Heq. }
  split.
  - intros (r & ->%strip_prefix_spec & Hh)%bind_Some. apply head_Some_elem_of, Hout in Hh as (t & g & -> & ?).
    by exists t, g.
  - intros (t & g & -> & Ht & Hg & ->). rewrite (proj2 (strip_prefix_spec _ _ _) eq_refl). cbn [mbind option_bind].
    fold outer. assert ([t; g] ∈ omap outer (tier_splits (t +:+ "-group" +:+ g))) as Hi by (apply Hout; by exists t, g).
    destruct (omap outer _) as [|c l] eqn:Hl; [set_solver|]. cbn [head]. f_equal.
    assert (c ∈ omap outer (tier_splits (t +:+ "-group" +:+ g))) as (t' & g' & Heq & Ht' & _ & ->)%Hout
      by (rewrite Hl; set_solver).
    by destruct (Huniq _ _ _ _ Ht Ht' Heq) as [-> ->].
Qed.

Lemma Atoi_tier d z : tier_digits d = true → Atoi d = Some z → d = Itoa z ∧ 1 ≤ z ≤ max_int.
Proof.
  intros Hd Hz. destruct (Itoa_Atoi d z Hd Hz) as [Hi Hpos]. split; [done|]. split; [done|].
  destruct (tier_digits_cons d Hd) as (c & r & -> & Hc & _).
  rewrite Atoi_digits in Hz by (by apply is_nonzero_digit_digit).
  apply bind_Some in Hz as (n & _ & Hz). unfold in_int, int_ok in Hz. case_decide; simplify_eq. lia.
Qed.

Lemma parseAutoDomainNameParts_spec value tier group :
  parseAutoDomainNameParts value = Ret (tier, group) ↔
  1 ≤ tier ≤ max_int ∧ 1 ≤ group ≤ max_int ∧ value = autoDomainName tier group.
Proof.
  unfold parseAutoDomainNameParts, autoDomainName. split.
  - destruct (match_pieces autoDomainPattern value) as [caps|] eqn:Hm; [|done].
    apply match_autoDomain in Hm as (t & g & -> & Ht & Hg & ->).
    destruct (Atoi t) as [zt|] eqn:Hzt; [|done]. case_decide; [done|].
    destruct (Atoi g) as [zg|] eqn:Hzg; [|done]. case_decide; [done|]. intros [= <- <-].
    destruct (Atoi_tier t zt Ht Hzt) as [-> ?], (Atoi_tier g zg Hg Hzg) as [-> ?]. done.
  - intros (Ht & Hg & ->).
    rewrite (proj2 (match_autoDomain _ [Itoa tier; Itoa group])); last first.
    { exists (Itoa tier), (Itoa group). split_and!; [done| | |done]; apply Itoa_tier_digits; lia. }
    rewrite !Atoi_Itoa by (unfold int_ok, min_int; lia). by rewrite !decide_False by lia.
Qed.

Lemma parseAutoDomainName_spec value tier group :
  parseAutoDomainName value tier = Ret group ↔
  1 ≤ tier ≤ max_int ∧ 1 ≤ group ≤ max_int ∧ value = autoDomainName tier group.
Proof.
  unfold parseAutoDomainName. rewrite <-parseAutoDomainNameParts_spec.
  destruct (parseAutoDomainNameParts value) as [[t g]| | |]; cbn; [|done..].
  case_decide as Hd; [split; [done|]; intros [= -> ->]; by destruct Hd|].
  assert (t = tier) as -> by (by destruct (decide (t = tier))). split; congruence.
Qed.

Lemma autoDomainName_inj t g t' g' :
  1 ≤ t ≤ max_int → 1 ≤ g ≤ max_int → 1 ≤ t' ≤ max_int → 1 ≤ g' ≤ max_int →
  autoDomainName t g = autoDomainName t' g' → t = t' ∧ g = g'.
Proof.
  intros ? ? ? ? Heq.
  assert (parseAutoDomainNameParts (autoDomainName t g) = Ret (t, g)) as Hp1 by (by apply parseAutoDomainNameParts_spec).
  assert (parseAutoDomainNameParts (autoDomainName t' g') = Ret (t', g')) as Hp2 by (by apply parseAutoDomainNameParts_spec).
  rewrite Heq, Hp2 in Hp1. by simplify_eq.
Qed.

(** ** Label maps *)
Section label_maps.
Context `{RangeOrder}.

(** A label that is set cannot be replaced. *)
Definition locked_at (base : gmap string string) (k : string) : Prop := ∃ c, base !! k = Some c ∧ c ≠ "".

#[export] Instance locked_at_dec base k : Decision (locked_at base k).
Proof.
  unfold locked_at. destruct (base !! k) as [c|] eqn:Hc; [destruct (decide (c = ""))|].
  - right. naive_solver.
  - left. eauto.
  - right. naive_solver.
Defined.

Definition conflict (base desired : gmap string string) : Prop :=
  ∃ k c v, base !! k = Some c ∧ c ≠ "" ∧ desired !! k = Some v ∧ c ≠ v.

#[export] Instance conflict_dec base desired : Decision (conflict base desired).
Proof.
  destruct (decide (map_Exists (fun k c => c ≠ "" ∧ desired !! k ≠ None ∧ desired !! k ≠ Some c) base))
    as [Hex|Hno]; [left|right].
  - destruct Hex as (k & c & Hk & Hc & Hs & Hne). destruct (desired !! k) as [v|] eqn:Hv; [|done].
    exists k, c, v. split_and!; [done..|congruence].
  - intros (k & c & v & Hk & Hc & Hv & Hne). destruct Hno. exists k, c. rewrite Hv.
    split_and!; [done..|congruence].
Defined.

(** The labels of [base] with the desired ones where none is set. *)
Definition overlay (base desired : gmap string string) (k : string) : option string :=
  if decide (locked_at base k) then base !! k else from_option Some (base !! k) (desired !! k).

Lemma dropLabels_lookup rm st l k :
  (foldl (dropLabel rm) st l).1 !! k = if decide (k ∈ l.*1 ∧ rm k = true) then None else st.1 !! k.
Proof.
  revert st. induction l as [|[x v] l IH]; intros st; cbn [foldl].
  { rewrite decide_False by set_solver. done. }
  rewrite IH. unfold dropLabel. cbn. destruct (decide (k ∈ l.*1 ∧ rm k = true)) as [Hk|Hk].
  { rewrite decide_True by set_solver. done. }
  destruct (rm x) eqn:Hx; cbn.
  - destruct (decide (x = k)) as [->|Hne].
    + rewrite lookup_delete_eq. by rewrite decide_True by set_solver.
    + rewrite lookup_delete_ne by done. by rewrite decide_False by set_solver.
  - rewrite decide_False; [done|]. intros [[->|?]%elem_of_cons ?]; [congruence|tauto].
Qed.

Lemma dropLabels_changed rm st l :
  (foldl (dropLabel rm) st l).2 = true ↔ st.2 = true ∨ ∃ k, k ∈ l.*1 ∧ rm k = true.
Proof.
  revert st. induction l as [|[x v] l IH]; intros st; cbn [foldl]; [set_solver|].
  rewrite IH. unfold dropLabel. cbn [fst snd fmap list_fmap]. setoid_rewrite elem_of_cons.
  destruct (rm x) eqn:Hx; cbn; split.
  - intros _. right. exists x. auto.
  - by left.
  - intros [?|(k & ? & ?)]; [by left|right; exists k; auto].
  - intros [?|(k & [->|?] & ?)]; [by left|congruence|right; by exists k].
Qed.

(** Setting one label: free, or already set to the wanted value. *)
Lemma conflict_free base x v (m : gmap string string) :
  ~ locked_at base x → m !! x = None → conflict base (<[x:=v]> m) ↔ conflict (<[x:=v]> base) m.
Proof.
  intros Hfree Hm. split.
  - intros (k & c & w & Hk & Hc & Hw & Hcw). destruct (decide (x = k)) as [->|Hne]; [by destruct Hfree; exists c|].
    exists k, c, w. rewrite lookup_insert_ne in Hw |- * by done. done.
  - intros (k & c & w & Hk & Hc & Hw & Hcw). assert (x ≠ k) by (intros ->; congruence).
    rewrite lookup_insert_ne in Hk by done. exists k, c, w. by rewrite lookup_insert_ne.
Qed.

Lemma conflict_same base x v (m : gmap string string) :
  base !! x = Some v → m !! x = None → conflict base (<[x:=v]> m) ↔ conflict base m.
Proof.
  intros Hx Hm. split.
  - intros (k & c & w & Hk & Hc & Hw & Hcw). destruct (decide (x = k)) as [->|Hne].
    + rewrite lookup_insert_eq in Hw. congruence.
    + rewrite lookup_insert_ne in Hw by done. by exists k, c, w.
  - intros (k & c & w & Hk & Hc & Hw & Hcw). assert (x ≠ k) by (intros ->; congruence).
    exists k, c, w. by rewrite lookup_insert_ne.
Qed.

Lemma overlay_free base x v (m : gmap string string) k :
  ~ locked_at base x → m !! x = None → overlay (<[x:=v]> base) m k = overlay base (<[x:=v]> m) k.
Proof.
  intros Hfree Hm. unfold overlay. destruct (decide (x = k)) as [->|Hne].
  - rewrite (decide_False (P:=locked_at base k)), Hm, !lookup_insert_eq by done. cbn. by case_decide.
  - assert (locked_at (<[x:=v]> base) k ↔ locked_at base k) as Hl.
    { unfold locked_at. by rewrite lookup_insert_ne. }
    rewrite !lookup_insert_ne by done. repeat case_decide; tauto.
Qed.

Lemma overlay_same base x v (m : gmap string string) k :
  locked_at base x → overlay base (<[x:=v]> m) k = overlay base m k.
Proof.
  intros Hlock. unfold overlay. destruct (decide (x = k)) as [->|Hne]; [by rewrite !decide_True|].
  by rewrite lookup_insert_ne.
Qed.

Lemma setLabel_cases base ch x v :
  (∃ c, base !! x = Some c ∧ c ≠ "" ∧ c ≠ v ∧ setLabel (base, ch) (x, v) = Err (ErrLockedLabel x c v)) ∨
  (base !! x = Some v ∧ v ≠ "" ∧ setLabel (base, ch) (x, v) = Ret (base, ch)) ∨
  (~ locked_at base x ∧ setLabel (base, ch) (x, v) = Ret (<[x:=v]> base, true)).
Proof.
  unfold setLabel, locked_at. destruct (base !! x) as [c|]; [|right; right; split; [naive_solver|done]].
  destruct (decide (c = "")) as [->|Hc]; [right; right; split; [naive_solver|by rewrite decide_False by tauto]|].
  rewrite decide_True by done. destruct (decide (c = v)) as [->|Hcv].
  - right. left. by rewrite decide_False by tauto.
  - left. exists c. by rewrite decide_True.
Qed.

Lemma setLabels_spec l st :
  NoDup l.*1 →
  (conflict st.1 (list_to_map l) → ∃ e, go_foldl setLabel st l = Err e) ∧
  (~ conflict st.1 (list_to_map l) → ∃ res ch, go_foldl setLabel st l = Ret (res, ch) ∧
    (∀ k, res !! k = overlay st.1 (list_to_map l) k) ∧
    (ch = true ↔ st.2 = true ∨ ∃ k, k ∈ l.*1 ∧ ~ locked_at st.1 k)).
Proof.
  revert st. induction l as [|[x v] l IH]; intros [base ch] Hnd; cbn [go_foldl fst snd].
  { rewrite list_to_map_nil.
    split; [intros (k & c & v & _ & _ & Hl & _); by rewrite lookup_empty in Hl|]. intros _.
    exists base, ch. split; [done|]. split; [|set_solver]. intros k. unfold overlay. rewrite lookup_empty.
    by case_decide. }
  cbn in Hnd. apply NoDup_cons in Hnd as [Hx Hnd]. rewrite list_to_map_cons. cbn [fst snd].
  assert (list_to_map (M:=gmap string string) l !! x = None) as Hlx by (by apply not_elem_of_list_to_map).
  destruct (setLabel_cases base ch x v) as [(c & Hc & Hne & Hcv & ->)|[(Hc & Hne & ->)|[Hfree ->]]];
    cbn [mbind go_bind].
  - split; [by eexists|]. intros []. exists x, c, v. by rewrite lookup_insert_eq.
  - assert (locked_at base x) as Hlock by (by exists v).
    destruct (IH (base, ch) Hnd) as [IHc IHr]. cbn [fst snd] in IHc, IHr. rewrite conflict_same by done.
    split; [done|]. intros Hno. destruct (IHr Hno) as (res & ch' & Hr & Hres & Hch). exists res, ch'.
    split; [done|]. split; [intros k; by rewrite Hres, overlay_same|]. rewrite Hch.
    cbn [fmap list_fmap fst]. setoid_rewrite elem_of_cons. split.
    + intros [?|(k & ? & ?)]; [by left|right; exists k; auto].
    + intros [?|(k & [->|?] & ?)]; [by left|done|right; by exists k].
  - destruct (IH (<[x:=v]> base, true) Hnd) as [IHc IHr]. cbn [fst snd] in IHc, IHr. rewrite conflict_free by done.
    split; [done|]. intros Hno. destruct (IHr Hno) as (res & ch' & Hr & Hres & Hch). exists res, ch'.
    split; [done|]. split; [intros k; by rewrite Hres, overlay_free|]. rewrite Hch.
    split; [intros _; right; exists x; cbn; split; [by left|done]|by left].
Qed.

Lemma list_to_map_range (m : gmap string string) : list_to_map (range m) = m.
Proof.
  rewrite <-(list_to_map_to_list m) at 2. apply list_to_map_proper; [apply NoDup_range_keys|apply range_perm].
Qed.

(** The labels [removeLabel] leaves. *)
Definition keptLabels (existing : gmap string string) (removeLabel : option (string → bool)) : gmap string string :=
  match removeLabel with
  | None => existing
  | Some rm => filter (fun kv => rm kv.1 = false) existing
  end.

Lemma reconcileLabelMap_spec existing desired removeLabel :
  let base := keptLabels existing removeLabel in
  (conflict base desired → ∃ e, reconcileLabelMap existing desired removeLabel = Err e) ∧
  (~ conflict base desired → ∃ res ch, reconcileLabelMap existing desired removeLabel = Ret (res, ch) ∧
    (∀ k, res !! k = overlay base desired k) ∧
    (ch = true ↔ base ≠ existing ∨ ∃ k, is_Some (desired !! k) ∧ ~ locked_at base k)).
Proof.
  intros base. unfold reconcileLabelMap.
  set (st := match removeLabel with None => _ | Some _ => _ end).
  assert (st.1 = base) as Hst.
  { unfold st, base, keptLabels. destruct removeLabel as [rm|]; [|done]. apply map_eq. intros k.
    rewrite dropLabels_lookup. cbn [fst]. case_decide as Hk; rewrite elem_of_range_keys in Hk; symmetry.
    - apply map_lookup_filter_None. right. intros v _. cbn. destruct Hk. congruence.
    - destruct (existing !! k) as [v|] eqn:Hv; [|by apply map_lookup_filter_None; left].
      apply map_lookup_filter_Some. split; [done|]. cbn. destruct (rm k) eqn:Hrm; [|done]. naive_solver. }
  assert (st.2 = true ↔ base ≠ existing) as Hst2.
  { unfold st, base, keptLabels. destruct removeLabel as [rm|]; [|cbn; naive_solver].
    rewrite dropLabels_changed. cbn. setoid_rewrite elem_of_range_keys. split.
    - intros [?|(k & [v Hk] & Hrm)] Heq; [done|]. rewrite <-Heq in Hk. apply map_lookup_filter_Some in Hk.
      cbn in Hk. naive_solver congruence.
    - intros Hne. right. destruct (decide (map_Exists (fun k _ => rm k = true) existing)) as [(k & v & Hk & Hrm)|Hno].
      + exists k. eauto.
      + destruct Hne. apply map_filter_id. intros k v Hk. cbn. destruct (rm k) eqn:Hrm; [|done].
        destruct Hno. by exists k, v. }
  destruct (setLabels_spec (range desired) st (NoDup_range_keys desired)) as [Hc Hr].
  rewrite list_to_map_range, Hst in *. split; [done|]. intros Hno.
  destruct (Hr Hno) as (res & ch & Hres & Hl & Hch). exists res, ch. split; [done|]. split; [done|].
  rewrite Hch, Hst2. setoid_rewrite elem_of_range_keys. done.
Qed.
End label_maps.

(** ** Climbing from hosts to the top *)
Section climbing.
Context (discovered : Topology) (groupsByName : gmap string TopologyGroup).

(** The outcomes a climb can have when every parent list has at most one entry. *)
Definition climb_outcome {A} (r : go planError A) : Prop :=
  match r with
  | Ret _ | Err (ErrCycle _) | Err (ErrNotGroup _ _) | Err (ErrDiscontinuous _ _ _) => True
  | _ => False
  end.

Lemma climb_loop_ok host :
  allSingle discovered →
  loop_ok (climbStep discovered groupsByName host)
    (fun st => cl_seen st ⊆ dom groupsByName)
    (fun st => N.of_nat (size groupsByName - size (cl_seen st))) climb_outcome.
Proof.
  intros Hs st Hseen. unfold climbStep.
  destruct (default [] (ParentIndex discovered !! cl_current st)) as [|p [|q ps]] eqn:Hp; [done| |].
  - case_decide as Hin; [done|]. destruct (groupsByName !! p) as [G|] eqn:HG; [|done]. case_decide; [done|].
    assert ({[ p ]} ∪ cl_seen st ⊆ dom groupsByName) as Hsub.
    { apply union_subseteq. split; [|done]. apply singleton_subseteq_l, elem_of_dom. eauto. }
    split; [done|]. cbn. apply subseteq_size in Hsub as Hsz. rewrite size_dom in Hsz.
    rewrite size_union, size_singleton in Hsz |- * by set_solver. lia.
  - destruct (ParentIndex discovered !! cl_current st) as [l|] eqn:Hl; [|done]. cbn in Hp. subst l.
    apply Hs in Hl as [x Hx]. done.
Qed.

Lemma climb_total nodesByGroup host :
  allSingle discovered → climb_outcome (climb discovered groupsByName nodesByGroup host).
Proof.
  intros Hs. unfold climb.
  edestruct (while_go_total (E:=planError) _ _ _ _ (N.of_nat (2 + size groupsByName))
    (MkClimb (Host_Name host) 1 ∅ nodesByGroup) (climb_loop_ok (Host_Name host) Hs)) as (r & Hr & Ho).
  - cbn. set_solver.
  - cbn. lia.
  - rewrite Hr. exact Ho.
Qed.
End climbing.

Lemma normalizeDiscoveredGroups_outcome `{RangeOrder} discovered hosts :
  allSingle discovered → climb_outcome (normalizeDiscoveredGroups discovered hosts).
Proof.
  intros Hs. unfold normalizeDiscoveredGroups. destruct (foldl _ _ _) as [byName d2g].
  assert (∀ l m, climb_outcome (go_foldl (climb discovered byName) m l)) as Hl.
  { induction l as [|h l IH]; intros m; [done|]. cbn. pose proof (climb_total discovered byName m h Hs) as Hc.
    destruct (climb discovered byName m h); cbn in *; [apply IH|done..]. }
  specialize (Hl hosts ∅). by destruct (go_foldl _ ∅ hosts).
Qed.

(** ** Plans *)

(** The value planned for one label of one object. *)
Definition planned (m : gmap string (gmap string string)) (n k : string) : option string :=
  default ∅ (m !! n) !! k.

Lemma planned_insert m n k v n' k' :
  planned (<[n := <[k := v]> (default ∅ (m !! n))]> m) n' k' =
  if decide (n' = n ∧ k' = k) then Some v else planned m n' k'.
Proof.
  unfold planned. destruct (decide (n = n')) as [->|Hn].
  - rewrite lookup_insert_eq. cbn. destruct (decide (k = k')) as [->|Hk].
    + by rewrite lookup_insert_eq, decide_True.
    + rewrite lookup_insert_ne by done. rewrite decide_False by (intros []; congruence). done.
  - rewrite lookup_insert_ne by done. rewrite decide_False by (intros []; congruence). done.
Qed.

Lemma addNode_spec p n k v p' :
  addNode p n k v = Ret p' →
  plan_switches p' = plan_switches p ∧
  (∀ n' k', planned (plan_nodes p') n' k' =
    if decide (n' = n ∧ k' = k) then Some v else planned (plan_nodes p) n' k') ∧
  (planned (plan_nodes p) n k = None ∨ planned (plan_nodes p) n k = Some v).
Proof.
  unfold addNode. fold (planned (plan_nodes p) n k).
  destruct (planned (plan_nodes p) n k) as [c|]; [case_decide as Hc; [done|]|]; intros [= <-]; cbn.
  - split; [done|]. split; [intros; apply planned_insert|]. right. f_equal. by destruct (decide (c = v)).
  - split; [done|]. split; [intros; apply planned_insert|]. by left.
Qed.

Lemma addSwitch_spec p n k v p' :
  addSwitch p n k v = Ret p' →
  plan_nodes p' = plan_nodes p ∧
  (∀ n' k', planned (plan_switches p') n' k' =
    if decide (n' = n ∧ k' = k) then Some v else planned (plan_switches p) n' k') ∧
  (planned (plan_switches p) n k = None ∨ planned (plan_switches p) n k = Some v).
Proof.
  unfold addSwitch. fold (planned (plan_switches p) n k).
  destruct (planned (plan_switches p) n k) as [c|]; [case_decide as Hc; [done|]|]; intros [= <-]; cbn.
  - split; [done|]. split; [intros; apply planned_insert|]. right. f_equal. by destruct (decide (c = v)).
  - split; [done|]. split; [intros; apply planned_insert|]. by left.
Qed.
