(* ===== verification/AutoLabelPlans.v ===== *)
(** * What a label plan does

    Facts about [planGroup], [planTier] and [buildAutoLabelPlan] of
    src/pkg/controller/switchtopology/autolabel_controller.go: after the plan every
    member of a discovered group carries the name of the group, two groups never
    share a name, and only missing labels are planned. *)
From stdpp Require Import base gmap sets list strings sorting.
From Stdlib Require Import ZArith Ascii.
From S2P Require Import Prelude GoStrings GoNumbers GoText Api Topology GraphFacts LabelTemplate LabelTemplateFacts TopologyInputs AutoLabel AutoLabelFacts.
Local Open Scope Z_scope.

(** ** The labels an object has once the plan is applied *)
Definition nodeLabel (nodes : gmap string corev1.Node) (n k : string) : option string :=
  default ∅ (corev1.Node_Labels <$> nodes !! n) !! k.

Definition switchDomain (sw : v1beta1.Switch) : string :=
  default "" (v1beta1.SW_Labels sw !! v1beta1.TopologyDomainLabel).

Definition nodeCarries (nodes : gmap string corev1.Node) (p : autoLabelPlan) (n k v : string) : Prop :=
  nodeLabel nodes n k = Some v ∨ nodeLabel nodes n k = None ∧ planned (plan_nodes p) n k = Some v.

Definition switchCarries (switches : gmap string v1beta1.Switch) (synthetic : gmap string bool)
    (p : autoLabelPlan) (s v : string) : Prop :=
  match switches !! s with
  | None => synthetic !! s = Some true
  | Some sw => switchDomain sw = v ∧ v ≠ "" ∨
      switchDomain sw = "" ∧ planned (plan_switches p) s v1beta1.TopologyDomainLabel = Some v
  end.

(** [p'] extends [p], and what it adds satisfies [Q] and [R]. *)
Record plan_extends (p p' : autoLabelPlan) (Q R : string → string → string → Prop) : Prop := {
  ext_keep_node n k v : planned (plan_nodes p) n k = Some v → planned (plan_nodes p') n k = Some v;
  ext_keep_switch s k v : planned (plan_switches p) s k = Some v → planned (plan_switches p') s k = Some v;
  ext_new_node n k v : planned (plan_nodes p') n k = Some v → planned (plan_nodes p) n k = Some v ∨ Q n k v;
  ext_new_switch s k v :
    planned (plan_switches p') s k = Some v → planned (plan_switches p) s k = Some v ∨ R s k v
}.

Lemma plan_extends_refl p Q R : plan_extends p p Q R.
Proof. by split; auto. Qed.

Lemma plan_extends_trans p1 p2 p3 (Q R : string → string → string → Prop) :
  plan_extends p1 p2 Q R → plan_extends p2 p3 Q R → plan_extends p1 p3 Q R.
Proof.
  intros [a1 b1 c1 d1] [a2 b2 c2 d2]. split; [auto|auto| |].
  - intros n k v [?|?]%c2; auto.
  - intros n k v [?|?]%d2; auto.
Qed.

Lemma plan_extends_weaken p p' (Q R Q' R' : string → string → string → Prop) :
  (∀ n k v, Q n k v → Q' n k v) → (∀ n k v, R n k v → R' n k v) →
  plan_extends p p' Q R → plan_extends p p' Q' R'.
Proof.
  intros HQ HR [a b c d]. split; [auto|auto| |].
  - intros n k v [?|?]%c; auto.
  - intros n k v [?|?]%d; auto.
Qed.

Lemma nodeCarries_mono nodes p p' Q R n k v :
  plan_extends p p' Q R → nodeCarries nodes p n k v → nodeCarries nodes p' n k v.
Proof. intros He [?|[? ?]]; [by left|right]. split; [done|]. by eapply ext_keep_node. Qed.

Lemma switchCarries_mono switches synthetic p p' Q R s v :
  plan_extends p p' Q R → switchCarries switches synthetic p s v → switchCarries switches synthetic p' s v.
Proof.
  intros He. unfold switchCarries. destruct (switches !! s); [|done].
  intros [?|[? ?]]; [by left|right]. split; [done|]. by eapply ext_keep_switch.
Qed.

Section plans.
Context `{RangeOrder}.

(** ** One group *)
Section group.
Context (c : planContext) (group : discoveredGroup).

Definition newNode (v n k v' : string) : Prop :=
  n ∈ dg_nodes group ∧ k = pc_key c ∧ v' = v ∧ nodeLabel (pc_nodes c) n k = None.

Definition newSwitch (v s k v' : string) : Prop :=
  s ∈ dg_members group ∧ k = v1beta1.TopologyDomainLabel ∧ v' = v ∧
  ∃ sw, pc_switches c !! s = Some sw ∧ switchDomain sw = "".

Lemma planNode_spec v p n p' :
  n ∈ dg_nodes group → planNode c v p n = Ret p' →
  plan_extends p p' (newNode v) (newSwitch v) ∧ nodeCarries (pc_nodes c) p' n (pc_key c) v.
Proof.
  intros Hn. unfold planNode. fold (nodeLabel (pc_nodes c) n (pc_key c)).
  destruct (nodeLabel (pc_nodes c) n (pc_key c)) as [cur|] eqn:Hl.
  - case_decide as Hc; [done|]. intros [= <-]. split; [apply plan_extends_refl|]. left. rewrite Hl. f_equal.
    by destruct (decide (cur = v)).
  - intros (Hsw & Hpl & Hold)%addNode_spec. split.
    + split; rewrite ?Hsw; [| by auto| |by auto].
      * intros n' k' v' Hp. rewrite Hpl. case_decide as Hd; [|done]. destruct Hd as [-> ->].
        destruct Hold; congruence.
      * intros n' k' v'. rewrite Hpl. case_decide as Hd; [|by left]. destruct Hd as [-> ->].
        intros [= <-]. right. done.
    + right. split; [done|]. by rewrite Hpl, decide_True.
Qed.

Lemma planSwitch_spec v p s p' :
  s ∈ dg_members group → planSwitch c v p s = Ret p' →
  plan_extends p p' (newNode v) (newSwitch v) ∧ switchCarries (pc_switches c) (pc_synthetic c) p' s v.
Proof.
  intros Hs. unfold planSwitch, switchCarries. destruct (pc_switches c !! s) as [sw|] eqn:Hsw; cycle 1.
  { destruct (pc_synthetic c !! s) as [[]|] eqn:Hy; cbn; [|done..]. intros [= <-].
    split; [apply plan_extends_refl|done]. }
  fold (switchDomain sw). case_decide as Hc.
  - case_decide as Hv; [done|]. intros [= <-]. split; [apply plan_extends_refl|]. left.
    destruct (decide (switchDomain sw = v)) as [<-|]; [done|by destruct Hv].
  - assert (switchDomain sw = "") as Hd by (by destruct (decide (switchDomain sw = ""))).
    intros (Hno & Hpl & Hold)%addSwitch_spec. split.
    + split; rewrite ?Hno; [by auto| |by auto|].
      * intros n' k' v' Hp. rewrite Hpl. case_decide as Hx; [|done]. destruct Hx as [-> ->].
        destruct Hold; congruence.
      * intros n' k' v'. rewrite Hpl. case_decide as Hx; [|by left]. destruct Hx as [-> ->].
        intros [= <-]. right. split_and!; [done..|]. by exists sw.
    + right. split; [done|]. by rewrite Hpl, decide_True.
Qed.

(** The two loops that plan the labels of a group. *)
Lemma planNodes_spec v p p' :
  go_foldl (planNode c v) p (dg_nodes group) = Ret p' →
  plan_extends p p' (newNode v) (newSwitch v) ∧
  ∀ n, n ∈ dg_nodes group → nodeCarries (pc_nodes c) p' n (pc_key c) v.
Proof.
  intros Hr. apply (go_foldl_ret (fun seen q => plan_extends p q (newNode v) (newSwitch v) ∧
    ∀ n, n ∈ seen → nodeCarries (pc_nodes c) q n (pc_key c) v) _ _ _ _ Hr).
  { split; [apply plan_extends_refl|set_solver]. }
  intros seen n todo q q' Heq [He Hc] Hq. apply planNode_spec in Hq as [He' Hn]; [|rewrite Heq; set_solver].
  split; [by eapply plan_extends_trans|]. intros m [Hm| ->%list_elem_of_singleton]%elem_of_app; [|done].
  eapply nodeCarries_mono; eauto.
Qed.

Lemma planSwitches_spec v p p' :
  go_foldl (planSwitch c v) p (dg_members group) = Ret p' →
  plan_extends p p' (newNode v) (newSwitch v) ∧
  ∀ s, s ∈ dg_members group → switchCarries (pc_switches c) (pc_synthetic c) p' s v.
Proof.
  intros Hr. apply (go_foldl_ret (fun seen q => plan_extends p q (newNode v) (newSwitch v) ∧
    ∀ s, s ∈ seen → switchCarries (pc_switches c) (pc_synthetic c) q s v) _ _ _ _ Hr).
  { split; [apply plan_extends_refl|set_solver]. }
  intros seen n todo q q' Heq [He Hc] Hq. apply planSwitch_spec in Hq as [He' Hn]; [|rewrite Heq; set_solver].
  split; [by eapply plan_extends_trans|]. intros m [Hm| ->%list_elem_of_singleton]%elem_of_app; [|done].
  eapply switchCarries_mono; eauto.
Qed.

(** A locked name is the label of a member, with a group number of the tier. *)
Definition lockedName (v : string) : Prop :=
  (∃ g, 1 ≤ g ≤ max_int ∧ v = autoDomainName (pc_tier c) g) ∧
  ((∃ n, n ∈ dg_nodes group ∧ nodeLabel (pc_nodes c) n (pc_key c) = Some v) ∨
   (∃ s sw, s ∈ dg_members group ∧ pc_switches c !! s = Some sw ∧ switchDomain sw = v)).

Lemma lockNodes_spec locked' :
  go_foldl (lockNode c) ∅ (dg_nodes group) = Ret locked' → ∀ v, v ∈ locked' → lockedName v.
Proof.
  intros Hr v. apply (go_foldl_ret (fun _ L => v ∈ L → lockedName v) _ _ _ _ Hr); [set_solver|].
  intros seen n todo L L' Heq HL. unfold lockNode. destruct (pc_nodes c !! n) as [node|] eqn:Hn; [|done].
  destruct (corev1.Node_Labels node !! pc_key c) as [w|] eqn:Hw; [|intros [= <-]; done].
  destruct (parseAutoDomainName w (pc_tier c)) as [g| | |] eqn:Hp; cbn; [|done..].
  intros [= <-] [->%elem_of_singleton|?]%elem_of_union; [|auto].
  apply parseAutoDomainName_spec in Hp as (_ & ? & ->). split; [by exists g|].
  left. exists n. split; [rewrite Heq; set_solver|]. unfold nodeLabel. by rewrite Hn.
Qed.

Lemma lockSwitches_spec locked locked' :
  go_foldl (lockSwitch c) locked (dg_members group) = Ret locked' →
  ∀ v, v ∈ locked' → v ∈ locked ∨ lockedName v.
Proof.
  intros Hr v. apply (go_foldl_ret (fun _ L => v ∈ L → v ∈ locked ∨ lockedName v) _ _ _ _ Hr); [auto|].
  intros seen n todo L L' Heq HL. unfold lockSwitch. destruct (pc_switches c !! n) as [sw|] eqn:Hn.
  2:{ destruct (default false _); [|done]. by intros [= <-]. }
  fold (switchDomain sw). case_decide; [by intros [= <-]|].
  destruct (parseAutoDomainName _ (pc_tier c)) as [g| | |] eqn:Hp; cbn; [|done..].
  intros [= <-] [->%elem_of_singleton|?]%elem_of_union; [|auto].
  right. apply parseAutoDomainName_spec in Hp as (_ & ? & Hg). split; [by exists g|].
  right. exists n, sw. split; [rewrite Heq; set_solver|done].
Qed.

Definition ownerOf : string := "tier" +:+ Itoa (pc_tier c) +:+ ":" +:+ internalName group.

(** The name is locked, or the next free number of the tier. *)
Definition named_in (m m' : gmap Z Z) (v : string) : Prop :=
  lockedName v ∧ m' = m ∨
  ∃ next, next = wrap_int (default 0 (m !! pc_tier c) + 1) ∧
    v = autoDomainName (pc_tier c) next ∧ m' = <[pc_tier c := next]> m.

Lemma planGroup_spec st st' :
  planGroup c group st = Ret st' →
  ∃ v, named_in (ps_max st) (ps_max st') v ∧
    (∀ o, ps_owners st !! v = Some o → o = ownerOf) ∧
    ps_owners st' = <[v := ownerOf]> (ps_owners st) ∧
    plan_extends (ps_plan st) (ps_plan st') (newNode v) (newSwitch v) ∧
    (∀ n, n ∈ dg_nodes group → nodeCarries (pc_nodes c) (ps_plan st') n (pc_key c) v) ∧
    (∀ s, s ∈ dg_members group → switchCarries (pc_switches c) (pc_synthetic c) (ps_plan st') s v).
Proof.
  unfold planGroup. intros Hrun. go_inv.
  rename a into locked0, a0 into locked. case_decide as Hsz; [done|].
  assert (∀ v, v ∈ locked → lockedName v) as Hlock.
  { intros v Hv. destruct (lockSwitches_spec _ _ E0 v Hv) as [Hv0|?]; [|done].
    by apply (lockNodes_spec _ E). }
  set (next := wrap_int (default 0 (ps_max st !! pc_tier c) + 1)) in *.
  destruct (match sortedStringSet locked with [] => _ | _ :: _ => _ end) as [v m'] eqn:Hname.
  assert (named_in (ps_max st) m' v) as Hin.
  { destruct (sortedStringSet locked) as [|w l] eqn:Hs; injection Hname as <- <-.
    - right. by exists next.
    - left. split; [|done]. apply Hlock. apply elem_of_elements. rewrite <-elem_of_sort_strings.
      unfold sortedStringSet in Hs. rewrite Hs. set_solver. }
  fold ownerOf in Hrun.
  destruct (match ps_owners st !! v with Some _ => _ | None => _ end) eqn:Ho; [done|]. go_inv. subst st'.
  apply planNodes_spec in E1 as [He1 Hn]. apply planSwitches_spec in E2 as [He2 Hs].
  exists v. cbn. split_and!; [done| |done|by eapply plan_extends_trans| |done].
  - intros o Hov. rewrite Hov in Ho. apply bool_decide_eq_false in Ho. by destruct (decide (o = ownerOf)).
  - intros n Hin'. eapply nodeCarries_mono; [exact He2|auto].
Qed.
End group.

(** ** All groups *)
Section all_groups.
Context (template : option Template) (nodes : gmap string corev1.Node) (switches : gmap string v1beta1.Switch)
  (synthetic : gmap string bool) (max0 : gmap Z Z).

Definition groupOwner (G : discoveredGroup) : string :=
  "tier" +:+ Itoa (dg_tier G) +:+ ":" +:+ internalName G.

Definition ctx (key : string) (tier : Z) : planContext := MkContext nodes switches synthetic key tier.

(** [v] names the group [G] in the plan [p]. *)
Record group_named (p : autoLabelPlan) (G : discoveredGroup) (v key : string) : Prop := {
  gn_key : Render template (dg_tier G) = Ret key;
  gn_nodes n : n ∈ dg_nodes G → nodeCarries nodes p n key v;
  gn_members s : s ∈ dg_members G → switchCarries switches synthetic p s v
}.

(** Where the name of a group comes from, when [count] groups have been named. *)
Definition name_origin (count : nat) (G : discoveredGroup) (v : string) : Prop :=
  (∃ key, Render template (dg_tier G) = Ret key ∧ lockedName (ctx key (dg_tier G)) G v) ∨
  ∃ g, v = autoDomainName (dg_tier G) g ∧
    (default 0 (max0 !! dg_tier G) + Z.of_nat count ≤ max_int →
     default 0 (max0 !! dg_tier G) < g ≤ max_int).

Record plan_inv (named : list (discoveredGroup * string)) (st : planState) : Prop := {
  pi_named G v : (G, v) ∈ named → ∃ key, group_named (ps_plan st) G v key;
  pi_owner G v : (G, v) ∈ named → ps_owners st !! v = Some (groupOwner G);
  pi_node n k v : planned (plan_nodes (ps_plan st)) n k = Some v →
    ∃ G, (G, v) ∈ named ∧ n ∈ dg_nodes G ∧ Render template (dg_tier G) = Ret k ∧ nodeLabel nodes n k = None;
  pi_switch s k v : planned (plan_switches (ps_plan st)) s k = Some v →
    ∃ G sw, (G, v) ∈ named ∧ s ∈ dg_members G ∧ k = v1beta1.TopologyDomainLabel ∧
      switches !! s = Some sw ∧ switchDomain sw = "";
  pi_origin G v : (G, v) ∈ named → name_origin (length named) G v;
  pi_max t : default 0 (max0 !! t) + Z.of_nat (length named) ≤ max_int →
    default 0 (max0 !! t) ≤ default 0 (ps_max st !! t) ≤ default 0 (max0 !! t) + Z.of_nat (length named)
}.

Lemma plan_inv_init : plan_inv [] (MkPlanState newAutoLabelPlan max0 ∅).
Proof.
  split; cbn; [by intros ? ? ?%elem_of_nil..| | |by intros ? ? ?%elem_of_nil|lia];
    intros ? ? ?; unfold planned; by rewrite lookup_empty.
Qed.

Lemma wrap_int_small z : min_int ≤ z ≤ max_int → wrap_int z = z.
Proof. unfold wrap_int, min_int, max_int. intros. rewrite Z.mod_small; lia. Qed.

Lemma name_origin_mono count count' G v : (count ≤ count')%nat → name_origin count G v → name_origin count' G v.
Proof. intros Hc [?|(g & ? & Hg)]; [by left|right]. exists g. split; [done|]. intros. apply Hg. lia. Qed.

Lemma planGroup_inv named st st' G key :
  (∀ t, 0 ≤ default 0 (max0 !! t)) →
  Render template (dg_tier G) = Ret key →
  plan_inv named st → planGroup (ctx key (dg_tier G)) G st = Ret st' →
  ∃ v, plan_inv (named ++ [(G, v)]) st'.
Proof.
  intros H0 Hkey [Hnm Hown Hno Hsw Hor Hmx] (v & Hin & Hfree & Hown' & Hext & Hcn & Hcs)%planGroup_spec.
  exists v. change (ownerOf (ctx key (dg_tier G)) G) with (groupOwner G) in *.
  pose proof (length_app named [(G, v)]) as Hlen. cbn in Hlen.
  split; [| | | | |].
  - intros G' v' [Hin'|[= -> ->]%list_elem_of_singleton]%elem_of_app.
    + destruct (Hnm _ _ Hin') as [key' [Hk Hn Hs]]. exists key'. split; [done| |]; intros x Hx.
      * eapply nodeCarries_mono; eauto.
      * eapply switchCarries_mono; eauto.
    + exists key. by split.
  - intros G' v' [Hin'|[= -> ->]%list_elem_of_singleton]%elem_of_app; rewrite Hown'.
    + apply Hown in Hin'. destruct (decide (v = v')) as [->|]; [|by rewrite lookup_insert_ne].
      rewrite lookup_insert_eq. f_equal. symmetry. by apply Hfree.
    + by rewrite lookup_insert_eq.
  - intros n k w [Hold|(Hn & -> & -> & Hl)]%(ext_new_node _ _ _ _ Hext).
    + destruct (Hno _ _ _ Hold) as (G' & ? & ? & ? & ?). exists G'. set_solver.
    + exists G. set_solver.
  - intros s k w [Hold|(Hs & -> & -> & sw & Hs1 & Hs2)]%(ext_new_switch _ _ _ _ Hext).
    + destruct (Hsw _ _ _ Hold) as (G' & sw & ? & ? & ? & ? & ?). exists G', sw. set_solver.
    + exists G, sw. set_solver.
  - intros G' v' [Hin'|[= -> ->]%list_elem_of_singleton]%elem_of_app; rewrite Hlen.
    { eapply name_origin_mono; [|by apply Hor]. lia. }
    destruct Hin as [[Hl _]|(next & Hnx & -> & _)]; [left; by exists key|right]. exists next. split; [done|].
    cbn in Hnx. intros Hb. specialize (H0 (dg_tier G)). specialize (Hmx (dg_tier G)).
    rewrite wrap_int_small in Hnx by (unfold min_int; lia). lia.
  - intros t. rewrite Hlen. intros Hb. specialize (H0 t). specialize (Hmx t).
    destruct Hin as [[_ ->]|(next & Hnx & _ & ->)]; [lia|]. cbn in Hnx |- *.
    destruct (decide (dg_tier G = t)) as [<-|Hne]; [|rewrite lookup_insert_ne by done; lia].
    rewrite lookup_insert_eq. cbn. rewrite wrap_int_small in Hnx by (unfold min_int; lia). lia.
Qed.

Lemma planTier_inv inputs groupsByTier named st st' tier :
  (∀ t, 0 ≤ default 0 (max0 !! t)) → syntheticSwitches inputs = synthetic →
  (∀ G, G ∈ default [] (groupsByTier !! tier) → dg_tier G = tier) →
  plan_inv named st → planTier template inputs nodes switches groupsByTier st tier = Ret st' →
  ∃ more, more.*1 ≡ₚ default [] (groupsByTier !! tier) ∧ plan_inv (named ++ more) st'.
Proof.
  intros H0 Hsyn Ht Hinv. unfold planTier. case_match; [done|].
  destruct (Render template tier) as [key| | |] eqn:Hkey; cbn [lift mbind go_bind]; [|done..].
  rewrite Hsyn. set (tierGroups := merge_sort discovered_le (default [] (groupsByTier !! tier))). intros Hrun.
  assert (tierGroups ≡ₚ default [] (groupsByTier !! tier)) as Hp by apply merge_sort_Permutation.
  assert (∃ more, more.*1 = tierGroups ∧ plan_inv (named ++ more) st') as (more & Hm & Hi).
  { apply (go_foldl_ret (fun seen st => ∃ more, more.*1 = seen ∧ plan_inv (named ++ more) st) _ _ _ _ Hrun).
    { exists []. by rewrite app_nil_r. }
    intros seen G todo q q' Heq (more & Hseen & Hq) Hplan.
    assert (dg_tier G = tier) as <-.
    { apply Ht. rewrite <-Hp, Heq. set_solver. }
    destruct (planGroup_inv _ _ _ _ _ H0 Hkey Hq Hplan) as [v Hv].
    exists (more ++ [(G, v)]). rewrite fmap_app, app_assoc. cbn. by rewrite Hseen. }
  exists more. by rewrite Hm.
Qed.

Lemma planTiers_inv inputs groupsByTier tiers st' :
  (∀ t, 0 ≤ default 0 (max0 !! t)) → syntheticSwitches inputs = synthetic →
  (∀ tier G, G ∈ default [] (groupsByTier !! tier) → dg_tier G = tier) →
  go_foldl (planTier template inputs nodes switches groupsByTier)
    (MkPlanState newAutoLabelPlan max0 ∅) tiers = Ret st' →
  ∃ named, named.*1 ≡ₚ List.concat ((fun t => default [] (groupsByTier !! t)) <$> tiers) ∧ plan_inv named st'.
Proof.
  intros H0 Hsyn Ht Hrun.
  apply (go_foldl_ret (fun seen st => ∃ named,
    named.*1 ≡ₚ List.concat ((fun t => default [] (groupsByTier !! t)) <$> seen) ∧ plan_inv named st) _ _ _ _ Hrun).
  { exists []. split; [done|apply plan_inv_init]. }
  intros seen t todo q q' Heq (named & Hn & Hi) Hplan.
  destruct (planTier_inv _ _ _ _ _ _ H0 Hsyn (Ht t) Hi Hplan) as (more & Hm & Hi').
  exists (named ++ more). split; [|done]. rewrite !fmap_app, concat_app, Hn, Hm. cbn. by rewrite app_nil_r.
Qed.
End all_groups.

(** ** Sorting groups into tiers *)
Definition tiersOf (groups : list discoveredGroup) : gmap Z (list discoveredGroup) :=
  foldl (fun m group => append_at (dg_tier group) group m) ∅ groups.

Lemma tiersOf_tier groups t G : G ∈ default [] (tiersOf groups !! t) → dg_tier G = t.
Proof.
  unfold tiersOf.
  apply (foldl_inv (fun _ (m : gmap Z (list discoveredGroup)) => G ∈ default [] (m !! t) → dg_tier G = t)).
  { rewrite lookup_empty. set_solver. }
  intros _ x _ m _ IH. unfold append_at. destruct (decide (dg_tier x = t)) as [<-|Hne].
  - rewrite lookup_insert_eq. cbn. intros [?| ->%list_elem_of_singleton]%elem_of_app; auto.
  - by rewrite lookup_insert_ne.
Qed.

Lemma append_at_join {K A} `{Countable K} (k : K) (x : A) (m : gmap K (list A)) :
  List.concat (map_to_list (append_at k x m)).*2 ≡ₚ List.concat (map_to_list m).*2 ++ [x].
Proof.
  unfold append_at. destruct (m !! k) as [l|] eqn:Hk; cbn.
  - rewrite <-(insert_delete_id m k l Hk), insert_insert_eq, !map_to_list_insert by apply lookup_delete_eq.
    cbn. rewrite <-!app_assoc. f_equiv. apply Permutation_app_comm.
  - rewrite map_to_list_insert by done. cbn. apply Permutation_cons_append.
Qed.

Lemma tiersOf_perm groups :
  List.concat ((fun t => default [] (tiersOf groups !! t)) <$> sortedTierKeys (tiersOf groups)) ≡ₚ groups.
Proof.
  transitivity (List.concat (map_to_list (tiersOf groups)).*2); cycle 1.
  { unfold tiersOf. apply (foldl_inv (fun seen (m : gmap Z (list discoveredGroup)) =>
      List.concat (map_to_list m).*2 ≡ₚ seen)); [by rewrite map_to_list_empty|].
    intros seen G _ m _ IH. by rewrite append_at_join, IH. }
  unfold sortedTierKeys. rewrite keys_of_range, sort_ints_perm, range_perm. f_equiv.
  rewrite <-list_fmap_compose. apply reflexive_eq, Forall_fmap_ext_1, Forall_forall. intros [t l] Hin.
  apply elem_of_map_to_list in Hin. cbn. by rewrite Hin.
Qed.

(** ** Existing names *)
Lemma raiseMax_spec m t g t' :
  default 0 (raiseMax m t g !! t') = if decide (t' = t) then Z.max g (default 0 (m !! t)) else default 0 (m !! t').
Proof.
  unfold raiseMax. case_decide as Hg; destruct (decide (t' = t)) as [->|Hne].
  - rewrite lookup_insert_eq. cbn. lia.
  - by rewrite lookup_insert_ne.
  - lia.
  - done.
Qed.

(** The numbers in use never fall below what was seen. *)
Definition maxes (m0 m : gmap Z Z) : Prop := ∀ t, default 0 (m0 !! t) ≤ default 0 (m !! t).

Lemma maxes_refl m : maxes m m.
Proof. intros t. lia. Qed.
#[local] Hint Resolve maxes_refl : core.

Lemma raiseMax_maxes m0 m t g : maxes m0 m → maxes m0 (raiseMax m t g).
Proof. intros Hm t'. rewrite raiseMax_spec. specialize (Hm t'). case_decide; subst; lia. Qed.

Lemma maxes_trans m1 m2 m3 : maxes m1 m2 → maxes m2 m3 → maxes m1 m3.
Proof. intros H1 H2 t. specialize (H1 t). specialize (H2 t). lia. Qed.

Lemma scanExistingAutoNames_spec template labels m0 name m :
  scanExistingAutoNames template labels m0 name = Ret m →
  maxes m0 m ∧ ∀ k v t, labels !! k = Some v → MatchTier template k = (t, true) →
    ∃ g, parseAutoDomainName v t = Ret g ∧ g ≤ default 0 (m !! t).
Proof.
  intros Hrun. setoid_rewrite <-elem_of_range.
  apply (go_foldl_ret (fun seen m => maxes m0 m ∧ ∀ k v t, (k, v) ∈ seen → MatchTier template k = (t, true) →
    ∃ g, parseAutoDomainName v t = Ret g ∧ g ≤ default 0 (m !! t)) _ _ _ _ Hrun).
  { split; [auto|set_solver]. }
  intros seen [k v] todo m1 m2 _ [Hm IH] Hstep. destruct (MatchTier template k) as [t ok] eqn:Hk.
  destruct ok; cbn in Hstep; cycle 1.
  { injection Hstep as <-. split; [done|].
    intros k' v' t' [?|[= -> ->]%list_elem_of_singleton]%elem_of_app Hk'; [eauto|congruence]. }
  destruct (parseAutoDomainName v t) as [g| | |] eqn:Hp; cbn in Hstep; [|done..]. injection Hstep as <-.
  assert (maxes m1 (raiseMax m1 t g)) as Hr by (apply raiseMax_maxes; auto).
  split; [by apply raiseMax_maxes|].
  intros k' v' t' [Hin|[= -> ->]%list_elem_of_singleton]%elem_of_app Hk'.
  - destruct (IH _ _ _ Hin Hk') as (g' & ? & ?). exists g'. specialize (Hr t'). split; [done|lia].
  - rewrite Hk in Hk'. injection Hk' as <-. exists g. rewrite raiseMax_spec, decide_True by done. split; [done|lia].
Qed.

Lemma scanExistingAutoMemberName_maxes labels m0 name m :
  scanExistingAutoMemberName labels m0 name = Ret m → maxes m0 m.
Proof.
  unfold scanExistingAutoMemberName. case_decide; [intros [= <-]; auto|].
  destruct (parseAutoDomainNameParts _) as [[t g]| | |]; cbn; [|done..]. intros [= <-]. apply raiseMax_maxes; auto.
Qed.

Lemma scanExisting_spec role template switches nodes m :
  scanExisting role template switches nodes = Ret m →
  (∀ t, 0 ≤ default 0 (m !! t)) ∧
  ∀ node k v t, node ∈ nodes → corev1.Node_Labels node !! k = Some v → MatchTier template k = (t, true) →
    ∃ g, parseAutoDomainName v t = Ret g ∧ g ≤ default 0 (m !! t).
Proof.
  unfold scanExisting. intros Hrun. go_inv.
  assert (maxes a m) as Hsw.
  { apply (go_foldl_ret (fun _ m => maxes a m) _ _ _ _ Hrun); [auto|].
    intros _ sw _ m1 m2 _ Hm1. case_decide; [intros [= <-]; auto|].
    intros ?%scanExistingAutoMemberName_maxes. by eapply maxes_trans. }
  assert (maxes ∅ a ∧ ∀ node k v t, node ∈ nodes → corev1.Node_Labels node !! k = Some v →
    MatchTier template k = (t, true) → ∃ g, parseAutoDomainName v t = Ret g ∧ g ≤ default 0 (a !! t)) as [Ha Hn].
  { apply (go_foldl_ret (fun seen a => maxes ∅ a ∧ ∀ node k v t, node ∈ seen →
      corev1.Node_Labels node !! k = Some v → MatchTier template k = (t, true) →
      ∃ g, parseAutoDomainName v t = Ret g ∧ g ≤ default 0 (a !! t)) _ _ _ _ E).
    { split; [auto|set_solver]. }
    intros seen node todo m1 m2 _ [Hm1 IH] [Hm2 Hnew]%scanExistingAutoNames_spec.
    split; [by eapply maxes_trans|].
    intros node' k v t [Hin| ->%list_elem_of_singleton]%elem_of_app Hl Hk; [|eauto].
    destruct (IH _ _ _ _ Hin Hl Hk) as (g & ? & ?). exists g. specialize (Hm2 t). split; [done|lia]. }
  split; [intros t; specialize (Ha t); specialize (Hsw t); rewrite lookup_empty in Ha; cbn in Ha; lia|].
  intros node k v t Hin Hl Hk. destruct (Hn _ _ _ _ Hin Hl Hk) as (g & ? & ?). exists g.
  specialize (Hsw t). split; [done|lia].
Qed.
End plans.
