(* ===== verification/AutoLabelWorld.v ===== *)
(** * Reasoning about the label reconciler

    What the reconciler of AutoLabelReconcile.v can do to the labels of Nodes and
    Switches, with the triples of ApiServer.v. *)
From stdpp Require Import base gmap sets list strings sorting.
From Stdlib Require Import ZArith.
From S2P Require Import Prelude GoStrings GoNumbers GoText Api Topology GraphFacts LabelTemplate TopologyInputs ApiServer AutoLabel AutoLabelReconcile AutoLabelFacts.
Local Open Scope Z_scope.

(** ** Labels that stay *)
Section reconcile.
Context `{RangeOrder}.

(** Every non-empty label stays, except where [allowed] says otherwise. *)
Definition labels_kept (allowed : string → Prop) (m m' : gmap string string) : Prop :=
  ∀ k v, m !! k = Some v → v ≠ "" → m' !! k = Some v ∨ allowed k.

Definition node_kept (allowed : string → Prop) (n n' : corev1.Node) : Prop :=
  corev1.Node_Name n = corev1.Node_Name n' ∧ labels_kept allowed (corev1.Node_Labels n) (corev1.Node_Labels n').

Lemma node_kept_refl allowed n : node_kept allowed n n.
Proof. split; [done|]. intros k v Hk _. by left. Qed.

Lemma reconcileLabelMap_kept existing desired rm res ch :
  reconcileLabelMap existing desired rm = Ret (res, ch) →
  labels_kept (fun k => match rm with Some f => f k = true | None => False end) existing res.
Proof.
  intros Hr k v Hk Hv. destruct (reconcileLabelMap_spec existing desired rm) as [Hc Ho].
  set (base := keptLabels existing rm) in *.
  destruct (decide (base !! k = Some v)) as [Hb|Hb].
  - left. assert (~ conflict base desired) as Hno.
    { intros Hcf. destruct (Hc Hcf) as [e He]. congruence. }
    destruct (Ho Hno) as (res' & ch' & Hr' & Hl & _). rewrite Hr in Hr'. simplify_eq.
    rewrite Hl. unfold overlay. rewrite decide_True; [done|]. by exists v.
  - right. unfold base, keptLabels in Hb. destruct rm as [f|]; [|done].
    destruct (f k) eqn:Hf; [done|]. destruct Hb. by apply map_lookup_filter_Some.
Qed.

Lemma patchNode_kept allowed nodes0 n0 object :
  NoDup (corev1.Node_Name <$> nodes0) → n0 ∈ nodes0 → node_kept allowed n0 object →
  triple (fun c => Forall2 (node_kept allowed) nodes0 (c_nodes c)) (patchNode (E:=planError) object)
    (fun _ c => Forall2 (node_kept allowed) nodes0 (c_nodes c))
    (fun c => Forall2 (node_kept allowed) nodes0 (c_nodes c)).
Proof.
  intros Hnd Hin Hk. apply triple_call; [done|]. intros s Hs. cbn.
  by apply (replace_Forall2 corev1.Node_Name (node_kept allowed) nodes0 (c_nodes s) n0 object Hnd
    (fun a b Hab => proj1 Hab)).
Qed.

(** Two invariants: the Nodes are untouched, or all have kept their labels. *)
Definition untouched (nodes0 : list corev1.Node) (c : Cluster) : Prop := c_nodes c = nodes0.
Definition kept (allowed : string → Prop) (nodes0 : list corev1.Node) (c : Cluster) : Prop :=
  Forall2 (node_kept allowed) nodes0 (c_nodes c).

Lemma untouched_kept allowed nodes0 c : untouched nodes0 c → kept allowed nodes0 c.
Proof. intros Hu. unfold kept, untouched in *. rewrite Hu. apply Forall_Forall2_diag, Forall_true. apply node_kept_refl. Qed.

Lemma patchNodeLabels_kept allowed nodes0 n0 desired removeMatching template :
  NoDup (corev1.Node_Name <$> nodes0) → n0 ∈ nodes0 →
  (∀ k, removeMatching = true → (MatchTier template k).2 = true → allowed k) →
  triple (kept allowed nodes0) (patchNodeLabels n0 desired removeMatching template)
    (fun _ => kept allowed nodes0) (kept allowed nodes0).
Proof.
  intros Hnd Hin Hal. unfold patchNodeLabels. eapply triple_bind.
  { apply triple_pure; [done|]. intros a s Ha Hs. exact (conj Ha Hs). }
  intros [res ch]. cbn [fst snd]. destruct ch; cbn [negb].
  - intros w [Hr Hw].
    refine (patchNode_kept allowed nodes0 n0 _ Hnd Hin _ w Hw). split; [done|]. cbn.
    intros k v Hk Hv. destruct (reconcileLabelMap_kept _ _ _ _ _ Hr k v Hk Hv) as [?|Ha]; [by left|right].
    destruct removeMatching; [|done]. by apply Hal.
  - apply triple_ret. by intros c [_ ?].
Qed.

(** Calls that leave the Nodes alone. *)
Lemma call_nodes {A} (I : list corev1.Node → Prop) (f : Cluster → (A + apiError) * Cluster) :
  (∀ s, c_nodes (f s).2 = c_nodes s) →
  triple (fun c => I (c_nodes c)) (call (E:=planError) f) (fun _ c => I (c_nodes c)) (fun c => I (c_nodes c)).
Proof.
  intros Hf. apply triple_call; [done|]. intros s Hs. specialize (Hf s).
  destruct (f s) as [[a|e] s']; cbn in *; by rewrite Hf.
Qed.

Lemma patchSwitchLabels_nodes (I : list corev1.Node → Prop) object desired removeMatching :
  triple (fun c => I (c_nodes c)) (patchSwitchLabels object desired removeMatching)
    (fun _ c => I (c_nodes c)) (fun c => I (c_nodes c)).
Proof.
  unfold patchSwitchLabels. eapply triple_bind.
  { apply (triple_pure _ _ (fun _ c => I (c_nodes c))); auto. }
  intros [res ch]. cbn.
  destruct ch; cbn; [by apply call_nodes|by apply triple_ret].
Qed.

Lemma patchTopology_nodes (I : list corev1.Node → Prop) object :
  triple (fun c => I (c_nodes c)) (patchTopology (E:=planError) object) (fun _ c => I (c_nodes c)) (fun c => I (c_nodes c)).
Proof. by apply call_nodes. Qed.

Lemma getTopology_nodes (I : list corev1.Node → Prop) name :
  triple (fun c => I (c_nodes c)) (getTopology (E:=planError) name) (fun _ c => I (c_nodes c)) (fun c => I (c_nodes c)).
Proof. by apply call_nodes. Qed.

(** A deleted topology whose labels the reconciler may remove. *)
Definition removable (managed : list managedTopology) (topologies : gmap string v1beta1.Topology) (k : string) : Prop :=
  ∃ t object, t ∈ managed ∧ topologies !! mt_name t = Some object ∧ v1beta1.Deleting object = true ∧
    (MatchTier (labelTemplate t) k).2 = true.

Lemma resetTopology_kept allowed nodes0 object template role :
  NoDup (corev1.Node_Name <$> nodes0) →
  (∀ k, (MatchTier template k).2 = true → allowed k) →
  triple (untouched nodes0) (resetTopology object template role)
    (fun _ => kept allowed nodes0) (kept allowed nodes0).
Proof.
  intros Hnd Hal. unfold resetTopology. eapply (triple_bind _ _ _ (fun nodes c => nodes = nodes0 ∧ untouched nodes0 c)).
  { apply triple_call; [apply untouched_kept|]. by intros s Hs. }
  intros nodes. eapply (triple_bind _ _ _ (fun _ c => nodes = nodes0 ∧ untouched nodes0 c)).
  { apply triple_call; [intros s [_ ?]; by apply untouched_kept|]. by intros s Hs. }
  intros switches. apply triple_fact. intros ->.
  apply (triple_bind _ _ _ (fun _ => kept allowed nodes0)).
  { apply (triple_conseq (kept allowed nodes0) _ _ (fun _ => kept allowed nodes0) _ (kept allowed nodes0));
      [|by apply untouched_kept|done..].
    apply (triple_foldl _ _ _ (fun _ _ => kept allowed nodes0)). intros seen n todo _ ->.
    apply patchNodeLabels_kept; [done|set_solver|auto]. }
  intros _. apply (triple_bind _ _ _ (fun _ => kept allowed nodes0)).
  { apply (triple_foldl _ _ _ (fun _ _ => kept allowed nodes0)). intros seen n todo _ _.
    case_decide; [by apply triple_ret|]. apply (patchSwitchLabels_nodes (Forall2 (node_kept allowed) nodes0)). }
  intros _. apply (patchTopology_nodes (Forall2 (node_kept allowed) nodes0)).
Qed.

(** The part of a reconciliation before anything is planned, for topologies as
    they were at the start. *)
Definition initial (nodes0 : list corev1.Node) (topologies0 : gmap string v1beta1.Topology) (c : Cluster) : Prop :=
  untouched nodes0 c ∧ c_topologies c = topologies0.

Lemma releaseFinalizers_initial managedNames names nodes0 topologies0 :
  triple (initial nodes0 topologies0) (releaseFinalizers managedNames names)
    (fun released c => if released : bool then untouched nodes0 c else initial nodes0 topologies0 c)
    (untouched nodes0).
Proof.
  induction names as [|name names IH]; cbn [releaseFinalizers]; [by apply triple_ret|].
  case_decide; [done|].
  apply (triple_bind _ _ _ (fun _ => initial nodes0 topologies0)); [apply triple_call; [by intros s [? _]|done]|].
  intros [object|]; [|done]. case_match; [done|].
  apply (triple_bind _ _ _ (fun _ => untouched nodes0)); [|intros _; by apply triple_ret].
  apply triple_call; [by intros s [? _]|]. by intros s [Hs _].
Qed.

Lemma handleDeletions_kept managed topologies nodes0 topologies0 :
  NoDup (corev1.Node_Name <$> nodes0) → topologies ⊆ managed →
  triple (initial nodes0 topologies0) (handleDeletions topologies)
    (fun after c => if after is None then untouched nodes0 c else kept (removable managed topologies0) nodes0 c)
    (kept (removable managed topologies0) nodes0).
Proof.
  intros Hnd. induction topologies as [|t topologies IH]; intros Hsub; cbn [handleDeletions].
  { apply triple_ret. by intros c [? _]. }
  apply (triple_bind _ _ _ (fun object c => object = topologies0 !! mt_name t ∧ initial nodes0 topologies0 c)).
  { apply triple_call; [intros s [? _]; by apply untouched_kept|]. intros s [Hs Ht]. by rewrite <-Ht. }
  assert (∀ o, triple (fun c => o = topologies0 !! mt_name t ∧ initial nodes0 topologies0 c) (handleDeletions topologies)
    (fun after c => if after is None then untouched nodes0 c else kept (removable managed topologies0) nodes0 c)
    (kept (removable managed topologies0) nodes0)) as Hrest.
  { intros o. apply triple_fact. intros _. apply IH. set_solver. }
  intros [object|]; [|apply Hrest]. case_match eqn:Hdel; [|apply Hrest].
  apply triple_fact. intros Hobj.
  apply (triple_bind _ _ _ (fun _ => kept (removable managed topologies0) nodes0));
    [|intros _; by apply triple_ret].
  case_match; [|apply triple_ret; intros c [? _]; by apply untouched_kept].
  eapply triple_conseq; [apply (resetTopology_kept (removable managed topologies0))|by intros s [? _]|done..]; [done|].
  intros k Hk. exists t, object. split; [set_solver|done].
Qed.

Lemma planTopology_untouched nodes0 fabricNodes switches nodes plan t :
  triple (untouched nodes0) (planTopology fabricNodes switches nodes plan t)
    (fun _ => untouched nodes0) (untouched nodes0).
Proof.
  unfold planTopology. apply (triple_bind _ _ _ (fun _ => untouched nodes0)); [apply triple_pure; auto|].
  intros rolePlan. apply (triple_bind _ _ _ (fun _ => untouched nodes0)); [|intros _; apply triple_pure; auto].
  unfold ensureTopologyFinalizer.
  apply (triple_bind _ _ _ (fun _ => untouched nodes0)); [by apply (getTopology_nodes (fun n => n = nodes0))|].
  intros [object|]; case_match; try by apply triple_ret.
  - by apply (patchTopology_nodes (fun n => n = nodes0)).
  - apply (call_nodes (fun n => n = nodes0)). intros s. unfold add_topology. by case_match.
Qed.

Lemma applyPlan_kept allowed plan nodes0 switches :
  NoDup (corev1.Node_Name <$> nodes0) →
  triple (kept allowed nodes0) (applyPlan plan nodes0 switches) (fun _ => kept allowed nodes0) (kept allowed nodes0).
Proof.
  intros Hnd. unfold applyPlan.
  set (byName := foldl (fun m n => <[corev1.Node_Name n := n]> m) ∅ nodes0).
  assert (∀ name n, byName !! name = Some n → n ∈ nodes0) as Hby.
  { intros name n. unfold byName. apply (foldl_inv (fun seen (m : gmap string corev1.Node) =>
      m !! name = Some n → n ∈ seen)); [by rewrite lookup_empty|].
    intros seen x _ m _ IH [[_ <-]|[_ Hm]]%lookup_insert_Some; [set_solver|]. apply IH in Hm. set_solver. }
  apply (triple_bind _ _ _ (fun _ => kept allowed nodes0)).
  - apply (triple_foldl _ _ _ (fun _ _ => kept allowed nodes0)). intros _ name _ _ _.
    destruct (byName !! name) as [n|] eqn:Hn; [|by apply triple_pure].
    apply patchNodeLabels_kept; [done|by eapply Hby|done].
  - intros _. apply (triple_foldl _ _ _ (fun _ _ => kept allowed nodes0)). intros _ name _ _ _.
    case_match; [|by apply triple_pure]. apply (patchSwitchLabels_nodes (Forall2 (node_kept allowed) nodes0)).
Qed.

(** A whole reconciliation. *)
Lemma Reconcile_kept managed nodes0 topologies0 :
  NoDup (corev1.Node_Name <$> nodes0) →
  triple (initial nodes0 topologies0) (Reconcile managed)
    (fun _ => kept (removable managed topologies0) nodes0) (kept (removable managed topologies0) nodes0).
Proof.
  intros Hnd. unfold Reconcile, releaseUnmanagedFinalizers. set (allowed := removable managed topologies0).
  eapply triple_bind.
  { eapply triple_conseq; [apply releaseFinalizers_initial|done|by intros a s Hs|apply untouched_kept]. }
  intros [|]; cbn; [apply triple_ret, untouched_kept|].
  eapply triple_bind; [by apply (handleDeletions_kept managed)|]. intros [after|]; [by apply triple_ret|].
  apply (triple_bind _ _ _ (fun _ => untouched nodes0)).
  { apply triple_call; [apply untouched_kept|done]. }
  intros fabricNodes. apply (triple_bind _ _ _ (fun _ => untouched nodes0)).
  { apply triple_call; [apply untouched_kept|done]. }
  intros switches. apply (triple_bind _ _ _ (fun nodes c => nodes = nodes0 ∧ untouched nodes0 c)).
  { apply triple_call; [apply untouched_kept|done]. }
  intros nodes. apply triple_fact. intros ->.
  apply (triple_bind _ _ _ (fun _ => untouched nodes0)).
  { apply (triple_conseq (untouched nodes0) _ _ (fun _ => untouched nodes0) _ (untouched nodes0));
      [|done|done|apply untouched_kept].
    apply (triple_foldl _ _ _ (fun _ _ => untouched nodes0)). intros. apply planTopology_untouched. }
  intros plan. apply (triple_bind _ _ _ (fun _ => kept allowed nodes0)); [|intros _; by apply triple_ret].
  apply (triple_conseq (kept allowed nodes0) _ _ (fun _ => kept allowed nodes0) _ (kept allowed nodes0));
    [by apply applyPlan_kept|apply untouched_kept|done..].
Qed.

(** ** Removing the labels of a deleted topology *)
Lemma reconcileLabelMap_remove existing rm :
  ∃ ch, reconcileLabelMap existing ∅ (Some rm) = Ret (filter (fun kv => rm kv.1 = false) existing, ch) ∧
    (ch = false → filter (fun kv => rm kv.1 = false) existing = existing).
Proof.
  destruct (reconcileLabelMap_spec existing ∅ (Some rm)) as [_ Ho]. cbn [keptLabels] in Ho.
  set (base := filter _ existing) in *.
  destruct Ho as (res & ch & Hr & Hl & Hch).
  { intros (k & c & v & _ & _ & Hk & _). by rewrite lookup_empty in Hk. }
  exists ch. assert (res = base) as <-.
  { apply map_eq. intros k. rewrite Hl. unfold overlay. rewrite lookup_empty. by case_decide. }
  split; [done|]. intros ->. destruct (decide (res = existing)); [done|]. naive_solver.
Qed.

Definition clearedNode (template : option Template) (n : corev1.Node) : corev1.Node :=
  corev1.MkNode (corev1.Node_Name n)
    (filter (fun kv => (MatchTier template kv.1).2 = false) (corev1.Node_Labels n)).

Definition clearedSwitch (role : v1beta1.SwitchRole) (sw : v1beta1.Switch) : v1beta1.Switch :=
  if decide (effectiveSwitchRole sw ≠ role) then sw
  else with_labels (delete v1beta1.TopologyDomainLabel (v1beta1.SW_Labels sw)) sw.

(** The objects of a cluster while labels are being removed. *)
Definition objects (topologies : gmap string v1beta1.Topology) (nodes : list corev1.Node)
    (switches : list v1beta1.Switch) (c : Cluster) : Prop :=
  c_topologies c = topologies ∧ c_nodes c = nodes ∧ c_switches c = switches.

Definition waiting (topologies : gmap string v1beta1.Topology) (c : Cluster) : Prop := c_topologies c = topologies.

Lemma objects_waiting T n s c : objects T n s c → waiting T c.
Proof. by intros [? _]. Qed.

Lemma clearedNode_id template n :
  filter (fun kv => (MatchTier template kv.1).2 = false) (corev1.Node_Labels n) = corev1.Node_Labels n →
  clearedNode template n = n.
Proof. unfold clearedNode. destruct n. by intros ->. Qed.

Lemma clearNode_step template T switches n (before todo : list corev1.Node) :
  NoDup (corev1.Node_Name <$> before ++ n :: todo) →
  triple (objects T (before ++ n :: todo) switches) (patchNodeLabels n ∅ true template)
    (fun _ => objects T (before ++ clearedNode template n :: todo) switches) (waiting T).
Proof.
  intros Hnd. unfold patchNodeLabels.
  destruct (reconcileLabelMap_remove (corev1.Node_Labels n) (fun key => (MatchTier template key).2)) as (ch & -> & Hch).
  intros w (HT & Hn & Hs). destruct ch; cbn.
  - refine (triple_call (objects T (before ++ n :: todo) switches) _
      (fun _ => objects T (before ++ clearedNode template n :: todo) switches) (waiting T) (objects_waiting _ _ _) _ w (conj HT (conj Hn Hs))).
    intros s (HT' & Hn' & Hs'). split; [done|]. split; [|done]. cbn. rewrite Hn'.
    by apply (replace_at corev1.Node_Name before todo n (clearedNode template n)).
  - rewrite clearedNode_id by auto. done.
Qed.

Lemma delete_as_filter (m : gmap string string) k :
  filter (fun kv => bool_decide (kv.1 = k) = false) m = delete k m.
Proof.
  apply map_eq. intros x. destruct (decide (k = x)) as [<-|Hne].
  - rewrite lookup_delete_eq. apply map_lookup_filter_None. right. intros v _. cbn. by rewrite bool_decide_true.
  - rewrite lookup_delete_ne by done. destruct (m !! x) as [v|] eqn:Hx.
    + apply map_lookup_filter_Some. split; [done|]. cbn. by rewrite bool_decide_false.
    + apply map_lookup_filter_None. by left.
Qed.

Lemma clearSwitch_step role T nodes sw (before todo : list v1beta1.Switch) :
  NoDup (v1beta1.SW_Name <$> before ++ sw :: todo) →
  triple (objects T nodes (before ++ sw :: todo))
    (if decide (effectiveSwitchRole sw ≠ role) then mret () else patchSwitchLabels sw ∅ true)
    (fun _ => objects T nodes (before ++ clearedSwitch role sw :: todo)) (waiting T).
Proof.
  intros Hnd. unfold clearedSwitch. case_decide; [by apply triple_ret|]. unfold patchSwitchLabels.
  destruct (reconcileLabelMap_remove (v1beta1.SW_Labels sw) (fun key => bool_decide (key = v1beta1.TopologyDomainLabel)))
    as (ch & -> & Hch). rewrite delete_as_filter in *.
  intros w (HT & Hn & Hs). destruct ch; cbn.
  - refine (triple_call (objects T nodes (before ++ sw :: todo)) _
      (fun _ => objects T nodes (before ++ with_labels (delete v1beta1.TopologyDomainLabel (v1beta1.SW_Labels sw)) sw :: todo))
      (waiting T) (objects_waiting _ _ _) _ w (conj HT (conj Hn Hs))).
    intros s (HT' & Hn' & Hs'). split; [done|]. split; [done|]. cbn. rewrite Hs'.
    by apply (replace_at v1beta1.SW_Name before todo sw
      (with_labels (delete v1beta1.TopologyDomainLabel (v1beta1.SW_Labels sw)) sw)).
  - rewrite Hch by done. by destruct sw.
Qed.

Lemma resetTopology_clears object template role T nodes0 switches0 :
  NoDup (corev1.Node_Name <$> nodes0) → NoDup (v1beta1.SW_Name <$> switches0) →
  triple (objects T nodes0 switches0) (resetTopology object template role)
    (fun _ c => c_nodes c = clearedNode template <$> nodes0 ∧ c_switches c = clearedSwitch role <$> switches0)
    (waiting T).
Proof.
  intros Hn Hs. unfold resetTopology.
  apply (triple_bind _ _ _ (fun nodes c => nodes = nodes0 ∧ objects T nodes0 switches0 c)).
  { apply triple_call; [apply objects_waiting|]. intros s Hc. split; [apply Hc|done]. }
  intros nodes. apply triple_fact. intros ->.
  apply (triple_bind _ _ _ (fun switches c => switches = switches0 ∧ objects T nodes0 switches0 c)).
  { apply triple_call; [apply objects_waiting|]. intros s Hc. split; [apply Hc|done]. }
  intros switches. apply triple_fact. intros ->.
  apply (triple_bind _ _ _ (fun _ => objects T (clearedNode template <$> nodes0) switches0)).
  { pose proof (triple_each (fun n => patchNodeLabels n ∅ true template) nodes0
      (fun seen todo => objects T ((clearedNode template <$> seen) ++ todo) switches0) (waiting T)) as Hl.
    cbn beta in Hl. rewrite app_nil_r in Hl. apply Hl. intros seen n todo Heq.
    rewrite fmap_app, <-app_assoc. apply clearNode_step.
    rewrite Heq in Hn. rewrite fmap_app in Hn |- *. by rewrite <-list_fmap_compose. }
  intros _. apply (triple_bind _ _ _ (fun _ =>
    objects T (clearedNode template <$> nodes0) (clearedSwitch role <$> switches0))).
  { pose proof (triple_each
      (fun sw => if decide (effectiveSwitchRole sw ≠ role) then mret () else patchSwitchLabels sw ∅ true) switches0
      (fun seen todo => objects T (clearedNode template <$> nodes0) ((clearedSwitch role <$> seen) ++ todo))
      (waiting T)) as Hl.
    cbn beta in Hl. rewrite app_nil_r in Hl. apply Hl. intros seen sw todo Heq.
    rewrite fmap_app, <-app_assoc. apply clearSwitch_step.
    rewrite Heq in Hs. rewrite fmap_app in Hs |- *. rewrite <-list_fmap_compose.
    rewrite (list_fmap_ext (v1beta1.SW_Name ∘ clearedSwitch role) v1beta1.SW_Name seen); [done|].
    intros i x _. unfold compose, clearedSwitch. by case_decide. }
  intros _. apply triple_call; [apply objects_waiting|]. intros s (_ & ? & ?). done.
Qed.
End reconcile.
