(* ===== verification/AutoLabelProperties.v ===== *)
(** * Properties of the automatic labels

    The claims about src/pkg/controller/switchtopology, each proved from the lemmas
    of AutoLabelFacts.v, AutoLabelPlans.v and AutoLabelWorld.v, with witnesses on a
    small cluster. *)
From stdpp Require Import base gmap sets list strings sorting.
From Stdlib Require Import ZArith Ascii.
From S2P Require Import Prelude GoStrings GoNumbers GoText Api Topology GraphFacts Parents LabelTemplate Config LabelTemplateFacts LabelAutomata LabelProperties TopologyInputs ApiServer AutoLabel AutoLabelReconcile AutoLabelFacts AutoLabelPlans AutoLabelWorld.
Local Open Scope Z_scope.

(** ** Owners *)
Lemma digits_colon_inj d d' x y :
  all_digits d = true → all_digits d' = true → d +:+ ":" +:+ x = d' +:+ ":" +:+ y → d = d' ∧ x = y.
Proof.
  revert d'. induction d as [|c d IH]; intros [|c' d'] Hd Hd' Heq; cbn in Heq.
  - by injection Heq.
  - injection Heq as <- _. by cbn in Hd'.
  - injection Heq as -> _. by cbn in Hd.
  - injection Heq as <- Heq. cbn in Hd, Hd'. apply andb_prop in Hd as [_ Hd], Hd' as [_ Hd'].
    destruct (IH d' Hd Hd' Heq) as [-> ->]. done.
Qed.

Lemma groupOwner_inj G G' :
  1 ≤ dg_tier G → 1 ≤ dg_tier G' → groupOwner G = groupOwner G' →
  dg_tier G = dg_tier G' ∧ internalName G = internalName G'.
Proof.
  intros Ht Ht' Heq. unfold groupOwner, Itoa in Heq. rewrite !decide_False in Heq by lia.
  apply str_app_inj_l in Heq. apply digits_colon_inj in Heq as [Hd Hn]; [|apply itoa_N_digits..].
  split; [|done]. apply (f_equal digits_value) in Hd. rewrite !digits_value_itoa in Hd. injection Hd as Hd. lia.
Qed.

Lemma Render_tier template tier key : Render template tier = Ret key → 1 ≤ tier.
Proof. unfold Render. destruct template; [|done]. case_decide; [done|lia]. Qed.

(** ** The groups a plan is made for *)
Section groups.
Context `{RangeOrder}.

Definition eligibleNodes (fabricNodes : list v1beta1.FabricNode) (nodes : list corev1.Node) : list v1beta1.FabricNode :=
  filter (fun fn => v1beta1.FN_Name fn ∈ (list_to_set (corev1.Node_Name <$> nodes) : gset string)) fabricNodes.

Definition nodesByName (nodes : list corev1.Node) : gmap string corev1.Node :=
  foldl (fun m node => <[corev1.Node_Name node := node]> m) ∅ nodes.

Definition switchesByName (switches : list v1beta1.Switch) : gmap string v1beta1.Switch :=
  foldl (fun m sw => <[v1beta1.SW_Name sw := sw]> m) ∅ switches.

(** The inputs and the discovered groups of a role. *)
Definition discovers role fabricNodes switches nodes (inputs : topologyInputs) (groups : list discoveredGroup) : Prop :=
  buildTopologyInputsForRole role (eligibleNodes fabricNodes nodes) switches = Ret inputs ∧
  ∃ discovered, DiscoverTopology (in_hosts inputs) (in_switches inputs) [WithHashGroupName; WithHashLength 40] =
      Ret discovered ∧
    normalizeDiscoveredGroups discovered (in_hosts inputs) = Ret groups.

(** No host or no switch takes part in the role: there is nothing to discover. *)
Definition undiscovered role fabricNodes switches nodes : Prop :=
  ∃ inputs, buildTopologyInputsForRole role (eligibleNodes fabricNodes nodes) switches = Ret inputs ∧
    (in_hosts inputs = [] ∨ in_switches inputs = []).

Lemma buildAutoLabelPlan_inv role template fabricNodes switches nodes plan :
  buildAutoLabelPlan role template fabricNodes switches nodes = Ret plan →
  plan = newAutoLabelPlan ∧ undiscovered role fabricNodes switches nodes ∨
  ∃ max0 inputs groups named st,
    scanExisting role template switches nodes = Ret max0 ∧
    discovers role fabricNodes switches nodes inputs groups ∧ named.*1 ≡ₚ groups ∧
    ps_plan st = plan ∧
    plan_inv template (nodesByName nodes) (switchesByName switches) (syntheticSwitches inputs) max0 named st.
Proof.
  unfold buildAutoLabelPlan. intros Hrun.
  destruct (scanExisting _ _ _ _) as [max0| | |] eqn:E; cbn [mbind go_bind] in Hrun; [|done..].
  destruct (buildTopologyInputsForRole _ _ _) as [inputs| | |] eqn:Hin; cbn [lift mbind go_bind] in Hrun; [|done..].
  case_match eqn:He.
  { left. split; [by injection Hrun|]. exists inputs. split; [done|]. apply orb_prop in He as [He|He]; apply bool_decide_eq_true in He; auto. }
  destruct (DiscoverTopology _ _ _) as [discovered|[]| |] eqn:Hd; cbn [lift_discovery mbind go_bind] in Hrun; [|done..].
  destruct (normalizeDiscoveredGroups _ _) as [groups| | |] eqn:Hg; cbn [mbind go_bind] in Hrun; [|done..].
  fold (tiersOf groups) (nodesByName nodes) (switchesByName switches) in Hrun.
  destruct (go_foldl _ _ _) as [st| | |] eqn:Hst; cbn in Hrun; [|done..].
  injection Hrun as <-. right.
  destruct (scanExisting_spec _ _ _ _ _ E) as [Hmax0 _].
  destruct (planTiers_inv _ _ _ _ _ inputs (tiersOf groups) _ _ Hmax0 eq_refl (tiersOf_tier groups) Hst) as (named & Hn & Hi).
  rewrite tiersOf_perm in Hn. exists max0, inputs, groups, named, st. split_and!; [done| |done|done|done].
  split; [done|]. by exists discovered.
Qed.
End groups.

(** ** When two groups have the same hashed name *)
Definition has_dash (s : string) : bool := bool_decide ("-"%char ∈ String.list_ascii_of_string s).

(** The members of two groups that [GenerateGroupName] cannot tell apart: the names joined with dashes read alike, which takes a
    name with a dash, or their SHA-1 hashes collide, or the only member of one group is named like the hash of the other. *)
Definition confusedBy (hash : string → string) (l l' : list string) : Prop :=
  (join "-" l = join "-" l' ∧ ∃ s, s ∈ l ++ l' ∧ has_dash s = true) ∨
  (join "-" l ≠ join "-" l' ∧ hash (join "-" l) = hash (join "-" l')) ∨
  (∃ s, l = [s] ∧ s = hash (join "-" l')) ∨
  (∃ s, l' = [s] ∧ s = hash (join "-" l)).

Definition confusable : list string → list string → Prop := confusedBy (fun s => shortSHA s 40).

Lemma dash_split a b x y :
  has_dash a = false → has_dash b = false → a +:+ "-" +:+ x = b +:+ "-" +:+ y → a = b ∧ x = y.
Proof.
  unfold has_dash. rewrite !bool_decide_eq_false. revert b. induction a as [|c a IH]; intros [|d b] Ha Hb Heq; cbn in Heq.
  - by injection Heq.
  - injection Heq as <- _. destruct Hb. cbn. set_solver.
  - injection Heq as -> _. destruct Ha. cbn. set_solver.
  - injection Heq as <- Heq. destruct (IH b) as [-> ->]; [cbn in Ha; set_solver|cbn in Hb; set_solver|done|done].
Qed.

Lemma join_dash x y l : join "-" (x :: y :: l) = x +:+ "-" +:+ join "-" (y :: l).
Proof. done. Qed.

Lemma dash_alone a b x : a = b +:+ "-" +:+ x → has_dash a = true.
Proof.
  intros ->. unfold has_dash. apply bool_decide_eq_true. induction b as [|c b IH]; cbn; set_solver.
Qed.

Lemma join_dash_inj l l' :
  Forall (fun s => has_dash s = false) l → Forall (fun s => has_dash s = false) l' → l ≠ [] → l' ≠ [] →
  join "-" l = join "-" l' → l = l'.
Proof.
  intros Hl. revert l'. induction Hl as [|x l Hx Hl IH]; intros l' Hl' Hne Hne' Heq; [done|].
  destruct Hl' as [|y l' Hy Hl']; [done|]. destruct l as [|x2 l], l' as [|y2 l'].
  - cbn in Heq. by subst.
  - rewrite join_dash in Heq. cbn [join] in Heq. apply dash_alone in Heq. congruence.
  - rewrite join_dash in Heq. cbn [join] in Heq. symmetry in Heq. apply dash_alone in Heq. congruence.
  - rewrite !join_dash in Heq. apply dash_split in Heq as [-> Heq]; [|done..]. f_equal. by apply IH.
Qed.

(** Two groups of one tier with one hashed name. *)
Definition sameHash (G G' : discoveredGroup) : Prop :=
  dg_tier G = dg_tier G' ∧ internalName G = internalName G' ∧ confusable (dg_members G) (dg_members G').

Definition hashOptions : DiscoverOptions := MkOptions GroupNameModeHash 40.

Lemma sortedName_confused (hash : string → string) l l' :
  l ≠ [] → l' ≠ [] →
  match l with [name] => name | _ => hash (join "-" l) end = match l' with [name] => name | _ => hash (join "-" l') end →
  l = l' ∨ confusedBy hash l l'.
Proof.
  intros Hne Hne' Heq. destruct (decide (l = l')) as [|Hd]; [by left|]. right. unfold confusedBy.
  destruct l as [|x [|x2 l]], l' as [|y [|y2 l']]; try done.
  - by subst.
  - right. right. left. by exists x.
  - right. right. right. by exists y.
  - destruct (decide (join "-" (x :: x2 :: l) = join "-" (y :: y2 :: l'))) as [Hj|Hj]; [left|by auto].
    split; [done|]. set (all := (x :: x2 :: l) ++ y :: y2 :: l').
    destruct (decide (Exists (fun s => has_dash s = true) all)) as [Hex|Hno].
    { apply Exists_exists in Hex as (s & ? & ?). by exists s. }
    exfalso. apply Hd. apply join_dash_inj; try done; apply Forall_forall; intros s Hs; apply not_true_iff_false; intros Ht;
      apply Hno, Exists_exists; exists s; (split; [|done]); apply elem_of_app; auto.
Qed.

Lemma GenerateGroupName_sorted l :
  Sorted String.le l → GenerateGroupName l hashOptions = match l with [name] => name | _ => shortSHA (join "-" l) 40 end.
Proof. intros Hl. unfold GenerateGroupName. rewrite sort_strings_id by done. reflexivity. Qed.

Lemma GenerateGroupName_confusable l l' :
  Sorted String.le l → Sorted String.le l' → l ≠ [] → l' ≠ [] →
  GenerateGroupName l hashOptions = GenerateGroupName l' hashOptions → l = l' ∨ confusable l l'.
Proof.
  intros Hl Hl' Hne Hne'. rewrite !GenerateGroupName_sorted by assumption. apply (sortedName_confused (fun s => shortSHA s 40)); assumption.
Qed.

(** ** What the discovered groups are *)
Section proper.
Context `{RangeOrder}.

Lemma normalized_groups discovered hosts groups :
  normalizeDiscoveredGroups discovered hosts = Ret groups →
  ∃ d2g nbg, ∀ G, G ∈ groups → ∃ group, group ∈ groups_at discovered (dg_tier G) ∧ G = normalizeGroup d2g nbg (dg_tier G) group.
Proof.
  unfold normalizeDiscoveredGroups. destruct (foldl _ _ _) as [gbn d2g]. intros Hn. go_inv. subst groups.
  assert (∀ tier l, (tier, l) ∈ range (GroupsByTier discovered) → l = groups_at discovered tier) as Hr.
  { intros tier l Hl%elem_of_range. unfold groups_at. by rewrite Hl. }
  set (f := fun result '(tier, groups) => _). set (P := fun result : list discoveredGroup => ∀ G, G ∈ result →
    ∃ group, group ∈ groups_at discovered (dg_tier G) ∧ G = normalizeGroup d2g a (dg_tier G) group).
  exists d2g, a. change (P (foldl f [] (range (GroupsByTier discovered)))). revert Hr. generalize (range (GroupsByTier discovered)). intros l Hr.
  apply (foldl_inv (fun _ => P)); [intros ? ?; set_solver|]. intros seen [tier groups] todo result Hl IH. unfold f.
  case_decide; [done|]. intros G [HG|(group & -> & Hg)%list_elem_of_fmap]%elem_of_app; [by apply IH|].
  exists group. cbn. split; [|done]. rewrite <-(Hr tier groups); [done|]. rewrite Hl. set_solver.
Qed.

Lemma NoDup_join_inj {A B} (f : A → list B) (l : list A) a b x :
  NoDup (mjoin (f <$> l)) → a ∈ l → b ∈ l → x ∈ f a → x ∈ f b → a = b.
Proof.
  induction l as [|c l IH]; [set_solver|]. cbn. intros (_ & Hd & Hnd)%NoDup_app [->|Ha]%elem_of_cons [->|Hb]%elem_of_cons Hxa Hxb.
  - done.
  - destruct (Hd x); [done|]. apply list_elem_of_join. exists (f b). split; [done|]. by apply list_elem_of_fmap_2.
  - destruct (Hd x); [done|]. apply list_elem_of_join. exists (f a). split; [done|]. by apply list_elem_of_fmap_2.
  - by apply IH.
Qed.

(** Discovered groups of one tier with one hashed name. *)
Lemma discovered_same role fabricNodes switches nodes inputs groups G G' :
  discovers role fabricNodes switches nodes inputs groups → G ∈ groups → G' ∈ groups →
  dg_tier G = dg_tier G' → internalName G = internalName G' →
  G = G' ∨ confusable (dg_members G) (dg_members G').
Proof.
  intros (_ & discovered & Hd & (d2g & nbg & Hn)%normalized_groups) (group & Hg & HeqG)%Hn (group' & Hg' & HeqG')%Hn Ht Hi.
  destruct (DiscoverTopology_total (in_hosts inputs) (in_switches inputs) [WithHashGroupName; WithHashLength 40]) as (t & Hd' & _ & [Hname Hnd]).
  assert (t = discovered) as -> by congruence. change (foldl _ _ _) with hashOptions in Hname.
  destruct (Hname _ _ Hg) as [H1 Hne], (Hname _ _ Hg') as [H2 Hne']. rewrite HeqG, HeqG' in Hi. cbn in Hi.
  assert (dg_members G = sort_strings (Members group) ∧ dg_members G' = sort_strings (Members group')) as [Hm Hm']
    by (rewrite HeqG, HeqG'; done).
  rewrite Hm, Hm'. destruct (GenerateGroupName_confusable (sort_strings (Members group)) (sort_strings (Members group'))) as [He|];
    [apply sort_strings_sorted..| | | |left|by right].
  - intros He. apply Hne, Permutation_nil_r. by rewrite <-(sort_strings_perm (Members group)), He.
  - intros He. apply Hne', Permutation_nil_r. by rewrite <-(sort_strings_perm (Members group')), He.
  - unfold GenerateGroupName in *. by rewrite !sort_strings_idemp, <-H1, <-H2.
  - rewrite HeqG, HeqG', Ht. f_equal. rewrite Ht in Hg. destruct (Members group) as [|x l] eqn:Hx; [done|].
    apply (NoDup_join_inj Members _ _ _ x (Hnd (dg_tier G'))); [done..|rewrite Hx; set_solver|].
    apply elem_of_sort_strings. rewrite <-He. apply elem_of_sort_strings. set_solver.
Qed.
End proper.

(** ** A concrete cluster *)
Module Cluster.
Definition template : option Template := Some (MkTemplate "t/tier-{{ .Tier }}"
  [TextNode "t/tier-"; ActionNode (Some (MkPipe [] false [Some (MkCommand [FieldNode ["Tier"]])]))]
  [Quoted "t/tier-"; TierGroup] "t/tier-" "").

Definition nic (switch : string) : v1beta1.NicInfo := 
  v1beta1.MkNicInfo "eth0" "mlx5_0" true "" "" "up" (v1beta1.MkLLDPNeighbor switch "" "" "eth1" "").

Definition fabricNode (name switch : string) : v1beta1.FabricNode :=
  v1beta1.MkFabricNode name v1beta1.NodeRoleGPU [nic switch] [] [].

Definition fabricNodes : list v1beta1.FabricNode :=
  [fabricNode "n1" "Leaf_1"; fabricNode "n2" "leaf-1"; fabricNode "n3" "leaf-2"].

Definition switch (name : string) (neighbors : list string) : v1beta1.Switch :=
  v1beta1.MkSwitch name 1 ∅ ∅ "10.0.0.1" "" None (v1beta1.MkSwitchStatus name true [] 0
    ((fun n => v1beta1.MkSwitchNeighbor v1beta1.SwitchLLDPRemoteSystemTypeSwitch n 1) <$> neighbors)).

Definition switches : list v1beta1.Switch :=
  [switch "leaf-1" ["spine-1"]; switch "leaf-2" ["spine-1"]; switch "spine-1" ["leaf-1"; "leaf-2"]].

Definition nodes : list corev1.Node :=
  [corev1.MkNode "n1" ∅; corev1.MkNode "n2" {[ "t/tier-1" := "tier1-group7" ]}; corev1.MkNode "n3" {[ "keep" := "me" ]}].

Definition plan : autoLabelPlan := MkPlan
  (list_to_map [("n1", list_to_map [("t/tier-1", "tier1-group7"); ("t/tier-2", "tier2-group1")]);
     ("n2", list_to_map [("t/tier-2", "tier2-group1")]);
     ("n3", list_to_map [("t/tier-1", "tier1-group8"); ("t/tier-2", "tier2-group1")])])
  (list_to_map [("leaf-1", list_to_map [(v1beta1.TopologyDomainLabel, "tier1-group7")]);
     ("leaf-2", list_to_map [(v1beta1.TopologyDomainLabel, "tier1-group8")]);
     ("spine-1", list_to_map [(v1beta1.TopologyDomainLabel, "tier2-group1")])]).

Example plan_ok :
  @buildAutoLabelPlan canonical_order v1beta1.SwitchRoleScaleOut template fabricNodes switches nodes = Ret plan.
Proof. vm_compute. reflexivity. Qed.
End Cluster.

(** ** The claims *)

(**  [parseAutoDomainNameParts] accepts exactly the names
    [fmt.Sprintf("tier%d-group%d")] prints for a tier and a group number between 1
    and the largest [int], and returns those numbers. *)
Theorem auto_domain_roundtrip value tier group :
  parseAutoDomainNameParts value = Ret (tier, group) ↔
  1 ≤ tier ≤ max_int ∧ 1 ≤ group ≤ max_int ∧ value = autoDomainName tier group.
Proof. apply parseAutoDomainNameParts_spec. Qed.

(**  [reconcileLabelMap] fails exactly when a desired label contradicts a
    non-empty label that is not being removed; otherwise the result has the labels
    that are not removed, with the desired values where no non-empty value stood,
    and the flag says whether a label was removed or written. *)
Theorem reconcile_label_map `{RangeOrder} existing desired removeLabel :
  let base := keptLabels existing removeLabel in
  match reconcileLabelMap existing desired removeLabel with
  | Ret (result, changed) => ~ conflict base desired ∧
      (∀ k, result !! k = overlay base desired k) ∧
      (changed = true ↔ base ≠ existing ∨ ∃ k, is_Some (desired !! k) ∧ ~ locked_at base k)
  | Err _ => conflict base desired
  | _ => False
  end.
Proof.
  intros base. destruct (reconcileLabelMap_spec existing desired removeLabel) as [Hc Hr]. fold base in Hc, Hr.
  destruct (decide (conflict base desired)) as [Hcf|Hcf].
  - by destruct (Hc Hcf) as [e ->].
  - by destruct (Hr Hcf) as (res & ch & -> & ? & ?).
Qed.

(** The names a plan gives, for the claim and for the composition with the status. *)
Lemma plan_names_spec `{RangeOrder} role template fabricNodes switches nodes plan :
  buildAutoLabelPlan role template fabricNodes switches nodes = Ret plan →
  plan = newAutoLabelPlan ∧ undiscovered role fabricNodes switches nodes ∨
  ∃ inputs groups named, discovers role fabricNodes switches nodes inputs groups ∧ named.*1 ≡ₚ groups ∧
    (∀ G v, (G, v) ∈ named → ∃ key, Render template (dg_tier G) = Ret key ∧ (∃ g, v = autoDomainName (dg_tier G) g) ∧
       (∀ n, n ∈ dg_nodes G → nodeCarries (nodesByName nodes) plan n key v) ∧
       (∀ s, s ∈ dg_members G → switchCarries (switchesByName switches) (syntheticSwitches inputs) plan s v)) ∧
    (∀ G G' v, (G, v) ∈ named → (G', v) ∈ named → G = G' ∨ sameHash G G').
Proof.
  intros [?|(max0 & inputs & groups & named & st & _ & Hd & Hn & <- & Hi)]%buildAutoLabelPlan_inv; [by left|right].
  exists inputs, groups, named. split; [done|]. split; [done|].
  assert (∀ G v, (G, v) ∈ named → 1 ≤ dg_tier G) as Htier.
  { intros G v Hin. destruct (pi_named _ _ _ _ _ _ _ Hi _ _ Hin) as [key Hk]. eapply Render_tier, gn_key, Hk. }
  split.
  - intros G v Hin. destruct (pi_named _ _ _ _ _ _ _ Hi _ _ Hin) as [key [? ? ?]]. exists key. split; [done|]. split; [|done].
    destruct (pi_origin _ _ _ _ _ _ _ Hi _ _ Hin) as [(key' & _ & [(g & _ & ->) _])|(g & -> & _)]; eauto.
  - intros G G' v Hin Hin'. destruct (groupOwner_inj G G') as [Ht Hi']; [by eapply Htier..| |].
    { pose proof (pi_owner _ _ _ _ _ _ _ Hi _ _ Hin) as H1. pose proof (pi_owner _ _ _ _ _ _ _ Hi _ _ Hin') as H2. congruence. }
    assert (∀ G v, (G, v) ∈ named → G ∈ groups) as Hg by (intros X x Hx; rewrite <-Hn; by apply (list_elem_of_fmap_2 fst named (X, x))).
    destruct (discovered_same _ _ _ _ _ _ G G' Hd) as [?|?]; eauto. right. by split_and!.
Qed.



(** The groups of the Switches a-b and c and of the Switches a and b-c have the same hashed name: both are given the name that
    the Node below the first carries. *)
Module Confused.
Definition twoNics (name s1 s2 : string) : v1beta1.FabricNode :=
  v1beta1.MkFabricNode name v1beta1.NodeRoleGPU [Cluster.nic s1; Cluster.nic s2] [] [].
Definition fabricNodes : list v1beta1.FabricNode := [twoNics "h1" "a-b" "c"; twoNics "h2" "a" "b-c"].
Definition switches : list v1beta1.Switch := (fun name => Cluster.switch name []) <$> ["a-b"; "c"; "a"; "b-c"].
Definition nodes : list corev1.Node := [corev1.MkNode "h1" {[ "t/tier-1" := "tier1-group1" ]}; corev1.MkNode "h2" ∅].
End Confused.

Example groups_confused :
  @buildAutoLabelPlan canonical_order v1beta1.SwitchRoleScaleOut Cluster.template Confused.fabricNodes Confused.switches Confused.nodes =
  Ret (MkPlan {[ "h2" := {[ "t/tier-1" := "tier1-group1" ]} ]}
    (list_to_map ((fun name => (name, {[ v1beta1.TopologyDomainLabel := "tier1-group1" ]})) <$> ["a"; "a-b"; "b-c"; "c"]))).
Proof. vm_compute. reflexivity. Qed.

(**  Only missing labels are planned: when [buildAutoLabelPlan] returns a plan,
    writing the planned labels of a Node with [reconcileLabelMap] succeeds and the
    Node ends up with all its labels and the planned ones. *)
Theorem plan_applies `{RangeOrder} role template fabricNodes switches nodes plan :
  buildAutoLabelPlan role template fabricNodes switches nodes = Ret plan →
  ∀ name node, nodesByName nodes !! name = Some node →
    let wanted := default ∅ (plan_nodes plan !! name) in
    ∃ changed, reconcileLabelMap (corev1.Node_Labels node) wanted None =
      Ret (corev1.Node_Labels node ∪ wanted, changed) ∧ (changed = true ↔ wanted ≠ ∅).
Proof.
  intros Hplan name node Hnode wanted. set (labels := corev1.Node_Labels node).
  assert (∀ k v, wanted !! k = Some v → labels !! k = None) as Hmiss.
  { intros k v Hk. apply buildAutoLabelPlan_inv in Hplan as [[-> _]|(max0 & inputs & groups & named & st & _ & _ & _ & <- & Hi)].
    { unfold wanted in Hk. cbn in Hk. by rewrite !lookup_empty in Hk. }
    destruct (pi_node _ _ _ _ _ _ _ Hi name k v Hk) as (G & _ & _ & _ & Hl).
    unfold nodeLabel in Hl. by rewrite Hnode in Hl. }
  destruct (reconcileLabelMap_spec labels wanted None) as [_ Ho]. cbn [keptLabels] in Ho.
  assert (∀ k, is_Some (wanted !! k) → ~ locked_at labels k) as Hfree.
  { intros k [v Hv] (c & Hc & _). by rewrite (Hmiss k v Hv) in Hc. }
  destruct Ho as (res & ch & Hr & Hl & Hch).
  { intros (k & c & v & Hc & _ & Hv & _). by rewrite (Hmiss k v Hv) in Hc. }
  assert (res = labels ∪ wanted) as ->.
  { apply map_eq. intros k. rewrite Hl. unfold overlay. destruct (wanted !! k) as [v|] eqn:Hv; cbn.
    - rewrite decide_False by eauto. rewrite lookup_union_r by eauto. done.
    - rewrite lookup_union_l by done. by case_decide. }
  exists ch. split; [done|]. rewrite Hch. split.
  - intros [?|(k & [v Hv] & _)]; [done|]. intros Hw. by rewrite Hw, lookup_empty in Hv.
  - intros (k & v & Hv)%map_choose. right. exists k. eauto.
Qed.

Lemma plan_applies_witness :
  ∃ changed, @reconcileLabelMap canonical_order {[ "keep" := "me" ]} (default ∅ (plan_nodes Cluster.plan !! "n3")) None =
    Ret ({[ "keep" := "me" ]} ∪ default ∅ (plan_nodes Cluster.plan !! "n3"), changed) ∧
    (changed = true ↔ default ∅ (plan_nodes Cluster.plan !! "n3") ≠ ∅).
Proof.
  refine (@plan_applies canonical_order v1beta1.SwitchRoleScaleOut Cluster.template Cluster.fabricNodes Cluster.switches
    Cluster.nodes Cluster.plan _ "n3" (corev1.MkNode "n3" {[ "keep" := "me" ]}) _); vm_compute; reflexivity.
Defined.

(**  A name is either the label of a member of the group, or it is new: no
    label of the group's tier on any Node has it, as long as the group numbers do
    not run past the largest [int]. *)
Theorem plan_names_fresh `{RangeOrder} role template fabricNodes switches nodes plan max0 :
  buildAutoLabelPlan role template fabricNodes switches nodes = Ret plan →
  scanExisting role template switches nodes = Ret max0 →
  plan = newAutoLabelPlan ∧ undiscovered role fabricNodes switches nodes ∨
  ∃ inputs groups named, discovers role fabricNodes switches nodes inputs groups ∧ named.*1 ≡ₚ groups ∧
    ∀ G v, (G, v) ∈ named →
      (∃ key, lockedName (ctx (nodesByName nodes) (switchesByName switches) (syntheticSwitches inputs) key (dg_tier G)) G v) ∨
      (default 0 (max0 !! dg_tier G) + Z.of_nat (length groups) ≤ max_int →
       ∀ node k w, node ∈ nodes → corev1.Node_Labels node !! k = Some w →
         MatchTier template k = (dg_tier G, true) → w ≠ v).
Proof.
  intros Hp Hscan. apply buildAutoLabelPlan_inv in Hp as
    [?|(max1 & inputs & groups & named & st & Hscan' & Hd & Hn & <- & Hi)]; [by left|right].
  assert (max1 = max0) as -> by congruence.
  exists inputs, groups, named. split; [done|]. split; [done|]. intros G v Hin.
  destruct (pi_origin _ _ _ _ _ _ _ Hi _ _ Hin) as [(key & _ & Hl)|(g & -> & Hg)]; [left; by exists key|right].
  intros Hb node k w Hnode Hw Hk Heq.
  assert (length named = length groups) as Hlen by (by rewrite <-(Permutation_length Hn), length_fmap).
  rewrite Hlen in Hg. specialize (Hg Hb).
  destruct (scanExisting_spec _ _ _ _ _ Hscan) as [Hnn Hmax].
  destruct (Hmax _ _ _ _ Hnode Hw Hk) as (g' & (Ht & Hg' & ->)%parseAutoDomainName_spec & Hle).
  specialize (Hnn (dg_tier G)).
  apply autoDomainName_inj in Heq as [_ ->]; [lia|done|done|done|lia].
Qed.

Lemma plan_names_fresh_witness :
  Cluster.plan = newAutoLabelPlan ∧
    @undiscovered canonical_order v1beta1.SwitchRoleScaleOut Cluster.fabricNodes Cluster.switches Cluster.nodes ∨
  ∃ inputs groups named,
    @discovers canonical_order v1beta1.SwitchRoleScaleOut Cluster.fabricNodes Cluster.switches Cluster.nodes
      inputs groups ∧ named.*1 ≡ₚ groups ∧
    ∀ G v, (G, v) ∈ named →
      (∃ key, lockedName (ctx (nodesByName Cluster.nodes) (switchesByName Cluster.switches)
         (syntheticSwitches inputs) key (dg_tier G)) G v) ∨
      (default 0 (({[ 1 := 7 ]} : gmap Z Z) !! dg_tier G) + Z.of_nat (length groups) ≤ max_int →
       ∀ node k w, node ∈ Cluster.nodes → corev1.Node_Labels node !! k = Some w →
         MatchTier Cluster.template k = (dg_tier G, true) → w ≠ v).
Proof. apply (@plan_names_fresh canonical_order); vm_compute; reflexivity. Defined.

(** C11.  Whatever fails, one reconciliation keeps every non-empty label of every
    Node, except the labels that match the template of a managed topology that is
    being deleted; Nodes are neither added nor removed. *)
Theorem reconcile_keeps_labels `{RangeOrder} managed w result w' :
  NoDup (corev1.Node_Name <$> c_nodes (w_cluster w)) →
  Reconcile managed w = (result, w') →
  Forall2 (node_kept (removable managed (c_topologies (w_cluster w))))
    (c_nodes (w_cluster w)) (c_nodes (w_cluster w')).
Proof.
  intros Hnd Hrun.
  pose proof (Reconcile_kept managed _ (c_topologies (w_cluster w)) Hnd w (conj eq_refl eq_refl)) as Hk.
  rewrite Hrun in Hk. by destruct result.
Qed.

(** The managed topology of the witnesses, and a world in which the third call on
    the API server that writes a Node fails. *)
Module Worlds.
Definition managed : list managedTopology :=
  [MkManaged v1beta1.TopologyScaleOut v1beta1.SwitchRoleScaleOut Cluster.template].

Definition start : World :=
  MkWorld (MkCluster ∅ Cluster.fabricNodes Cluster.switches Cluster.nodes)
    [NoFault; NoFault; NoFault; NoFault; NoFault; NoFault; NoFault; NoFault; Fails].

Definition deleted : v1beta1.Topology :=
  v1beta1.MkTopology v1beta1.TopologyScaleOut true [autoTopologyFinalizer] (v1beta1.MkStatus [] []).

Definition labelled : World := MkWorld
  (MkCluster {[ v1beta1.TopologyScaleOut := deleted ]} [] Cluster.switches Cluster.nodes) [].
End Worlds.

Lemma reconcile_keeps_labels_witness :
  Forall2 (node_kept (removable Worlds.managed ∅)) Cluster.nodes
    (c_nodes (w_cluster (@Reconcile canonical_order Worlds.managed Worlds.start).2)).
Proof.
  apply (@reconcile_keeps_labels canonical_order Worlds.managed Worlds.start
    (@Reconcile canonical_order Worlds.managed Worlds.start).1).
  - cbn. repeat constructor; set_solver.
  - apply surjective_pairing.
Defined.

(**  The finalizer of a deleted topology is released only after its labels
    are gone: [resetTopology] either fails and leaves every Topology object as it
    was, or all matching Node labels and the domain labels of the role's Switches
    have been removed, and nothing else. *)
Theorem reset_clears_labels `{RangeOrder} object template role w result w' :
  NoDup (corev1.Node_Name <$> c_nodes (w_cluster w)) →
  NoDup (v1beta1.SW_Name <$> c_switches (w_cluster w)) →
  resetTopology object template role w = (result, w') →
  result = Ret () ∧
    c_nodes (w_cluster w') = clearedNode template <$> c_nodes (w_cluster w) ∧
    c_switches (w_cluster w') = clearedSwitch role <$> c_switches (w_cluster w) ∨
  result ≠ Ret () ∧ c_topologies (w_cluster w') = c_topologies (w_cluster w).
Proof.
  intros Hn Hs Hrun.
  pose proof (resetTopology_clears object template role (c_topologies (w_cluster w)) _ _ Hn Hs w
    (conj eq_refl (conj eq_refl eq_refl))) as Hk.
  rewrite Hrun in Hk. destruct result as [[]| | |]; [by left|by right..].
Qed.

Lemma reset_clears_labels_witness :
  let r := @resetTopology canonical_order Worlds.deleted Cluster.template v1beta1.SwitchRoleScaleOut Worlds.labelled in
  r.1 = Ret () ∧ c_nodes (w_cluster r.2) = clearedNode Cluster.template <$> Cluster.nodes ∧
    c_switches (w_cluster r.2) = clearedSwitch v1beta1.SwitchRoleScaleOut <$> Cluster.switches ∨
  r.1 ≠ Ret () ∧ c_topologies (w_cluster r.2) = {[ v1beta1.TopologyScaleOut := Worlds.deleted ]}.
Proof.
  apply (@reset_clears_labels canonical_order Worlds.deleted Cluster.template v1beta1.SwitchRoleScaleOut Worlds.labelled).
  - cbn. repeat constructor; set_solver.
  - cbn. repeat constructor; set_solver.
  - apply surjective_pairing.
Defined.

(**  On a topology [DiscoverTopology] returns, [normalizeDiscoveredGroups]
    always ends, and never because a resource has several parents: the only errors
    left are a cycle, a parent that is no group and a gap between tiers. *)
Theorem normalize_groups_outcome `{RangeOrder} hosts switches options :
  match DiscoverTopology hosts switches options with
  | Ret discovered => climb_outcome (normalizeDiscoveredGroups discovered hosts)
  | _ => False
  end.
Proof.
  destruct (DiscoverTopology_total hosts switches options) as (t & -> & Hs & _).
  by apply normalizeDiscoveredGroups_outcome.
Qed.

(** When the numbers of a tier are used up, the next name does not parse: a later
    reconciliation stops with an error at the label it has written itself. *)
Theorem group_number_overflow :
  let exhausted := [corev1.MkNode "n1" ∅; corev1.MkNode "old" {[ "t/tier-1" := "tier1-group9223372036854775807" ]}] in
  @buildAutoLabelPlan canonical_order v1beta1.SwitchRoleScaleOut Cluster.template
    [Cluster.fabricNode "n1" "leaf-1"] [] exhausted =
  Ret (MkPlan {[ "n1" := {[ "t/tier-1" := "tier1-group-9223372036854775808" ]} ]} ∅) ∧
  parseAutoDomainNameParts "tier1-group-9223372036854775808" = Err (ErrFormat "tier1-group-9223372036854775808").
Proof. vm_compute. split; reflexivity. Qed.

(** ** Configured topologies

    The templates of an accepted configuration never overlap, so that the deletion of one managed
    topology spares the labels of the other. *)
Lemma configured_templates Parse IsQualifiedName cfg cfg' :
  normalizeControllerConfig Parse IsQualifiedName cfg = Ret cfg' →
  ∃ scaleUp scaleOut storage, TopologyLabelTemplates cfg' = Some (MkSet (Some scaleUp) (Some scaleOut) (Some storage)) ∧
    compiledOk scaleOut ∧ compiledOk storage ∧ disjoint_templates scaleOut storage.
Proof.
  unfold normalizeControllerConfig. destruct (normalizeLevelField _ _) as [level| | |]; [|done..]. cbn [mbind go_bind].
  unfold normalizeTopologyLabels. destruct (CompileSet _ _ _ _ _) as [set| | |] eqn:Hset; [|done..]. cbn [mbind go_bind].
  destruct (normalizeControllerNodeTopologyConfig _) as [[]| | |]; [|done..]. cbn [mbind go_bind].
  destruct (normalizeScaleOutDiscoveryConfig _) as [switches| | |]; [|done..]. intros [= <-]. cbn.
  apply CompileSet_ok in Hset as (t1 & t2 & t3 & -> & _ & H2 & H3 & _ & _ & H23). by exists t1, t2, t3.
Qed.

Theorem configured_disjoint Parse IsQualifiedName cfg cfg' :
  normalizeControllerConfig Parse IsQualifiedName cfg = Ret cfg' →
  ∃ managed, configuredManagedTopologies cfg' = Ret managed ∧ NoDup (mt_name <$> managed) ∧
    ∀ t t' key, t ∈ managed → t' ∈ managed → (MatchTier (labelTemplate t) key).2 = true → (MatchTier (labelTemplate t') key).2 = true → t = t'.
Proof.
  intros (t1 & t2 & t3 & Hs & H2 & H3 & H23)%configured_templates. unfold configuredManagedTopologies. rewrite Hs. cbn.
  eexists. split; [done|]. split.
  { destruct (ManageScaleOut _), (ManageStorage _); cbn; repeat constructor; set_solver. }
  assert (∀ key, (MatchTier (Some t2) key).2 = true → (MatchTier (Some t3) key).2 = true → False) as Hno.
  { intros key. destruct (MatchTier (Some t2) key) as [a []] eqn:Ha; [|done]. destruct (MatchTier (Some t3) key) as [b []] eqn:Hb; [|done].
    intros _ _. by eapply (disjoint_MatchTier t2 t3). }
  intros t t' key. destruct (ManageScaleOut _), (ManageStorage _); cbn; rewrite ?elem_of_cons, ?elem_of_nil; intros Ht Ht' Hm Hm';
    destruct_or?; subst; cbn in *; try done; exfalso; by eapply (Hno key).
Qed.

Theorem deletion_spares_others Parse IsQualifiedName cfg cfg' managed topologies t key :
  normalizeControllerConfig Parse IsQualifiedName cfg = Ret cfg' → configuredManagedTopologies cfg' = Ret managed →
  t ∈ managed → (MatchTier (labelTemplate t) key).2 = true →
  (∀ object, topologies !! mt_name t = Some object → v1beta1.Deleting object = false) →
  ~ removable managed topologies key.
Proof.
  intros Hc Hm Ht Hk Hlive (t' & object & Ht' & Ho & Hd & Hk').
  destruct (configured_disjoint _ _ _ _ Hc) as (managed' & Hm' & _ & Hu). rewrite Hm in Hm'. injection Hm' as <-.
  assert (t = t') as <- by (by apply (Hu t t' key)). by rewrite (Hlive _ Ho) in Hd.
Qed.
