(* ===== verification/TopologyStatus.v ===== *)
(** * Topology status

    src/pkg/controller/topologystatus/build.go: one complete status of a Topology
    built from the labels of Nodes and Switches. *)
From stdpp Require Import base gmap sets list strings sorting.
From Stdlib Require Import ZArith Ascii.
From S2P Require Import Prelude GoStrings GoNumbers GoText Api Topology LabelTemplate ApiServer.
Local Open Scope Z_scope.

Record LabeledResource := MkLabeled {
  LR_Name : string;
  LR_Labels : gmap string string
}.

Record LabelSnapshot := MkSnapshot {
  LS_Nodes : list LabeledResource;
  LS_Switches : list LabeledResource
}.

Record BuildResult := MkResult {
  BR_Status : v1beta1.TopologyStatus;
  Pending : list string
}.

Record domainState := MkDomainState {
  ds_domain : v1beta1.TopologyDomain;
  ds_parents : gset string;
  ds_members : gset string
}.

Inductive statusError :=
| ErrNilTemplate
| ErrTwoValues (tier : Z) (existing value : string)
| ErrGap (expected found : Z)
| ErrEmptyDomain
| ErrInvalidDomain (name : string) (problems : list string)
| ErrTierRange (tier : Z)
| ErrTwoTiers (name : string) (tier1 tier2 : Z)
| ErrMultipleParents (child : string) (parents : list string)
| ErrResource (name : string) (e : statusError)
| ErrRequest (e : apiError).

#[export] Instance statusError_api : FromApi statusError := ErrRequest.

(** [fmt.Errorf("Node %q: %w", ...)]. *)
Definition at_resource {A} (name : string) (c : go statusError A) : go statusError A :=
  match c with
  | Err e => Err (ErrResource name e)
  | c => c
  end.

Definition nodeGroupNamePrefix : string := "node-group".

Definition nul : string := String (ascii_of_nat 0) "".

(** [math.MaxInt32] *)
Definition max_int32 : Z := 2 ^ 31 - 1.

Section build.
(** [validation.IsValidLabelValue] of k8s.io/apimachinery: the problems of a label value. *)
Context `{RangeOrder} (IsValidLabelValue : string → list string).

(** ** Domains *)
Definition labelsByTier (labelTemplate : option Template) (labels : gmap string string)
    : go statusError (gmap Z string) :=
  let keys := sort_strings (foldl (fun keys '(key, _) => keys ++ [key]) [] (range labels)) in
  go_foldl (fun (result : gmap Z string) key =>
      let '(tier, ok) := MatchTier labelTemplate key in
      if negb ok then Ret result
      else
        let value := default "" (labels !! key) in
        if decide (value = "") then Ret result
        else match result !! tier with
             | Some existing =>
               if decide (existing ≠ value) then Err (ErrTwoValues tier existing value)
               else Ret (<[tier := value]> result)
             | None => Ret (<[tier := value]> result)
             end)
    ∅ keys.

Definition ensureDomain (domains : gmap string domainState) (name : string) (tier : Z)
    : go statusError (gmap string domainState) :=
  if decide (tier > max_int32) then Err (ErrTierRange tier)
  else match domains !! name with
       | Some existing =>
         if decide (v1beta1.TD_Tier (ds_domain existing) ≠ tier) then
           Err (ErrTwoTiers name (v1beta1.TD_Tier (ds_domain existing)) tier)
         else Ret domains
       | None => Ret (<[name := MkDomainState (v1beta1.MkDomain name tier "" []) ∅ ∅]> domains)
       end.

Definition validateDomainName (name : string) : go statusError unit :=
  if decide (name = "") then Err ErrEmptyDomain
  else match IsValidLabelValue name with
       | [] => Ret ()
       | problems => Err (ErrInvalidDomain name problems)
       end.

Definition sortedTiers (values : gmap Z string) : list Z :=
  sort_ints (foldl (fun tiers '(tier, _) => tiers ++ [tier]) [] (range values)).

Definition sortedSet (values : gset string) : list string := sort_strings (elements values).

Definition nodeGroupKey (path : list string) : string := join nul path.

(** ** Node groups *)
Definition parseNodeGroupNumber (name : string) : Z * bool :=
  match strip_prefix nodeGroupNamePrefix name with
  | None => (0, false)
  | Some suffix =>
    if decide (suffix = "") then (0, false)
    else match Atoi suffix with
         | None => (0, false)
         | Some number => if decide (number ≤ 0) then (0, false) else (number, true)
         end
  end.

Definition named (group : v1beta1.TopologyNodeGroup) (name : string) : v1beta1.TopologyNodeGroup :=
  v1beta1.MkNodeGroup name (v1beta1.NG_Nodes group) (v1beta1.SwitchDomainPath group).

(** The names and numbers of the previous groups. *)
Definition recordPrevious (st : gmap string string * gset Z) (previous : v1beta1.TopologyNodeGroup)
    : gmap string string * gset Z :=
  (<[nodeGroupKey (v1beta1.SwitchDomainPath previous) := v1beta1.NG_Name previous]> st.1,
   let '(number, ok) := parseNodeGroupNumber (v1beta1.NG_Name previous) in
   if ok then {[ number ]} ∪ st.2 else st.2).

(** The loop that looks for a free number. *)
Definition freeStep (used : gset Z) (nextNumber : Z) : Z + Z :=
  if decide (nextNumber ∈ used) then inl (nextNumber + 1) else inr nextNumber.

Definition freeNumber (used : gset Z) (nextNumber : Z) : go statusError Z :=
  while_go (freeStep used) (N.of_nat (S (size used))) nextNumber.

Definition assignName (previousNameByKey : gmap string string)
    (st : list v1beta1.TopologyNodeGroup * gset Z * Z) (group : v1beta1.TopologyNodeGroup)
    : go statusError (list v1beta1.TopologyNodeGroup * gset Z * Z) :=
  let '(groups, used, nextNumber) := st in
  let name := default "" (previousNameByKey !! nodeGroupKey (v1beta1.SwitchDomainPath group)) in
  if decide (name ≠ "") then Ret (groups ++ [named group name], used, nextNumber)
  else
    number ← freeNumber used nextNumber;
    Ret (groups ++ [named group (nodeGroupNamePrefix +:+ Itoa number)], {[ number ]} ∪ used, number + 1).

Definition assignNodeGroupNames (groups previousNodeGroups : list v1beta1.TopologyNodeGroup)
    : go statusError (list v1beta1.TopologyNodeGroup) :=
  let '(previousNameByKey, usedNumbers) := foldl recordPrevious (∅, ∅) previousNodeGroups in
  st ← go_foldl (assignName previousNameByKey) ([], usedNumbers, 1) groups;
  Ret st.1.1.

(** ** The Nodes *)
Record buildState := MkBuild {
  bs_domains : gmap string domainState;
  bs_groups : gmap string v1beta1.TopologyNodeGroup
}.

(** The loop over the tiers of a Node. *)
Fixpoint checkTiers (valuesByTier : gmap Z string) (index : Z) (tiers : list Z) (domains : gmap string domainState)
    : go statusError (gmap string domainState) :=
  match tiers with
  | [] => Ret domains
  | tier :: tiers =>
    if decide (tier ≠ index + 1) then Err (ErrGap (index + 1) tier)
    else
      let value := default "" (valuesByTier !! tier) in
      _ ← validateDomainName value;
      domains ← ensureDomain domains value tier;
      checkTiers valuesByTier (index + 1) tiers domains
  end.

(** One step of the loop that records parents; a missing domain is a nil pointer. *)
Definition linkParent (valuesByTier : gmap Z string) (domains : gmap string domainState) (tier : Z)
    : go statusError (gmap string domainState) :=
  let childName := default "" (valuesByTier !! tier) in
  let parentName := default "" (valuesByTier !! (tier + 1)) in
  match domains !! childName with
  | None => Panic
  | Some child =>
    let parents := {[ parentName ]} ∪ ds_parents child in
    if decide (1 < size parents)%nat then Err (ErrMultipleParents childName (sortedSet parents))
    else Ret (<[childName := MkDomainState (ds_domain child) parents (ds_members child)]> domains)
  end.

(** The tiers [from], [from + 1], ... of a counting loop with [count] rounds. *)
Definition counting (from : Z) (count : nat) : list Z := (fun i => from + Z.of_nat i) <$> seq 0 count.

Definition domainPath (valuesByTier : gmap Z string) (count : nat) : list string :=
  (fun tier => default "" (valuesByTier !! tier)) <$> reverse (counting 1 count).

Definition addToGroup (groups : gmap string v1beta1.TopologyNodeGroup) (path : list string) (name : string)
    : gmap string v1beta1.TopologyNodeGroup :=
  let group := default (v1beta1.MkNodeGroup "" [] path) (groups !! nodeGroupKey path) in
  <[nodeGroupKey path :=
      v1beta1.MkNodeGroup (v1beta1.NG_Name group) (v1beta1.NG_Nodes group ++ [name])
        (v1beta1.SwitchDomainPath group)]> groups.

Definition buildNode (labelTemplate : option Template) (st : buildState) (node : LabeledResource)
    : go statusError buildState :=
  valuesByTier ← at_resource (LR_Name node) (labelsByTier labelTemplate (LR_Labels node));
  if decide (valuesByTier = ∅) then Ret st
  else
    let tiers := sortedTiers valuesByTier in
    domains ← at_resource (LR_Name node) (checkTiers valuesByTier 0 tiers (bs_domains st));
    domains ← go_foldl (linkParent valuesByTier) domains (counting 1 (length tiers - 1));
    Ret (MkBuild domains (addToGroup (bs_groups st) (domainPath valuesByTier (length tiers)) (LR_Name node))).

(** ** The Switches *)
Definition pendingMessage (switch value : string) : string :=
  "Switch " +:+ Quote switch +:+ " domain " +:+ Quote value +:+ " has no matching Node domain".

Definition buildSwitch (st : gmap string domainState * list string) (sw : LabeledResource)
    : go statusError (gmap string domainState * list string) :=
  let '(domains, pending) := st in
  let value := default "" (LR_Labels sw !! v1beta1.TopologyDomainLabel) in
  if decide (value = "") then Ret st
  else
    _ ← at_resource (LR_Name sw) (validateDomainName value);
    match domains !! value with
    | None => Ret (domains, pending ++ [pendingMessage (LR_Name sw) value])
    | Some d =>
      Ret (<[value := MkDomainState (ds_domain d) (ds_parents d) ({[ LR_Name sw ]} ∪ ds_members d)]> domains, pending)
    end.

(** ** The status *)
Definition resource_le (a b : LabeledResource) : Prop := String.le (LR_Name a) (LR_Name b).
#[export] Instance resource_le_dec a b : Decision (resource_le a b) := String.le_dec (LR_Name a) (LR_Name b).

Definition domain_le (a b : v1beta1.TopologyDomain) : Prop :=
  v1beta1.TD_Tier a > v1beta1.TD_Tier b ∨
  v1beta1.TD_Tier a = v1beta1.TD_Tier b ∧ String.le (v1beta1.TD_Name a) (v1beta1.TD_Name b).
#[export] Instance domain_le_dec a b : Decision (domain_le a b).
Proof. unfold domain_le. apply _. Defined.

Definition group_le (a b : v1beta1.TopologyNodeGroup) : Prop :=
  let left := join nul (v1beta1.SwitchDomainPath a) in
  let right := join nul (v1beta1.SwitchDomainPath b) in
  str_ltb left right = true ∨
  left = right ∧ String.le (join nul (v1beta1.NG_Nodes a)) (join nul (v1beta1.NG_Nodes b)).
#[export] Instance group_le_dec a b : Decision (group_le a b).
Proof. unfold group_le. apply _. Defined.

Definition finishDomain (state : domainState) : v1beta1.TopologyDomain :=
  let d := ds_domain state in
  v1beta1.MkDomain (v1beta1.TD_Name d) (v1beta1.TD_Tier d)
    (if decide (size (ds_parents state) = 1%nat) then default "" (head (sortedSet (ds_parents state)))
     else v1beta1.Parent d)
    (sortedSet (ds_members state)).

Definition finishGroup (group : v1beta1.TopologyNodeGroup) : v1beta1.TopologyNodeGroup :=
  v1beta1.MkNodeGroup (v1beta1.NG_Name group) (sort_strings (v1beta1.NG_Nodes group)) (v1beta1.SwitchDomainPath group).

Definition BuildTopologyStatus (labelTemplate : option Template) (snapshot : LabelSnapshot)
    (previousNodeGroups : list v1beta1.TopologyNodeGroup) : go statusError BuildResult :=
  match labelTemplate with
  | None => Err ErrNilTemplate
  | Some _ =>
    st ← go_foldl (buildNode labelTemplate) (MkBuild ∅ ∅) (merge_sort resource_le (LS_Nodes snapshot));
    '(domains, pending) ← go_foldl buildSwitch (bs_domains st, [])
      (merge_sort resource_le (LS_Switches snapshot));
    let statusDomains := merge_sort domain_le
      (foldl (fun l '(_, state) => l ++ [finishDomain state]) [] (range domains)) in
    let statusNodes := merge_sort group_le
      (foldl (fun l '(_, group) => l ++ [finishGroup group]) [] (range (bs_groups st))) in
    statusNodes ← assignNodeGroupNames statusNodes previousNodeGroups;
    Ret (MkResult (v1beta1.MkStatus statusDomains statusNodes) (sort_strings pending))
  end.
End build.
