(* ===== verification/TopologyStatusReconcile.v ===== *)
(** * The status reconcilers

    src/pkg/controller/topologystatus/controller.go writes the status of a Topology,
    fabricnode_controller.go records on each FabricNode the topologies its Node
    takes part in.  Metrics, logs and events have no effect on the objects. *)
From stdpp Require Import base gmap sets list strings sorting.
From Stdlib Require Import ZArith.
From S2P Require Import Prelude GoStrings GoNumbers GoText Api Topology LabelTemplate ApiServer TopologyStatus.
Local Open Scope Z_scope.

(** [reconcile.Result]; durations are in nanoseconds. *)
Record Result := MkReconcileResult {
  Requeue : bool;
  RequeueAfter : Z
}.

#[export] Instance Result_eq_dec : EqDecision Result.
Proof. solve_decision. Defined.

Definition finished : Result := MkReconcileResult false 0.
Definition requeue : Result := MkReconcileResult true 0.
Definition requeueIn (delay : Z) : Result := MkReconcileResult false delay.

Definition topologyStatusDebounce : Z := 250 * 1000 * 1000.

#[export] Instance TopologyDomain_eq_dec : EqDecision v1beta1.TopologyDomain.
Proof. solve_decision. Defined.
#[export] Instance TopologyNodeGroup_eq_dec : EqDecision v1beta1.TopologyNodeGroup.
Proof. solve_decision. Defined.
#[export] Instance TopologyStatus_eq_dec : EqDecision v1beta1.TopologyStatus.
Proof. solve_decision. Defined.

(** ** Debouncing

    The time before which a topology is not reconciled, per name. *)
Definition debounceDelay (debounce : Z) (notBefore : gmap string Z) (name : string) (now : Z) : Z * gmap string Z :=
  if decide (debounce ≤ 0) then (0, notBefore)
  else match notBefore !! name with
       | None => (debounce, <[name := now + debounce]> notBefore)
       | Some deadline =>
         if decide (now < deadline) then (deadline - now, notBefore) else (0, delete name notBefore)
       end.

(** ** Which objects matter *)
Definition effectiveTopologySwitchRole (sw : v1beta1.Switch) : v1beta1.SwitchRole :=
  if decide (v1beta1.Role sw = "") then v1beta1.SwitchRoleScaleOut else v1beta1.Role sw.

Definition switchBelongsToTopology (sw : v1beta1.Switch) (topologyName : string) : bool :=
  let role := effectiveTopologySwitchRole sw in
  if decide (topologyName = v1beta1.TopologyScaleOut) then bool_decide (role = v1beta1.SwitchRoleScaleOut)
  else if decide (topologyName = v1beta1.TopologyScaleUp) then bool_decide (role = v1beta1.SwitchRoleScaleUp)
  else if decide (topologyName = v1beta1.TopologyStorage) then bool_decide (role = v1beta1.SwitchRoleStorage)
  else false.

Definition topologyStatusEmpty (status : v1beta1.TopologyStatus) : bool :=
  bool_decide (v1beta1.Domains status = []) && bool_decide (v1beta1.TS_Nodes status = []).

Definition newFixedTopology (name : string) : v1beta1.Topology :=
  v1beta1.MkTopology name false [] (v1beta1.MkStatus [] []).

Definition fixedTopologyRequests : list string := v1beta1.FixedTopologyNames.

Definition with_status (status : v1beta1.TopologyStatus) (t : v1beta1.Topology) : v1beta1.Topology :=
  v1beta1.MkTopology (v1beta1.T_Name t) (v1beta1.Deleting t) (v1beta1.Finalizers t) status.

Definition with_topologies (topologies : list string) (n : v1beta1.FabricNode) : v1beta1.FabricNode :=
  v1beta1.MkFabricNode (v1beta1.FN_Name n) (v1beta1.NodeRole n) (v1beta1.ScaleOutNics n) (v1beta1.StorageNics n) topologies.

(** The events a predicate sees. *)
Inductive objectEvent (T : Type) :=
| CreateEvent (o : T)
| DeleteEvent (o : T)
| UpdateEvent (old new : T)
| GenericEvent (o : T).
Arguments CreateEvent {_}.
Arguments DeleteEvent {_}.
Arguments UpdateEvent {_}.
Arguments GenericEvent {_}.

Section predicates.
Context `{RangeOrder}.

Definition filteredTopologyLabels (labels : gmap string string) (templates : option LabelSet) : gmap string string :=
  match templates with
  | None => ∅
  | Some _ =>
    foldl (fun result '(key, value) =>
        if v1beta1.IsTopologyDomainLabel key then <[key := value]> result
        else if existsb (fun labelTemplate => (MatchTier labelTemplate key).2) (All templates) then
          <[key := value]> result
        else result)
      ∅ (range labels)
  end.

Definition hasTopologyLabels (labels : gmap string string) (templates : option LabelSet) : bool :=
  bool_decide (filteredTopologyLabels labels templates ≠ ∅).

(** The [UpdateFunc] of [topologyLabelPredicate], for Nodes and for Switches. *)
Definition nodeLabelPredicate (templates : option LabelSet) (old new : corev1.Node) : bool :=
  bool_decide (filteredTopologyLabels (corev1.Node_Labels old) templates ≠
               filteredTopologyLabels (corev1.Node_Labels new) templates).

Definition switchLabelPredicate (templates : option LabelSet) (old new : v1beta1.Switch) : bool :=
  bool_decide (effectiveTopologySwitchRole old ≠ effectiveTopologySwitchRole new) ||
  bool_decide (filteredTopologyLabels (v1beta1.SW_Labels old) templates ≠
               filteredTopologyLabels (v1beta1.SW_Labels new) templates).

(** [topologyLabelPredicate], for Nodes and for Switches, [createOnlyPredicate]
    and [fixedTopologyPredicate] on all events. *)
Definition nodeEventPredicate (templates : option LabelSet) (e : objectEvent corev1.Node) : bool :=
  match e with
  | CreateEvent o | DeleteEvent o | GenericEvent o => hasTopologyLabels (corev1.Node_Labels o) templates
  | UpdateEvent old new => nodeLabelPredicate templates old new
  end.

Definition switchEventPredicate (templates : option LabelSet) (e : objectEvent v1beta1.Switch) : bool :=
  match e with
  | CreateEvent o | DeleteEvent o | GenericEvent o => hasTopologyLabels (v1beta1.SW_Labels o) templates
  | UpdateEvent old new => switchLabelPredicate templates old new
  end.

Definition createOnlyPredicate {T} (e : objectEvent T) : bool := match e with CreateEvent _ => true | _ => false end.

Definition fixedTopologyPredicate (e : objectEvent v1beta1.Topology) : bool :=
  let fixed object := v1beta1.IsFixedTopologyName (v1beta1.T_Name object) in
  match e with
  | CreateEvent o | DeleteEvent o | GenericEvent o => fixed o
  | UpdateEvent old new => fixed new && bool_decide (v1beta1.Deleting old ≠ v1beta1.Deleting new)
  end.

Definition matchingTopologies (labels : gmap string string) (templates : option LabelSet) : list string :=
  match templates with
  | None => []
  | Some _ =>
    if decide (labels = ∅) then []
    else foldl (fun matches name =>
        if existsb (fun '(key, _) => (MatchTier (ForTopology templates name) key).2) (range labels)
        then matches ++ [name] else matches)
      [] v1beta1.FixedTopologyNames
  end.
End predicates.

(** ** The handlers *)
Section handlers.
Context `{RangeOrder} (IsValidLabelValue : string → list string) (templates : option LabelSet).

Definition takeSnapshot (name : string) (nodes : list corev1.Node) (switches : list v1beta1.Switch) : LabelSnapshot :=
  MkSnapshot ((fun n => MkLabeled (corev1.Node_Name n) (corev1.Node_Labels n)) <$> nodes)
    ((fun s => MkLabeled (v1beta1.SW_Name s) (v1beta1.SW_Labels s)) <$>
       filter (fun s => switchBelongsToTopology s name = true) switches).

(** Writing a status that has changed. *)
Definition writeStatus (object : v1beta1.Topology) (status : v1beta1.TopologyStatus) : M statusError Result :=
  if decide (v1beta1.T_Status object = status) then mret finished
  else _ ← patchTopology (with_status status object); mret finished.

(** The part of [Reconcile] after the debouncing. *)
Definition reconcileStatus (name : string) : M statusError Result :=
  object ← getTopology name;
  if match object with Some t => v1beta1.Deleting t | None => false end then mret finished
  else
    nodes ← listNodes;
    switches ← listSwitches;
    let previous := from_option (fun t => v1beta1.TS_Nodes (v1beta1.T_Status t)) [] object in
    result ← pure (BuildTopologyStatus IsValidLabelValue (ForTopology templates name)
                     (takeSnapshot name nodes switches) previous);
    match object with
    | Some object => writeStatus object (BR_Status result)
    | None =>
      if topologyStatusEmpty (BR_Status result) then mret finished
      else
        created ← try_call (add_topology (newFixedTopology name));
        match created with
        | inr ApiExists => mret requeue
        | inr e => pure (Err (ErrRequest e))
        | inl _ => writeStatus (newFixedTopology name) (BR_Status result)
        end
    end.

(** One request: the new debouncing state, and what is done. *)
Definition Reconcile (debounce : Z) (notBefore : gmap string Z) (now : Z) (name : string)
    : gmap string Z * M statusError Result :=
  if negb (v1beta1.IsFixedTopologyName name) then (notBefore, mret finished)
  else
    let '(delay, notBefore) := debounceDelay debounce notBefore name now in
    (notBefore, if decide (delay > 0) then mret (requeueIn delay) else reconcileStatus name).

(** [fabricNodeTopologyReconciler.Reconcile]: the only writer of the topologies of
    a FabricNode. *)
Definition fabricNodeTopologyReconcile (name : string) : M statusError Result :=
  node ← getNode name;
  match node with
  | None => mret finished
  | Some node =>
    fabricNode ← getFabricNode name;
    match fabricNode with
    | None => mret finished
    | Some fabricNode =>
      let desired := matchingTopologies (corev1.Node_Labels node) templates in
      if decide (v1beta1.FN_Topologies fabricNode = desired) then mret finished
      else
        patched ← try_call (put_fabricNode (with_topologies desired fabricNode));
        match patched with
        | inr ApiConflict => mret requeue
        | inr e => pure (Err (ErrRequest e))
        | inl _ => mret finished
        end
    end
  end.
End handlers.
