(* ===== verification/TopologyStatusFacts.v ===== *)
(** * The status built from labels

    Facts about src/pkg/controller/topologystatus/build.go: the invariants of the
    loops over Nodes and Switches, and the names of node groups. *)
From stdpp Require Import base gmap sets list strings sorting.
From Stdlib Require Import ZArith Ascii.
From S2P Require Import Prelude GoStrings GoNumbers GoText Api Topology GraphFacts LabelTemplate LabelTemplateFacts ApiServer TopologyStatus.
Local Open Scope Z_scope.

(** ** Labels by tier *)

(** A resource carries the value [v] at tier [t]. *)
Definition tierValue (tm : option Template) (labels : gmap string string) (t : Z) (v : string) : Prop :=
  ∃ key, labels !! key = Some v ∧ MatchTier tm key = (t, true) ∧ v ≠ "".

Section labels.
Context `{RangeOrder}.

Lemma labelsByTier_ret tm labels m :
  labelsByTier tm labels = Ret m → ∀ t v, m !! t = Some v ↔ tierValue tm labels t v.
Proof.
  unfold labelsByTier. rewrite keys_of_range. intros Hrun t v.
  set (keys := sort_strings (range labels).*1) in Hrun.
  assert (m !! t = Some v ↔ ∃ key, key ∈ keys ∧ labels !! key = Some v ∧ MatchTier tm key = (t, true) ∧ v ≠ "") as Hm.
  { apply (go_foldl_ret (fun seen (m : gmap Z string) => m !! t = Some v ↔
      ∃ key, key ∈ seen ∧ labels !! key = Some v ∧ MatchTier tm key = (t, true) ∧ v ≠ "") _ _ _ _ Hrun).
    { rewrite lookup_empty. split; [done|]. intros (key & Hin & _). by apply elem_of_nil in Hin. }
    intros seen key todo m1 m2 Heq IH Hstep. rewrite exists_snoc, <-IH. clear IH.
    assert (is_Some (labels !! key)) as [value Hv].
    { rewrite <-elem_of_range_keys, <-elem_of_sort_strings. fold keys. rewrite Heq. set_solver. }
    rewrite Hv in *. cbn [default] in Hstep.
    destruct (MatchTier tm key) as [t' []] eqn:Hk; cbn [negb] in Hstep; [|simplify_eq; naive_solver].
    case_decide as Hne; [simplify_eq; naive_solver|].
    assert (m2 = <[t' := value]> m1 ∧ (m1 !! t' = None ∨ m1 !! t' = Some value)) as [-> Hold].
    { destruct (m1 !! t') as [e|] eqn:He; [|by simplify_eq; auto]. destruct (decide (e = value)) as [->|Hev].
      - rewrite decide_False in Hstep by tauto. simplify_eq. auto.
      - by rewrite decide_True in Hstep. }
    destruct (decide (t' = t)) as [->|Hne'].
    - rewrite lookup_insert_eq. split.
      + intros [= <-]. by right.
      + intros [Hm1|([= <-] & _)]; [|done]. destruct Hold; congruence.
    - rewrite lookup_insert_ne by done. split; [by left|]. intros [?|(_ & [= ?] & _)]; [done|congruence]. }
  rewrite Hm. unfold tierValue. split; [intros (key & _ & ?); by exists key|].
  intros (key & Hl & ?). exists key. split; [|done]. unfold keys. rewrite elem_of_sort_strings, elem_of_range_keys.
  eauto.
Qed.

(** A compiled template gives different tiers different keys, so a Node cannot have
    two values for one tier. *)
Lemma labelsByTier_total t labels :
  compiledOk t → ∃ m, labelsByTier (Some t) labels = Ret m.
Proof.
  intros Hok. unfold labelsByTier. rewrite keys_of_range.
  set (keys := sort_strings (range labels).*1).
  assert (NoDup keys) as Hnd by (apply NoDup_sort_strings, NoDup_range_keys).
  match goal with |- ∃ m, go_foldl ?f ∅ keys = Ret m =>
    destruct (go_foldl_inv (fun seen (m : gmap Z string) => ∀ tier v, m !! tier = Some v →
      ∃ key, key ∈ seen ∧ MatchTier (Some t) key = (tier, true)) f keys ∅) as (m & Hm & _); [| |by exists m] end.
  { intros tier v. by rewrite lookup_empty. }
  intros seen key todo m Heq IH. rewrite Heq in Hnd.
  destruct (MatchTier (Some t) key) as [tier []] eqn:Hk; cbn [negb]; cycle 1.
  { exists m. split; [done|]. intros t' v Hv. destruct (IH t' v Hv) as (k & ? & ?). exists k. set_solver. }
  case_decide.
  { exists m. split; [done|]. intros t' v Hv. destruct (IH t' v Hv) as (k & ? & ?). exists k. set_solver. }
  destruct (m !! tier) as [e|] eqn:He.
  - destruct (IH _ _ He) as (k & Hin & Hk'). exfalso.
    assert (k = key) as ->.
    { apply MatchTier_spec in Hk as [_ Hr], Hk' as [_ Hr']; [|done..]. congruence. }
    apply NoDup_app in Hnd as (_ & Hd & _). apply (Hd _ Hin). set_solver.
  - eexists. split; [done|]. intros t' v [[<- _]|[_ Hv]]%lookup_insert_Some; [exists key; set_solver|].
    destruct (IH t' v Hv) as (k & ? & ?). exists k. set_solver.
Qed.

Lemma sortedTiers_spec (m : gmap Z string) t : t ∈ sortedTiers m ↔ is_Some (m !! t).
Proof. unfold sortedTiers. rewrite keys_of_range, elem_of_sort_ints. apply elem_of_range_keys. Qed.
End labels.

(** ** Keys of node groups *)
Fixpoint nul_free (s : string) : bool :=
  match s with
  | "" => true
  | String c s => negb (bool_decide (c = ascii_of_nat 0)) && nul_free s
  end.

Lemma nul_split a b x y :
  nul_free a = true → nul_free b = true → a +:+ nul +:+ x = b +:+ nul +:+ y → a = b ∧ x = y.
Proof.
  revert b. induction a as [|c a IH]; intros [|d b] Ha Hb Heq; cbn in Heq.
  - by injection Heq.
  - injection Heq as <- _. cbn in Hb. by rewrite bool_decide_true in Hb.
  - injection Heq as -> _. cbn in Ha. by rewrite bool_decide_true in Ha.
  - injection Heq as <- Heq. cbn in Ha, Hb. apply andb_prop in Ha as [_ Ha], Hb as [_ Hb].
    destruct (IH b Ha Hb Heq) as [-> ->]. done.
Qed.

Lemma nul_free_no_nul a b : nul_free (a +:+ nul +:+ b) = false.
Proof. induction a as [|c a IH]; [done|]. rewrite str_app_cons. cbn [nul_free]. by rewrite IH, andb_false_r. Qed.

Lemma nodeGroupKey_inj p q :
  p ≠ [] → q ≠ [] → Forall (fun s => nul_free s = true) p → Forall (fun s => nul_free s = true) q →
  nodeGroupKey p = nodeGroupKey q → p = q.
Proof.
  unfold nodeGroupKey. revert q. induction p as [|x p IH]; intros q Hp Hq Fp Fq Heq; [done|].
  destruct q as [|y q]; [done|]. apply Forall_cons in Fp as [Hx Fp], Fq as [Hy Fq].
  destruct p as [|x' p], q as [|y' q].
  - cbn in Heq. by subst.
  - exfalso. change (x = y +:+ nul +:+ join nul (y' :: q)) in Heq. rewrite Heq, nul_free_no_nul in Hx. done.
  - exfalso. change (x +:+ nul +:+ join nul (x' :: p) = y) in Heq. rewrite <-Heq, nul_free_no_nul in Hy. done.
  - change (x +:+ nul +:+ join nul (x' :: p) = y +:+ nul +:+ join nul (y' :: q)) in Heq.
    apply nul_split in Heq as [-> Heq]; [|done..]. f_equal. by apply IH.
Qed.

(** ** Domains *)
Section domains.
Context `{RangeOrder} (IsValidLabelValue : string → list string).

(** [O t d]: the domain [d] occurs at tier [t]; [L d p]: [p] is a parent of [d]. *)
Record dom_inv (O : Z → string → Prop) (L : string → string → Prop) (domains : gmap string domainState) : Prop := {
  di_domain d s : domains !! d = Some s →
    ds_domain s = v1beta1.MkDomain d (v1beta1.TD_Tier (ds_domain s)) "" [] ∧ ds_members s = ∅ ∧
    O (v1beta1.TD_Tier (ds_domain s)) d ∧ (size (ds_parents s) ≤ 1)%nat ∧ ∀ p, p ∈ ds_parents s ↔ L d p;
  di_occurs t d : O t d → ∃ s, domains !! d = Some s ∧ v1beta1.TD_Tier (ds_domain s) = t;
  di_linked d p : L d p → ∃ t, O t d
}.

Lemma dom_inv_ext O L O' L' domains :
  (∀ t d, O t d ↔ O' t d) → (∀ d p, L d p ↔ L' d p) → dom_inv O L domains → dom_inv O' L' domains.
Proof.
  intros HO HL [a b c]. split.
  - intros d s Hd. destruct (a d s Hd) as (? & ? & ? & ? & Hp). split_and!; [done|done|by apply HO|done|].
    intros p. by rewrite Hp, HL.
  - intros t d Ht. apply b. by apply HO.
  - intros d p Hl. apply HL in Hl. destruct (c d p Hl) as [t Ht]. exists t. by apply HO.
Qed.

Lemma ensureDomain_inv O L domains name tier domains' :
  dom_inv O L domains → ensureDomain domains name tier = Ret domains' →
  dom_inv (fun t d => O t d ∨ t = tier ∧ d = name) L domains' ∧ tier ≤ max_int32.
Proof.
  intros [a b c]. unfold ensureDomain. case_decide; [done|]. intros Hr. split; [|lia].
  destruct (domains !! name) as [s|] eqn:Hn.
  - case_decide as Ht; [done|]. injection Hr as <-.
    assert (v1beta1.TD_Tier (ds_domain s) = tier) as <-
      by (by destruct (decide (v1beta1.TD_Tier (ds_domain s) = tier))).
    split; [| |naive_solver].
    + intros d s' Hd. destruct (a d s' Hd) as (? & ? & ? & ? & ?). naive_solver.
    + intros t d [?|[-> ->]]; eauto.
  - injection Hr as <-. split; [| |naive_solver].
    + intros d s' [[<- <-]|[Hne Hd]]%lookup_insert_Some; cbn.
      * split_and!; [done|done|naive_solver|rewrite size_empty; lia|]. intros p. split; [set_solver|].
        intros Hl. destruct (c _ _ Hl) as [t Ht]. destruct (b _ _ Ht) as (s & ? & _). congruence.
      * destruct (a d s' Hd) as (? & ? & ? & ? & ?). naive_solver.
    + intros t d [Ht|[-> ->]]; [|rewrite lookup_insert_eq; eauto].
      destruct (b _ _ Ht) as (s & Hs & ?). exists s. split; [|done]. rewrite lookup_insert_ne; congruence.
Qed.

(** What a Node with the values [m] adds. *)
Definition occurs_in (m : gmap Z string) (t : Z) (d : string) : Prop := m !! t = Some d.
Definition linked_in (m : gmap Z string) (d p : string) : Prop := ∃ t, m !! t = Some d ∧ m !! (t + 1) = Some p.

Lemma validateDomainName_ok name :
  validateDomainName IsValidLabelValue name = Ret () → name ≠ "" ∧ IsValidLabelValue name = [].
Proof. unfold validateDomainName. case_decide; [done|]. by destruct (IsValidLabelValue name). Qed.

Lemma counting_S from n : counting from (S n) = from :: counting (from + 1) n.
Proof.
  unfold counting. cbn [seq fmap list_fmap]. f_equal; [lia|]. rewrite <-fmap_S_seq, <-list_fmap_compose.
  apply list_fmap_ext. intros i x _. cbn. lia.
Qed.

Lemma elem_of_counting from n t : t ∈ counting from n ↔ from ≤ t < from + Z.of_nat n.
Proof.
  unfold counting. rewrite list_elem_of_fmap. setoid_rewrite elem_of_seq. split.
  - intros (i & -> & ?). lia.
  - intros Ht. exists (Z.to_nat (t - from)). lia.
Qed.

Lemma checkTiers_inv m idx tiers O L domains domains' :
  dom_inv O L domains → checkTiers IsValidLabelValue m idx tiers domains = Ret domains' →
  tiers = counting (idx + 1) (length tiers) ∧
  dom_inv (fun t d => O t d ∨ t ∈ tiers ∧ d = default "" (m !! t)) L domains' ∧
  ∀ t, t ∈ tiers → IsValidLabelValue (default "" (m !! t)) = [] ∧ t ≤ max_int32.
Proof.
  revert idx O domains. induction tiers as [|tier tiers IH]; intros idx O domains Hi Hr; cbn [checkTiers] in Hr.
  { injection Hr as <-. split; [done|]. split; [|set_solver].
    eapply dom_inv_ext; [| |exact Hi]; [|done]. set_solver. }
  case_decide as Ht; [done|]. assert (tier = idx + 1) as -> by lia.
  destruct (validateDomainName _ _) as [[]| | |] eqn:Hv; cbn [mbind go_bind] in Hr; [|done..].
  destruct (ensureDomain _ _ _) as [domains1| | |] eqn:He; cbn [mbind go_bind] in Hr; [|done..].
  destruct (ensureDomain_inv _ _ _ _ _ _ Hi He) as [Hi1 Hmax].
  destruct (IH _ _ _ Hi1 Hr) as (Ht' & Hi' & Hval). split_and!.
  - cbn [length]. by rewrite counting_S, <-Ht'.
  - eapply dom_inv_ext; [| |exact Hi']; [|done]. set_solver.
  - apply validateDomainName_ok in Hv as [_ ?]. set_solver.
Qed.

Lemma linkParent_inv m O L domains tier domains' :
  dom_inv O L domains → linkParent m domains tier = Ret domains' →
  dom_inv O (fun d p => L d p ∨ d = default "" (m !! tier) ∧ p = default "" (m !! (tier + 1))) domains'.
Proof.
  intros [a b c]. unfold linkParent. destruct (domains !! _) as [child|] eqn:Hc; [|done].
  case_decide as Hsz; [done|]. intros [= <-]. set (cn := default "" (m !! tier)) in *.
  destruct (a _ _ Hc) as (Hd & Hm & HO & _ & HL). split.
  - intros d s [[<- <-]|[Hne Hs]]%lookup_insert_Some; cbn.
    + split_and!; [done|done|done|lia|]. intros p. rewrite elem_of_union, elem_of_singleton, HL. naive_solver.
    + destruct (a _ _ Hs) as (? & ? & ? & ? & HL'). split_and!; [done..|]. intros p. rewrite HL'. naive_solver.
  - intros t d Ht. destruct (b _ _ Ht) as (s & Hs & Hts). destruct (decide (cn = d)) as [<-|Hne].
    + rewrite lookup_insert_eq. eexists. split; [done|]. cbn. congruence.
    + rewrite lookup_insert_ne by done. eauto.
  - intros d p [Hl|[-> ->]]; [by eapply c|]. eauto.
Qed.

Lemma linkParents_inv m O L domains tiers domains' :
  dom_inv O L domains → go_foldl (linkParent m) domains tiers = Ret domains' →
  dom_inv O (fun d p => L d p ∨ ∃ t, t ∈ tiers ∧ d = default "" (m !! t) ∧ p = default "" (m !! (t + 1))) domains'.
Proof.
  intros Hi Hr. apply (go_foldl_ret (fun seen q => dom_inv O (fun d p => L d p ∨
    ∃ t, t ∈ seen ∧ d = default "" (m !! t) ∧ p = default "" (m !! (t + 1))) q) _ _ _ _ Hr).
  { eapply dom_inv_ext; [done| |exact Hi]. intros d p. split; [by left|]. intros [?|(t & Ht & _)]; [done|].
    by apply elem_of_nil in Ht. }
  intros seen t todo q q' _ Hq Hstep. eapply dom_inv_ext; [done| |by eapply linkParent_inv].
  intros d p. cbn. rewrite exists_snoc. tauto.
Qed.
End domains.

(** ** The loop over the Nodes *)

(** The domain path of a Node, from the highest tier down to tier 1. *)
Definition is_path (tm : option Template) (labels : gmap string string) (path : list string) : Prop :=
  path ≠ [] ∧ ∀ t v, tierValue tm labels t v ↔ 1 ≤ t ∧ reverse path !! Z.to_nat (t - 1) = Some v.

Lemma is_path_unique tm labels p q : is_path tm labels p → is_path tm labels q → p = q.
Proof.
  intros [_ Hp] [_ Hq]. apply (inj reverse), list_eq. intros i. apply option_eq. intros v.
  specialize (Hp (Z.of_nat i + 1) v). specialize (Hq (Z.of_nat i + 1) v).
  replace (Z.to_nat (Z.of_nat i + 1 - 1)) with i in * by lia. split; intros Hv; [apply Hq, Hp|apply Hp, Hq]; split; [lia|done|lia|done].
Qed.

Record grp_inv (P : list string → string → Prop) (groups : gmap string v1beta1.TopologyNodeGroup) : Prop := {
  gi_group k g : groups !! k = Some g → k = nodeGroupKey (v1beta1.SwitchDomainPath g) ∧ v1beta1.NG_Name g = "" ∧
    v1beta1.NG_Nodes g ≠ [] ∧ ∀ n, n ∈ v1beta1.NG_Nodes g → P (v1beta1.SwitchDomainPath g) n;
  gi_node path n : P path n → ∃ g, groups !! nodeGroupKey path = Some g ∧
    v1beta1.SwitchDomainPath g = path ∧ n ∈ v1beta1.NG_Nodes g
}.

Section nodes.
Context `{RangeOrder} (IsValidLabelValue : string → list string) (tm : option Template).
Context (Hvalid : ∀ v, IsValidLabelValue v = [] → nul_free v = true).

Definition good_path (path : list string) : Prop := path ≠ [] ∧ Forall (fun v => IsValidLabelValue v = []) path.

Lemma good_key_inj p q : good_path p → good_path q → nodeGroupKey p = nodeGroupKey q → p = q.
Proof. intros [? Hp] [? Hq]. apply nodeGroupKey_inj; [done..| |]; eapply Forall_impl; eauto. Qed.

Lemma addToGroup_inv P groups path name :
  grp_inv P groups → (∀ p n, P p n → good_path p) → good_path path →
  grp_inv (fun p n => P p n ∨ p = path ∧ n = name) (addToGroup groups path name).
Proof.
  intros [a b] HP Hgood. unfold addToGroup.
  assert (∀ g, groups !! nodeGroupKey path = Some g → v1beta1.SwitchDomainPath g = path) as Hpath.
  { intros g Hg. destruct (a _ _ Hg) as (Hk & _ & Hne & Hn). apply good_key_inj; [|done|done].
    destruct (v1beta1.NG_Nodes g) as [|n l] eqn:Hl; [done|]. eapply HP, (Hn n). set_solver. }
  set (g0 := default (v1beta1.MkNodeGroup "" [] path) (groups !! nodeGroupKey path)).
  assert (v1beta1.SwitchDomainPath g0 = path ∧ v1beta1.NG_Name g0 = "" ∧
    (∀ n, n ∈ v1beta1.NG_Nodes g0 → P path n)) as (Hg0 & Hname & Hnodes).
  { unfold g0. destruct (groups !! nodeGroupKey path) as [g|] eqn:Hg; cbn; [|split_and!; set_solver].
    rewrite (Hpath _ eq_refl). destruct (a _ _ Hg) as (_ & ? & _ & Hn). rewrite (Hpath g eq_refl) in Hn. done. }
  split.
  - intros k g [[<- <-]|[Hne Hg]]%lookup_insert_Some; cbn.
    + rewrite Hg0. split_and!; [done|done|intros Hnil; by apply app_nil in Hnil as [_ ?]|].
      intros n [?|?%list_elem_of_singleton]%elem_of_app; [left; auto|by right].
    + destruct (a _ _ Hg) as (? & ? & ? & ?). split_and!; [done..|auto].
  - intros p n [HPn|[-> ->]].
    + destruct (b _ _ HPn) as (g & Hg & Hp & Hn). destruct (decide (nodeGroupKey path = nodeGroupKey p)) as [Heq|Hne].
      * rewrite Heq, lookup_insert_eq. eexists. split; [done|]. cbn. unfold g0. rewrite Heq, Hg. cbn.
        split; [done|]. set_solver.
      * rewrite lookup_insert_ne by done. eauto.
    + rewrite lookup_insert_eq. eexists. split; [done|]. cbn. split; [done|set_solver].
Qed.

(** The values of a Node whose tiers are 1 to [n]. *)
Lemma domainPath_lookup (m : gmap Z string) n i :
  (∀ t, is_Some (m !! t) ↔ 1 ≤ t < 1 + Z.of_nat n) →
  reverse (domainPath m n) !! i = m !! (Z.of_nat i + 1).
Proof.
  intros Hm. unfold domainPath. rewrite <-fmap_reverse, reverse_involutive, list_lookup_fmap.
  unfold counting. rewrite list_lookup_fmap. destruct (decide (i < n)%nat) as [Hi|Hi].
  - rewrite lookup_seq_lt by done. cbn. rewrite (Z.add_comm 1).
    destruct (proj2 (Hm (Z.of_nat i + 1))) as [v Hv]; [lia|]. by rewrite Hv.
  - rewrite lookup_seq_ge by lia. cbn. symmetry. apply eq_None_not_Some. rewrite Hm. lia.
Qed.

Definition seen_value (seen : list LabeledResource) (t : Z) (d : string) : Prop :=
  ∃ node, node ∈ seen ∧ tierValue tm (LR_Labels node) t d.

Definition seen_link (seen : list LabeledResource) (d p : string) : Prop :=
  ∃ node, node ∈ seen ∧ ∃ t, tierValue tm (LR_Labels node) t d ∧ tierValue tm (LR_Labels node) (t + 1) p.

Definition seen_path (seen : list LabeledResource) (path : list string) (name : string) : Prop :=
  ∃ node, node ∈ seen ∧ LR_Name node = name ∧ is_path tm (LR_Labels node) path ∧ good_path path.

Record build_inv (seen : list LabeledResource) (st : buildState) : Prop := {
  bi_domains : dom_inv (seen_value seen) (seen_link seen) (bs_domains st);
  bi_groups : grp_inv (seen_path seen) (bs_groups st);
  bi_paths node : node ∈ seen → (∃ t v, tierValue tm (LR_Labels node) t v) →
    ∃ path, is_path tm (LR_Labels node) path ∧ good_path path
}.

Lemma build_inv_init : build_inv [] (MkBuild ∅ ∅).
Proof.
  split; [split|split|]; cbn.
  - intros d s. by rewrite lookup_empty.
  - intros t d (? & ?%elem_of_nil & _). done.
  - intros d p (? & ?%elem_of_nil & _). done.
  - intros k g. by rewrite lookup_empty.
  - intros path n (? & ?%elem_of_nil & _). done.
  - intros ? ?%elem_of_nil. done.
Qed.

(** A Node without topology labels changes nothing. *)
Lemma build_inv_skip seen st node :
  (∀ t v, ~ tierValue tm (LR_Labels node) t v) → build_inv seen st → build_inv (seen ++ [node]) st.
Proof.
  intros Hno [Hd Hg Hp]. split.
  - eapply dom_inv_ext; [| |exact Hd].
    + intros t d. unfold seen_value. rewrite exists_snoc. naive_solver.
    + intros d p. unfold seen_link. rewrite exists_snoc. naive_solver.
  - assert (∀ path n, seen_path seen path n ↔ seen_path (seen ++ [node]) path n) as Hiff.
    { intros path n. unfold seen_path. rewrite exists_snoc. split; [by left|]. intros [?|(_ & [Hne Hpath] & _)]; [done|].
      exfalso. destruct path as [|v path'] using rev_ind; [done|]. apply (Hno 1 v), Hpath. by rewrite reverse_snoc. }
    destruct Hg as [a b]. split.
    + intros k g Hk. destruct (a k g Hk) as (? & ? & ? & Hn). split_and!; [done..|]. intros n Hin. apply Hiff. auto.
    + intros path n Hpn. apply b. by apply Hiff.
  - intros x [?|<-%list_elem_of_singleton]%elem_of_app; [auto|]. intros (t & v & Hv). by destruct (Hno t v).
Qed.

Lemma at_resource_ret {A} name (c : go statusError A) a : at_resource name c = Ret a → c = Ret a.
Proof. by destruct c. Qed.

(** The path of a Node that passed [checkTiers]. *)
Lemma node_path labels m n :
  (∀ t v, m !! t = Some v ↔ tierValue tm labels t v) → m ≠ ∅ →
  (∀ t, is_Some (m !! t) ↔ 1 ≤ t < 1 + Z.of_nat n) →
  (∀ t, 1 ≤ t < 1 + Z.of_nat n → IsValidLabelValue (default "" (m !! t)) = []) →
  is_path tm labels (domainPath m n) ∧ good_path (domainPath m n).
Proof.
  intros Hm Hne Hdom Hval.
  assert (domainPath m n ≠ []) as Hnil.
  { intros Hp. destruct Hne. apply map_eq. intros t. rewrite lookup_empty. apply eq_None_not_Some. rewrite Hdom.
    pose proof (f_equal length Hp) as Hl. unfold domainPath, counting in Hl.
    rewrite length_fmap, length_reverse, length_fmap, length_seq in Hl. cbn in Hl. lia. }
  split; [split; [done|]|split; [done|]].
  - intros t v. rewrite <-Hm, (domainPath_lookup m n) by done. split.
    + intros Hv. assert (is_Some (m !! t)) as Hs by eauto. apply Hdom in Hs. split; [lia|].
      by replace (Z.of_nat (Z.to_nat (t - 1)) + 1) with t by lia.
    + intros [Ht Hv]. by replace (Z.of_nat (Z.to_nat (t - 1)) + 1) with t in Hv by lia.
  - apply Forall_forall. intros v. unfold domainPath. rewrite list_elem_of_fmap.
    intros (t & -> & Ht%elem_of_reverse%elem_of_counting). apply Hval. lia.
Qed.

Lemma buildNode_inv seen st node st' :
  build_inv seen st → buildNode IsValidLabelValue tm st node = Ret st' → build_inv (seen ++ [node]) st'.
Proof.
  intros Hinv Hrun. unfold buildNode in Hrun. go_inv. apply at_resource_ret in E. rename a into m.
  pose proof (labelsByTier_ret _ _ _ E) as Hm. case_decide as Hne.
  { injection Hrun as <-. subst m. apply build_inv_skip; [|done]. intros t v Ht. apply Hm in Ht. by rewrite lookup_empty in Ht. }
  destruct Hinv as [Hd Hg Hp]. go_inv. apply at_resource_ret in E0.
  rename a into domains1, a0 into domains2. subst st'. set (n := length (sortedTiers m)) in *.
  destruct (checkTiers_inv _ _ _ _ _ _ _ _ Hd E0) as (Hct & Hd1 & Hval). fold n in Hct.
  eapply (linkParents_inv IsValidLabelValue) in E1; [|exact Hd1].
  assert (∀ t, is_Some (m !! t) ↔ 1 ≤ t < 1 + Z.of_nat n) as Hdom.
  { intros t. rewrite <-sortedTiers_spec, Hct. apply elem_of_counting. }
  assert (∀ t d, t ∈ sortedTiers m ∧ d = default "" (m !! t) ↔ tierValue tm (LR_Labels node) t d) as Hocc.
  { intros t d. rewrite sortedTiers_spec, <-Hm. split; [intros [[v ->] ->]; done|]. intros ->. eauto. }
  destruct (node_path (LR_Labels node) m n Hm Hne Hdom) as [Hpath Hgood].
  { intros t Ht. apply Hval. by rewrite sortedTiers_spec, Hdom. }
  split; cbn.
  - eapply dom_inv_ext; [| |exact E1].
    + intros t d. cbn. rewrite Hocc. unfold seen_value. by rewrite exists_snoc.
    + intros d p. unfold seen_link. rewrite exists_snoc. apply or_iff_compat_l. split.
      * intros (t & Ht%elem_of_counting & -> & ->). exists t. rewrite <-!Hm.
        destruct (proj2 (Hdom t)) as [v ->]; [lia|]. destruct (proj2 (Hdom (t + 1))) as [w ->]; [lia|]. done.
      * intros (t & Hv & Hw). rewrite <-!Hm in Hv, Hw. exists t. rewrite Hv, Hw. split; [|done].
        assert (1 ≤ t < 1 + Z.of_nat n) by (apply Hdom; eauto).
        assert (1 ≤ t + 1 < 1 + Z.of_nat n) by (apply Hdom; eauto). apply elem_of_counting. lia.
  - pose proof (addToGroup_inv _ _ (domainPath m n) (LR_Name node) Hg) as Hadd.
    destruct Hadd as [a b]; [by intros p x (? & ? & ? & ? & ?)|done|]. split.
    + intros k g Hk. destruct (a k g Hk) as (? & ? & ? & Hn). split_and!; [done..|]. intros x Hx.
      unfold seen_path. rewrite exists_snoc. destruct (Hn x Hx) as [?|[-> ->]]; [by left|by right].
    + intros path x Hx. apply b. unfold seen_path in Hx. rewrite exists_snoc in Hx.
      destruct Hx as [?|(<- & Hp' & _)]; [by left|]. right. split; [by eapply is_path_unique|done].
  - intros x [?|<-%list_elem_of_singleton]%elem_of_app; [auto|]. intros _. by exists (domainPath m n).
Qed.

Lemma buildNodes_inv nodes st :
  go_foldl (buildNode IsValidLabelValue tm) (MkBuild ∅ ∅) nodes = Ret st → build_inv nodes st.
Proof.
  intros Hr. apply (go_foldl_ret build_inv _ _ _ _ Hr); [apply build_inv_init|].
  intros seen node todo q q' _ Hq Hstep. by eapply buildNode_inv.
Qed.

(** ** The loop over the Switches *)
Definition swDomain (sw : LabeledResource) : string := default "" (LR_Labels sw !! v1beta1.TopologyDomainLabel).

(** Only the members change. *)
Definition members_added (domains0 domains : gmap string domainState) (Mb : string → string → Prop) : Prop :=
  ∀ d, match domains0 !! d, domains !! d with
       | Some s0, Some s => ds_domain s = ds_domain s0 ∧ ds_parents s = ds_parents s0 ∧
           ∀ x, x ∈ ds_members s ↔ x ∈ ds_members s0 ∨ Mb d x
       | None, None => True
       | _, _ => False
       end.

Lemma buildSwitches_inv domains0 switches domains pending :
  go_foldl (buildSwitch IsValidLabelValue) (domains0, []) switches = Ret (domains, pending) →
  members_added domains0 domains (fun d x => ∃ sw, sw ∈ switches ∧ LR_Name sw = x ∧ swDomain sw = d ∧ d ≠ "") ∧
  ∀ msg, msg ∈ pending ↔ ∃ sw, sw ∈ switches ∧ swDomain sw ≠ "" ∧ domains0 !! swDomain sw = None ∧
    msg = pendingMessage (LR_Name sw) (swDomain sw).
Proof.
  intros Hr.
  apply (go_foldl_ret (fun seen (st : gmap string domainState * list string) =>
    members_added domains0 st.1 (fun d x => ∃ sw, sw ∈ seen ∧ LR_Name sw = x ∧ swDomain sw = d ∧ d ≠ "") ∧
    ∀ msg, msg ∈ st.2 ↔ ∃ sw, sw ∈ seen ∧ swDomain sw ≠ "" ∧ domains0 !! swDomain sw = None ∧
      msg = pendingMessage (LR_Name sw) (swDomain sw)) _ _ _ _ Hr).
  { split; cbn.
    - intros d. destruct (domains0 !! d); [|done]. split_and!; [done..|]. intros x. split; [by left|].
      intros [?|(? & ?%elem_of_nil & _)]; done.
    - intros msg. split; [by intros ?%elem_of_nil|]. intros (? & ?%elem_of_nil & _). done. }
  intros seen sw todo [ds pd] [ds' pd'] _ [Hm Hp]. unfold buildSwitch. fold (swDomain sw). cbn [fst snd] in *.
  case_decide as Hv.
  { intros [= <- <-]. split.
    - intros d. specialize (Hm d). destruct (domains0 !! d), (ds !! d); try done.
      destruct Hm as (? & ? & Hm). split_and!; [done..|]. intros x. rewrite Hm, exists_snoc. naive_solver.
    - intros msg. rewrite Hp, exists_snoc. naive_solver. }
  intros Hstep. go_inv. pose proof (Hm (swDomain sw)) as Hmd.
  destruct (ds !! swDomain sw) as [s|] eqn:Hs; injection Hstep as <- <-.
  - destruct (domains0 !! swDomain sw) as [s0|] eqn:Hs0; [|done]. split.
    + intros d. specialize (Hm d). destruct (decide (swDomain sw = d)) as [<-|Hd].
      * rewrite Hs0, lookup_insert_eq. destruct Hmd as (? & ? & Hmd). cbn. split_and!; [done..|].
        intros x. rewrite elem_of_union, elem_of_singleton, Hmd, exists_snoc. naive_solver.
      * rewrite lookup_insert_ne by done. destruct (domains0 !! d), (ds !! d); try done.
        destruct Hm as (? & ? & Hm). split_and!; [done..|]. intros x. rewrite Hm, exists_snoc. naive_solver.
    + intros msg. rewrite Hp, exists_snoc, Hs0. naive_solver.
  - destruct (domains0 !! swDomain sw) as [s0|] eqn:Hs0; [done|]. split.
    + intros d. specialize (Hm d). destruct (domains0 !! d) eqn:Hd0, (ds !! d); try done.
      destruct Hm as (? & ? & Hm). split_and!; [done..|]. intros x. rewrite Hm, exists_snoc.
      assert (swDomain sw ≠ d) by congruence. naive_solver.
    + intros msg. rewrite elem_of_app, list_elem_of_singleton, Hp, exists_snoc, Hs0. naive_solver.
Qed.
End nodes.
