(* ===== verification/NodeGroupNames.v ===== *)
(** * Names of node groups

    Facts about [assignNodeGroupNames] of src/pkg/controller/topologystatus/build.go:
    it always ends, keeps the names of groups that still exist and gives every new
    group the smallest number that is not in use. *)
From stdpp Require Import base gmap sets list strings sorting.
From Stdlib Require Import ZArith Ascii.
From S2P Require Import Prelude GoStrings GoNumbers GoText Api LabelTemplate ApiServer TopologyStatus TopologyStatusFacts.
Local Open Scope Z_scope.

Definition groupKey (g : v1beta1.TopologyNodeGroup) : string := nodeGroupKey (v1beta1.SwitchDomainPath g).

Definition numberOf (g : v1beta1.TopologyNodeGroup) (n : Z) : Prop := parseNodeGroupNumber (v1beta1.NG_Name g) = (n, true).

(** ** Numbers *)
Lemma parseNodeGroupNumber_Itoa n : 1 ≤ n ≤ max_int → parseNodeGroupNumber (nodeGroupNamePrefix +:+ Itoa n) = (n, true).
Proof.
  intros Hn. unfold parseNodeGroupNumber.
  rewrite (proj2 (strip_prefix_spec _ _ (Itoa n))) by done.
  rewrite decide_False, Atoi_Itoa by (try (unfold int_ok, min_int; lia); intros He; pose proof (Itoa_tier_digits n);
    rewrite He in *; cbn in *; by intuition lia).
  by rewrite decide_False by lia.
Qed.

Definition free_from (used : gset Z) (n0 n : Z) : Prop := n0 ≤ n ∧ ∀ i, n0 ≤ i < n → i ∈ used.

Lemma freeNumber_spec used n0 :
  ∃ n, freeNumber used n0 = Ret n ∧ (n ∉ used) ∧ free_from used n0 n.
Proof.
  unfold freeNumber.
  apply (while_go_total (freeStep used) (free_from used n0)
    (fun n => N.of_nat (size (filter (fun i => n ≤ i) used))) (fun n => (n ∉ used) ∧ free_from used n0 n)).
  - intros n [Hle Hall]. unfold freeStep. case_decide as Hin; [|done]. split.
    + split; [lia|]. intros i Hi. destruct (decide (i = n)) as [->|]; [done|]. apply Hall. lia.
    + assert (filter (fun i => n + 1 ≤ i) used ⊂ filter (fun i => n ≤ i) used) as Hsub.
      { split.
        - intros i. rewrite !elem_of_filter. intros [? ?]. split; [lia|done].
        - intros Hc. specialize (Hc n). rewrite !elem_of_filter in Hc. destruct Hc as [? _]; [by split; [lia|]|lia]. }
      apply subset_size in Hsub. lia.
  - split; [lia|]. intros i Hi. lia.
  - cbn. assert (size (filter (fun i => (n0 ≤ i)%Z) used) ≤ size used)%nat by (apply subseteq_size; set_solver). lia.
Qed.

Lemma below_bound (used : gset Z) n : 1 ≤ n → (∀ i, 1 ≤ i < n → i ∈ used) → n - 1 ≤ Z.of_nat (size used).
Proof.
  intros Hn Hall.
  assert (list_to_set (counting 1 (Z.to_nat (n - 1))) ⊆ used) as Hsub.
  { intros i. rewrite elem_of_list_to_set, elem_of_counting. intros Hi. apply Hall. lia. }
  apply subseteq_size in Hsub. rewrite size_list_to_set in Hsub.
  - unfold counting in Hsub. rewrite length_fmap, length_seq in Hsub. lia.
  - unfold counting. apply NoDup_fmap_2; [intros a b; lia|apply NoDup_seq].
Qed.

(** ** The previous groups *)
Definition previousNames (prev : list v1beta1.TopologyNodeGroup) : gmap string string * gset Z :=
  foldl recordPrevious (∅, ∅) prev.

Lemma previousNames_spec prev :
  (∀ k nm, (previousNames prev).1 !! k = Some nm → ∃ p, p ∈ prev ∧ groupKey p = k ∧ v1beta1.NG_Name p = nm) ∧
  (∀ p, p ∈ prev → is_Some ((previousNames prev).1 !! groupKey p)) ∧
  (∀ n, n ∈ (previousNames prev).2 ↔ ∃ p, p ∈ prev ∧ numberOf p n) ∧
  (size (previousNames prev).2 ≤ length prev)%nat.
Proof.
  unfold previousNames. apply (foldl_inv (fun seen (st : gmap string string * gset Z) =>
    (∀ k nm, st.1 !! k = Some nm → ∃ p, p ∈ seen ∧ groupKey p = k ∧ v1beta1.NG_Name p = nm) ∧
    (∀ p, p ∈ seen → is_Some (st.1 !! groupKey p)) ∧
    (∀ n, n ∈ st.2 ↔ ∃ p, p ∈ seen ∧ numberOf p n) ∧ (size st.2 ≤ length seen)%nat)).
  { cbn. split_and!; [by intros k nm|by intros p ?%elem_of_nil| |rewrite size_empty; lia].
    intros n. split; [set_solver|]. by intros (p & ?%elem_of_nil & _). }
  intros seen p todo [pm used] _ (Ha & Hb & Hc & Hd). unfold recordPrevious. fold (groupKey p). cbn [fst snd] in *.
  split_and!.
  - intros k nm. rewrite exists_snoc. intros [[<- <-]|[_ Hk]]%lookup_insert_Some; [by right|left; by apply Ha].
  - intros q [Hq| ->%list_elem_of_singleton]%elem_of_app; [|rewrite lookup_insert_eq; eauto].
    destruct (decide (groupKey p = groupKey q)) as [->|]; [rewrite lookup_insert_eq; eauto|].
    rewrite lookup_insert_ne by done. auto.
  - intros n. rewrite exists_snoc. unfold numberOf at 2. destruct (parseNodeGroupNumber _) as [k []]; cbn.
    + rewrite elem_of_union, elem_of_singleton, Hc. naive_solver.
    + rewrite Hc. naive_solver.
  - rewrite length_app. cbn. destruct (parseNodeGroupNumber _) as [k []]; cbn; [|lia].
    pose proof (size_union_alt ({[ k ]} : gset Z) used) as Hu. rewrite size_singleton in Hu.
    assert (size (used ∖ {[ k ]}) ≤ size used)%nat by (apply subseteq_size; set_solver). lia.
Qed.

(** ** Assigning names *)
Lemma prefix_Itoa_inj a b :
  1 ≤ a ≤ max_int → 1 ≤ b ≤ max_int →
  nodeGroupNamePrefix +:+ Itoa a = nodeGroupNamePrefix +:+ Itoa b → a = b.
Proof.
  intros Ha Hb Heq. apply parseNodeGroupNumber_Itoa in Ha, Hb. rewrite Heq, Hb in Ha. by simplify_eq.
Qed.

Section assign.
Context (pm : gmap string string) (used0 : gset Z) (groups : list v1beta1.TopologyNodeGroup).
Context (Hpm : ∀ k k' nm, nm ≠ "" → pm !! k = Some nm → pm !! k' = Some nm → k = k').
Context (Hused : ∀ k nm n, pm !! k = Some nm → parseNodeGroupNumber nm = (n, true) → n ∈ used0).
Context (Hkeys : NoDup (groupKey <$> groups)).
Context (Hbound : Z.of_nat (size used0 + length groups) ≤ max_int).

Definition keptName (g : v1beta1.TopologyNodeGroup) : string := default "" (pm !! groupKey g).

(** A name that is kept, or a fresh number below [next]. *)
Definition name_ok (next : Z) (g : v1beta1.TopologyNodeGroup) : Prop :=
  keptName g ≠ "" ∧ v1beta1.NG_Name g = keptName g ∨
  keptName g = "" ∧ ∃ n, v1beta1.NG_Name g = nodeGroupNamePrefix +:+ Itoa n ∧ 1 ≤ n < next ∧ n ≤ max_int ∧ (n ∉ used0).

Record names_inv (seen : list v1beta1.TopologyNodeGroup)
    (st : list v1beta1.TopologyNodeGroup * gset Z * Z) : Prop := {
  ni_same : Forall2 (fun g g' => g' = named g (v1beta1.NG_Name g')) seen st.1.1;
  ni_below i : 1 ≤ i < st.2 → i ∈ st.1.2;
  ni_next : 1 ≤ st.2;
  ni_used : used0 ⊆ st.1.2;
  ni_size : (size st.1.2 ≤ size used0 + length seen)%nat;
  ni_names g : g ∈ st.1.1 → name_ok st.2 g;
  ni_nodup : NoDup (v1beta1.NG_Name <$> st.1.1)
}.

Lemma kept_not_fresh g n :
  keptName g ≠ "" → 1 ≤ n ≤ max_int → keptName g = nodeGroupNamePrefix +:+ Itoa n → n ∈ used0.
Proof.
  unfold keptName. intros Hk Hn Heq. destruct (pm !! groupKey g) as [nm|] eqn:Hp; [|done]. cbn in *. subst nm.
  eapply Hused; [exact Hp|]. by apply parseNodeGroupNumber_Itoa.
Qed.

Lemma kept_inj g g' : keptName g ≠ "" → keptName g = keptName g' → groupKey g = groupKey g'.
Proof.
  unfold keptName. intros Hk Heq. destruct (pm !! groupKey g) as [nm|] eqn:Hp; [|done].
  destruct (pm !! groupKey g') as [nm'|] eqn:Hp'; cbn in *; [|congruence]. subst nm'. by eapply Hpm.
Qed.

(** The groups named so far have the keys of the groups seen so far. *)
Lemma same_keys seen res :
  Forall2 (fun g g' => g' = named g (v1beta1.NG_Name g')) seen res → groupKey <$> res = groupKey <$> seen.
Proof. induction 1 as [|g g' seen res Hg _ IH]; [done|]. cbn. rewrite IH, Hg. done. Qed.

Lemma assignName_step seen g todo st :
  groups = seen ++ g :: todo → names_inv seen st →
  ∃ st', assignName pm st g = Ret st' ∧ names_inv (seen ++ [g]) st'.
Proof.
  intros Heq [Hs Hb Hn Hu Hz Hok Hnd]. destruct st as [[res used] next]. cbn [fst snd] in *.
  assert (groupKey g ∉ groupKey <$> res) as Hfresh.
  { rewrite (same_keys _ _ Hs). rewrite Heq, fmap_app in Hkeys. apply NoDup_app in Hkeys as (_ & Hd & _).
    intros Hin. apply (Hd _ Hin). set_solver. }
  assert (∀ h, h ∈ res → groupKey h ≠ groupKey g) as Hne.
  { intros h Hh Hk. apply Hfresh. rewrite <-Hk. by apply list_elem_of_fmap_2. }
  unfold assignName. fold (groupKey g) (keptName g). case_decide as Hk.
  - eexists. split; [done|]. split; cbn [fst snd].
    + apply Forall2_app; [done|]. by repeat constructor.
    + done.
    + done.
    + done.
    + rewrite length_app. cbn. lia.
    + intros h [Hh| ->%list_elem_of_singleton]%elem_of_app; [auto|]. left. done.
    + rewrite fmap_app. apply NoDup_app. split_and!; [done| |apply NoDup_singleton].
      intros nm (h & -> & Hh)%list_elem_of_fmap Hnm%list_elem_of_singleton. cbn in Hnm.
      destruct (Hok h Hh) as [[Hkh Hnh]|(_ & n & Hnh & Hn1 & Hn2 & Hn3)].
      * apply (Hne h Hh), kept_inj; congruence.
      * apply Hn3, (kept_not_fresh g); [done|lia|congruence].
  - assert (keptName g = "") as Hk0 by (by destruct (decide (keptName g = ""))).
    destruct (freeNumber_spec used next) as (n & -> & Hnu & Hle & Hall). cbn [mbind go_bind].
    assert (∀ i, 1 ≤ i < n → i ∈ used) as Hbelow.
    { intros i Hi. destruct (decide (i < next)); [apply Hb; lia|apply Hall; lia]. }
    assert (n ≤ max_int) as Hmax.
    { pose proof (below_bound used n ltac:(lia) Hbelow) as Hbd.
      assert (length groups = (length seen + S (length todo))%nat) as Hl by (by rewrite Heq, length_app). lia. }
    eexists. split; [done|]. split; cbn [fst snd].
    + apply Forall2_app; [done|]. by repeat constructor.
    + intros i Hi. apply elem_of_union. destruct (decide (i = n)); [left; set_solver|right; apply Hbelow; lia].
    + lia.
    + set_solver.
    + rewrite length_app, size_union, size_singleton by set_solver. cbn. lia.
    + intros h [Hh| ->%list_elem_of_singleton]%elem_of_app.
      * destruct (Hok h Hh) as [?|(? & k & ? & ? & ? & ?)]; [by left|right]. split; [done|]. exists k. split; [done|].
        split; [lia|done].
      * right. split; [done|]. exists n. split; [done|]. split; [lia|]. split; [done|set_solver].
    + rewrite fmap_app. apply NoDup_app. split_and!; [done| |apply NoDup_singleton].
      intros nm (h & -> & Hh)%list_elem_of_fmap Hnm%list_elem_of_singleton. cbn in Hnm.
      destruct (Hok h Hh) as [[Hkh Hnh]|(_ & k & Hnh & Hk1 & Hk2 & _)].
      * apply Hnu, Hu, (kept_not_fresh h); [done|lia|congruence].
      * assert (k = n) by (apply prefix_Itoa_inj; [lia|lia|congruence]). lia.
Qed.

Lemma assignNames_inv :
  ∃ st, go_foldl (assignName pm) ([], used0, 1) groups = Ret st ∧ names_inv groups st.
Proof.
  apply (go_foldl_inv names_inv).
  - split; cbn; [constructor|lia|lia|done|lia|by intros g ?%elem_of_nil|constructor].
  - intros seen g todo st Heq Hi. by apply (assignName_step seen g todo st).
Qed.
End assign.

(** ** The whole function *)
Lemma previous_name prev p :
  NoDup (groupKey <$> prev) → p ∈ prev → (previousNames prev).1 !! groupKey p = Some (v1beta1.NG_Name p).
Proof.
  intros Hk Hp. destruct (previousNames_spec prev) as (Ha & Hb & _).
  destruct (Hb p Hp) as [nm Hnm]. rewrite Hnm. f_equal. destruct (Ha _ _ Hnm) as (q & Hq & Hqk & <-).
  f_equal. by eapply (NoDup_name_inj groupKey prev).
Qed.

Lemma assignNodeGroupNames_spec groups prev :
  NoDup (groupKey <$> groups) → NoDup (v1beta1.NG_Name <$> prev) →
  Z.of_nat (length prev + length groups) ≤ max_int →
  ∃ res, assignNodeGroupNames groups prev = Ret res ∧
    Forall2 (fun g g' => g' = named g (v1beta1.NG_Name g')) groups res ∧
    NoDup (v1beta1.NG_Name <$> res) ∧
    ∀ g, g ∈ res →
      (keptName (previousNames prev).1 g ≠ "" ∧ v1beta1.NG_Name g = keptName (previousNames prev).1 g) ∨
      (keptName (previousNames prev).1 g = "" ∧ ∃ n, v1beta1.NG_Name g = nodeGroupNamePrefix +:+ Itoa n ∧ 1 ≤ n ∧
         ∀ p, p ∈ prev → ~ numberOf p n).
Proof.
  intros Hkeys Hnames Hbound. unfold assignNodeGroupNames. fold (previousNames prev).
  destruct (previousNames_spec prev) as (Ha & Hb & Hc & Hd).
  destruct (previousNames prev) as [pm used0] eqn:Hprev. cbn [fst snd] in *.
  destruct (assignNames_inv pm used0 groups) as (st & -> & [Hs _ _ _ _ Hok Hnd]).
  - intros k k' nm Hne Hk Hk'. destruct (Ha _ _ Hk) as (p & Hp & <- & Hn). destruct (Ha _ _ Hk') as (q & Hq & <- & Hn').
    f_equal. eapply (NoDup_name_inj v1beta1.NG_Name prev); [done..|congruence].
  - intros k nm n Hk Hn. destruct (Ha _ _ Hk) as (p & Hp & _ & <-). apply Hc. by exists p.
  - done.
  - lia.
  - cbn. eexists. split; [done|]. split_and!; [done..|]. intros g Hg.
    destruct (Hok g Hg) as [?|(? & n & ? & ? & ? & Hn)]; [by left|right]. split; [done|]. exists n.
    split; [done|]. split; [lia|]. intros p Hp Hpn. apply Hn, Hc. by exists p.
Qed.

(** Naming named groups again changes nothing. *)
Lemma assign_again (groups prev : list v1beta1.TopologyNodeGroup) res :
  NoDup (groupKey <$> groups) → NoDup (v1beta1.NG_Name <$> prev) →
  Z.of_nat (length prev + length groups) ≤ max_int →
  assignNodeGroupNames groups prev = Ret res → assignNodeGroupNames groups res = Ret res.
Proof.
  intros Hkeys Hnames Hbound Hres.
  destruct (assignNodeGroupNames_spec groups prev Hkeys Hnames Hbound) as (res' & Hres' & Hs & _ & Hok).
  assert (res' = res) as -> by congruence. clear Hres'.
  assert (NoDup (groupKey <$> res)) as Hrk by (by rewrite (same_keys _ _ Hs)).
  assert (∀ g, g ∈ res → v1beta1.NG_Name g ≠ "") as Hne.
  { intros g Hg. destruct (Hok g Hg) as [[? ->]|(_ & n & -> & _)]; done. }
  unfold assignNodeGroupNames. fold (previousNames res).
  pose proof (λ g Hg, previous_name res g Hrk Hg) as Hpm.
  destruct (previousNames res) as [pm used]. cbn [fst] in Hpm.
  assert (∀ todo acc u n, (∀ g', g' ∈ todo.*2 → g' ∈ res) →
    Forall (fun p => p.2 = named p.1 (v1beta1.NG_Name p.2)) todo →
    go_foldl (assignName pm) (acc, u, n) todo.*1 = Ret (acc ++ todo.*2, u, n)) as Hrun.
  { induction todo as [|[g g'] todo IH]; intros acc u n Hin Hall; cbn [go_foldl fmap list_fmap fst snd].
    { by rewrite app_nil_r. }
    apply Forall_cons in Hall as [Hg Hall]. cbn in Hg.
    assert (g' ∈ res) as Hg' by (apply Hin; set_solver).
    assert (assignName pm (acc, u, n) g = Ret (acc ++ [g'], u, n)) as ->.
    { unfold assignName. replace (nodeGroupKey (v1beta1.SwitchDomainPath g)) with (groupKey g') by (by rewrite Hg).
      rewrite (Hpm g' Hg'). cbn [default from_option id]. rewrite decide_True by (by apply Hne). by rewrite <-Hg. }
    cbn [mbind go_bind]. rewrite IH; [by rewrite <-app_assoc|set_solver|done]. }
  pose proof (Forall2_length _ _ _ Hs) as Hlen.
  specialize (Hrun (zip groups res) [] used 1). rewrite fst_zip, snd_zip in Hrun by lia.
  rewrite Hrun; [done|done|]. apply Forall2_Forall in Hs. eapply Forall_impl; [exact Hs|]. by intros [].
Qed.
