(* ===== verification/StatusEvents.v ===== *)
(** * Which updates a status can ignore, and what a reconciliation writes

    Facts about src/pkg/controller/topologystatus/controller.go: an event the
    label predicates filter out cannot change any status, and a reconciliation
    writes nothing but the status of its own topology. *)
From stdpp Require Import base gmap sets list strings sorting.
From Stdlib Require Import ZArith Ascii.
From S2P Require Import Prelude GoStrings GoNumbers GoText Api Topology GraphFacts LabelTemplate ApiServer TopologyStatus TopologyStatusReconcile TopologyStatusFacts.
Local Open Scope Z_scope.

Section labels.
Context `{RangeOrder}.

(** The labels a template looks at. *)
Definition matched (tm : option Template) (labels : gmap string string) : gmap string string :=
  filter (fun kv => (MatchTier tm kv.1).2 = true) labels.

Lemma Sorted_filter {A} (R : relation A) `{!Transitive R} (P : A → Prop) `{∀ x, Decision (P x)} l :
  Sorted R l → Sorted R (filter P l).
Proof.
  intros Hs%Sorted_StronglySorted; [|done]. apply StronglySorted_Sorted.
  induction Hs as [|x l Hs IH Hx]; [constructor|]. rewrite filter_cons. case_decide; [|done]. constructor; [done|].
  apply Forall_forall. intros y [_ Hy]%list_elem_of_filter. by eapply Forall_forall in Hx.
Qed.

Lemma sorted_keys_filter tm (labels : gmap string string) :
  filter (fun k => (MatchTier tm k).2 = true) (sort_strings (range labels).*1) =
  sort_strings (range (matched tm labels)).*1.
Proof.
  apply (Sorted_unique String.le).
  - apply Sorted_filter; [apply _|apply sort_strings_sorted].
  - apply sort_strings_sorted.
  - rewrite !sort_strings_perm. apply NoDup_Permutation.
    + apply NoDup_filter, NoDup_range_keys.
    + apply NoDup_range_keys.
    + intros k. rewrite list_elem_of_filter, !elem_of_range_keys. unfold matched, is_Some.
      setoid_rewrite map_lookup_filter_Some. naive_solver.
Qed.

Lemma labelsByTier_matched tm labels : labelsByTier tm labels = labelsByTier tm (matched tm labels).
Proof.
  unfold labelsByTier. rewrite !keys_of_range.
  rewrite (go_foldl_filter (fun k => (MatchTier tm k).2 = true)); cycle 1.
  { intros m key Hk. destruct (MatchTier tm key) as [t []]; [done|]. done. }
  rewrite sorted_keys_filter. apply go_foldl_ext_in. intros m key Hin.
  rewrite elem_of_sort_strings, elem_of_range_keys in Hin. destruct Hin as [v Hv]. rewrite Hv.
  unfold matched in Hv. apply map_lookup_filter_Some in Hv as [Hv _]. by rewrite Hv.
Qed.

(** The labels the predicate compares. *)
Lemma filteredTopologyLabels_lookup labels ts k v :
  filteredTopologyLabels labels (Some ts) !! k = Some v ↔
  labels !! k = Some v ∧ (k = v1beta1.TopologyDomainLabel ∨ ∃ tm, tm ∈ All (Some ts) ∧ (MatchTier tm k).2 = true).
Proof.
  unfold filteredTopologyLabels. rewrite <-(elem_of_range labels).
  pose proof (NoDup_range_keys labels) as Hnd. revert Hnd.
  set (keep := fun key => v1beta1.IsTopologyDomainLabel key ||
    existsb (fun labelTemplate => (MatchTier labelTemplate key).2) (All (Some ts))).
  assert (keep k = true ↔ k = v1beta1.TopologyDomainLabel ∨ ∃ tm, tm ∈ All (Some ts) ∧ (MatchTier tm k).2 = true) as <-.
  { unfold keep. rewrite orb_true_iff, existsb_exists. unfold v1beta1.IsTopologyDomainLabel.
    rewrite bool_decide_eq_true. by setoid_rewrite list_elem_of_In. }
  generalize (range labels). intros l.
  assert (∀ (m : gmap string string), NoDup l.*1 → (∀ x, x ∈ l.*1 → m !! x = None) →
    foldl (fun result '(key, value) => if v1beta1.IsTopologyDomainLabel key then <[key := value]> result
      else if existsb (fun labelTemplate => (MatchTier labelTemplate key).2) (All (Some ts)) then <[key := value]> result
      else result) m l !! k = Some v ↔ m !! k = Some v ∨ (k, v) ∈ l ∧ keep k = true) as Hgen.
  { induction l as [|[x w] l IH]; intros m Hnd Hm; cbn [foldl]; [set_solver|].
    cbn in Hnd. apply NoDup_cons in Hnd as [Hx Hnd].
    set (m' := if v1beta1.IsTopologyDomainLabel x then _ else _).
    assert (m' = if keep x then <[x := w]> m else m) as ->.
    { unfold m', keep. destruct (v1beta1.IsTopologyDomainLabel x); [done|]. cbn [orb]. by destruct (existsb _ _). }
    assert (m !! x = None) as Hmx by (apply Hm; set_solver).
    rewrite IH; [|done|].
    - rewrite elem_of_cons. destruct (keep x) eqn:Hk.
      + rewrite lookup_insert_Some. naive_solver.
      + split; [naive_solver|]. intros [?|[[?|?] ?]]; [by left|simplify_eq; congruence|by right].
    - intros y Hy. assert (x ≠ y) by congruence. destruct (keep x); [rewrite lookup_insert_ne by done|]; set_solver. }
  intros Hnd. rewrite Hgen; [|done|]; [|intros; apply lookup_empty]. rewrite lookup_empty. naive_solver.
Qed.

(** Equal filtered labels look alike to every template of the set. *)
Lemma filtered_matched ts tm l l' :
  tm ∈ All (Some ts) →
  filteredTopologyLabels l (Some ts) = filteredTopologyLabels l' (Some ts) → matched tm l = matched tm l'.
Proof.
  intros Htm Heq. apply map_eq. intros k. apply option_eq. intros v. unfold matched.
  rewrite !map_lookup_filter_Some. cbn.
  pose proof (filteredTopologyLabels_lookup l ts k v) as H1. pose proof (filteredTopologyLabels_lookup l' ts k v) as H2.
  rewrite Heq in H1. rewrite H2 in H1. clear H2 Heq. split; intros [Hl Hm]; (split; [|done]);
    apply H1; (split; [done|right; by exists tm]).
Qed.

Lemma filtered_domain ts l l' :
  filteredTopologyLabels l (Some ts) = filteredTopologyLabels l' (Some ts) →
  l !! v1beta1.TopologyDomainLabel = l' !! v1beta1.TopologyDomainLabel.
Proof.
  intros Heq. apply option_eq. intros v.
  pose proof (filteredTopologyLabels_lookup l ts v1beta1.TopologyDomainLabel v) as H1.
  pose proof (filteredTopologyLabels_lookup l' ts v1beta1.TopologyDomainLabel v) as H2.
  rewrite Heq, H2 in H1. clear H2 Heq. split; intros Hl; apply H1; auto.
Qed.

(** Every fixed topology has its template in the set. *)
Lemma ForTopology_All ts name : v1beta1.IsFixedTopologyName name = true → ForTopology (Some ts) name ∈ All (Some ts).
Proof.
  intros (c & Hin & Hc)%existsb_exists. apply bool_decide_eq_true in Hc as <-.
  destruct Hin as [<-|[<-|[<-|[]]]]; cbn; set_solver.
Qed.
End labels.

(** ** Snapshots that look alike *)
Section snapshots.
Context `{RangeOrder} (IsValidLabelValue : string → list string) (tm : option Template).

(** A Node reduced to what the template matches, a Switch to its domain. *)
Definition coreNode (r : LabeledResource) : LabeledResource := MkLabeled (LR_Name r) (matched tm (LR_Labels r)).
Definition coreSwitch (r : LabeledResource) : LabeledResource :=
  MkLabeled (LR_Name r) (filter (fun kv => kv.1 = v1beta1.TopologyDomainLabel) (LR_Labels r)).

Lemma buildNode_core st r : buildNode IsValidLabelValue tm st r = buildNode IsValidLabelValue tm st (coreNode r).
Proof. unfold buildNode. cbn. by rewrite <-labelsByTier_matched. Qed.

Lemma buildSwitch_core st r : buildSwitch IsValidLabelValue st r = buildSwitch IsValidLabelValue st (coreSwitch r).
Proof.
  unfold buildSwitch. destruct st. cbn [LR_Labels LR_Name coreSwitch].
  assert (filter (fun kv => kv.1 = v1beta1.TopologyDomainLabel) (LR_Labels r) !! v1beta1.TopologyDomainLabel =
    LR_Labels r !! v1beta1.TopologyDomainLabel) as ->; [|done].
  apply option_eq. intros v. rewrite map_lookup_filter_Some. cbn. naive_solver.
Qed.

Lemma go_foldl_fmap {E A B C} (f : A → C → go E A) (h : B → C) l a :
  go_foldl f a (h <$> l) = go_foldl (fun a x => f a (h x)) a l.
Proof. revert a. induction l as [|x l IH]; intros a; [done|]. cbn. destruct (f a (h x)); cbn; [apply IH|done..]. Qed.

Definition core (snapshot : LabelSnapshot) : LabelSnapshot :=
  MkSnapshot (coreNode <$> LS_Nodes snapshot) (coreSwitch <$> LS_Switches snapshot).

Lemma BuildTopologyStatus_core snapshot prev :
  BuildTopologyStatus IsValidLabelValue tm snapshot prev = BuildTopologyStatus IsValidLabelValue tm (core snapshot) prev.
Proof.
  unfold BuildTopologyStatus. destruct tm as [t|] eqn:Ht; [|done]. rewrite <-Ht. cbn [core LS_Nodes LS_Switches].
  rewrite (merge_sort_fmap resource_le resource_le coreNode) by done.
  rewrite (merge_sort_fmap resource_le resource_le coreSwitch) by done. rewrite go_foldl_fmap.
  rewrite (go_foldl_ext_in (fun a x => buildNode IsValidLabelValue tm a (coreNode x)) (buildNode IsValidLabelValue tm))
    by (intros; symmetry; apply buildNode_core).
  destruct (go_foldl (buildNode _ _) _ _) as [st| | |]; cbn [mbind go_bind]; [|done..].
  rewrite go_foldl_fmap.
  rewrite (go_foldl_ext_in (fun a x => buildSwitch IsValidLabelValue a (coreSwitch x)) (buildSwitch IsValidLabelValue))
    by (intros; symmetry; apply buildSwitch_core). done.
Qed.

(** What a status sees of a Node and of a Switch, if anything. *)
Definition nodeView (n : corev1.Node) : option LabeledResource :=
  let m := matched tm (corev1.Node_Labels n) in
  if decide (m = ∅) then None else Some (MkLabeled (corev1.Node_Name n) m).

Definition switchView (name : string) (sw : v1beta1.Switch) : option LabeledResource :=
  match v1beta1.SW_Labels sw !! v1beta1.TopologyDomainLabel with
  | Some v => if switchBelongsToTopology sw name
              then Some (MkLabeled (v1beta1.SW_Name sw) {[ v1beta1.TopologyDomainLabel := v ]}) else None
  | None => None
  end.

Lemma sorted_names_unique (l1 l2 : list LabeledResource) :
  NoDup (LR_Name <$> l1) → Sorted resource_le l1 → Sorted resource_le l2 → l1 ≡ₚ l2 → l1 = l2.
Proof.
  intros Hnd H1 H2 Hp. assert (Transitive resource_le) as Htr by (intros a b c; unfold resource_le; apply transitivity).
  apply (StronglySorted_unique_strong resource_le); [|by apply Sorted_StronglySorted..|done].
  intros a b Ha Hb Hab Hba. rewrite <-Hp in Hb. apply (NoDup_name_inj LR_Name l1); [done..|]. by apply (anti_symm String.le).
Qed.

Lemma sorted_resources l : Sorted resource_le (merge_sort resource_le l).
Proof. apply Sorted_merge_sort. intros a b. unfold resource_le. apply total. apply _. Qed.

Lemma merge_sort_names l1 l2 : NoDup (LR_Name <$> l1) → l1 ≡ₚ l2 → merge_sort resource_le l1 = merge_sort resource_le l2.
Proof.
  intros Hnd Hp. apply sorted_names_unique; [|apply sorted_resources..|by rewrite !merge_sort_Permutation].
  by rewrite merge_sort_Permutation.
Qed.

Lemma NoDup_fmap_filter {A B} (f : A → B) (P : A → Prop) `{∀ x, Decision (P x)} l : NoDup (f <$> l) → NoDup (f <$> filter P l).
Proof.
  induction l as [|x l IH]; intros Hnd; [constructor|]. apply NoDup_cons in Hnd as [Hx Hnd].
  rewrite filter_cons. case_decide; [|by apply IH]. constructor; [|by apply IH].
  intros (y & Hy & [_ Hin]%list_elem_of_filter)%list_elem_of_fmap. apply Hx. rewrite Hy. by apply list_elem_of_fmap_2.
Qed.

(** Entries a loop passes over do not matter, wherever they are sorted. *)
Lemma sorted_filter_loop {E A} (f : A → LabeledResource → go E A) (P : LabeledResource → Prop) `{∀ r, Decision (P r)} l a :
  NoDup (LR_Name <$> l) → (∀ a r, ~ P r → f a r = Ret a) →
  go_foldl f a (merge_sort resource_le l) = go_foldl f a (merge_sort resource_le (filter P l)).
Proof.
  intros Hnd Hf. rewrite (go_foldl_filter P) by done. f_equal.
  assert (Transitive resource_le) as Htr by (intros x y z; unfold resource_le; apply transitivity).
  apply sorted_names_unique; [|apply Sorted_filter; [apply _|apply sorted_resources]|apply sorted_resources|by rewrite !merge_sort_Permutation].
  rewrite merge_sort_Permutation. by apply NoDup_fmap_filter.
Qed.

Definition labelled (r : LabeledResource) : Prop := LR_Labels r ≠ ∅.
#[local] Instance labelled_dec r : Decision (labelled r) := decide (LR_Labels r ≠ ∅).

Lemma nodes_views (nodes : list corev1.Node) :
  filter labelled (coreNode <$> ((fun n => MkLabeled (corev1.Node_Name n) (corev1.Node_Labels n)) <$> nodes)) =
  omap nodeView nodes.
Proof.
  induction nodes as [|n nodes IH]; [done|]. rewrite !fmap_cons, filter_cons, IH. cbn [omap list_omap].
  unfold labelled, nodeView, coreNode. cbn [LR_Labels LR_Name]. cbn zeta.
  destruct (decide (matched tm (corev1.Node_Labels n) = ∅)) as [Hm|Hm].
  - rewrite decide_False; [done|]. by intros ?.
  - by rewrite decide_True.
Qed.

Lemma coreSwitch_domain r :
  coreSwitch r = MkLabeled (LR_Name r)
    match LR_Labels r !! v1beta1.TopologyDomainLabel with
    | Some v => {[ v1beta1.TopologyDomainLabel := v ]}
    | None => ∅
    end.
Proof.
  unfold coreSwitch. f_equal. apply map_eq. intros k. apply option_eq. intros v. rewrite map_lookup_filter_Some. cbn [fst].
  destruct (LR_Labels r !! v1beta1.TopologyDomainLabel) as [w|] eqn:Hw.
  - rewrite lookup_singleton_Some. naive_solver.
  - rewrite lookup_empty. naive_solver.
Qed.

Lemma switches_views name (switches : list v1beta1.Switch) :
  filter labelled (coreSwitch <$> ((fun s => MkLabeled (v1beta1.SW_Name s) (v1beta1.SW_Labels s)) <$>
    filter (fun s => switchBelongsToTopology s name = true) switches)) = omap (switchView name) switches.
Proof.
  induction switches as [|sw switches IH]; [done|]. cbn [omap list_omap]. rewrite (filter_cons _ sw).
  unfold switchView at 1. destruct (switchBelongsToTopology sw name) eqn:Hb.
  - rewrite decide_True by done. rewrite !fmap_cons, filter_cons, IH, coreSwitch_domain. unfold labelled. cbn [LR_Labels LR_Name].
    destruct (v1beta1.SW_Labels sw !! _).
    + rewrite decide_True; [done|]. apply map_non_empty_singleton.
    + rewrite decide_False; [done|]. by intros ?.
  - rewrite decide_False by done. rewrite IH. by destruct (v1beta1.SW_Labels sw !! _).
Qed.

(** A status is built from the views alone. *)
Lemma BuildTopologyStatus_views name nodes switches prev :
  NoDup (corev1.Node_Name <$> nodes) → NoDup (v1beta1.SW_Name <$> switches) →
  BuildTopologyStatus IsValidLabelValue tm (takeSnapshot name nodes switches) prev =
  BuildTopologyStatus IsValidLabelValue tm (MkSnapshot (omap nodeView nodes) (omap (switchView name) switches)) prev.
Proof.
  intros Hn Hs. rewrite BuildTopologyStatus_core. unfold core, takeSnapshot. cbn [LS_Nodes LS_Switches].
  rewrite <-nodes_views, <-switches_views. set (ns := coreNode <$> _). set (ss := coreSwitch <$> _).
  assert (NoDup (LR_Name <$> ns)) as Hnd1 by (unfold ns; by rewrite <-!list_fmap_compose).
  assert (NoDup (LR_Name <$> ss)) as Hnd2.
  { unfold ss. rewrite <-!list_fmap_compose. by apply NoDup_fmap_filter. }
  unfold BuildTopologyStatus. destruct tm as [t|] eqn:Ht; [|done]. rewrite <-Ht in *. cbn [LS_Nodes LS_Switches].
  rewrite (sorted_filter_loop (buildNode IsValidLabelValue tm) labelled ns); [|done|].
  2: { intros a r Hr%dec_stable. unfold buildNode, labelsByTier. rewrite Hr.
    assert (range (∅ : gmap string string) = []) as ->; [|done]. apply Permutation_nil_r. by rewrite range_perm, map_to_list_empty. }
  destruct (go_foldl (buildNode _ _) _ _) as [st| | |]; cbn [mbind go_bind]; [|done..].
  rewrite (sorted_filter_loop (buildSwitch IsValidLabelValue) labelled ss); [done|done|].
  intros [d p] r Hr%dec_stable. unfold buildSwitch. by rewrite Hr, lookup_empty.
Qed.

Lemma omap_names {T} (nm : T → string) (view : T → option LabeledResource) l :
  (∀ o r, view o = Some r → LR_Name r = nm o) → NoDup (nm <$> l) → NoDup (LR_Name <$> omap view l).
Proof.
  intros Hv. induction l as [|o l IH]; intros Hnd; [constructor|]. apply NoDup_cons in Hnd as [Ho Hnd]. cbn [omap list_omap].
  destruct (view o) as [r|] eqn:Hr; [|by apply IH]. apply Hv in Hr as Hn. constructor; [|by apply IH]. 
  intros (x & Hx & (y & Hy & Hyx)%list_elem_of_omap)%list_elem_of_fmap. apply Ho. apply Hv in Hyx. apply list_elem_of_fmap.
  exists y. split; [congruence|done].
Qed.

(** ... and from the views in any order, names being unique. *)
Lemma BuildTopologyStatus_perm name nodes nodes' switches switches' prev :
  NoDup (corev1.Node_Name <$> nodes) → NoDup (corev1.Node_Name <$> nodes') →
  NoDup (v1beta1.SW_Name <$> switches) → NoDup (v1beta1.SW_Name <$> switches') →
  omap nodeView nodes ≡ₚ omap nodeView nodes' →
  omap (switchView name) switches ≡ₚ omap (switchView name) switches' →
  BuildTopologyStatus IsValidLabelValue tm (takeSnapshot name nodes switches) prev =
  BuildTopologyStatus IsValidLabelValue tm (takeSnapshot name nodes' switches') prev.
Proof.
  intros Hn Hn' Hs Hs' Hpn Hps. rewrite !BuildTopologyStatus_views by done. unfold BuildTopologyStatus. cbn [LS_Nodes LS_Switches].
  rewrite (merge_sort_names _ _ (omap_names _ nodeView nodes ltac:(intros o r; unfold nodeView; case_decide; naive_solver) Hn) Hpn).
  assert (∀ o r, switchView name o = Some r → LR_Name r = v1beta1.SW_Name o) as Hv.
  { intros o r. unfold switchView. destruct (_ !! _); [|done]. destruct (switchBelongsToTopology _ _); naive_solver. }
  by rewrite (merge_sort_names _ _ (omap_names _ (switchView name) switches Hv Hs) Hps).
Qed.
End snapshots.

(** ** Events *)

(** What an event does to the stored objects of its kind; the API server keeps
    names unique. *)
Definition happens {T} (nm : T → string) (e : objectEvent T) (l l' : list T) : Prop :=
  match e with
  | CreateEvent o => (nm o ∉ nm <$> l) ∧ l' ≡ₚ o :: l
  | DeleteEvent o => l ≡ₚ o :: l'
  | UpdateEvent old new => nm old = nm new ∧ ∃ rest, l ≡ₚ old :: rest ∧ l' ≡ₚ new :: rest
  | GenericEvent o => o ∈ l ∧ l ≡ₚ l'
  end.

(** Events a predicate filters out, one after another. *)
Definition ignored {T} (nm : T → string) (p : objectEvent T → bool) : relation (list T) :=
  rtc (fun l l' => ∃ e, p e = false ∧ happens nm e l l').

Lemma ignored_views {T} (nm : T → string) (p : objectEvent T → bool) {V} (view : T → option V) l l' :
  (∀ e, p e = false → match e with
     | CreateEvent o | DeleteEvent o => view o = None
     | UpdateEvent old new => nm old = nm new → view old = view new
     | GenericEvent _ => True
     end) →
  ignored nm p l l' → NoDup (nm <$> l) → NoDup (nm <$> l') ∧ omap view l ≡ₚ omap view l'.
Proof.
  intros Hp Hr. induction Hr as [l|l m l' (e & He & Hs) _ IH]; intros Hnd; [done|].
  assert (NoDup (nm <$> m) ∧ omap view l ≡ₚ omap view m) as [Hm Hv]; [|destruct (IH Hm); by rewrite Hv].
  clear IH. specialize (Hp e He). destruct e as [o|o|old new|o]; cbn in Hs.
  - destruct Hs as [Hn Hl]. split.
    + rewrite Hl. by constructor.
    + rewrite Hl. cbn [omap list_omap]. by rewrite Hp.
  - rewrite Hs in Hnd. apply NoDup_cons in Hnd as [_ Hnd]. split; [done|]. rewrite Hs. cbn [omap list_omap]. by rewrite Hp.
  - destruct Hs as (Hn & rest & Hl & Hm). rewrite Hl in Hnd. split.
    + rewrite Hm, fmap_cons, <-Hn. done.
    + rewrite Hl, Hm. cbn [omap list_omap]. by rewrite (Hp Hn).
  - destruct Hs as [_ Hl]. by rewrite <-Hl.
Qed.

Section unseen.
Context `{RangeOrder} (ts : LabelSet) (tm : option Template) (Htm : tm ∈ All (Some ts)).

Lemma filtered_none labels : hasTopologyLabels labels (Some ts) = false →
  matched tm labels = ∅ ∧ labels !! v1beta1.TopologyDomainLabel = None.
Proof.
  intros He%bool_decide_eq_false%dec_stable.
  assert (filteredTopologyLabels ∅ (Some ts) = ∅) as H0.
  { apply map_empty. intros k. apply eq_None_not_Some. intros [v [Hv _]%filteredTopologyLabels_lookup]. by rewrite lookup_empty in Hv. }
  rewrite <-H0 in He. split; [|by rewrite (filtered_domain ts labels ∅ He), lookup_empty].
  rewrite (filtered_matched ts tm labels ∅ Htm He). apply map_empty. intros k. unfold matched. by rewrite map_lookup_filter, lookup_empty.
Qed.

Lemma unseen_node e : nodeEventPredicate (Some ts) e = false → match e with
  | CreateEvent o | DeleteEvent o => nodeView tm o = None
  | UpdateEvent old new => corev1.Node_Name old = corev1.Node_Name new → nodeView tm old = nodeView tm new
  | GenericEvent _ => True
  end.
Proof.
  destruct e as [o|o|old new|o]; cbn; intros He; try done.
  1, 2: apply filtered_none in He as [Hm _]; unfold nodeView; cbn zeta; by rewrite decide_True.
  apply bool_decide_eq_false, dec_stable in He. intros Hn. unfold nodeView. by rewrite (filtered_matched ts tm _ _ Htm He), Hn.
Qed.

Lemma unseen_switch name e : switchEventPredicate (Some ts) e = false → match e with
  | CreateEvent o | DeleteEvent o => switchView name o = None
  | UpdateEvent old new => v1beta1.SW_Name old = v1beta1.SW_Name new → switchView name old = switchView name new
  | GenericEvent _ => True
  end.
Proof.
  destruct e as [o|o|old new|o]; cbn; intros He; try done.
  1, 2: apply filtered_none in He as [_ Hm]; unfold switchView; by rewrite Hm.
  apply orb_false_iff in He as [Hrole He]. apply bool_decide_eq_false, dec_stable in Hrole, He. intros Hn.
  unfold switchView, switchBelongsToTopology. by rewrite (filtered_domain ts _ _ He), Hrole, Hn.
Qed.
End unseen.

(** ** What a reconciliation writes *)
Section writes.
Context `{RangeOrder} (IsValidLabelValue : string → list string) (templates : option LabelSet) (name : string).

(** Everything but the topology [name] is as in [c0]. *)
Definition frame (c0 c : Cluster) : Prop :=
  c_nodes c = c_nodes c0 ∧ c_switches c = c_switches c0 ∧ c_fabricNodes c = c_fabricNodes c0 ∧
  ∀ n, n ≠ name → c_topologies c !! n = c_topologies c0 !! n.

(** The status the labels of [c0] give. *)
Definition builds (c0 : Cluster) (r : BuildResult) : Prop :=
  BuildTopologyStatus IsValidLabelValue (ForTopology templates name)
    (takeSnapshot name (c_nodes c0) (c_switches c0))
    (from_option (fun t => v1beta1.TS_Nodes (v1beta1.T_Status t)) [] (c_topologies c0 !! name)) = Ret r.

Definition written (c0 c : Cluster) : Prop :=
  match c_topologies c0 !! name with
  | Some t =>
    if v1beta1.Deleting t then c = c0
    else ∃ r, builds c0 r ∧ c_topologies c !! name = Some (with_status (BR_Status r) t)
  | None => ∃ r, builds c0 r ∧
      c_topologies c !! name =
        if topologyStatusEmpty (BR_Status r) then None else Some (with_status (BR_Status r) (newFixedTopology name))
  end.

(** A failed reconciliation never damages a status. *)
Definition preserved (c0 c : Cluster) : Prop :=
  frame c0 c ∧ ∀ t, c_topologies c0 !! name = Some t → c_topologies c !! name = Some t.

Lemma frame_refl c : frame c c.
Proof. done. Qed.

Lemma preserved_refl c : preserved c c.
Proof. done. Qed.

Lemma with_status_id t : with_status (v1beta1.T_Status t) t = t.
Proof. by destruct t. Qed.

Lemma writeStatus_triple c0 c1 object status :
  v1beta1.T_Name object = name → v1beta1.Deleting object = false →
  preserved c0 c1 → c_topologies c1 !! name = Some object →
  triple (fun c => c = c1) (writeStatus object status)
    (fun res c => res = finished ∧ frame c0 c ∧ c_topologies c !! name = Some (with_status status object))
    (preserved c0).
Proof.
  intros Hname Hdel Hp H1. unfold writeStatus. case_decide as Heq.
  - apply triple_ret. intros c ->. subst status. rewrite with_status_id. by destruct Hp.
  - apply (triple_bind _ _ _ (fun _ c => frame c0 c ∧ c_topologies c !! name = Some (with_status status object)));
      [|intros _; by apply triple_ret].
    apply triple_call; [by intros s ->|]. intros s ->. cbn. rewrite Hdel. cbn. rewrite Hname.
    destruct Hp as [(? & ? & ? & Hf) _]. split; [|by rewrite lookup_insert_eq].
    split_and!; [done..|]. intros n Hn. cbn. rewrite lookup_insert_ne by done. auto.
Qed.

Lemma reconcileStatus_triple c0 :
  (∀ n t, c_topologies c0 !! n = Some t → v1beta1.T_Name t = n) →
  triple (fun c => c = c0) (reconcileStatus IsValidLabelValue templates name)
    (fun res c => frame c0 c ∧ (res = finished → written c0 c)) (preserved c0).
Proof.
  intros Hwf. unfold reconcileStatus.
  apply (triple_bind _ _ _ (fun object c => object = c_topologies c0 !! name ∧ c = c0)).
  { apply triple_call; [by intros s ->|]. by intros s ->. }
  intros object. apply triple_fact. intros ->.
  destruct (match c_topologies c0 !! name with Some t => v1beta1.Deleting t | None => false end) eqn:Hdel.
  { apply triple_ret. intros c ->. split; [done|]. intros _. unfold written.
    destruct (c_topologies c0 !! name) as [t|]; [|done]. by rewrite Hdel. }
  apply (triple_bind _ _ _ (fun nodes c => nodes = c_nodes c0 ∧ c = c0)).
  { apply triple_call; [by intros s ->|]. by intros s ->. }
  intros nodes. apply triple_fact. intros ->.
  apply (triple_bind _ _ _ (fun switches c => switches = c_switches c0 ∧ c = c0)).
  { apply triple_call; [by intros s ->|]. by intros s ->. }
  intros switches. apply triple_fact. intros ->.
  apply (triple_bind _ _ _ (fun r c => builds c0 r ∧ c = c0)).
  { apply triple_pure; [by intros s ->|]. intros r s Hr ->. done. }
  intros r. apply triple_fact. intros Hr. unfold written.
  destruct (c_topologies c0 !! name) as [object|] eqn:Hobj.
  - eapply triple_conseq; [apply (writeStatus_triple c0 c0); eauto using preserved_refl|done| |done].
    intros res c (-> & Hf & Hc). split; [done|]. intros _. rewrite Hdel. by exists r.
  - destruct (topologyStatusEmpty (BR_Status r)) eqn:Hemp.
    { apply triple_ret. intros c ->. split; [done|]. intros _. exists r. by rewrite Hemp. }
    intros w <-. unfold mbind, M_bind, try_call.
    assert (add_topology (newFixedTopology name) (w_cluster w) =
      (inl (), set_topologies (<[name := newFixedTopology name]> (c_topologies (w_cluster w))) (w_cluster w))) as Hadd.
    { unfold add_topology. cbn. by rewrite Hobj. }
    assert (triple (fun c => c = set_topologies (<[name := newFixedTopology name]> (c_topologies (w_cluster w))) (w_cluster w))
      (writeStatus (newFixedTopology name) (BR_Status r))
      (fun res c => frame (w_cluster w) c ∧ (res = finished → ∃ r0, builds (w_cluster w) r0 ∧ c_topologies c !! name =
        if topologyStatusEmpty (BR_Status r0) then None else Some (with_status (BR_Status r0) (newFixedTopology name))))
      (preserved (w_cluster w))) as Hwrite.
    { eapply triple_conseq; [apply (writeStatus_triple (w_cluster w)
        (set_topologies (<[name := newFixedTopology name]> (c_topologies (w_cluster w))) (w_cluster w))
        (newFixedTopology name) (BR_Status r) eq_refl eq_refl)|done| |done].
      - split; [split_and!; [done..|]|]; cbn.
        + intros n Hn. by rewrite lookup_insert_ne.
        + intros t Ht. congruence.
      - cbn. by rewrite lookup_insert_eq.
      - intros res c (-> & Hf & Hc). split; [done|]. intros _. exists r. by rewrite Hemp. }
    destruct (w_faults w) as [|[] faults]; cbn; rewrite ?Hadd; [by apply Hwrite|by apply Hwrite|done..].
Qed.
End writes.
