(* ===== verification/TopologyStatusProperties.v ===== *)
(** * Properties of the topology status

    The claims about src/pkg/controller/topologystatus, proved from
    TopologyStatusFacts.v and NodeGroupNames.v, with witnesses. *)
From stdpp Require Import base gmap sets list strings sorting.
From Stdlib Require Import ZArith Ascii.
From S2P Require Import Prelude GoStrings GoNumbers GoText Api Topology GraphFacts LabelTemplate LabelTemplateFacts ApiServer TopologyStatus TopologyStatusReconcile TopologyStatusFacts NodeGroupNames StatusEvents.
Local Open Scope Z_scope.

Section status.
Context `{RangeOrder}.

Lemma range_values {K V A} `{Countable K} (f : V → A) (m : gmap K V) :
  foldl (fun l '(_, x) => l ++ [f x]) [] (range m) = f <$> (range m).*2.
Proof.
  rewrite <-list_fmap_compose. change ((f ∘ snd) <$> range m) with ([] ++ ((f ∘ snd) <$> range m)).
  rewrite <-(foldl_snoc (f ∘ snd)). apply foldl_ext_in. by intros a [].
Qed.

Lemma elem_of_range_values {K V} `{Countable K} (m : gmap K V) x : x ∈ (range m).*2 ↔ ∃ k, m !! k = Some x.
Proof.
  rewrite list_elem_of_fmap. split.
  - intros ([k y] & -> & Hin%elem_of_range). by exists k.
  - intros [k Hk]. exists (k, x). split; [done|]. by apply elem_of_range.
Qed.

(** The groups before they are named. *)
Definition unnamed (groups : gmap string v1beta1.TopologyNodeGroup) : list v1beta1.TopologyNodeGroup :=
  merge_sort group_le (finishGroup <$> (range groups).*2).

(** The named groups are the unnamed ones, group by group. *)
Lemma assigned_same groups prev res :
  assignNodeGroupNames groups prev = Ret res → Forall2 (fun g g' => g' = named g (v1beta1.NG_Name g')) groups res.
Proof.
  unfold assignNodeGroupNames. destruct (foldl _ _ _) as [pm used]. intros Hrun. go_inv. subst res.
  apply (go_foldl_ret (fun seen (st : list v1beta1.TopologyNodeGroup * gset Z * Z) =>
    Forall2 (fun g g' => g' = named g (v1beta1.NG_Name g')) seen st.1.1) _ _ _ _ E); [constructor|].
  intros seen g todo [[l u] n] st' _ IH Hstep. unfold assignName in Hstep. cbn [fst snd] in *.
  case_decide; go_inv; subst st'; (apply Forall2_app; [done|]); by repeat constructor.
Qed.

Lemma in_unnamed st g :
  g ∈ unnamed (bs_groups st) ↔ ∃ k g0, bs_groups st !! k = Some g0 ∧ g = finishGroup g0.
Proof.
  unfold unnamed. rewrite (merge_sort_Permutation group_le), list_elem_of_fmap.
  setoid_rewrite elem_of_range_values. naive_solver.
Qed.

Lemma sorted_elem l x : x ∈ merge_sort resource_le l ↔ x ∈ l.
Proof. by rewrite (merge_sort_Permutation resource_le). Qed.

(** The parent of a domain. *)
Lemma finishDomain_parent O L (domains : gmap string domainState) s d p :
  dom_inv O L domains → domains !! d = Some s → (∀ d p, L d p → p ≠ "") →
  v1beta1.Parent (finishDomain s) = p ∧ p ≠ "" ↔ L d p.
Proof.
  intros [Hi _ _] Hd Hne. destruct (Hi _ _ Hd) as (Hdom & _ & _ & Hsz & Hp). rewrite <-Hp. unfold finishDomain, sortedSet. cbn.
  case_decide as H1.
  - apply size_1_elem_of in H1 as [q Hq]. apply leibniz_equiv in Hq. rewrite Hq in *. rewrite elements_singleton.
    cbn. rewrite elem_of_singleton. split; [naive_solver|]. intros ->. split; [done|]. apply (Hne d), Hp. set_solver.
  - rewrite Hdom. cbn. split; [naive_solver|]. intros Hin.
    assert (ds_parents s = ∅) as He; [|set_solver]. apply leibniz_equiv, size_empty_iff. lia.
Qed.

Context (IsValidLabelValue : string → list string) (tm : option Template).

Lemma BuildTopologyStatus_inv snapshot prev r :
  BuildTopologyStatus IsValidLabelValue tm snapshot prev = Ret r →
  ∃ st domains pending,
    go_foldl (buildNode IsValidLabelValue tm) (MkBuild ∅ ∅) (merge_sort resource_le (LS_Nodes snapshot)) = Ret st ∧
    go_foldl (buildSwitch IsValidLabelValue) (bs_domains st, []) (merge_sort resource_le (LS_Switches snapshot)) =
      Ret (domains, pending) ∧
    v1beta1.Domains (BR_Status r) = merge_sort domain_le (finishDomain <$> (range domains).*2) ∧
    assignNodeGroupNames (unnamed (bs_groups st)) prev = Ret (v1beta1.TS_Nodes (BR_Status r)) ∧
    Pending r = sort_strings pending.
Proof.
  unfold BuildTopologyStatus. destruct tm as [t|]; [|done]. intros Hrun. go_inv.
  destruct a0 as [domains pending]. go_inv. subst r. rewrite !range_values in *. by exists a, domains, pending.
Qed.

Lemma unnamed_keys st nodes : build_inv IsValidLabelValue tm nodes st → NoDup (groupKey <$> unnamed (bs_groups st)).
Proof.
  intros [_ [Hg _] _]. unfold unnamed. rewrite (merge_sort_Permutation group_le), <-list_fmap_compose.
  assert ((groupKey ∘ finishGroup) <$> (range (bs_groups st)).*2 = (range (bs_groups st)).*1) as ->;
    [|apply NoDup_range_keys].
  rewrite <-list_fmap_compose. apply Forall_fmap_ext_1, Forall_forall. intros [k g] Hin%elem_of_range. cbn.
  by destruct (Hg _ _ Hin) as [-> _].
Qed.

Context (Hvalid : ∀ v, IsValidLabelValue v = [] → nul_free v = true).

Lemma status_domains_raw snapshot prev r :
  BuildTopologyStatus IsValidLabelValue tm snapshot prev = Ret r →
  ∃ nodes st domains, (∀ x, x ∈ nodes ↔ x ∈ LS_Nodes snapshot) ∧ build_inv IsValidLabelValue tm nodes st ∧
    (∀ x, x ∈ v1beta1.Domains (BR_Status r) ↔ ∃ d s, domains !! d = Some s ∧ x = finishDomain s) ∧
    v1beta1.TD_Name <$> v1beta1.Domains (BR_Status r) ≡ₚ (range domains).*1 ∧
    members_added (bs_domains st) domains (fun d x =>
      ∃ sw, sw ∈ LS_Switches snapshot ∧ LR_Name sw = x ∧ swDomain sw = d ∧ d ≠ "").
Proof.
  intros (st & domains & pending & Hst & Hsw & Hd & _ & _)%BuildTopologyStatus_inv.
  apply (buildNodes_inv _ _ Hvalid) in Hst. apply buildSwitches_inv in Hsw as [Hm _].
  assert (∀ d s, domains !! d = Some s → v1beta1.TD_Name (finishDomain s) = d) as Hname.
  { intros d s Hs. specialize (Hm d). rewrite Hs in Hm. destruct (bs_domains st !! d) as [s0|] eqn:Hs0; [|done].
    destruct Hm as (Hdom & _). destruct (di_domain _ _ _ (bi_domains _ _ _ _ Hst) _ _ Hs0) as (Heq & _).
    cbn. by rewrite Hdom, Heq. }
  exists (merge_sort resource_le (LS_Nodes snapshot)), st, domains. split_and!; [apply sorted_elem|done| | |].
  - intros x. rewrite Hd, (merge_sort_Permutation domain_le), list_elem_of_fmap.
    setoid_rewrite elem_of_range_values. naive_solver.
  - rewrite Hd, (merge_sort_Permutation domain_le), <-!list_fmap_compose. apply reflexive_eq.
    apply Forall_fmap_ext_1, Forall_forall. intros [k s] Hin%elem_of_range. cbn. by apply Hname.
  - intros d. specialize (Hm d). destruct (bs_domains st !! d), (domains !! d); try done.
    destruct Hm as (? & ? & Hm). split_and!; [done..|]. intros x. rewrite Hm. by setoid_rewrite sorted_elem.
Qed.
End status.

(** ** A concrete snapshot *)
Module Labelled.
Definition template : option Template := Some (MkTemplate "t/tier-{{ .Tier }}"
  [TextNode "t/tier-"; ActionNode (Some (MkPipe [] false [Some (MkCommand [FieldNode ["Tier"]])]))]
  [Quoted "t/tier-"; TierGroup] "t/tier-" "").

Definition templates : LabelSet := MkSet None template None.

(** Letters, digits and dashes. *)
Fixpoint simple (s : string) : bool :=
  match s with
  | "" => true
  | String c s => (is_lower_alnum (byte_of c) || bool_decide (byte_of c = 45)) && simple s
  end.

Definition validValue (v : string) : list string := if simple v then [] else ["must be a label value"].

Lemma validValue_nul v : validValue v = [] → nul_free v = true.
Proof.
  unfold validValue. destruct (simple v) eqn:Hs; [intros _|done]. revert Hs. induction v as [|c v IH]; [done|]. cbn.
  intros [Hc Hv]%andb_prop. rewrite (IH Hv), bool_decide_false; [done|]. intros ->. by vm_compute in Hc.
Qed.

Definition labels (values : list string) : gmap string string :=
  list_to_map (imap (fun i v => ("t/tier-" +:+ Itoa (Z.of_nat i + 1), v)) values).

Definition node (name : string) (values : list string) : corev1.Node := corev1.MkNode name (labels values).

Definition nodes : list corev1.Node :=
  [node "n2" ["tier1-group1"; "tier2-group1"]; node "n1" ["tier1-group1"; "tier2-group1"];
   node "n3" ["tier1-group2"; "tier2-group1"]; corev1.MkNode "bare" ∅].

Definition switch (name domain : string) : v1beta1.Switch :=
  v1beta1.MkSwitch name 1 {[ v1beta1.TopologyDomainLabel := domain ]} ∅ "" "" None (v1beta1.MkSwitchStatus "" true [] 0 []).

Definition switches : list v1beta1.Switch := [switch "leaf-1" "tier1-group1"; switch "lost" "tier1-group9"].

Definition snapshot : LabelSnapshot := takeSnapshot v1beta1.TopologyScaleOut nodes switches.

Definition previous : list v1beta1.TopologyNodeGroup :=
  [v1beta1.MkNodeGroup "node-group1" ["gone"] ["tier2-group9"; "tier1-group9"];
   v1beta1.MkNodeGroup "node-group3" ["n3"] ["tier2-group1"; "tier1-group2"]].

Definition result : BuildResult := MkResult
  (v1beta1.MkStatus
    [v1beta1.MkDomain "tier2-group1" 2 "" []; v1beta1.MkDomain "tier1-group1" 1 "tier2-group1" ["leaf-1"];
     v1beta1.MkDomain "tier1-group2" 1 "tier2-group1" []]
    [v1beta1.MkNodeGroup "node-group2" ["n1"; "n2"] ["tier2-group1"; "tier1-group1"];
     v1beta1.MkNodeGroup "node-group3" ["n3"] ["tier2-group1"; "tier1-group2"]])
  [pendingMessage "lost" "tier1-group9"].

Example builds_result : @BuildTopologyStatus canonical_order validValue template snapshot previous = Ret result.
Proof. vm_compute. reflexivity. Qed.
End Labelled.

(** ** The claims *)

(** The domains of a status, for the claim and for the composition with the labels. *)
Lemma status_domains_spec `{RangeOrder} IsValidLabelValue tm snapshot prev r :
  (∀ v, IsValidLabelValue v = [] → nul_free v = true) →
  BuildTopologyStatus IsValidLabelValue tm snapshot prev = Ret r →
  let D := v1beta1.Domains (BR_Status r) in
  NoDup (v1beta1.TD_Name <$> D) ∧
  (∀ t d, (∃ x, x ∈ D ∧ v1beta1.TD_Name x = d ∧ v1beta1.TD_Tier x = t) ↔
     ∃ node, node ∈ LS_Nodes snapshot ∧ tierValue tm (LR_Labels node) t d) ∧
  (∀ x p, x ∈ D → v1beta1.Parent x = p ∧ p ≠ "" ↔
     ∃ node, node ∈ LS_Nodes snapshot ∧ ∃ t, tierValue tm (LR_Labels node) t (v1beta1.TD_Name x) ∧
       tierValue tm (LR_Labels node) (t + 1) p) ∧
  (∀ x s, x ∈ D → s ∈ v1beta1.SwitchMember x ↔
     ∃ sw, sw ∈ LS_Switches snapshot ∧ LR_Name sw = s ∧ swDomain sw = v1beta1.TD_Name x ∧ swDomain sw ≠ "").
Proof.
  intros Hvalid Hr D.
  destruct (status_domains_raw _ _ Hvalid _ _ _ Hr) as (nodes & st & domains & Hn & Hst & HD & Hnames & Hm).
  fold D in HD, Hnames. destruct (bi_domains _ _ _ _ Hst) as [Hdom Hocc Hlink].
  assert (∀ d s, domains !! d = Some s → ∃ s0, bs_domains st !! d = Some s0 ∧ ds_domain s = ds_domain s0 ∧
    ds_parents s = ds_parents s0 ∧ ∀ x, x ∈ ds_members s ↔
      ∃ sw, sw ∈ LS_Switches snapshot ∧ LR_Name sw = x ∧ swDomain sw = d ∧ d ≠ "") as Hback.
  { intros d s Hs. specialize (Hm d). rewrite Hs in Hm. destruct (bs_domains st !! d) as [s0|] eqn:Hs0; [|done].
    exists s0. destruct Hm as (? & ? & Hm). destruct (Hdom _ _ Hs0) as (_ & Hmem & _). rewrite Hmem in Hm.
    split_and!; [done..|]. intros x. rewrite Hm. set_solver. }
  assert (∀ d s, domains !! d = Some s → v1beta1.TD_Name (ds_domain s) = d) as Hname.
  { intros d s Hs. destruct (Hback _ _ Hs) as (s0 & Hs0 & -> & _). by destruct (Hdom _ _ Hs0) as (-> & _). }
  split_and!.
  - rewrite Hnames. apply NoDup_range_keys.
  - intros t d. split.
    + intros (x & (d' & s & Hs & ->)%HD & Hd & Ht). cbn in Hd, Ht. rewrite (Hname _ _ Hs) in Hd. subst d'.
      destruct (Hback _ _ Hs) as (s0 & Hs0 & Heq & _). destruct (Hdom _ _ Hs0) as (_ & _ & (node & Hin & Hv) & _).
      exists node. split; [by apply Hn|]. by rewrite <-Ht, Heq.
    + intros (node & Hin & Hv). destruct (Hocc t d) as (s0 & Hs0 & Ht); [exists node; split; [by apply Hn|done]|].
      specialize (Hm d). rewrite Hs0 in Hm. destruct (domains !! d) as [s|] eqn:Hs; [|done].
      destruct Hm as (Heq & _). exists (finishDomain s). split; [apply HD; eauto|]. cbn.
      rewrite (Hname _ _ Hs), Heq. done.
  - intros x p (d & s & Hs & ->)%HD. destruct (Hback _ _ Hs) as (s0 & Hs0 & Heq & Hpar & _).
    assert (v1beta1.Parent (finishDomain s) = v1beta1.Parent (finishDomain s0)) as ->
      by (unfold finishDomain; cbn; by rewrite Hpar, Heq).
    rewrite (finishDomain_parent _ _ _ _ d p (bi_domains _ _ _ _ Hst) Hs0).
    + cbn. rewrite (Hname _ _ Hs). unfold seen_link. by setoid_rewrite Hn.
    + intros d' p' (_ & _ & _ & _ & (_ & _ & _ & Hne)). done.
  - intros x sw (d & s & Hs & ->)%HD. destruct (Hback _ _ Hs) as (_ & _ & _ & _ & Hmem). cbn.
    rewrite (Hname _ _ Hs). unfold sortedSet. rewrite elem_of_sort_strings, elem_of_elements, Hmem. naive_solver.
Qed.

(** C12.  When [BuildTopologyStatus] returns, its domains are exactly the values
    Nodes carry at each tier, each listed once with its tier; the parent of a domain
    is the value the same Nodes carry one tier up, and its members are exactly the
    Switches labelled with it.  Label values are assumed to contain no NUL byte. *)
Theorem status_domains `{RangeOrder} IsValidLabelValue tm snapshot prev r :
  (∀ v, IsValidLabelValue v = [] → nul_free v = true) →
  BuildTopologyStatus IsValidLabelValue tm snapshot prev = Ret r →
  let D := v1beta1.Domains (BR_Status r) in
  NoDup (v1beta1.TD_Name <$> D) ∧
  (∀ t d, (∃ x, x ∈ D ∧ v1beta1.TD_Name x = d ∧ v1beta1.TD_Tier x = t) ↔
     ∃ node, node ∈ LS_Nodes snapshot ∧ tierValue tm (LR_Labels node) t d) ∧
  (∀ x p, x ∈ D → v1beta1.Parent x = p ∧ p ≠ "" ↔
     ∃ node, node ∈ LS_Nodes snapshot ∧ ∃ t, tierValue tm (LR_Labels node) t (v1beta1.TD_Name x) ∧
       tierValue tm (LR_Labels node) (t + 1) p) ∧
  (∀ x s, x ∈ D → s ∈ v1beta1.SwitchMember x ↔
     ∃ sw, sw ∈ LS_Switches snapshot ∧ LR_Name sw = s ∧ swDomain sw = v1beta1.TD_Name x ∧ swDomain sw ≠ "").
Proof. apply status_domains_spec. Qed.

Lemma status_domains_witness :
  let D := v1beta1.Domains (BR_Status Labelled.result) in
  NoDup (v1beta1.TD_Name <$> D) ∧
  (∀ t d, (∃ x, x ∈ D ∧ v1beta1.TD_Name x = d ∧ v1beta1.TD_Tier x = t) ↔
     ∃ node, node ∈ LS_Nodes Labelled.snapshot ∧ tierValue Labelled.template (LR_Labels node) t d) ∧
  (∀ x p, x ∈ D → v1beta1.Parent x = p ∧ p ≠ "" ↔
     ∃ node, node ∈ LS_Nodes Labelled.snapshot ∧
       ∃ t, tierValue Labelled.template (LR_Labels node) t (v1beta1.TD_Name x) ∧
         tierValue Labelled.template (LR_Labels node) (t + 1) p) ∧
  (∀ x s, x ∈ D → s ∈ v1beta1.SwitchMember x ↔
     ∃ sw, sw ∈ LS_Switches Labelled.snapshot ∧ LR_Name sw = s ∧ swDomain sw = v1beta1.TD_Name x ∧ swDomain sw ≠ "").
Proof.
  apply (@status_domains canonical_order Labelled.validValue Labelled.template Labelled.snapshot Labelled.previous).
  - exact Labelled.validValue_nul.
  - vm_compute. reflexivity.
Defined.

(** The node groups of a status, likewise. *)
Lemma status_groups_spec `{RangeOrder} IsValidLabelValue tm snapshot prev r :
  (∀ v, IsValidLabelValue v = [] → nul_free v = true) →
  BuildTopologyStatus IsValidLabelValue tm snapshot prev = Ret r →
  let Gs := v1beta1.TS_Nodes (BR_Status r) in
  NoDup (v1beta1.SwitchDomainPath <$> Gs) ∧
  (∀ node t v, node ∈ LS_Nodes snapshot → tierValue tm (LR_Labels node) t v →
     ∃ g, g ∈ Gs ∧ LR_Name node ∈ v1beta1.NG_Nodes g ∧ is_path tm (LR_Labels node) (v1beta1.SwitchDomainPath g)) ∧
  (∀ g n, g ∈ Gs → n ∈ v1beta1.NG_Nodes g →
     ∃ node, node ∈ LS_Nodes snapshot ∧ LR_Name node = n ∧ is_path tm (LR_Labels node) (v1beta1.SwitchDomainPath g)).
Proof.
  intros Hvalid (st & domains & pending & Hst & _ & _ & Hg & _)%BuildTopologyStatus_inv Gs.
  apply (buildNodes_inv _ _ Hvalid) in Hst. fold Gs in Hg. apply assigned_same in Hg as Hs.
  assert (∀ g', g' ∈ Gs → ∃ g, g ∈ unnamed (bs_groups st) ∧ g' = named g (v1beta1.NG_Name g')) as Hback.
  { intros g' Hg'. apply (Forall2_elem_of_r _ _ _ _ Hs) in Hg' as (g & ? & ?). by exists g. }
  destruct (bi_groups _ _ _ _ Hst) as [Hgrp Hin]. split_and!.
  - pose proof (unnamed_keys _ _ _ _ Hst) as Hk. rewrite <-(same_keys _ _ Hs) in Hk. unfold groupKey in Hk.
    rewrite (list_fmap_compose v1beta1.SwitchDomainPath nodeGroupKey) in Hk. by apply NoDup_fmap_1 in Hk.
  - intros node t v Hnode Hv. rewrite <-sorted_elem in Hnode.
    destruct (bi_paths _ _ _ _ Hst node Hnode) as (path & Hp & Hgood); [by exists t, v|].
    destruct (Hin path (LR_Name node)) as (g & Hkey & <- & Hmem); [by exists node|].
    assert (finishGroup g ∈ unnamed (bs_groups st)) as Hun by (apply in_unnamed; eauto).
    apply (Forall2_elem_of_l _ _ _ _ Hs) in Hun as (g' & Hg' & Heq). exists g'. split; [done|]. rewrite Heq. cbn.
    split; [by rewrite elem_of_sort_strings|done].
  - intros g' n Hg' Hn. destruct (Hback _ Hg') as (g & (k & g0 & Hk & ->)%in_unnamed & Heq). rewrite Heq in Hn |- *. cbn in *.
    rewrite elem_of_sort_strings in Hn. destruct (Hgrp _ _ Hk) as (_ & _ & _ & Hall).
    destruct (Hall n Hn) as (node & Hnode & Hname & Hp & _). exists node. rewrite sorted_elem in Hnode. done.
Qed.

(** C13.  When [BuildTopologyStatus] returns, the labels of every Node form a path
    without gaps, every Node with topology labels is listed in a group whose path is
    its own, every listed Node has the path of its group, and no two groups have the
    same path. *)
Theorem status_groups `{RangeOrder} IsValidLabelValue tm snapshot prev r :
  (∀ v, IsValidLabelValue v = [] → nul_free v = true) →
  BuildTopologyStatus IsValidLabelValue tm snapshot prev = Ret r →
  let Gs := v1beta1.TS_Nodes (BR_Status r) in
  NoDup (v1beta1.SwitchDomainPath <$> Gs) ∧
  (∀ node t v, node ∈ LS_Nodes snapshot → tierValue tm (LR_Labels node) t v →
     ∃ g, g ∈ Gs ∧ LR_Name node ∈ v1beta1.NG_Nodes g ∧ is_path tm (LR_Labels node) (v1beta1.SwitchDomainPath g)) ∧
  (∀ g n, g ∈ Gs → n ∈ v1beta1.NG_Nodes g →
     ∃ node, node ∈ LS_Nodes snapshot ∧ LR_Name node = n ∧ is_path tm (LR_Labels node) (v1beta1.SwitchDomainPath g)).
Proof. apply status_groups_spec. Qed.

Lemma status_groups_witness :
  let Gs := v1beta1.TS_Nodes (BR_Status Labelled.result) in
  NoDup (v1beta1.SwitchDomainPath <$> Gs) ∧
  (∀ node t v, node ∈ LS_Nodes Labelled.snapshot → tierValue Labelled.template (LR_Labels node) t v →
     ∃ g, g ∈ Gs ∧ LR_Name node ∈ v1beta1.NG_Nodes g ∧
       is_path Labelled.template (LR_Labels node) (v1beta1.SwitchDomainPath g)) ∧
  (∀ g n, g ∈ Gs → n ∈ v1beta1.NG_Nodes g →
     ∃ node, node ∈ LS_Nodes Labelled.snapshot ∧ LR_Name node = n ∧
       is_path Labelled.template (LR_Labels node) (v1beta1.SwitchDomainPath g)).
Proof.
  apply (@status_groups canonical_order Labelled.validValue Labelled.template Labelled.snapshot Labelled.previous).
  - exact Labelled.validValue_nul.
  - vm_compute. reflexivity.
Defined.

(** C14.  [assignNodeGroupNames] always returns: the groups keep their Nodes and
    paths, no two groups get the same name, a group with the path of a previous
    group keeps its name, and a new group gets a number no previous group has. *)
Theorem node_group_names groups prev :
  NoDup (groupKey <$> groups) → NoDup (groupKey <$> prev) → NoDup (v1beta1.NG_Name <$> prev) →
  Z.of_nat (length prev + length groups) ≤ max_int →
  ∃ res, assignNodeGroupNames groups prev = Ret res ∧
    Forall2 (fun g g' => g' = named g (v1beta1.NG_Name g')) groups res ∧
    NoDup (v1beta1.NG_Name <$> res) ∧
    (∀ g p, g ∈ res → p ∈ prev → groupKey p = groupKey g → v1beta1.NG_Name p ≠ "" →
       v1beta1.NG_Name g = v1beta1.NG_Name p) ∧
    (∀ g, g ∈ res → (∀ p, p ∈ prev → groupKey p ≠ groupKey g) →
       ∃ n, v1beta1.NG_Name g = nodeGroupNamePrefix +:+ Itoa n ∧ 1 ≤ n ∧ ∀ p, p ∈ prev → ~ numberOf p n).
Proof.
  intros Hg Hk Hn Hb. destruct (assignNodeGroupNames_spec groups prev Hg Hn Hb) as (res & -> & Hs & Hnd & Hok).
  exists res. split_and!; [done..| |].
  - intros g p Hin Hp Hkey Hne.
    assert (keptName (previousNames prev).1 g = v1beta1.NG_Name p) as Hkept.
    { unfold keptName. by rewrite <-Hkey, (previous_name prev p Hk Hp). }
    destruct (Hok g Hin) as [[_ ->]|[H0 _]]; congruence.
  - intros g Hin Hno. destruct (Hok g Hin) as [[Hne _]|[_ Hf]]; [|done]. exfalso. unfold keptName in Hne.
    destruct ((previousNames prev).1 !! groupKey g) as [nm|] eqn:Hnm; [|done].
    destruct (proj1 (previousNames_spec prev) _ _ Hnm) as (p & Hp & Hkey & _). by apply (Hno p).
Qed.

Lemma node_group_names_witness :
  let groups := [v1beta1.MkNodeGroup "" ["n1"] ["a"]; v1beta1.MkNodeGroup "" ["n3"] ["tier2-group1"; "tier1-group2"]] in
  ∃ res, assignNodeGroupNames groups Labelled.previous = Ret res ∧
    Forall2 (fun g g' => g' = named g (v1beta1.NG_Name g')) groups res ∧
    NoDup (v1beta1.NG_Name <$> res) ∧
    (∀ g p, g ∈ res → p ∈ Labelled.previous → groupKey p = groupKey g → v1beta1.NG_Name p ≠ "" →
       v1beta1.NG_Name g = v1beta1.NG_Name p) ∧
    (∀ g, g ∈ res → (∀ p, p ∈ Labelled.previous → groupKey p ≠ groupKey g) →
       ∃ n, v1beta1.NG_Name g = nodeGroupNamePrefix +:+ Itoa n ∧ 1 ≤ n ∧
         ∀ p, p ∈ Labelled.previous → ~ numberOf p n).
Proof.
  apply node_group_names.
  - apply (bool_decide_unpack _). vm_compute. exact I.
  - apply (bool_decide_unpack _). vm_compute. exact I.
  - apply (bool_decide_unpack _). vm_compute. exact I.
  - vm_compute. discriminate.
Defined.

(** C15.  A status is stable: building it again from the same labels with its own
    node groups as the previous ones gives the same result, so that a second
    reconciliation writes nothing. *)
Theorem status_stable `{RangeOrder} IsValidLabelValue tm snapshot prev r :
  (∀ v, IsValidLabelValue v = [] → nul_free v = true) →
  NoDup (v1beta1.NG_Name <$> prev) →
  Z.of_nat (length prev + length (v1beta1.TS_Nodes (BR_Status r))) ≤ max_int →
  BuildTopologyStatus IsValidLabelValue tm snapshot prev = Ret r →
  BuildTopologyStatus IsValidLabelValue tm snapshot (v1beta1.TS_Nodes (BR_Status r)) = Ret r.
Proof.
  intros Hvalid Hprev Hb Hr.
  pose proof Hr as (st & domains & pending & Hst & Hsw & Hd & Hg & Hp)%BuildTopologyStatus_inv.
  apply (buildNodes_inv _ _ Hvalid) in Hst as Hinv.
  assert (length (v1beta1.TS_Nodes (BR_Status r)) = length (unnamed (bs_groups st))) as Hlen.
  { symmetry. eapply Forall2_length, assigned_same, Hg. }
  apply assign_again in Hg as Hag; [|by eapply unnamed_keys|done|by rewrite <-Hlen].
  assert (∀ p, BuildTopologyStatus IsValidLabelValue tm snapshot p =
    (statusNodes ← assignNodeGroupNames (unnamed (bs_groups st)) p;
     Ret (MkResult (v1beta1.MkStatus (merge_sort domain_le (finishDomain <$> (range domains).*2)) statusNodes)
       (sort_strings pending)))) as Heq.
  { intros p. unfold BuildTopologyStatus. destruct tm as [t|]; [|done]. rewrite Hst. cbn [mbind go_bind].
    rewrite Hsw. cbn [mbind go_bind]. by rewrite !range_values. }
  rewrite Heq in Hr. rewrite Heq, Hag. cbn. rewrite Hg in Hr. cbn in Hr. done.
Qed.

Lemma status_stable_witness :
  @BuildTopologyStatus canonical_order Labelled.validValue Labelled.template Labelled.snapshot
    (v1beta1.TS_Nodes (BR_Status Labelled.result)) = Ret Labelled.result.
Proof.
  apply (@status_stable canonical_order Labelled.validValue Labelled.template Labelled.snapshot Labelled.previous).
  - exact Labelled.validValue_nul.
  - apply (bool_decide_unpack _). vm_compute. exact I.
  - vm_compute. discriminate.
  - vm_compute. reflexivity.
Defined.

(**  With a template [Compile] accepts, [labelsByTier] never finds two values
    for one tier: it returns, for every tier, the value of the one label key that
    belongs to the tier. *)
Theorem labels_by_tier `{RangeOrder} Parse IsQualifiedName name rawText t labels :
  Compile Parse IsQualifiedName name rawText = Ret t →
  ∃ m, labelsByTier (Some t) labels = Ret m ∧
    ∀ tier v, m !! tier = Some v ↔
      1 ≤ tier ≤ max_int ∧ v ≠ "" ∧ ∃ key, Render (Some t) tier = Ret key ∧ labels !! key = Some v.
Proof.
  intros Hc. apply Compile_ok in Hc as [Hok _]. destruct (labelsByTier_total t labels Hok) as [m Hm].
  exists m. split; [done|]. intros tier v. rewrite (labelsByTier_ret _ _ _ Hm). unfold tierValue.
  setoid_rewrite (MatchTier_spec t _ tier Hok). naive_solver.
Qed.

Lemma labels_by_tier_witness :
  let Parse := fun _ : string => Some (Some [TextNode "t/tier-"; ActionNode (Some (MkPipe [] false [Some (MkCommand [FieldNode ["Tier"]])]))]) in
  let t := MkTemplate "t/tier-{{ .Tier }}"
    [TextNode "t/tier-"; ActionNode (Some (MkPipe [] false [Some (MkCommand [FieldNode ["Tier"]])]))]
    [Quoted "t/tier-"; TierGroup] "t/tier-" "" in
  ∃ m, @labelsByTier canonical_order (Some t) (Labelled.labels ["a"; "b"]) = Ret m ∧
    ∀ tier v, m !! tier = Some v ↔
      1 ≤ tier ≤ max_int ∧ v ≠ "" ∧ ∃ key, Render (Some t) tier = Ret key ∧ Labelled.labels ["a"; "b"] !! key = Some v.
Proof.
  intros Parse t. apply (@labels_by_tier canonical_order Parse (fun _ => []) "scaleOut" "t/tier-{{ .Tier }}").
  vm_compute. reflexivity.
Defined.

(**  The label predicate misses nothing: if every update of a Node or Switch
    was filtered out, the status of every fixed topology is the same before and
    after. *)
Theorem ignored_updates `{RangeOrder} IsValidLabelValue ts name prev nodes nodes' switches switches' :
  v1beta1.IsFixedTopologyName name = true →
  Forall2 (fun n n' => corev1.Node_Name n = corev1.Node_Name n' ∧ nodeLabelPredicate (Some ts) n n' = false) nodes nodes' →
  Forall2 (fun s s' => v1beta1.SW_Name s = v1beta1.SW_Name s' ∧ switchLabelPredicate (Some ts) s s' = false)
    switches switches' →
  BuildTopologyStatus IsValidLabelValue (ForTopology (Some ts) name) (takeSnapshot name nodes switches) prev =
  BuildTopologyStatus IsValidLabelValue (ForTopology (Some ts) name) (takeSnapshot name nodes' switches') prev.
Proof.
  intros Hname Hn Hs. set (tm := ForTopology (Some ts) name). pose proof (ForTopology_All ts name Hname) as Htm. fold tm in Htm.
  rewrite (BuildTopologyStatus_core _ tm (takeSnapshot name nodes switches)),
    (BuildTopologyStatus_core _ tm (takeSnapshot name nodes' switches')).
  f_equal. unfold core, takeSnapshot. cbn [LS_Nodes LS_Switches]. f_equal; rewrite <-!list_fmap_compose.
  - induction Hn as [|n n' nodes nodes' [Hnm Hp] _ IH]; [done|]. rewrite !fmap_cons, IH. f_equal.
    unfold coreNode, compose. cbn. rewrite Hnm. f_equal. apply bool_decide_eq_false, dec_stable in Hp.
    by apply (filtered_matched ts).
  - induction Hs as [|s s' switches switches' [Hsm Hp] _ IH]; [done|].
    unfold switchLabelPredicate in Hp. apply orb_false_iff in Hp as [Hrole Hp].
    apply bool_decide_eq_false, dec_stable in Hrole, Hp.
    assert (switchBelongsToTopology s name = switchBelongsToTopology s' name) as Hb.
    { unfold switchBelongsToTopology. by rewrite Hrole. }
    rewrite !filter_cons, Hb. case_decide; [|done]. rewrite !fmap_cons, IH. f_equal. unfold coreSwitch, compose. cbn. rewrite Hsm.
    f_equal. apply filtered_domain in Hp. apply map_eq. intros k. apply option_eq. intros v.
    rewrite !map_lookup_filter_Some. cbn. split; intros [Hl ->]; split; congruence.
Qed.

Lemma ignored_updates_witness :
  let old := [corev1.MkNode "n1" (Labelled.labels ["a"])] in
  let new := [corev1.MkNode "n1" (<["zone" := "z"]> (Labelled.labels ["a"]))] in
  @BuildTopologyStatus canonical_order Labelled.validValue (ForTopology (Some Labelled.templates) "scaleout")
    (takeSnapshot "scaleout" old Labelled.switches) [] =
  @BuildTopologyStatus canonical_order Labelled.validValue (ForTopology (Some Labelled.templates) "scaleout")
    (takeSnapshot "scaleout" new Labelled.switches) [].
Proof.
  intros old new. apply (@ignored_updates canonical_order).
  - reflexivity.
  - constructor; [|constructor]. split; [reflexivity|vm_compute; reflexivity].
  - constructor; [|constructor; [|constructor]]; (split; [reflexivity|vm_compute; reflexivity]).
Defined.

(** More generally, no event the predicates filter out matters: after any Node
    and Switch events that were ignored (creations and deletions included), the
    status of every fixed topology is the one before them. *)
Theorem ignored_events `{RangeOrder} IsValidLabelValue ts name prev nodes nodes' switches switches' :
  v1beta1.IsFixedTopologyName name = true →
  NoDup (corev1.Node_Name <$> nodes) → NoDup (v1beta1.SW_Name <$> switches) →
  ignored corev1.Node_Name (nodeEventPredicate (Some ts)) nodes nodes' →
  ignored v1beta1.SW_Name (switchEventPredicate (Some ts)) switches switches' →
  BuildTopologyStatus IsValidLabelValue (ForTopology (Some ts) name) (takeSnapshot name nodes switches) prev =
  BuildTopologyStatus IsValidLabelValue (ForTopology (Some ts) name) (takeSnapshot name nodes' switches') prev.
Proof.
  intros Hname Hn Hs Hen Hes. pose proof (ForTopology_All ts name Hname) as Htm.
  eapply ignored_views in Hen as [Hn' Hvn]; [|by apply (unseen_node ts)|done].
  eapply ignored_views in Hes as [Hs' Hvs]; [|by apply (unseen_switch ts _ Htm name)|done].
  by apply BuildTopologyStatus_perm.
Qed.

Lemma ignored_events_witness :
  let nodes := [corev1.MkNode "n1" (Labelled.labels ["a"])] in
  let added := corev1.MkNode "n0" {[ "zone" := "z" ]} in
  @BuildTopologyStatus canonical_order Labelled.validValue (ForTopology (Some Labelled.templates) "scaleout")
    (takeSnapshot "scaleout" nodes Labelled.switches) [] =
  @BuildTopologyStatus canonical_order Labelled.validValue (ForTopology (Some Labelled.templates) "scaleout")
    (takeSnapshot "scaleout" (added :: nodes) Labelled.switches) [].
Proof.
  intros nodes added. apply (@ignored_events canonical_order).
  - reflexivity.
  - apply NoDup_singleton.
  - apply (bool_decide_eq_true_1 _). reflexivity.
  - eapply rtc_once. exists (CreateEvent added). split; [vm_compute; reflexivity|]. split; [|reflexivity].
    intros Hin. apply list_elem_of_singleton in Hin. discriminate.
  - apply rtc_refl.
Defined.

(** C16.  Whatever calls fail, a reconciliation of topology [name] changes nothing
    but that Topology; when it finishes, the stored status is the one the labels
    give (and an empty status creates nothing); when it fails, an existing Topology
    still has its previous status. *)
Theorem reconcile_status `{RangeOrder} IsValidLabelValue templates name w result w' :
  (∀ n t, c_topologies (w_cluster w) !! n = Some t → v1beta1.T_Name t = n) →
  reconcileStatus IsValidLabelValue templates name w = (result, w') →
  match result with
  | Ret res => frame name (w_cluster w) (w_cluster w') ∧
      (res = finished → written IsValidLabelValue templates name (w_cluster w) (w_cluster w'))
  | _ => preserved name (w_cluster w) (w_cluster w')
  end.
Proof.
  intros Hwf Hrun. pose proof (reconcileStatus_triple IsValidLabelValue templates name _ Hwf w eq_refl) as Ht.
  rewrite Hrun in Ht. by destruct result.
Qed.

Lemma reconcile_status_witness :
  let w := MkWorld (MkCluster ∅ [] Labelled.switches Labelled.nodes) [NoFault; NoFault; NoFault; NoFault; Conflicts] in
  let r := @reconcileStatus canonical_order Labelled.validValue (Some Labelled.templates) "scaleout" w in
  match r.1 with
  | Ret res => frame "scaleout" (w_cluster w) (w_cluster r.2) ∧ (res = finished →
      @written canonical_order Labelled.validValue (Some Labelled.templates) "scaleout" (w_cluster w) (w_cluster r.2))
  | _ => preserved "scaleout" (w_cluster w) (w_cluster r.2)
  end.
Proof.
  intros w r. apply (@reconcile_status canonical_order Labelled.validValue (Some Labelled.templates) "scaleout" w).
  - intros n t Hn. cbn in Hn. by rewrite lookup_empty in Hn.
  - apply surjective_pairing.
Defined.
