(* ===== verification/Lldp.v ===== *)
(** * LLDP neighbours

    src/pkg/agent/fabricnode/lldp.go: how the lldpcli command is found, and the parser of
    its json0 output, which the node agent and the switch agent share.  The command
    search and the file system are parameters.  The parser for the plain json output is
    not used by any program and is left out. *)
From stdpp Require Import base gmap list numbers strings.
From Stdlib Require Import ZArith.
From S2P Require Import Prelude GoStrings GoText GoJson GoNet Api.

(** ** The command *)
Record LldpCliOptions := MkLldpOptions {
  BinaryPath : string;
  LldpSocketPath : string;
  FallbackToHost : bool;
  FallbackToPath : bool;
  UseHostNamespace : bool
}.

Inductive lldpError :=
| BinaryUnavailable (path : string)
| SocketUnavailable (path : string)
| LldpcliNotFound
| NsenterUnavailable
| NamespaceUnavailable (path : string)
| CommandFailed (output : string)
| UnmarshalFailed
| InvalidResponse (output : string).

Definition LLDPCLI : string := "lldpcli".
Definition NSENTER : string := "nsenter".
Definition hostMountNSPath : string := "/host/proc/1/ns/mnt".
Definition hostNetNSPath : string := "/host/proc/1/ns/net".

Definition lldpCliJSON0Args (socketPath : string) : list string :=
  ["-f"; "json0"] ++ (if decide (socketPath = "") then [] else ["-u"; socketPath]) ++ ["show"; "neighbors"].

Section invocation.
(** [exec.LookPath] and whether [os.Lstat] succeeds. *)
Context (commandLookup : string → option string) (pathCheck : string → bool).

Definition resolveHostNamespaceLldpCliInvocation : go lldpError (string * list string) :=
  match commandLookup NSENTER with
  | None => Err NsenterUnavailable
  | Some nsenterPath =>
    if negb (pathCheck hostMountNSPath) then Err (NamespaceUnavailable hostMountNSPath)
    else if negb (pathCheck hostNetNSPath) then Err (NamespaceUnavailable hostNetNSPath)
    else Ret (nsenterPath, ["--mount=" +:+ hostMountNSPath; "--net=" +:+ hostNetNSPath; "/usr/bin/env";
           "PATH=/usr/sbin:/usr/bin:/sbin:/bin"; "lldpcli"; "-f"; "json0"; "show"; "neighbors"])
  end.

(** Whether the socket can be used; no path is no restriction. *)
Definition socketUsable (o : LldpCliOptions) : bool := bool_decide (LldpSocketPath o = "") || pathCheck (LldpSocketPath o).

(** The part of [resolveLldpCliInvocation] behind the configured binary. *)
Definition resolveFromPath (o : LldpCliOptions) : go lldpError (string * list string) :=
  let rest :=
    if negb (FallbackToHost o) then
      if decide (LldpSocketPath o = "") then Err LldpcliNotFound else Err (SocketUnavailable (LldpSocketPath o))
    else resolveHostNamespaceLldpCliInvocation in
  match commandLookup LLDPCLI with
  | Some lldpPath =>
    if FallbackToPath o then Ret (lldpPath, lldpCliJSON0Args "")
    else if socketUsable o then Ret (lldpPath, lldpCliJSON0Args (LldpSocketPath o))
    else rest
  | None => rest
  end.

Definition resolveLldpCliInvocation (o : LldpCliOptions) : go lldpError (string * list string) :=
  if UseHostNamespace o then resolveHostNamespaceLldpCliInvocation
  else if decide (BinaryPath o = "") then resolveFromPath o
  else if negb (pathCheck (BinaryPath o)) then
    if negb (FallbackToPath o) && negb (FallbackToHost o) then Err (BinaryUnavailable (BinaryPath o)) else resolveFromPath o
  else if socketUsable o then Ret (BinaryPath o, lldpCliJSON0Args (LldpSocketPath o))
  else if negb (FallbackToHost o) then Err (SocketUnavailable (LldpSocketPath o))
  else resolveFromPath o.

(** Running the command: its combined output, and whether it failed. *)
Context (execCommand : string → list string → bool * string).

Definition LldpCliShowNeighborsWithOptions (o : LldpCliOptions) : go lldpError string :=
  '(command, args) ← resolveLldpCliInvocation o;
  let '(ok, output) := execCommand command args in
  if (ok : bool) then Ret output else Err (CommandFailed (TrimSpace output)).

Definition LldpCliShowNeighbors : go lldpError string :=
  LldpCliShowNeighborsWithOptions (MkLldpOptions "" "" true false false).

Definition checkLldpcliExists : go lldpError unit :=
  _ ← resolveLldpCliInvocation (MkLldpOptions "" "" true false false); Ret ().
End invocation.

(** ** The json0 format *)
Record LLDPJSON0Value := MkValue { V_Value : string }.

Record LLDPJSON0IDValue := MkIDValue {
  ID_Type : string;
  ID_Value : string
}.

Record LLDPJSON0Capability := MkCapability {
  Cap_Type : string;
  Cap_Enabled : bool
}.

Record LLDPJSON0Chassis := MkChassis {
  Ch_ID : list LLDPJSON0IDValue;
  Ch_Name : list LLDPJSON0Value;
  Ch_Descr : list LLDPJSON0Value;
  Ch_MgmtIP : list LLDPJSON0Value;
  Ch_Capability : list LLDPJSON0Capability
}.

Record LLDPJSON0Port := MkPort {
  Port_ID : list LLDPJSON0IDValue;
  Port_Descr : list LLDPJSON0Value;
  Port_TTL : list LLDPJSON0Value
}.

Record LLDPJSON0Interface := MkInterface {
  If_Name : string;
  If_Via : string;
  If_RID : string;
  If_Age : string;
  If_Chassis : list LLDPJSON0Chassis;
  If_Port : list LLDPJSON0Port
}.

Record LLDPJSON0Data := MkData { Interface : list LLDPJSON0Interface }.

Record LLDPJSON0Response := MkResponse { LLDP : list LLDPJSON0Data }.

(** Decoding, field by field. *)
Definition zeroValue : LLDPJSON0Value := MkValue "".
Definition zeroIDValue : LLDPJSON0IDValue := MkIDValue "" "".

Definition d_value : decoder LLDPJSON0Value := d_struct (field_of [("value", via V_Value (fun x _ => MkValue x) d_string)]).

Definition d_idValue : decoder LLDPJSON0IDValue := d_struct (field_of
  [("type", via ID_Type (fun x v => MkIDValue x (ID_Value v)) d_string);
   ("value", via ID_Value (fun x v => MkIDValue (ID_Type v) x) d_string)]).

Definition d_capability : decoder LLDPJSON0Capability := d_struct (field_of
  [("type", via Cap_Type (fun x v => MkCapability x (Cap_Enabled v)) d_string);
   ("enabled", via Cap_Enabled (fun x v => MkCapability (Cap_Type v) x) d_bool)]).

Definition d_values : decoder (list LLDPJSON0Value) := d_slice zeroValue d_value.
Definition d_ids : decoder (list LLDPJSON0IDValue) := d_slice zeroIDValue d_idValue.

Definition d_chassis : decoder LLDPJSON0Chassis := d_struct (field_of
  [("id", via Ch_ID (fun x c => MkChassis x (Ch_Name c) (Ch_Descr c) (Ch_MgmtIP c) (Ch_Capability c)) d_ids);
   ("name", via Ch_Name (fun x c => MkChassis (Ch_ID c) x (Ch_Descr c) (Ch_MgmtIP c) (Ch_Capability c)) d_values);
   ("descr", via Ch_Descr (fun x c => MkChassis (Ch_ID c) (Ch_Name c) x (Ch_MgmtIP c) (Ch_Capability c)) d_values);
   ("mgmt-ip", via Ch_MgmtIP (fun x c => MkChassis (Ch_ID c) (Ch_Name c) (Ch_Descr c) x (Ch_Capability c)) d_values);
   ("capability", via Ch_Capability (fun x c => MkChassis (Ch_ID c) (Ch_Name c) (Ch_Descr c) (Ch_MgmtIP c) x)
      (d_slice (MkCapability "" false) d_capability))]).

Definition d_port : decoder LLDPJSON0Port := d_struct (field_of
  [("id", via Port_ID (fun x p => MkPort x (Port_Descr p) (Port_TTL p)) d_ids);
   ("descr", via Port_Descr (fun x p => MkPort (Port_ID p) x (Port_TTL p)) d_values);
   ("ttl", via Port_TTL (fun x p => MkPort (Port_ID p) (Port_Descr p) x) d_values)]).

Definition d_interface : decoder LLDPJSON0Interface := d_struct (field_of
  [("name", via If_Name (fun x i => MkInterface x (If_Via i) (If_RID i) (If_Age i) (If_Chassis i) (If_Port i)) d_string);
   ("via", via If_Via (fun x i => MkInterface (If_Name i) x (If_RID i) (If_Age i) (If_Chassis i) (If_Port i)) d_string);
   ("rid", via If_RID (fun x i => MkInterface (If_Name i) (If_Via i) x (If_Age i) (If_Chassis i) (If_Port i)) d_string);
   ("age", via If_Age (fun x i => MkInterface (If_Name i) (If_Via i) (If_RID i) x (If_Chassis i) (If_Port i)) d_string);
   ("chassis", via If_Chassis (fun x i => MkInterface (If_Name i) (If_Via i) (If_RID i) (If_Age i) x (If_Port i))
      (d_slice (MkChassis [] [] [] [] []) d_chassis));
   ("port", via If_Port (fun x i => MkInterface (If_Name i) (If_Via i) (If_RID i) (If_Age i) (If_Chassis i) x)
      (d_slice (MkPort [] [] []) d_port))]).

Definition d_data : decoder LLDPJSON0Data := d_struct (field_of
  [("interface", via Interface (fun x _ => MkData x) (d_slice (MkInterface "" "" "" "" [] []) d_interface))]).

Definition d_response : decoder LLDPJSON0Response := d_struct (field_of
  [("lldp", via LLDP (fun x _ => MkResponse x) (d_slice (MkData []) d_data))]).

Definition unmarshalResponse (output : string) : option LLDPJSON0Response :=
  v ← json_parse output; d_response (MkResponse []) v.

(** ** Neighbours of the interfaces *)

(** The first management address that is an IPv4 address, or the first one. *)
Definition chooseMgmtIP (mgmtIPs : list string) : string :=
  let found := default "" (head (filter (fun ip => is_Some (ParseIP ip ≫= To4)) mgmtIPs)) in
  if decide (found = "") then default "" (head mgmtIPs) else found.

(** One turn of the loop of [parseJSON0Format]; the description is read without a check
    of its length. *)
Definition addInterface (neighbors : gmap string v1beta1.LLDPNeighbor) (iface : LLDPJSON0Interface) : go lldpError (gmap string v1beta1.LLDPNeighbor) :=
  match If_Chassis iface, If_Port iface with
  | chassis :: _, port :: _ =>
    match Ch_ID chassis, Port_ID port, Ch_Name chassis with
    | id :: _, portID :: _, name :: _ =>
      match Ch_Descr chassis with
      | [] => Panic
      | descr :: _ =>
        Ret (<[If_Name iface := v1beta1.MkLLDPNeighbor (V_Value name) (chooseMgmtIP (V_Value <$> Ch_MgmtIP chassis))
               (ID_Value id) (ID_Value portID) (V_Value descr)]> neighbors)
      end
    | _, _, _ => Ret neighbors
    end
  | _, _ => Ret neighbors
  end.

Definition parseJSON0Format (resp : LLDPJSON0Response) : go lldpError (gmap string v1beta1.LLDPNeighbor) :=
  go_foldl addInterface ∅ (LLDP resp ≫= Interface).

Definition ParseLLDPNeighbors (output : string) : go lldpError (gmap string v1beta1.LLDPNeighbor) :=
  match unmarshalResponse output with
  | None => Err UnmarshalFailed
  | Some resp =>
    match LLDP resp with
    | MkData (_ :: _) :: _ => parseJSON0Format resp
    | _ => Err (InvalidResponse output)
    end
  end.

Section collect.
Context (commandLookup : string → option string) (pathCheck : string → bool) (execCommand : string → list string → bool * string).

Definition GetLLDPNeighbors : go lldpError (gmap string v1beta1.LLDPNeighbor) :=
  output ← LldpCliShowNeighbors commandLookup pathCheck execCommand;
  ParseLLDPNeighbors output.
End collect.

(** ** Interface selectors *)
Record RdmaInterfaceMethod := MkMethod {
  Method : string;
  MethodValue : string
}.

Definition noMethod : RdmaInterfaceMethod := MkMethod "" "".

(** [strings.SplitN(pattern, "=", 2)]; [None] is an error. *)
Definition CheckOrParsePattern (m : RdmaInterfaceMethod) (pattern : string) : option RdmaInterfaceMethod :=
  if decide (pattern = "") then Some m
  else '(method, value) ← split_first 61 (bytes pattern); Some (MkMethod (of_bytes method) (of_bytes value)).
