(* ===== verification/Subscription.v ===== *)
(** * Switch subscriptions

    src/pkg/controller/switchtopology/subscription_manager.go: one stream per Switch
    with a management address, snapshots of LLDP neighbours written to the status of
    the Switch, over connections that accept one certificate only.  The network is what
    the streams deliver; goroutines are the set of contexts that have been started and
    not cancelled. *)
From stdpp Require Import base gmap sets list strings sorting.
From Stdlib Require Import ZArith.
From S2P Require Import Prelude GoStrings GoNumbers GoText GoNet Glob Config Api ApiServer TopologyInputs.
Local Open Scope Z_scope.

(** ** Snapshots, as the switch agent sends them *)
Record LLDPEntry := MkEntry {
  LocalDeviceName : string;
  LocalPort : string;
  RemoteSystem : string;
  RemotePortId : string
}.

Record LLDPNeighborSnapshot := MkLLDPSnapshot {
  Sn_SwitchName : string;
  LldpNeighbors : list LLDPEntry;
  Generation : Z
}.

(** The gRPC codes the code distinguishes; an error also has a text. *)
Inductive grpcCode := InvalidArgument | FailedPrecondition | Unauthenticated | PermissionDenied | OtherCode.

Inductive subscriptionError :=
| ErrMalformed
| ErrGrpc (code : grpcCode) (message : string)
| ErrCanceled
| ErrServer (e : apiError).

#[export] Instance subscriptionError_api : FromApi subscriptionError := ErrServer.

(** 32-bit wrap-around of [int32]. *)
Definition wrap_int32 (z : Z) : Z := (z + 2 ^ 31) mod (2 ^ 32) - 2 ^ 31.

(** ** Neighbours *)
Record neighborKey := MkNeighborKey {
  remoteSystemType : string;
  remoteSystemName : string
}.

#[export] Instance neighborKey_eq_dec : EqDecision neighborKey.
Proof. solve_decision. Defined.
#[export] Instance neighborKey_countable : Countable neighborKey.
Proof.
  refine (inj_countable' (fun k => (remoteSystemType k, remoteSystemName k))
    (fun p => MkNeighborKey p.1 p.2) _). by intros [].
Defined.

Definition keyOf (n : v1beta1.SwitchNeighbor) : neighborKey :=
  MkNeighborKey (v1beta1.RemoteSystemType n) (v1beta1.SN_RemoteSystemName n).

Definition classifyRemoteSystemType (remoteSystemName : string) (nodeNames normalizedNodeNames : gmap string bool) : string :=
  if default false (nodeNames !! remoteSystemName) ||
     default false (normalizedNodeNames !! normalizeResourceName remoteSystemName)
  then v1beta1.SwitchLLDPRemoteSystemTypeKubernetesNode
  else v1beta1.SwitchLLDPRemoteSystemTypeSwitch.

Fixpoint shouldIgnoreSwitchPort (port : string) (patterns : list string) : bool :=
  match patterns with
  | [] => false
  | pattern :: patterns =>
    match Match pattern port with
    | Some true => true
    | _ => shouldIgnoreSwitchPort port patterns
    end
  end.

(** The order in which keys were first seen, and the links per key. *)
Definition countNeighbor (ignoreSwitchPorts : list string) (nodeNames normalizedNodeNames : gmap string bool)
    (st : list neighborKey * gmap neighborKey Z) (neighbor : LLDPEntry)
    : go subscriptionError (list neighborKey * gmap neighborKey Z) :=
  let '(order, linkCounts) := st in
  if shouldIgnoreSwitchPort (LocalPort neighbor) ignoreSwitchPorts then Ret st
  else if decide (RemoteSystem neighbor = "") then Err ErrMalformed
  else
    let key := MkNeighborKey (classifyRemoteSystemType (RemoteSystem neighbor) nodeNames normalizedNodeNames)
      (RemoteSystem neighbor) in
    let count := default 0 (linkCounts !! key) in
    Ret (if decide (count = 0) then order ++ [key] else order, <[key := wrap_int32 (count + 1)]> linkCounts).

Definition switchNeighbor_le (a b : v1beta1.SwitchNeighbor) : Prop :=
  str_ltb (v1beta1.RemoteSystemType a) (v1beta1.RemoteSystemType b) = true ∨
  v1beta1.RemoteSystemType a = v1beta1.RemoteSystemType b ∧
  String.le (v1beta1.SN_RemoteSystemName a) (v1beta1.SN_RemoteSystemName b).
#[export] Instance switchNeighbor_le_dec a b : Decision (switchNeighbor_le a b).
Proof. unfold switchNeighbor_le. apply _. Defined.

Definition normalizeSnapshotNeighbors (snapshot : LLDPNeighborSnapshot) (ignoreSwitchPorts : list string)
    (nodeNames normalizedNodeNames : gmap string bool) : go subscriptionError (list v1beta1.SwitchNeighbor) :=
  '(order, linkCounts) ← go_foldl (countNeighbor ignoreSwitchPorts nodeNames normalizedNodeNames) ([], ∅)
    (LldpNeighbors snapshot);
  Ret (merge_sort switchNeighbor_le ((fun key => v1beta1.MkSwitchNeighbor (remoteSystemType key) (remoteSystemName key)
    (default 0 (linkCounts !! key))) <$> order)).

Section diff.
Context `{RangeOrder}.

Definition diffNeighborKeys (previous current : list v1beta1.SwitchNeighbor) : Z * Z :=
  let previousKeys : gmap neighborKey bool := foldl (fun m n => <[keyOf n := true]> m) ∅ previous in
  let currentKeys : gmap neighborKey bool := foldl (fun m n => <[keyOf n := true]> m) ∅ current in
  (foldl (fun added '(key, _) => if negb (default false (previousKeys !! key)) then added + 1 else added)
     0 (range currentKeys),
   foldl (fun removed '(key, _) => if negb (default false (currentKeys !! key)) then removed + 1 else removed)
     0 (range previousKeys)).

(** The message of the event [NeighborsChanged], if there is one; [previous] are the neighbours of the
    Switch, [None] when it was not found. *)
Definition recordNeighborChanges (recorder : bool) (previous : option (list v1beta1.SwitchNeighbor)) (current : list v1beta1.SwitchNeighbor)
  : option string :=
  match previous with
  | Some previous =>
    let '(added, removed) := diffNeighborKeys previous current in
    if negb recorder || bool_decide (added = 0 ∧ removed = 0) then None
    else Some ("LLDP neighbors changed: " +:+ Itoa added +:+ " added, " +:+ Itoa removed +:+ " removed")
  | None => None
  end.
End diff.

(** ** Errors *)

(** [grpcstatus.Code]: an error without a code is Unknown. *)
Definition codeOf (err : subscriptionError) : grpcCode :=
  match err with
  | ErrMalformed => InvalidArgument
  | ErrGrpc code _ => code
  | ErrCanceled | ErrServer _ => OtherCode
  end.

(** The error is given by its code and its text. *)
Definition classifySubscriptionError (err : option (grpcCode * string)) : string :=
  match err with
  | None => v1beta1.SwitchReasonDialFailed
  | Some (InvalidArgument, _) => v1beta1.SwitchReasonSnapshotRejected
  | Some (FailedPrecondition, _) | Some (Unauthenticated, _) | Some (PermissionDenied, _) =>
    v1beta1.SwitchReasonAuthenticationFailed
  | Some (OtherCode, text) =>
    let message := ToLower text in
    if contains message "certificate" || contains message "tls" then v1beta1.SwitchReasonAuthenticationFailed
    else v1beta1.SwitchReasonDialFailed
  end.

(** ** The status of a Switch *)
Definition with_switch_status (status : v1beta1.SwitchStatus) (sw : v1beta1.Switch) : v1beta1.Switch :=
  v1beta1.MkSwitch (v1beta1.SW_Name sw) (v1beta1.SW_Generation sw) (v1beta1.SW_Labels sw) (v1beta1.SW_Annotations sw)
    (v1beta1.MgmtIP sw) (v1beta1.Role sw) (v1beta1.GrpcPort sw) status.

Definition emptyStatus : v1beta1.SwitchStatus := v1beta1.MkSwitchStatus "" false [] 0 [].

Section status.
(** [meta.SetStatusCondition] and [retry.RetryOnConflict] of the Kubernetes
    libraries, and the clock. *)
Context (SetStatusCondition : list v1beta1.Condition → v1beta1.Condition → list v1beta1.Condition).
Context (RetryOnConflict : M subscriptionError unit → M subscriptionError unit).
Context (now : Z).

Definition setSwitchCondition (status : v1beta1.SwitchStatus) (generation : Z) (conditionType conditionStatus reason message : string)
    : v1beta1.SwitchStatus :=
  v1beta1.MkSwitchStatus (v1beta1.SS_Hostname status) (v1beta1.Healthy status)
    (SetStatusCondition (v1beta1.Conditions status)
       (v1beta1.MkCondition conditionType conditionStatus generation now reason message))
    (v1beta1.LLDPNeighborCount status) (v1beta1.LLDPNeighbors status).

(** One attempt to change a status. *)
Definition mutateOnce (switchName : string) (mutate : v1beta1.Switch → v1beta1.SwitchStatus) : M subscriptionError unit :=
  sw ← getSwitch switchName;
  match sw with
  | None => mret ()
  | Some sw =>
    let status := mutate sw in
    if decide (v1beta1.SW_Status sw = status) then mret () else patchSwitch (with_switch_status status sw)
  end.

Definition mutateSwitchStatus (switchName : string) (mutate : v1beta1.Switch → v1beta1.SwitchStatus)
    : M subscriptionError unit :=
  RetryOnConflict (mutateOnce switchName mutate).

Definition disconnected (reason message : string) (sw : v1beta1.Switch) : v1beta1.SwitchStatus :=
  let status := v1beta1.SW_Status sw in
  let status := v1beta1.MkSwitchStatus (v1beta1.SS_Hostname status) false (v1beta1.Conditions status)
    (v1beta1.LLDPNeighborCount status) (v1beta1.LLDPNeighbors status) in
  let status := setSwitchCondition status (v1beta1.SW_Generation sw) v1beta1.SwitchConditionConnected "False" reason message in
  setSwitchCondition status (v1beta1.SW_Generation sw) v1beta1.SwitchConditionReady "False" v1beta1.SwitchReasonDataStale message.

Definition markSwitchDisconnected (switchName reason message : string) : M subscriptionError unit :=
  mutateSwitchStatus switchName (disconnected reason message).

Definition clearSwitchSubscriptionStatus (switchName : string) : M subscriptionError unit :=
  mutateSwitchStatus switchName (fun _ => emptyStatus).

(** ** Snapshots of one stream *)
Definition kubernetesNodeNames (nodes : list corev1.Node) : gmap string bool * gmap string bool :=
  foldl (fun st node => (<[corev1.Node_Name node := true]> st.1,
    <[normalizeResourceName (corev1.Node_Name node) := true]> st.2)) (∅, ∅) nodes.

Definition accepted (hostname : string) (neighbors : list v1beta1.SwitchNeighbor) (generation : Z) (sw : v1beta1.Switch)
    : v1beta1.SwitchStatus :=
  let status := v1beta1.MkSwitchStatus hostname true (v1beta1.Conditions (v1beta1.SW_Status sw))
    (wrap_int32 (Z.of_nat (length neighbors))) neighbors in
  let status := setSwitchCondition status (v1beta1.SW_Generation sw) v1beta1.SwitchConditionConnected "True"
    v1beta1.SwitchReasonStreamReady "controller is receiving LLDP snapshots from switch agent" in
  setSwitchCondition status (v1beta1.SW_Generation sw) v1beta1.SwitchConditionReady "True"
    v1beta1.SwitchReasonSnapshotAccepted ("accepted LLDP snapshot generation " +:+ Itoa generation).

(** The new last generation, and whether the snapshot was used. *)
Definition handleSnapshot (ignoreSwitchPorts : list string) (switchName : string) (snapshot : LLDPNeighborSnapshot)
    (lastGeneration : Z) : M subscriptionError (Z * bool) :=
  if decide (Generation snapshot ≤ lastGeneration) then mret (lastGeneration, false)
  else
    listed ← try_call (fun c => (inl (c_nodes c), c));
    let '(nodeNames, normalizedNodeNames) :=
      match listed with
      | inl nodes => kubernetesNodeNames nodes
      | inr _ => (∅, ∅)
      end in
    neighbors ← pure (normalizeSnapshotNeighbors snapshot ignoreSwitchPorts nodeNames normalizedNodeNames);
    let hostname := if decide (Sn_SwitchName snapshot = "") then switchName else Sn_SwitchName snapshot in
    _ ← mutateSwitchStatus switchName (accepted hostname neighbors (Generation snapshot));
    mret (Generation snapshot, true).

(** The receive loop: the generation it ends with, and the error that ends it, which
    is the stream's own when all its snapshots were handled. *)
Fixpoint receive (ignoreSwitchPorts : list string) (switchName : string) (snapshots : list LLDPNeighborSnapshot)
    (streamError : subscriptionError) (lastGeneration : Z) (w : World) : Z * subscriptionError * World :=
  match snapshots with
  | [] => (lastGeneration, streamError, w)
  | snapshot :: snapshots =>
    match handleSnapshot ignoreSwitchPorts switchName snapshot lastGeneration w with
    | (Ret (g, _), w) => receive ignoreSwitchPorts switchName snapshots streamError g w
    | (Err e, w) => (lastGeneration, e, w)
    | (_, w) => (lastGeneration, streamError, w)
    end
  end.

(** What one connection delivers: an error of the dial is a session without
    snapshots. *)
Record session := MkSession {
  s_snapshots : list LLDPNeighborSnapshot;
  s_error : subscriptionError
}.

(** One turn of [runSubscription]. *)
Definition runSession (ignoreSwitchPorts : list string) (switchName : string) (errorText : subscriptionError → string)
    (st : Z * World) (s : session) : Z * World :=
  let '(lastGeneration, err, w) := receive ignoreSwitchPorts switchName (s_snapshots s) (s_error s) st.1 st.2 in
  match err with
  | ErrCanceled => (lastGeneration, w)
  | _ => (lastGeneration,
      (markSwitchDisconnected switchName (classifySubscriptionError (Some (codeOf err, errorText err))) (errorText err) w).2)
  end.

Definition runSubscription (ignoreSwitchPorts : list string) (switchName : string)
    (errorText : subscriptionError → string) (sessions : list session) (w : World) : Z * World :=
  foldl (runSession ignoreSwitchPorts switchName errorText) (0, w) sessions.
End status.

(** ** Credentials

    Both sides of a connection accept one certificate of the other side only.  [tls.LoadX509KeyPair],
    [os.ReadFile], [pem.Decode] (the bytes of the first block) and [x509.ParseCertificate] answer with a
    value or the text of an error; [Raw] is the field of a certificate with the bytes it was read from. *)
Definition controllerMTLSCertFile : string := "/etc/unifabric/switch-mtls/tls.crt".
Definition controllerMTLSKeyFile : string := "/etc/unifabric/switch-mtls/tls.key".
Definition controllerMTLSPeerFile : string := "/etc/unifabric/switch-mtls/peer.crt".

(** [tls.ClientAuthType]; its zero value is [NoClientCert]. *)
Inductive clientAuthType :=
  NoClientCert | RequestClientCert | RequireAnyClientCert | VerifyClientCertIfGiven | RequireAndVerifyClientCert.

(** The fields of [tls.Config] the code sets; [VerifyPeerCertificate] answers with the text of an error. *)
Record tlsConfig (KeyPair : Type) := MkTlsConfig {
  MinVersion : Z;
  Certificates : list KeyPair;
  ClientAuth : clientAuthType;
  InsecureSkipVerify : bool;
  NextProtos : list string;
  VerifyPeerCertificate : list string → option string
}.
Arguments MkTlsConfig {_}.
Arguments MinVersion {_}.
Arguments Certificates {_}.
Arguments ClientAuth {_}.
Arguments InsecureSkipVerify {_}.
Arguments NextProtos {_}.
Arguments VerifyPeerCertificate {_}.

Definition VersionTLS12 : Z := 0x0303.

(** What [crypto/tls] does with the certificates of the other side: [chain] is the check against the
    authorities of the system, which a client makes unless told not to.  A server asks for certificates
    as [ClientAuth] says. *)
Section handshake.
Context {KeyPair : Type} (chain : list string → bool).

Definition clientAccepts (c : tlsConfig KeyPair) (certs : list string) : bool :=
  (InsecureSkipVerify c || chain certs) && bool_decide (VerifyPeerCertificate c certs = None).

Definition serverAccepts (c : tlsConfig KeyPair) (certs : list string) : bool :=
  match ClientAuth c, certs with
  | NoClientCert, _ | RequestClientCert, [] | VerifyClientCertIfGiven, [] => true
  | RequireAnyClientCert, [] | RequireAndVerifyClientCert, [] => false
  | RequestClientCert, _ | RequireAnyClientCert, _ => bool_decide (VerifyPeerCertificate c certs = None)
  | VerifyClientCertIfGiven, _ | RequireAndVerifyClientCert, _ => chain certs && bool_decide (VerifyPeerCertificate c certs = None)
  end.
End handshake.

Section credentials.
Context {KeyPair Certificate : Type}.
Context (LoadX509KeyPair : string → string → string + KeyPair) (ReadFile : string → string + string) (pemDecode : string → option string).
Context (ParseCertificate : string → string + Certificate) (Raw : Certificate → string).

(** The certificate in a file of the other side, [role]. *)
Definition expectedPeer (role file : string) : string + Certificate :=
  match ReadFile file with
  | inl err => inl ("load pinned " +:+ role +:+ " certificate: " +:+ err)
  | inr peerPEM =>
    match pemDecode peerPEM with
    | None => inl ("parse pinned " +:+ role +:+ " certificate: no PEM data found")
    | Some block =>
      match ParseCertificate block with
      | inl err => inl ("parse pinned " +:+ role +:+ " certificate: " +:+ err)
      | inr peer => inr peer
      end
    end
  end.

(** The function both sides give as [VerifyPeerCertificate]; only the words differ. *)
Definition verifyPinned (side role : string) (expected : Certificate) (rawCerts : list string) : option string :=
  match rawCerts with
  | [] => Some ("missing " +:+ side +:+ " certificate")
  | raw :: _ =>
    match ParseCertificate raw with
    | inl err => Some ("parse presented " +:+ side +:+ " certificate: " +:+ err)
    | inr presented => if decide (Raw presented = Raw expected) then None else Some ("pinned " +:+ role +:+ " certificate mismatch")
    end
  end.

Definition loadPinnedMTLSClientConfig : string + tlsConfig KeyPair :=
  match LoadX509KeyPair controllerMTLSCertFile controllerMTLSKeyFile with
  | inl err => inl ("load controller client keypair: " +:+ err)
  | inr clientCert =>
    match expectedPeer "switch" controllerMTLSPeerFile with
    | inl err => inl err
    | inr peer => inr (MkTlsConfig VersionTLS12 [clientCert] NoClientCert true ["h2"] (verifyPinned "server" "switch" peer))
    end
  end.

(** [None] are the insecure credentials. *)
Definition transportCredentials (cfg : SwitchDiscoveryMTLSConfig) : string + option (tlsConfig KeyPair) :=
  if default true (SM_Enabled cfg) then
    match loadPinnedMTLSClientConfig with
    | inl err => inl err
    | inr config => inr (Some config)
    end
  else inr None.

(** [subscribeUntilDisconnect] up to its loop: the credentials, the dial, and the call.  [dial] answers
    with an error, or what the call does on the connection: an error, or the stream. *)
Definition openStream (cfg : SwitchDiscoveryMTLSConfig)
    (dial : option (tlsConfig KeyPair) → subscriptionError + (subscriptionError + session)) : session :=
  match transportCredentials cfg with
  | inl err => MkSession [] (ErrGrpc OtherCode err)
  | inr creds =>
    match dial creds with
    | inl err | inr (inl err) => MkSession [] err
    | inr (inr stream) => stream
    end
  end.

Definition subscribeUntilDisconnect (SetStatusCondition : list v1beta1.Condition → v1beta1.Condition → list v1beta1.Condition)
    (RetryOnConflict : M subscriptionError unit → M subscriptionError unit) (now : Z) (cfg : ScaleOutSwitchesConfig) (switchName : string)
    (dial : option (tlsConfig KeyPair) → subscriptionError + (subscriptionError + session)) (lastGeneration : Z) (w : World)
    : Z * subscriptionError * World :=
  let s := openStream (SW_MTLS cfg) dial in
  receive SetStatusCondition RetryOnConflict now (IgnoreSwitchPorts cfg) switchName (s_snapshots s) (s_error s) lastGeneration w.
End credentials.

(** ** The set of subscriptions *)
Record switchSubscription := MkSubscription {
  sub_target : string;
  sub_id : nat
}.

(** [live] are the goroutines that run and have not been cancelled, [next] is the
    next goroutine. *)
Record subscriptionManager := MkManager {
  subscriptions : gmap string switchSubscription;
  live : gmap nat (string * string);
  next : nat
}.

Definition hasSubscription (m : subscriptionManager) (switchName target : string) : bool :=
  match subscriptions m !! switchName with
  | Some subscription => bool_decide (sub_target subscription = target)
  | None => false
  end.

Definition cancel (m : subscriptionManager) (switchName : string) (subscription : switchSubscription) : subscriptionManager :=
  MkManager (delete switchName (subscriptions m)) (delete (sub_id subscription) (live m)) (next m).

Definition stopSubscription (m : subscriptionManager) (switchName : string) : subscriptionManager :=
  match subscriptions m !! switchName with
  | None => m
  | Some subscription => cancel m switchName subscription
  end.

Section manager.
Context `{RangeOrder}.

Definition stopAllSubscriptions (m : subscriptionManager) : subscriptionManager :=
  foldl (fun m '(switchName, subscription) => cancel m switchName subscription) m (range (subscriptions m)).

Definition targetOf (defaultGrpcPort : Z) (sw : v1beta1.Switch) : string :=
  v1beta1.MgmtIP sw +:+ ":" +:+ Itoa (default defaultGrpcPort (v1beta1.GrpcPort sw)).

(** Cancelling the subscriptions whose target is no longer wanted. *)
Definition dropObsolete (desiredTargets : gmap string string) (m : subscriptionManager)
    (entry : string * switchSubscription) : subscriptionManager :=
  let '(switchName, subscription) := entry in
  if bool_decide (desiredTargets !! switchName = Some (sub_target subscription)) then m
  else cancel m switchName subscription.

Definition startMissing (m : subscriptionManager) (entry : string * string) : subscriptionManager :=
  let '(switchName, target) := entry in
  if hasSubscription m switchName target then m
  else MkManager (<[switchName := MkSubscription target (next m)]> (subscriptions m))
         (<[next m := (switchName, target)]> (live m)) (S (next m)).

(** The loop over the Switches stops at the first error, with the subscriptions it
    has stopped so far. *)
Fixpoint desired (clear : string → M subscriptionError unit) (defaultGrpcPort : Z) (switches : list v1beta1.Switch)
    (st : subscriptionManager * gmap string string) (w : World)
    : subscriptionManager * go subscriptionError (gmap string string) * World :=
  match switches with
  | [] => (st.1, Ret st.2, w)
  | sw :: switches =>
    if decide (v1beta1.MgmtIP sw = "") then
      let m := stopSubscription st.1 (v1beta1.SW_Name sw) in
      match clear (v1beta1.SW_Name sw) w with
      | (Ret _, w) => desired clear defaultGrpcPort switches (m, st.2) w
      | (Err e, w) => (m, Err e, w)
      | (Panic, w) => (m, Panic, w)
      | (OutOfFuel, w) => (m, OutOfFuel, w)
      end
    else desired clear defaultGrpcPort switches
      (st.1, <[v1beta1.SW_Name sw := targetOf defaultGrpcPort sw]> st.2) w
  end.

Definition syncSubscriptions (clear : string → M subscriptionError unit) (defaultGrpcPort : Z) (m : subscriptionManager)
    (w : World) : subscriptionManager * go subscriptionError unit * World :=
  match listSwitches (E:=subscriptionError) w with
  | (Ret switches, w) =>
    let '(m, targets, w) := desired clear defaultGrpcPort switches (m, ∅) w in
    match targets with
    | Ret desiredTargets =>
      let m := foldl (dropObsolete desiredTargets) m (range (subscriptions m)) in
      let m := foldl startMissing m (range desiredTargets) in
      (m, Ret (), w)
    | Err e => (m, Err e, w)
    | Panic => (m, Panic, w)
    | OutOfFuel => (m, OutOfFuel, w)
    end
  | (Err e, w) => (m, Err e, w)
  | (Panic, w) => (m, Panic, w)
  | (OutOfFuel, w) => (m, OutOfFuel, w)
  end.

(** ** The manager *)
Record managerIntervals := MkIntervals {
  mi_dialTimeout : Z;
  mi_reconnectBackoff : Z;
  mi_keepaliveTime : Z
}.

(** The intervals of a new manager, or an error. *)
Definition newSubscriptionManager (cfg : ScaleOutSwitchesConfig) : option (managerIntervals * subscriptionManager) :=
  dialTimeout ← ParseDuration (DialTimeout cfg);
  reconnectBackoff ← ParseDuration (ReconnectBackoff cfg);
  keepaliveTime ← ParseDuration (KeepaliveTime cfg);
  Some (MkIntervals dialTimeout reconnectBackoff keepaliveTime, MkManager ∅ ∅ 0).

(** [Start]: one synchronisation, and one with each tick until the context ends.  [worlds] are the
    API server as each tick finds it; errors of a synchronisation are logged.  [time.NewTicker] panics
    when the interval is not positive. *)
Definition syncTick (clear : string → M subscriptionError unit) (defaultGrpcPort : Z) (m : subscriptionManager) (w : World) : subscriptionManager :=
  (syncSubscriptions clear defaultGrpcPort m w).1.1.

Definition managerStart (clear : string → M subscriptionError unit) (defaultGrpcPort : Z) (intervals : managerIntervals)
    (first : World) (worlds : list World) (m : subscriptionManager) : go unit subscriptionManager :=
  let m := syncTick clear defaultGrpcPort m first in
  if decide (mi_reconnectBackoff intervals ≤ 0) then Panic
  else Ret (stopAllSubscriptions (foldl (syncTick clear defaultGrpcPort) m worlds)).
End manager.
