(* ===== verification/SubscriptionFacts.v ===== *)
(** * Neighbours, snapshots and subscriptions

    Facts about src/pkg/controller/switchtopology/subscription_manager.go. *)
From stdpp Require Import base gmap sets list strings sorting.
From Stdlib Require Import ZArith.
From S2P Require Import Prelude GoStrings GoNumbers GoText Glob Api ApiServer TopologyInputs Subscription.
Local Open Scope Z_scope.

(** ** Counting links *)
Section counting.
Context (ignoreSwitchPorts : list string) (nodeNames normalizedNodeNames : gmap string bool).

Definition used (e : LLDPEntry) : bool := negb (shouldIgnoreSwitchPort (LocalPort e) ignoreSwitchPorts).

Definition entryKey (e : LLDPEntry) : neighborKey :=
  MkNeighborKey (classifyRemoteSystemType (RemoteSystem e) nodeNames normalizedNodeNames) (RemoteSystem e).

(** The links to the neighbour [k]. *)
Definition links (entries : list LLDPEntry) (k : neighborKey) : nat :=
  length (filter (fun e => used e = true ∧ entryKey e = k) entries).

Lemma links_snoc entries e k :
  links (entries ++ [e]) k = (links entries k + if decide (used e = true ∧ entryKey e = k) then 1 else 0)%nat.
Proof.
  unfold links. rewrite filter_app, length_app. f_equal. rewrite filter_cons, filter_nil. by case_decide.
Qed.

Lemma wrap_int32_small z : - 2 ^ 31 ≤ z < 2 ^ 31 → wrap_int32 z = z.
Proof. unfold wrap_int32. intros. rewrite Z.mod_small; lia. Qed.

Record count_inv (seen : list LLDPEntry) (st : list neighborKey * gmap neighborKey Z) : Prop := {
  ci_order k : k ∈ st.1 ↔ (0 < links seen k)%nat;
  ci_nodup : NoDup st.1;
  ci_count k : default 0 (st.2 !! k) = Z.of_nat (links seen k);
  ci_named e : e ∈ seen → used e = true → RemoteSystem e ≠ ""
}.

Lemma countNeighbor_inv seen st e st' :
  Z.of_nat (length seen) < 2 ^ 31 - 1 → count_inv seen st →
  countNeighbor ignoreSwitchPorts nodeNames normalizedNodeNames st e = Ret st' → count_inv (seen ++ [e]) st'.
Proof.
  intros Hlen [Ho Hnd Hc Hn]. destruct st as [order counts]. cbn [fst snd] in *. unfold countNeighbor.
  destruct (shouldIgnoreSwitchPort (LocalPort e) ignoreSwitchPorts) eqn:Hig.
  { intros [= <-]. assert (used e = false) as Hu by (unfold used; by rewrite Hig). split; cbn [fst snd]; [|done| |].
    - intros k. rewrite links_snoc, Hu, decide_False by naive_solver. by rewrite Nat.add_0_r.
    - intros k. rewrite links_snoc, Hu, decide_False by naive_solver. by rewrite Nat.add_0_r.
    - intros x [?| ->%list_elem_of_singleton]%elem_of_app; [auto|congruence]. }
  assert (used e = true) as Hu by (unfold used; by rewrite Hig).
  case_decide as Hne; [done|]. fold (entryKey e). intros [= <-]. rewrite Hc.
  assert (links seen (entryKey e) ≤ length seen)%nat as Hle by apply length_filter.
  split; cbn [fst snd].
  - intros k. rewrite links_snoc, Hu.
    destruct (decide (entryKey e = k)) as [<-|Hk]; [rewrite (decide_True (P:=_ ∧ _)) by done|rewrite (decide_False (P:=_ ∧ _)) by naive_solver].
    + case_decide as H0; [rewrite elem_of_app, list_elem_of_singleton|rewrite Ho]; split; intros; [lia|by right|lia|lia].
    + rewrite Nat.add_0_r. case_decide; [|done]. rewrite elem_of_app, list_elem_of_singleton, Ho. naive_solver.
  - case_decide as H0; [|done]. apply NoDup_app. split_and!; [done| |apply NoDup_singleton].
    intros k Hk ->%list_elem_of_singleton. apply Ho in Hk. lia.
  - intros k. rewrite links_snoc, Hu. destruct (decide (entryKey e = k)) as [<-|Hk].
    + rewrite lookup_insert_eq, decide_True by done. cbn. rewrite wrap_int32_small by lia. lia.
    + rewrite lookup_insert_ne, Hc, (decide_False (P:=_ ∧ _)) by naive_solver. lia.
  - intros x [?| ->%list_elem_of_singleton]%elem_of_app; [auto|done].
Qed.

Lemma count_all entries st :
  Z.of_nat (length entries) < 2 ^ 31 →
  go_foldl (countNeighbor ignoreSwitchPorts nodeNames normalizedNodeNames) ([], ∅) entries = Ret st →
  count_inv entries st.
Proof.
  intros Hlen Hr. apply (go_foldl_ret count_inv _ _ _ _ Hr).
  - split; cbn; [|constructor| |by intros e ?%elem_of_nil].
    + intros k. split; [by intros ?%elem_of_nil|unfold links; cbn; lia].
    + done.
  - intros seen e todo q q' Heq Hi Hstep. eapply countNeighbor_inv; [|done|done].
    rewrite Heq, length_app in Hlen. cbn in Hlen. lia.
Qed.

(** The only error is an unnamed neighbour on a port that is not ignored. *)
Lemma count_total entries st0 :
  (∃ st, go_foldl (countNeighbor ignoreSwitchPorts nodeNames normalizedNodeNames) st0 entries = Ret st) ∨
  go_foldl (countNeighbor ignoreSwitchPorts nodeNames normalizedNodeNames) st0 entries = Err ErrMalformed ∧
  ∃ e, e ∈ entries ∧ used e = true ∧ RemoteSystem e = "".
Proof.
  revert st0. induction entries as [|e entries IH]; intros st0; cbn [go_foldl]; [left; eauto|].
  assert ((∃ st, countNeighbor ignoreSwitchPorts nodeNames normalizedNodeNames st0 e = Ret st) ∨
    countNeighbor ignoreSwitchPorts nodeNames normalizedNodeNames st0 e = Err ErrMalformed ∧
    used e = true ∧ RemoteSystem e = "") as [[st ->]|(-> & Hu & He)].
  { unfold countNeighbor, used. destruct st0. destruct (shouldIgnoreSwitchPort _ _); [left; eauto|].
    case_decide; [by right|left; eauto]. }
  - cbn. destruct (IH st) as [?|[-> (x & ? & ?)]]; [by left|right]. split; [done|]. exists x. set_solver.
  - right. cbn. split; [done|]. exists e. set_solver.
Qed.
End counting.

(** ** Retrying *)

(** Documented behaviour of [retry.RetryOnConflict]: it runs its argument again as
    long as it ends with a conflict, a bounded number of times, and returns the
    last outcome. *)
Inductive retried (f : M subscriptionError unit) : World → go subscriptionError unit * World → Prop :=
| retried_last w : retried f w (f w)
| retried_again w w' r : f w = (Err (ErrServer ApiConflict), w') → retried f w' r → retried f w r.

Class RetryLaw (RetryOnConflict : M subscriptionError unit → M subscriptionError unit) : Prop :=
  retry_law f w : retried f w (RetryOnConflict f w).

Lemma retried_triple f (P : Cluster → Prop) (Q : Cluster → Prop) w r :
  triple P f (fun _ => Q) P → retried f w r → P (w_cluster w) →
  match r with
  | (Ret _, w') => Q (w_cluster w')
  | (_, w') => P (w_cluster w')
  end.
Proof.
  intros Hf Hr. induction Hr as [w|w w' r Hc _ IH]; intros HP; [exact (Hf w HP)|].
  apply IH. specialize (Hf w HP). by rewrite Hc in Hf.
Qed.

(** Five attempts, as [retry.DefaultRetry] makes them. *)
Fixpoint attempts (n : nat) (f : M subscriptionError unit) (w : World) : go subscriptionError unit * World :=
  match n with
  | O => f w
  | S n =>
    match f w with
    | (Err (ErrServer ApiConflict), w') => attempts n f w'
    | r => r
    end
  end.

#[export] Instance attempts_law n : RetryLaw (attempts n).
Proof.
  intros f. induction n as [|n IH]; intros w; [constructor|]. cbn.
  destruct (f w) as [r w'] eqn:Hf. destruct r as [u|[| | |[| |]]| |]; try (rewrite <-Hf; constructor).
  eapply retried_again; [exact Hf|apply IH].
Qed.

(** ** Writing the status of one Switch *)

(** Only the status of [name] may differ from [switches0], and then it is the
    mutated one. *)
Definition sw_frame (c0 c : Cluster) : Prop :=
  c_topologies c = c_topologies c0 ∧ c_fabricNodes c = c_fabricNodes c0 ∧ c_nodes c = c_nodes c0.

Definition mutated (name : string) (mutate : v1beta1.Switch → v1beta1.SwitchStatus) (sw : v1beta1.Switch) : v1beta1.Switch :=
  if decide (v1beta1.SW_Name sw = name) then with_switch_status (mutate sw) sw else sw.

Definition wrote name mutate (c0 c : Cluster) : Prop :=
  sw_frame c0 c ∧ c_switches c = mutated name mutate <$> c_switches c0.

Lemma with_switch_status_id sw : with_switch_status (v1beta1.SW_Status sw) sw = sw.
Proof. by destruct sw. Qed.

Lemma find_switch name (switches : list v1beta1.Switch) :
  list_find (fun s => v1beta1.SW_Name s = name) switches ≫= (fun p => Some p.2) = None ∧
    (∀ s, s ∈ switches → v1beta1.SW_Name s ≠ name) ∨
  ∃ sw, list_find (fun s => v1beta1.SW_Name s = name) switches ≫= (fun p => Some p.2) = Some sw ∧
    sw ∈ switches ∧ v1beta1.SW_Name sw = name.
Proof.
  destruct (list_find _ switches) as [[i sw]|] eqn:Hf.
  - right. exists sw. apply list_find_Some in Hf as (Hi & Hn & _). split_and!; [done| |done].
    by eapply list_elem_of_lookup_2.
  - left. split; [done|]. apply list_find_None in Hf. intros s Hs. by eapply Forall_forall in Hf.
Qed.

Lemma mutateOnce_triple name mutate c0 :
  NoDup (v1beta1.SW_Name <$> c_switches c0) →
  triple (fun c => c = c0) (mutateOnce name mutate) (fun _ => wrote name mutate c0) (fun c => c = c0).
Proof.
  intros Hnd. unfold mutateOnce.
  apply (triple_bind _ _ _ (fun sw c => sw = (list_find (fun s => v1beta1.SW_Name s = name) (c_switches c0)
    ≫= fun p => Some p.2) ∧ c = c0)).
  { apply triple_call; [done|]. by intros s ->. }
  intros sw. apply triple_fact. intros ->.
  destruct (find_switch name (c_switches c0)) as [[-> Hno]|(sw & -> & Hin & Hname)].
  { apply triple_ret. intros c ->. split; [done|]. symmetry. rewrite <-(list_fmap_id (c_switches c0)) at 2.
    apply Forall_fmap_ext_1, Forall_forall. intros s Hs. unfold mutated. by rewrite decide_False by auto. }
  assert (∀ s, s ∈ c_switches c0 → v1beta1.SW_Name s = name → s = sw) as Huniq.
  { intros s Hs Hsn. eapply (NoDup_name_inj v1beta1.SW_Name (c_switches c0)); [done..|congruence]. }
  case_decide as Heq.
  - apply triple_ret. intros c ->. split; [done|]. symmetry. rewrite <-(list_fmap_id (c_switches c0)) at 2.
    apply Forall_fmap_ext_1, Forall_forall. intros s Hs. unfold mutated. case_decide as Hsn; [|done].
    rewrite (Huniq s Hs Hsn), <-Heq. apply with_switch_status_id.
  - apply triple_call; [done|]. intros s ->. split; [done|]. cbn. apply Forall_fmap_ext_1, Forall_forall.
    intros s Hs. unfold mutated. rewrite Hname. case_decide as Hsn; [|done]. by rewrite (Huniq s Hs Hsn).
Qed.

Lemma mutateSwitchStatus_triple RetryOnConflict `{!RetryLaw RetryOnConflict} name mutate c0 :
  NoDup (v1beta1.SW_Name <$> c_switches c0) →
  triple (fun c => c = c0) (mutateSwitchStatus RetryOnConflict name mutate)
    (fun _ => wrote name mutate c0) (fun c => c = c0).
Proof.
  intros Hnd w Hw. unfold mutateSwitchStatus.
  pose proof (retried_triple _ (fun c => c = c0) (wrote name mutate c0) w _ (mutateOnce_triple name mutate c0 Hnd)
    (retry_law (mutateOnce name mutate) w) Hw) as Hr.
  by destruct (RetryOnConflict (mutateOnce name mutate) w) as [[]].
Qed.

(** ** The set of subscriptions *)

(** The running goroutines are exactly those of the recorded subscriptions. *)
Record mgr_ok (m : subscriptionManager) : Prop := {
  mo_live n s : subscriptions m !! n = Some s → live m !! sub_id s = Some (n, sub_target s);
  mo_sub i n t : live m !! i = Some (n, t) → subscriptions m !! n = Some (MkSubscription t i);
  mo_next i : (next m ≤ i)%nat → live m !! i = None
}.

Lemma cancel_ok m n s : mgr_ok m → subscriptions m !! n = Some s → mgr_ok (cancel m n s).
Proof.
  intros [Hl Hs Hn] Hns. split; cbn.
  - intros n' s' [Hne Hs']%lookup_delete_Some. apply lookup_delete_Some. split; [|auto].
    intros Hid. pose proof (Hl _ _ Hns) as H1. pose proof (Hl _ _ Hs') as H2. rewrite Hid, H2 in H1. congruence.
  - intros i n' t [Hne Hi]%lookup_delete_Some. apply lookup_delete_Some. split; [|auto].
    intros ->. apply Hs in Hi. rewrite Hns in Hi. by injection Hi as ->.
  - intros i Hi. apply lookup_delete_None. auto.
Qed.

Lemma stopSubscription_ok m n :
  mgr_ok m → mgr_ok (stopSubscription m n) ∧ subscriptions (stopSubscription m n) = delete n (subscriptions m).
Proof.
  intros Hm. unfold stopSubscription. destruct (subscriptions m !! n) as [s|] eqn:Hs.
  - split; [by apply cancel_ok|done].
  - split; [done|]. by rewrite delete_id.
Qed.

Lemma startMissing_ok m n t :
  mgr_ok m → (∀ s, subscriptions m !! n = Some s → sub_target s = t) →
  let m' := startMissing m (n, t) in
  mgr_ok m' ∧ (∃ s, subscriptions m' !! n = Some s ∧ sub_target s = t) ∧
  (∀ n', n' ≠ n ∨ is_Some (subscriptions m !! n') → subscriptions m' !! n' = subscriptions m !! n').
Proof.
  intros Hm Ht m'. unfold m', startMissing, hasSubscription. destruct (subscriptions m !! n) as [s|] eqn:Hs.
  { rewrite (Ht _ eq_refl), bool_decide_true by done. split; [done|]. split; [|done]. exists s. auto. }
  destruct Hm as [Hl Hb Hn]. cbn. split_and!.
  - split; cbn.
    + intros n' s' [[<- <-]|[Hne Hs']]%lookup_insert_Some; cbn; [by rewrite lookup_insert_eq|].
      rewrite lookup_insert_ne; [auto|]. intros Hid. apply Hl in Hs'. rewrite Hn in Hs' by lia. done.
    + intros i n' t' [[<- [= <- <-]]|[Hne Hi]]%lookup_insert_Some; [by rewrite lookup_insert_eq|].
      apply Hb in Hi as Hi'. rewrite lookup_insert_ne; [done|]. congruence.
    + intros i Hi. rewrite lookup_insert_ne by lia. apply Hn. lia.
  - eexists. by rewrite lookup_insert_eq.
  - intros n' [?|[s' Hs']]; rewrite lookup_insert_ne by congruence; done.
Qed.

Section sync.
Context `{RangeOrder}.

Lemma stopAllSubscriptions_ok m :
  mgr_ok m → mgr_ok (stopAllSubscriptions m) ∧ subscriptions (stopAllSubscriptions m) = ∅ ∧ live (stopAllSubscriptions m) = ∅.
Proof.
  intros Hm.
  assert (mgr_ok (stopAllSubscriptions m) ∧ ∀ n, subscriptions (stopAllSubscriptions m) !! n = None) as [Hok Hsub].
  { unfold stopAllSubscriptions. pose proof (NoDup_range_keys (subscriptions m)) as Hnd.
    destruct (foldl_inv (fun seen q => mgr_ok q ∧ ∀ n, subscriptions q !! n =
      if decide (n ∈ seen.*1) then None else subscriptions m !! n)
      (fun m '(switchName, subscription) => cancel m switchName subscription) (range (subscriptions m)) m) as [Hq Hn].
    - split; [done|]. intros n. by rewrite decide_False by set_solver.
    - intros seen [n s] todo q Heq [Hq IH].
      assert (n ∉ seen.*1) as Hfresh.
      { rewrite Heq, fmap_app in Hnd. apply NoDup_app in Hnd as (_ & Hd & _). intros Hin. apply (Hd _ Hin). set_solver. }
      assert (subscriptions m !! n = Some s) as Hs by (apply elem_of_range; rewrite Heq; set_solver).
      split; [apply cancel_ok; [done|]; by rewrite IH, decide_False|].
      intros n'. rewrite fmap_app. cbn. destruct (decide (n = n')) as [<-|Hne].
      + rewrite lookup_delete_eq, decide_True by set_solver. done.
      + rewrite lookup_delete_ne, IH by done. repeat case_decide; set_solver.
    - split; [done|]. intros n. rewrite Hn. case_decide as Hin; [done|].
      apply eq_None_not_Some. by rewrite <-elem_of_range_keys. }
  split; [done|]. split; [by apply map_empty|]. apply map_empty. intros i.
  destruct (live (stopAllSubscriptions m) !! i) as [[n t]|] eqn:Hi; [|done].
  apply (mo_sub _ Hok) in Hi. by rewrite Hsub in Hi.
Qed.

Lemma drop_all (D : gmap string string) m :
  mgr_ok m →
  let m1 := foldl (dropObsolete D) m (range (subscriptions m)) in
  mgr_ok m1 ∧ ∀ n s, subscriptions m1 !! n = Some s ↔ subscriptions m !! n = Some s ∧ D !! n = Some (sub_target s).
Proof.
  intros Hm m1. pose proof (NoDup_range_keys (subscriptions m)) as Hnd.
  destruct (foldl_inv (fun seen q => mgr_ok q ∧ ∀ n s, subscriptions q !! n = Some s ↔
    subscriptions m !! n = Some s ∧ (n ∈ seen.*1 → D !! n = Some (sub_target s)))
    (dropObsolete D) (range (subscriptions m)) m) as [Hq Hn].
  - split; [done|]. intros n s. set_solver.
  - intros seen [n s] todo q Heq [Hq IH].
    assert (n ∉ seen.*1) as Hfresh.
    { rewrite Heq, fmap_app in Hnd. apply NoDup_app in Hnd as (_ & Hd & _). intros Hin. apply (Hd _ Hin). set_solver. }
    assert (subscriptions m !! n = Some s) as Hs by (apply elem_of_range; rewrite Heq; set_solver).
    assert (subscriptions q !! n = Some s) as Hqs by (apply IH; naive_solver).
    unfold dropObsolete. case_bool_decide as HD.
    + split; [done|]. intros n' s'. rewrite IH, fmap_app, elem_of_app. cbn. rewrite list_elem_of_singleton. naive_solver.
    + split; [by apply cancel_ok|]. intros n' s'. cbn [cancel subscriptions]. rewrite lookup_delete_Some, IH, fmap_app, elem_of_app. cbn.
      rewrite list_elem_of_singleton. split.
      * intros (Hne & Hm' & Hc). split; [done|]. intros [?| ->]; [auto|done].
      * intros (Hm' & Hc). split_and!; [|done|auto]. intros <-. rewrite Hs in Hm'. injection Hm' as <-. auto.
  - split; [done|]. intros n s. unfold m1. rewrite Hn, elem_of_range_keys. naive_solver.
Qed.

Lemma start_all (D : gmap string string) m :
  mgr_ok m → (∀ n s, subscriptions m !! n = Some s → D !! n = Some (sub_target s)) →
  let m1 := foldl startMissing m (range D) in
  mgr_ok m1 ∧ (∀ n t, (∃ s, subscriptions m1 !! n = Some s ∧ sub_target s = t) ↔ D !! n = Some t) ∧
  ∀ n s, subscriptions m !! n = Some s → subscriptions m1 !! n = Some s.
Proof.
  intros Hm Hsub m1. pose proof (NoDup_range_keys D) as Hnd.
  destruct (foldl_inv (fun seen q => mgr_ok q ∧
    (∀ n s, subscriptions q !! n = Some s → D !! n = Some (sub_target s)) ∧
    (∀ n, n ∈ seen.*1 → is_Some (subscriptions q !! n)) ∧
    ∀ n s, subscriptions m !! n = Some s → subscriptions q !! n = Some s) startMissing (range D) m)
    as (Hq & HD & Hall & Hkeep).
  - split_and!; [done|done|set_solver|done].
  - intros seen [n t] todo q Heq (Hq & HD & Hall & Hkeep).
    assert (D !! n = Some t) as Hnt by (apply elem_of_range; rewrite Heq; set_solver).
    destruct (startMissing_ok q n t Hq) as (Hq' & (s & Hs & Hst) & Hsame).
    { intros s Hs. apply HD in Hs. congruence. }
    split_and!; [done| | |].
    + intros n' s' Hs'. destruct (decide (n' = n)) as [->|Hne]; [congruence|]. rewrite Hsame in Hs' by auto. auto.
    + intros n'. rewrite fmap_app, elem_of_app. cbn. rewrite list_elem_of_singleton. intros [Hin| ->]; [|eauto].
      rewrite Hsame by auto. auto.
    + intros n' s' Hs'. apply Hkeep in Hs' as Hk. rewrite Hsame by (right; eauto). done.
  - split_and!; [done| |done]. intros n t. split.
    + intros (s & Hs & <-). auto.
    + intros Hnt. destruct (Hall n) as [s Hs]; [apply elem_of_range_keys; eauto|]. exists s. split; [done|].
      apply HD in Hs. congruence.
Qed.

(** The targets of the Switches that have an address. *)
Definition targets (port : Z) (switches : list v1beta1.Switch) (D : gmap string string) : Prop :=
  ∀ n t, D !! n = Some t ↔ ∃ sw, sw ∈ switches ∧ v1beta1.SW_Name sw = n ∧ v1beta1.MgmtIP sw ≠ "" ∧ targetOf port sw = t.

Lemma desired_ok clear port switches m D w m' r w' seen :
  NoDup (v1beta1.SW_Name <$> seen ++ switches) → mgr_ok m → targets port seen D →
  desired clear port switches (m, D) w = (m', r, w') →
  mgr_ok m' ∧
  (∀ n s, subscriptions m' !! n = Some s → subscriptions m !! n = Some s) ∧
  (∀ n s, subscriptions m !! n = Some s →
     (∀ sw, sw ∈ switches → v1beta1.SW_Name sw = n → v1beta1.MgmtIP sw ≠ "") → subscriptions m' !! n = Some s) ∧
  match r with Ret D' => targets port (seen ++ switches) D' | _ => True end.
Proof.
  revert m D w seen. induction switches as [|sw switches IH]; intros m D w seen Hnd Hm HD Hrun; cbn [desired fst snd] in Hrun.
  { simplify_eq. rewrite app_nil_r. done. }
  assert (NoDup (v1beta1.SW_Name <$> (seen ++ [sw]) ++ switches)) as Hnd' by (by rewrite <-app_assoc).
  assert (∀ x, x ∈ seen → v1beta1.SW_Name x ≠ v1beta1.SW_Name sw) as Hfresh.
  { rewrite fmap_app in Hnd. apply NoDup_app in Hnd as (_ & Hd & _). intros x Hx Heq.
    apply (Hd (v1beta1.SW_Name x)); [by apply list_elem_of_fmap_2|]. rewrite Heq. cbn. set_solver. }
  case_decide as Hip.
  - destruct (stopSubscription_ok m (v1beta1.SW_Name sw) Hm) as [Hm1 Hdel].
    assert (targets port (seen ++ [sw]) D) as HD1.
    { intros n t. rewrite (HD n t), exists_snoc. naive_solver. }
    assert (∀ n s, subscriptions (stopSubscription m (v1beta1.SW_Name sw)) !! n = Some s → subscriptions m !! n = Some s) as Hsub.
    { intros n s. rewrite Hdel. by intros [_ ?]%lookup_delete_Some. }
    assert (∀ n s, subscriptions m !! n = Some s →
      (∀ x, x ∈ sw :: switches → v1beta1.SW_Name x = n → v1beta1.MgmtIP x ≠ "") →
      subscriptions (stopSubscription m (v1beta1.SW_Name sw)) !! n = Some s) as Hkeep.
    { intros n s Hs Hall. rewrite Hdel. apply lookup_delete_Some. split; [|done]. intros <-. by apply (Hall sw (list_elem_of_here _ _) eq_refl). }
    destruct (clear (v1beta1.SW_Name sw) w) as [[u|e| |] w1] eqn:Hc; [|simplify_eq; done..].
    destruct (IH _ _ _ (seen ++ [sw]) Hnd' Hm1 HD1 Hrun) as (? & Hb & Hk & Hr). rewrite <-app_assoc in Hr.
    split_and!; [done|eauto| |done]. intros n s Hs Hall. apply Hk; [by apply Hkeep|].
    intros x Hx. apply Hall. set_solver.
  - assert (targets port (seen ++ [sw]) (<[v1beta1.SW_Name sw := targetOf port sw]> D)) as HD1.
    { intros n t. rewrite lookup_insert_Some, (HD n t), exists_snoc. split.
      - intros [[<- <-]|[_ ?]]; [by right|by left].
      - intros [(x & Hx & <- & ?)|(<- & _ & <-)]; [|by left]. right. split; [|by exists x].
        intros Heq. by apply (Hfresh x Hx). }
    destruct (IH _ _ _ (seen ++ [sw]) Hnd' Hm HD1 Hrun) as (? & ? & Hk & Hr). rewrite <-app_assoc in Hr.
    split_and!; [done|done| |done]. intros n s Hs Hall. apply Hk; [done|]. intros x Hx. apply Hall. set_solver.
Qed.
End sync.
