(* ===== verification/SubscriptionProperties.v ===== *)
(** * Properties of the switch subscriptions

    The claims about src/pkg/controller/switchtopology/subscription_manager.go, with
    witnesses. *)
From stdpp Require Import base gmap sets list strings sorting.
From Stdlib Require Import ZArith.
From S2P Require Import Prelude GoStrings GoNumbers GoText Glob Config Api ApiServer TopologyInputs Subscription SubscriptionFacts.
Local Open Scope Z_scope.

(** ** Facts about snapshots *)
Lemma normalize_outcome snapshot ports nodeNames normalized :
  (∃ res, normalizeSnapshotNeighbors snapshot ports nodeNames normalized = Ret res) ∨
  normalizeSnapshotNeighbors snapshot ports nodeNames normalized = Err ErrMalformed.
Proof.
  unfold normalizeSnapshotNeighbors.
  destruct (count_total ports nodeNames normalized (LldpNeighbors snapshot) ([], ∅)) as [[[o c] ->]|[-> _]];
    cbn; [left; eauto|by right].
Qed.

Section snapshots.
Context (SetStatusCondition : list v1beta1.Condition → v1beta1.Condition → list v1beta1.Condition).
Context (RetryOnConflict : M subscriptionError unit → M subscriptionError unit) (now : Z).

Lemma handleSnapshot_generation ports name snapshot g w g' b w' :
  handleSnapshot SetStatusCondition RetryOnConflict now ports name snapshot g w = (Ret (g', b), w') →
  g' = g ∧ Generation snapshot ≤ g ∨ g' = Generation snapshot ∧ g < Generation snapshot.
Proof.
  unfold handleSnapshot. case_decide as Hg; [intros [= <- _ _]; by left|].
  unfold mbind, M_bind, pure, mret, M_ret.
  destruct (try_call _ w) as [[a| | |] w1]; [|done..].
  destruct (match a with inl _ => _ | inr _ => _ end) as [nn nm].
  destruct (normalizeSnapshotNeighbors _ _ _ _) as [neighbors| | |]; [|done..].
  destruct (mutateSwitchStatus _ _ _ _) as [[u| | |] w2]; [|done..]. intros [= <- _ _]. right. split; [done|lia].
Qed.

Lemma receive_generation ports name snapshots err g w g' e w' :
  receive SetStatusCondition RetryOnConflict now ports name snapshots err g w = (g', e, w') → g ≤ g'.
Proof.
  revert g w. induction snapshots as [|s snapshots IH]; intros g w; cbn [receive]; [intros [= <- _ _]; lia|].
  destruct (handleSnapshot _ _ _ _ _ _ _ _) as [[[g1 b]| | |] w1] eqn:Hs; [|intros [= <- _ _]; lia..].
  apply handleSnapshot_generation in Hs. intros Hr%IH. lia.
Qed.
End snapshots.

(** ** A concrete Switch *)
Module Stream.
Definition sw (ip : string) : v1beta1.Switch := v1beta1.MkSwitch "leaf-1" 1 ∅ ∅ ip "" (Some 9000) emptyStatus.

Definition world (ip : string) : World :=
  MkWorld (MkCluster ∅ [] [sw ip] [corev1.MkNode "node-a" ∅]) [NoFault; NoFault; Conflicts].

Definition snapshot : LLDPNeighborSnapshot := MkLLDPSnapshot "leaf-1"
  [MkEntry "leaf-1" "Ethernet1" "Node_A" "eth0"; MkEntry "leaf-1" "Ethernet2" "spine-1" "p1";
   MkEntry "leaf-1" "Ethernet3" "spine-1" "p2"; MkEntry "leaf-1" "Management0" "" ""] 7.

Definition setCondition (l : list v1beta1.Condition) (c : v1beta1.Condition) : list v1beta1.Condition :=
  filter (fun d => v1beta1.C_Type d ≠ v1beta1.C_Type c) l ++ [c].

Definition neighbors : list v1beta1.SwitchNeighbor :=
  [v1beta1.MkSwitchNeighbor "KubernetesNode" "Node_A" 1; v1beta1.MkSwitchNeighbor "Switch" "spine-1" 2].

Example counted : let '(nn, nm) := kubernetesNodeNames [corev1.MkNode "node-a" ∅] in
  normalizeSnapshotNeighbors snapshot ["Management*"] nn nm = Ret neighbors.
Proof. vm_compute. reflexivity. Qed.

Example handled :
  (handleSnapshot setCondition (attempts 4) 0 ["Management*"] "leaf-1" snapshot 3 (world "10.0.0.1")).1 = Ret (7, true).
Proof. vm_compute. reflexivity. Qed.
End Stream.

(** ** The claims *)

(**  [normalizeSnapshotNeighbors] fails exactly when a port that is not ignored
    has a neighbour without a name.  Otherwise the result is sorted, lists every
    remote system that is reachable over such a port exactly once, with its type,
    and the link count is the number of those ports, for fewer than 2^31 entries. *)
Theorem neighbors_counted snapshot ports nodeNames normalized :
  Z.of_nat (length (LldpNeighbors snapshot)) < 2 ^ 31 →
  match normalizeSnapshotNeighbors snapshot ports nodeNames normalized with
  | Ret res =>
    (∀ e, e ∈ LldpNeighbors snapshot → used ports e = true → RemoteSystem e ≠ "") ∧
    Sorted switchNeighbor_le res ∧ NoDup (keyOf <$> res) ∧
    (∀ n, n ∈ res ↔ (0 < links ports nodeNames normalized (LldpNeighbors snapshot) (keyOf n))%nat ∧
       v1beta1.LinkCount n = Z.of_nat (links ports nodeNames normalized (LldpNeighbors snapshot) (keyOf n)))
  | Err e => e = ErrMalformed ∧ ∃ e, e ∈ LldpNeighbors snapshot ∧ used ports e = true ∧ RemoteSystem e = ""
  | _ => False
  end.
Proof.
  intros Hlen. unfold normalizeSnapshotNeighbors. set (f := countNeighbor ports nodeNames normalized).
  destruct (count_total ports nodeNames normalized (LldpNeighbors snapshot) ([], ∅)) as [[[order counts] Hr]|[Hr He]];
    fold f in Hr; rewrite Hr; cbn [mbind go_bind]; [|done].
  apply count_all in Hr as [Ho Hnd Hc Hn]; [|done]. cbn [fst snd] in *. split; [done|]. split.
  { apply Sorted_merge_sort. intros a b. unfold switchNeighbor_le.
    destruct (str_ltb_total (v1beta1.RemoteSystemType a) (v1beta1.RemoteSystemType b)) as [?|[Heq|?]]; [by left; left| |by right; left].
    destruct (total String.le (v1beta1.SN_RemoteSystemName a) (v1beta1.SN_RemoteSystemName b)); [left|right]; right; done. }
  split.
  - rewrite (merge_sort_Permutation switchNeighbor_le), <-list_fmap_compose, (list_fmap_ext _ id), list_fmap_id; [done|]. by intros i [].
  - intros n. rewrite (merge_sort_Permutation switchNeighbor_le), list_elem_of_fmap. split.
    + intros (k & -> & Hk%Ho). unfold keyOf. cbn. by destruct k.
    + intros [Hk Hl]. exists (keyOf n). rewrite Hc, <-Hl. split; [by destruct n|]. by apply Ho.
Qed.

Lemma neighbors_counted_witness :
  let '(nn, nm) := kubernetesNodeNames [corev1.MkNode "node-a" ∅] in
  match normalizeSnapshotNeighbors Stream.snapshot ["Management*"] nn nm with
  | Ret res =>
    (∀ e, e ∈ LldpNeighbors Stream.snapshot → used ["Management*"] e = true → RemoteSystem e ≠ "") ∧
    Sorted switchNeighbor_le res ∧ NoDup (keyOf <$> res) ∧
    (∀ n, n ∈ res ↔ (0 < links ["Management*"] nn nm (LldpNeighbors Stream.snapshot) (keyOf n))%nat ∧
       v1beta1.LinkCount n = Z.of_nat (links ["Management*"] nn nm (LldpNeighbors Stream.snapshot) (keyOf n)))
  | Err e => e = ErrMalformed ∧
      ∃ e, e ∈ LldpNeighbors Stream.snapshot ∧ used ["Management*"] e = true ∧ RemoteSystem e = ""
  | _ => False
  end.
Proof.
  destruct (kubernetesNodeNames [corev1.MkNode "node-a" ∅]) as [nn nm].
  apply (neighbors_counted Stream.snapshot ["Management*"] nn nm). cbn. lia.
Defined.

(** What a synchronisation leaves, for the claim and for the loop of the manager. *)
Lemma syncSubscriptions_spec `{RangeOrder} clear port m w m' r w' :
  NoDup (v1beta1.SW_Name <$> c_switches (w_cluster w)) → mgr_ok m →
  syncSubscriptions clear port m w = (m', r, w') →
  let wanted n t := ∃ sw, sw ∈ c_switches (w_cluster w) ∧ v1beta1.SW_Name sw = n ∧
    v1beta1.MgmtIP sw ≠ "" ∧ targetOf port sw = t in
  mgr_ok m' ∧
  (r = Ret () →
     (∀ n t, (∃ s, subscriptions m' !! n = Some s ∧ sub_target s = t) ↔ wanted n t) ∧
     (∀ n s, subscriptions m !! n = Some s → wanted n (sub_target s) → subscriptions m' !! n = Some s)).
Proof.
  intros Hnd Hm Hrun wanted. unfold syncSubscriptions in Hrun.
  assert (∀ switches w1, listSwitches (E:=subscriptionError) w = (Ret switches, w1) →
    switches = c_switches (w_cluster w)) as Hlist.
  { intros switches w1. unfold listSwitches, call, try_call, mbind, M_bind, pure, mret, M_ret.
    destruct (w_faults w) as [|[] faults]; cbn; intros Heq; simplify_eq; done. }
  destruct (listSwitches w) as [[switches|e| |] w1]; [|simplify_eq; done..].
  rewrite (Hlist _ _ eq_refl) in Hrun. clear Hlist.
  destruct (desired clear port (c_switches (w_cluster w)) (m, ∅) w1) as [[m1 D] w2] eqn:Hd.
  assert (targets port [] ∅) as HD0.
  { intros n t. rewrite lookup_empty. split; [done|]. by intros (? & ?%elem_of_nil & _). }
  destruct (desired_ok clear port (c_switches (w_cluster w)) m ∅ w1 m1 D w2 [] Hnd Hm HD0 Hd) as (Hm1 & Hback & Hkeep & HD).
  destruct D as [D|e| |]; [|simplify_eq; done..]. cbn [app] in HD.
  destruct (drop_all D m1 Hm1) as [Hm2 Hs2].
  destruct (start_all D _ Hm2) as (Hm3 & Hs3 & Hk3); [intros n s Hs; by apply Hs2 in Hs as [_ ?]|].
  simplify_eq. split; [done|]. intros _. split.
  - intros n t. rewrite Hs3. apply HD.
  - intros n s Hs Hw. apply Hk3, Hs2. split; [|by apply HD]. apply Hkeep; [done|].
    intros sw Hsw Hn. destruct Hw as (sw' & Hsw' & Hn' & Hip & _).
    assert (sw = sw') as ->; [|done]. eapply (NoDup_name_inj v1beta1.SW_Name); [exact Hnd|done|done|congruence].
Qed.

(** C18.  [syncSubscriptions] keeps the goroutines and the recorded subscriptions in
    step, also when it fails.  When it succeeds there is one subscription for every
    Switch with a management address, to its target, and none for any other; a
    subscription whose target has not changed is left running. *)
Theorem sync_subscriptions `{RangeOrder} clear port m w m' r w' :
  NoDup (v1beta1.SW_Name <$> c_switches (w_cluster w)) → mgr_ok m →
  syncSubscriptions clear port m w = (m', r, w') →
  let wanted n t := ∃ sw, sw ∈ c_switches (w_cluster w) ∧ v1beta1.SW_Name sw = n ∧
    v1beta1.MgmtIP sw ≠ "" ∧ targetOf port sw = t in
  mgr_ok m' ∧
  (r = Ret () →
     (∀ n t, (∃ s, subscriptions m' !! n = Some s ∧ sub_target s = t) ↔ wanted n t) ∧
     (∀ n s, subscriptions m !! n = Some s → wanted n (sub_target s) → subscriptions m' !! n = Some s)).
Proof. apply syncSubscriptions_spec. Qed.

Lemma sync_subscriptions_witness :
  let w := Stream.world "10.0.0.1" in
  let clear := clearSwitchSubscriptionStatus (attempts 4) in
  let r := @syncSubscriptions canonical_order clear 9339 (MkManager ∅ ∅ 0) w in
  let wanted n t := ∃ sw, sw ∈ c_switches (w_cluster w) ∧ v1beta1.SW_Name sw = n ∧
    v1beta1.MgmtIP sw ≠ "" ∧ targetOf 9339 sw = t in
  mgr_ok r.1.1 ∧
  (r.1.2 = Ret () →
     (∀ n t, (∃ s, subscriptions r.1.1 !! n = Some s ∧ sub_target s = t) ↔ wanted n t) ∧
     (∀ n s, (∅ : gmap string switchSubscription) !! n = Some s → wanted n (sub_target s) → subscriptions r.1.1 !! n = Some s)).
Proof.
  intros w clear r wanted.
  apply (@sync_subscriptions canonical_order clear 9339 (MkManager ∅ ∅ 0) w r.1.1 r.1.2 r.2).
  - cbn. repeat constructor. set_solver.
  - split; cbn; intros *; rewrite ?lookup_empty; done.
  - rewrite <-!surjective_pairing. reflexivity.
Defined.

(** What a snapshot does to the Switches, for the claim and for the composition with the switch agent. *)
Lemma handle_snapshot_spec SetStatusCondition RetryOnConflict now ports name snapshot g w r w' :
  RetryLaw RetryOnConflict → NoDup (v1beta1.SW_Name <$> c_switches (w_cluster w)) →
  handleSnapshot SetStatusCondition RetryOnConflict now ports name snapshot g w = (r, w') →
  Generation snapshot ≤ g ∧ r = Ret (g, false) ∧ w' = w ∨
  g < Generation snapshot ∧
    ((∃ nodeNames normalized neighbors,
        (nodeNames, normalized) ∈ [kubernetesNodeNames (c_nodes (w_cluster w)); (∅, ∅)] ∧
        normalizeSnapshotNeighbors snapshot ports nodeNames normalized = Ret neighbors ∧
        r = Ret (Generation snapshot, true) ∧
        wrote name (accepted SetStatusCondition now
            (if decide (Sn_SwitchName snapshot = "") then name else Sn_SwitchName snapshot)
            neighbors (Generation snapshot))
          (w_cluster w) (w_cluster w')) ∨
     (∀ x, r ≠ Ret x) ∧ w_cluster w' = w_cluster w).
Proof.
  intros Hlaw Hnd. unfold handleSnapshot. case_decide as Hg; [intros [= <- <-]; by left|].
  intros Hrun. right. split; [lia|]. revert Hrun. unfold mbind, M_bind, pure, mret, M_ret.
  assert (∃ listed w1, try_call (E:=subscriptionError) (fun c => (inl (c_nodes c), c)) w = (Ret listed, w1) ∧
    w_cluster w1 = w_cluster w ∧ (listed = inl (c_nodes (w_cluster w)) ∨ ∃ e, listed = inr e))
    as (listed & w1 & -> & Hw1 & Hl).
  { unfold try_call. destruct (w_faults w) as [|[] faults]; cbn; eexists _, _; (split; [reflexivity|]); eauto. }
  destruct (match listed with inl _ => _ | inr _ => _ end) as [nn nm] eqn:Hnn.
  assert ((nn, nm) ∈ [kubernetesNodeNames (c_nodes (w_cluster w)); (∅, ∅)]) as Hin.
  { destruct Hl as [->|[e ->]]; rewrite <-Hnn; set_solver. }
  destruct (normalize_outcome snapshot ports nn nm) as [[neighbors Hn]| ->]; [|intros [= <- <-]; by right].
  rewrite Hn. set (mut := accepted _ _ _ _ _).
  pose proof (mutateSwitchStatus_triple RetryOnConflict name mut (w_cluster w) Hnd w1 Hw1) as Ht.
  destruct (mutateSwitchStatus RetryOnConflict name mut w1) as [[u| | |] w2]; intros [= <- <-]; [|by right..].
  left. by exists nn, nm, neighbors.
Qed.

(** C19.  A snapshot that is not newer than the last one is ignored.  A newer one is
    either stored (the status of the Switch gets exactly the normalised neighbours,
    no other object changes, and the generation moves on) or the handler fails and
    neither the objects nor the generation have changed, however often an update
    conflicts. *)
Theorem handle_snapshot SetStatusCondition RetryOnConflict now ports name snapshot g w r w' :
  RetryLaw RetryOnConflict → NoDup (v1beta1.SW_Name <$> c_switches (w_cluster w)) →
  handleSnapshot SetStatusCondition RetryOnConflict now ports name snapshot g w = (r, w') →
  Generation snapshot ≤ g ∧ r = Ret (g, false) ∧ w' = w ∨
  g < Generation snapshot ∧
    ((∃ nodeNames normalized neighbors,
        (nodeNames, normalized) ∈ [kubernetesNodeNames (c_nodes (w_cluster w)); (∅, ∅)] ∧
        normalizeSnapshotNeighbors snapshot ports nodeNames normalized = Ret neighbors ∧
        r = Ret (Generation snapshot, true) ∧
        wrote name (accepted SetStatusCondition now
            (if decide (Sn_SwitchName snapshot = "") then name else Sn_SwitchName snapshot)
            neighbors (Generation snapshot))
          (w_cluster w) (w_cluster w')) ∨
     (∀ x, r ≠ Ret x) ∧ w_cluster w' = w_cluster w).
Proof. apply handle_snapshot_spec. Qed.

Lemma handle_snapshot_witness :
  let w := Stream.world "10.0.0.1" in
  let r := handleSnapshot Stream.setCondition (attempts 4) 0 ["Management*"] "leaf-1" Stream.snapshot 3 w in
  Generation Stream.snapshot ≤ 3 ∧ r.1 = Ret (3, false) ∧ r.2 = w ∨
  3 < Generation Stream.snapshot ∧
    ((∃ nodeNames normalized neighbors,
        (nodeNames, normalized) ∈ [kubernetesNodeNames (c_nodes (w_cluster w)); (∅, ∅)] ∧
        normalizeSnapshotNeighbors Stream.snapshot ["Management*"] nodeNames normalized = Ret neighbors ∧
        r.1 = Ret (Generation Stream.snapshot, true) ∧
        wrote "leaf-1" (accepted Stream.setCondition 0
            (if decide (Sn_SwitchName Stream.snapshot = "") then "leaf-1" else Sn_SwitchName Stream.snapshot)
            neighbors (Generation Stream.snapshot))
          (w_cluster w) (w_cluster r.2)) ∨
     (∀ x, r.1 ≠ Ret x) ∧ w_cluster r.2 = w_cluster w).
Proof.
  intros w r. apply (handle_snapshot Stream.setCondition (attempts 4) 0 ["Management*"] "leaf-1" Stream.snapshot 3 w).
  - apply _.
  - cbn. repeat constructor. set_solver.
  - apply surjective_pairing.
Defined.

(**  Over any sequence of connections the generation a subscription has seen
    never goes back, so that an old snapshot cannot overwrite a newer one. *)
Theorem generation_monotone SetStatusCondition RetryOnConflict now ports name errorText sessions1 sessions2 w :
  let run := runSubscription SetStatusCondition RetryOnConflict now ports name errorText in
  (run sessions1 w).1 ≤ (run (sessions1 ++ sessions2) w).1.
Proof.
  intros run. unfold run, runSubscription. rewrite foldl_app.
  generalize (foldl (runSession SetStatusCondition RetryOnConflict now ports name errorText) (0, w) sessions1).
  induction sessions2 as [|s sessions IH]; intros st; [done|]. cbn [foldl]. etrans; [|apply IH].
  unfold runSession. destruct (receive _ _ _ _ _ _ _ _ _) as [[g e] w1] eqn:Hr. apply receive_generation in Hr.
  by destruct e.
Qed.

(** ** The manager *)
Section start.
Context `{RangeOrder} (clear : string → M subscriptionError unit) (port : Z).

Lemma syncTick_ok m w : NoDup (v1beta1.SW_Name <$> c_switches (w_cluster w)) → mgr_ok m → mgr_ok (syncTick clear port m w).
Proof.
  intros Hnd Hm. unfold syncTick. destruct (syncSubscriptions clear port m w) as [[m' r] w'] eqn:Hs.
  by destruct (syncSubscriptions_spec clear port m w m' r w' Hnd Hm Hs).
Qed.

(** Whatever each tick finds and whichever of its calls fail, the manager leaves no goroutine behind when
    its context ends. *)
Theorem start_stops_all intervals first worlds m m' :
  Forall (fun w => NoDup (v1beta1.SW_Name <$> c_switches (w_cluster w))) (first :: worlds) → mgr_ok m →
  managerStart clear port intervals first worlds m = Ret m' → subscriptions m' = ∅ ∧ live m' = ∅.
Proof.
  intros [Hfirst Hall]%Forall_cons Hm. unfold managerStart. case_decide; [done|]. intros [= <-].
  apply stopAllSubscriptions_ok. apply (syncTick_ok m first Hfirst) in Hm. revert Hm. generalize (syncTick clear port m first).
  induction Hall as [|w worlds Hw _ IH]; intros q Hq; cbn; [done|]. by apply IH, syncTick_ok.
Qed.
End start.

(** The configuration of the controller accepts a back-off that is not positive, on which the ticker of
    the manager panics. *)
Theorem backoff_panics : ∃ cfg cfg' intervals m, normalizeScaleOutDiscoveryConfig cfg = Ret cfg' ∧
  newSubscriptionManager cfg' = Some (intervals, m) ∧
  ∀ (o : RangeOrder) clear port first worlds, @managerStart o clear port intervals first worlds m = Panic.
Proof.
  exists (MkSwitches true true true "" "0s" 0 "" 0 [] (MkSwitchMTLS None "" "") (MkGroupNaming "" 0)).
  eexists _, _, _. split; [vm_compute; reflexivity|]. split; [vm_compute; reflexivity|]. intros. unfold managerStart.
  rewrite decide_True; [done|]. cbn. lia.
Qed.

(** No event says that nothing changed: the same neighbours in any order and with any number of links
    are silent. *)
Example neighbor_events :
  let n name links := v1beta1.MkSwitchNeighbor "Switch" name links in
  @recordNeighborChanges canonical_order true (Some [n "a" 1; n "b" 2]) [n "b" 5; n "a" 1] = None ∧
  @recordNeighborChanges canonical_order true (Some [n "a" 1; n "b" 2]) [n "c" 5; n "a" 1; n "d" 1] = Some "LLDP neighbors changed: 2 added, 1 removed" ∧
  @recordNeighborChanges canonical_order true None [n "c" 5] = None.
Proof. split_and!; vm_compute; reflexivity. Qed.
