(* ===== verification/SwitchAgent.v ===== *)
(** * The switch agent

    src/pkg/switchagent/lldp.go and agent.go: snapshots of the LLDP neighbours of a
    switch, published to the streams that watch them.  Refreshing, subscribing, sending
    and hanging up are interleaved by a transition function; the lock of the agent makes
    each of its critical sections one step.  The certificates the agent accepts are read as
    the controller reads its own; the gRPC server is outside. *)
From stdpp Require Import base gmap list numbers strings sorting.
From Stdlib Require Import ZArith.
From S2P Require Import Prelude GoStrings GoNumbers GoText GoJson GoNet Api ApiServer Lldp TopologyInputs Config Subscription.
Local Open Scope Z_scope.

(** ** Snapshots (lldp.go) *)
Definition lldpCLI104Path : string := "/usr/local/sbin/lldpcli-1.0.4".
Definition lldpCLI116Path : string := "/usr/local/sbin/lldpcli-1.0.16".

Definition lldpCollectionOptions (cfg : SwitchAgentConfig) : LldpCliOptions :=
  if decide (CollectionMode (SA_LLDP cfg) = "hostProc") then MkLldpOptions "" "" false false true
  else if decide (CLIVersion (SA_LLDP cfg) = "1.0.4") then
    MkLldpOptions lldpCLI104Path (SocketPath (SA_LLDP cfg)) false true false
  else MkLldpOptions lldpCLI116Path (SocketPath (SA_LLDP cfg)) false true false.

(** The loop over the runes is the one of the controller's resource names. *)
Definition normalizeSwitchName (name : string) : string :=
  let '(out, _) := foldl normalizeRune ([], false) ((fun '(r, _) => lower_rune r) <$> runes (bytes (TrimSpace name))) in
  TrimDash (of_bytes out).

(** The comparison of [sort.Slice], as a total order. *)
Definition entry_le (a b : LLDPEntry) : Prop :=
  if decide (LocalPort a ≠ LocalPort b) then str_ltb (LocalPort a) (LocalPort b) = true
  else if decide (RemoteSystem a ≠ RemoteSystem b) then str_ltb (RemoteSystem a) (RemoteSystem b) = true
  else str_ltb (RemotePortId b) (RemotePortId a) = false.

#[export] Instance entry_le_dec : RelDecision entry_le.
Proof. intros a b. unfold entry_le. destruct (decide _); [apply _|]. destruct (decide _); apply _. Defined.

Definition entryOf (switchName : string) (iface : LLDPJSON0Interface) : option LLDPEntry :=
  match If_Chassis iface, If_Port iface with
  | chassis :: _, port :: _ =>
    match Ch_Name chassis, Port_ID port with
    | name :: _, portID :: _ => Some (MkEntry switchName (If_Name iface) (V_Value name) (ID_Value portID))
    | _, _ => None
    end
  | _, _ => None
  end.

(** [None] is an output that is not JSON of the expected shape. *)
Definition parseSnapshot (switchName : string) (generation : Z) (output : string) : option LLDPNeighborSnapshot :=
  response ← unmarshalResponse output;
  let normalizedSwitchName := normalizeSwitchName switchName in
  let neighbors := omap (entryOf normalizedSwitchName) (LLDP response ≫= Interface) in
  Some (MkLLDPSnapshot normalizedSwitchName (merge_sort entry_le neighbors) generation).

(** [proto.Equal] with the generations left out; [None] is a nil snapshot. *)
Definition snapshotsEqual (previous next : option LLDPNeighborSnapshot) : Prop :=
  match previous, next with
  | Some p, Some n => Sn_SwitchName p = Sn_SwitchName n ∧ LldpNeighbors p = LldpNeighbors n
  | None, None => True
  | _, _ => False
  end.

#[export] Instance LLDPEntry_eq_dec : EqDecision LLDPEntry.
Proof. solve_decision. Defined.

#[export] Instance snapshotsEqual_dec p n : Decision (snapshotsEqual p n).
Proof. destruct p, n; cbn; apply _. Defined.

Section collect.
Context (commandLookup : string → option string) (pathCheck : string → bool) (execCommand : string → list string → bool * string).

Definition collectSnapshot (cfg : SwitchAgentConfig) (generation : Z) : option LLDPNeighborSnapshot :=
  match LldpCliShowNeighborsWithOptions commandLookup pathCheck execCommand (lldpCollectionOptions cfg) with
  | Ret output => parseSnapshot (SA_SwitchName cfg) generation output
  | _ => None
  end.
End collect.

Definition switchNameMatches (expected actual : string) : bool :=
  if decide (expected = "") then true else bool_decide (normalizeSwitchName expected = normalizeSwitchName actual).

(** ** The agent (agent.go)

    A subscriber's channel holds at most one snapshot. *)
Record Agent := MkAgentState {
  currentSnapshot : option LLDPNeighborSnapshot;
  subscribers : gmap nat (list LLDPNeighborSnapshot);
  nextSubscriber : nat
}.

Definition subscribe (a : Agent) : option LLDPNeighborSnapshot * nat * Agent :=
  let id := nextSubscriber a in
  (currentSnapshot a, id, MkAgentState (currentSnapshot a) (<[id := []]> (subscribers a)) (S id)).

Definition unsubscribe (id : nat) (a : Agent) : Agent :=
  MkAgentState (currentSnapshot a) (delete id (subscribers a)) (nextSubscriber a).

(** The generation a refresh reads under the read lock, a [uint64]. *)
Definition nextGeneration (a : Agent) : Z :=
  match currentSnapshot a with
  | None => 1
  | Some current => (Generation current + 1) mod 2 ^ 64
  end.

(** The two nested [select]s: a full channel is emptied first. *)
Definition offer (snapshot : LLDPNeighborSnapshot) (channel : list LLDPNeighborSnapshot) : list LLDPNeighborSnapshot :=
  if decide ((length channel < 1)%nat) then channel ++ [snapshot] else drop 1 channel ++ [snapshot].

(** The part of [refreshSnapshot] under the write lock. *)
Definition installSnapshot (snapshot : LLDPNeighborSnapshot) (a : Agent) : Agent :=
  if decide (snapshotsEqual (currentSnapshot a) (Some snapshot)) then a
  else MkAgentState (Some snapshot) (offer snapshot <$> subscribers a) (nextSubscriber a).

(** ** The streams *)
Record watcher := MkWatcher {
  lastGeneration : Z;
  sent : list LLDPNeighborSnapshot
}.

Record world := MkWorldState {
  agent : Agent;
  watchers : gmap nat watcher;
  refreshing : option Z
}.

(** How a call of [WatchLLDPNeighbors] ends early. *)
Inductive watchError := WatchFailedPrecondition | WatchUnavailable | WatchSendError.

(** The steps: the refresh loop reads the generation and later installs what it
    collected; a call begins, its stream receives an update, or its context is done.  The
    flag says whether [stream.Send] succeeds. *)
Inductive agentAction :=
| BeginRefresh
| EndRefresh (output : option string)
| Watch (expected : string) (sendOk : bool)
| Deliver (id : nat) (sendOk : bool)
| Hangup (id : nat).

Section agent.
Context (cfg : SwitchAgentConfig).

(** [WatchLLDPNeighbors] up to its loop. *)
Definition watch (expected : string) (sendOk : bool) (w : world) : watchError + world :=
  if negb (switchNameMatches expected (SA_SwitchName cfg)) then inl WatchFailedPrecondition
  else
    let '(snapshot, id, a) := subscribe (agent w) in
    match snapshot with
    | None => inl WatchUnavailable
    | Some snapshot =>
      if (sendOk : bool) then
        inr (MkWorldState a (<[id := MkWatcher (Generation snapshot) [snapshot]]> (watchers w)) (refreshing w))
      else inl WatchSendError
    end.

(** A call that ends has unsubscribed; its number is used up. *)
Definition refuse (w : world) : world :=
  let '(_, id, a) := subscribe (agent w) in MkWorldState (unsubscribe id a) (watchers w) (refreshing w).

Definition endWatch (id : nat) (w : world) : world :=
  MkWorldState (unsubscribe id (agent w)) (delete id (watchers w)) (refreshing w).

(** The case [snapshot := <-updates] of the loop. *)
Definition deliver (id : nat) (sendOk : bool) (w : world) : option world :=
  v ← watchers w !! id;
  channel ← subscribers (agent w) !! id;
  match channel with
  | [] => None
  | snapshot :: rest =>
    let w := MkWorldState (MkAgentState (currentSnapshot (agent w)) (<[id := rest]> (subscribers (agent w))) (nextSubscriber (agent w)))
               (watchers w) (refreshing w) in
    if decide (Generation snapshot ≤ lastGeneration v) then Some w
    else if (sendOk : bool) then
      Some (MkWorldState (agent w) (<[id := MkWatcher (Generation snapshot) (sent v ++ [snapshot])]> (watchers w)) (refreshing w))
    else Some (endWatch id w)
  end.

Definition agentStep (act : agentAction) (w : world) : option world :=
  match act with
  | BeginRefresh =>
    match refreshing w with
    | None => Some (MkWorldState (agent w) (watchers w) (Some (nextGeneration (agent w))))
    | Some _ => None
    end
  | EndRefresh output =>
    generation ← refreshing w;
    let a := match output ≫= parseSnapshot (SA_SwitchName cfg) generation with
      | Some snapshot => installSnapshot snapshot (agent w)
      | None => agent w
      end in
    Some (MkWorldState a (watchers w) None)
  | Watch expected sendOk =>
    match watch expected sendOk w with
    | inr w => Some w
    | inl WatchFailedPrecondition => Some w
    | inl _ => Some (refuse w)
    end
  | Deliver id sendOk => deliver id sendOk w
  | Hangup id => _ ← watchers w !! id; Some (endWatch id w)
  end.

Fixpoint agentRun (acts : list agentAction) (w : world) : option world :=
  match acts with
  | [] => Some w
  | act :: acts => w ← agentStep act w; agentRun acts w
  end.

Definition freshAgent : world := MkWorldState (MkAgentState None ∅ 0) ∅ None.

(** [runSnapshotLoop] up to its loop: an interval that does not parse ends it, and
    [time.NewTicker] panics when the interval is not positive. *)
Definition runSnapshotLoop : go string unit :=
  match ParseDuration (RefreshInterval (SA_LLDP cfg)) with
  | None => Err "invalid lldp refresh interval"
  | Some interval => if decide (interval ≤ 0) then Panic else Ret ()
  end.
End agent.

(** ** The server *)
Definition minAcceptedClientKeepaliveTime : Z := 20 * 10 ^ 9.

(** The options of the gRPC server: the pings it accepts, and its credentials. *)
Inductive serverOption (KeyPair : Type) :=
| KeepaliveEnforcementPolicy (MinTime : Z) (PermitWithoutStream : bool)
| Creds (config : tlsConfig KeyPair).
Arguments KeepaliveEnforcementPolicy {_}.
Arguments Creds {_}.

Definition grpcKeepaliveEnforcementPolicy {KeyPair} : serverOption KeyPair :=
  KeepaliveEnforcementPolicy minAcceptedClientKeepaliveTime true.

Definition grpcServerOptions {KeyPair} (config : option (tlsConfig KeyPair)) : list (serverOption KeyPair) :=
  [grpcKeepaliveEnforcementPolicy] ++ match config with Some config => [Creds config] | None => [] end.

Section server.
Context {KeyPair Certificate : Type}.
Context (LoadX509KeyPair : string → string → string + KeyPair) (ReadFile : string → string + string) (pemDecode : string → option string).
Context (ParseCertificate : string → string + Certificate) (Raw : Certificate → string).

Definition loadPinnedMTLSConfig (cfg : SwitchAgentConfig) : string + tlsConfig KeyPair :=
  match LoadX509KeyPair (AM_CertFile (SA_MTLS cfg)) (AM_KeyFile (SA_MTLS cfg)) with
  | inl err => inl ("load switch-agent server keypair: " +:+ err)
  | inr serverCert =>
    match expectedPeer ReadFile pemDecode ParseCertificate "controller" (AM_PeerCertFile (SA_MTLS cfg)) with
    | inl err => inl err
    | inr peer => inr (MkTlsConfig VersionTLS12 [serverCert] RequireAnyClientCert false ["h2"]
        (verifyPinned ParseCertificate Raw "client" "controller" peer))
    end
  end.

(** A new agent and its TLS configuration, if there is one. *)
Definition NewAgent (cfg : SwitchAgentConfig) : string + (option (tlsConfig KeyPair) * Agent) :=
  if MTLSEnabled cfg then
    match loadPinnedMTLSConfig cfg with
    | inl err => inl err
    | inr config => inr (Some config, MkAgentState None ∅ 0)
    end
  else inr (None, MkAgentState None ∅ 0).

(** [Start]: the first refresh may fail; [listen] is an error of the listener, [served] an error of the
    server before the context ends.  The answer is the agent that serves and the error returned. *)
Definition startAgent (cfg : SwitchAgentConfig) (output : option string) (listen served : option string) (a : Agent) : Agent * option string :=
  let a := match output ≫= parseSnapshot (SA_SwitchName cfg) (nextGeneration a) with
    | Some snapshot => installSnapshot snapshot a
    | None => a
    end in
  match listen with
  | Some err => (a, Some ("listen on " +:+ SA_ListenAddress cfg +:+ ": " +:+ err))
  | None => (a, match served with Some err => Some ("serve switch agent grpc server: " +:+ err) | None => None end)
  end.
End server.
