(* ===== verification/SwitchAgentProperties.v ===== *)
(** * Properties of the switch agent

    The claims about src/pkg/switchagent: every stream follows the snapshots of the agent,
    and what happens to the generations when the agent restarts. *)
From stdpp Require Import base gmap list numbers strings sorting.
From Stdlib Require Import ZArith.
From S2P Require Import Prelude GoStrings GoNumbers GoText GoJson GoNet Api ApiServer Lldp TopologyInputs Config Subscription SwitchAgent.
Local Open Scope Z_scope.

(** The agent names the switch as the controller names resources. *)
Lemma normalizeSwitchName_resource name : normalizeSwitchName name = normalizeResourceName name.
Proof. reflexivity. Qed.

Lemma parseSnapshot_generation name g output snapshot : parseSnapshot name g output = Some snapshot → Generation snapshot = g.
Proof. unfold parseSnapshot. intros (resp & _ & [= <-])%bind_Some. done. Qed.

(** ** Generations *)
Fixpoint increasing (g : Z) (l : list Z) : Prop :=
  match l with
  | [] => True
  | x :: l => g < x ∧ increasing x l
  end.

Lemma default_last (d d' y z : Z) l : default d (last (y :: z :: l)) = default d' (last (z :: l)).
Proof. change (last (y :: z :: l)) with (last (z :: l)). destruct (last (z :: l)) eqn:E; [done|]. by apply last_None in E. Qed.

Lemma increasing_snoc g l x : increasing g l → default g (last l) < x → increasing g (l ++ [x]).
Proof.
  revert g. induction l as [|y l IH]; intros g Hl Hx; [by split|]. destruct Hl as [Hgy Hl]. split; [done|].
  apply IH; [done|]. destruct l as [|z l]; [done|]. by rewrite (default_last g y) in Hx.
Qed.

Lemma increasing_bound g l b : increasing g l → default g (last l) ≤ b → Forall (fun x => x ≤ b) l.
Proof.
  revert g. induction l as [|y l IH]; intros g Hl Hb; [constructor|]. destruct Hl as [Hgy Hl].
  assert (default y (last l) ≤ b) as Hb' by (destruct l as [|z l]; [done|]; by rewrite (default_last g y) in Hb).
  assert (y ≤ default y (last l)) as Hy.
  { clear -Hl. revert y Hl. induction l as [|z l IH]; intros y Hl; [done|]. destruct Hl as [Hyz Hl].
    pose proof (IH z Hl). destruct l as [|u l]; [cbn in *; lia|]. rewrite (default_last y z). lia. }
  constructor; [lia|]. by apply (IH y).
Qed.

(** ** The invariant of the streams *)

(** What a stream with channel [channel] has sent when [cur] is the current snapshot. *)
Definition stream_ok (cur : LLDPNeighborSnapshot) (v : watcher) (channel : list LLDPNeighborSnapshot) : Prop :=
  increasing 0 (Generation <$> sent v) ∧ Generation <$> last (sent v) = Some (lastGeneration v) ∧
  (last (sent v) = Some cur ∧ channel = [] ∨ lastGeneration v < Generation cur ∧ channel = [cur]).

Record served (n : Z) (w : world) : Prop := {
  served_count : 0 ≤ n;
  served_generation : ∀ cur, currentSnapshot (agent w) = Some cur → 1 ≤ Generation cur ≤ n;
  served_refresh : ∀ g, refreshing w = Some g → g = nextGeneration (agent w);
  served_ids : ∀ id, (nextSubscriber (agent w) ≤ id)%nat → subscribers (agent w) !! id = None;
  served_domain : ∀ id, is_Some (watchers w !! id) ↔ is_Some (subscribers (agent w) !! id);
  served_streams : ∀ id v channel, watchers w !! id = Some v → subscribers (agent w) !! id = Some channel →
    ∃ cur, currentSnapshot (agent w) = Some cur ∧ stream_ok cur v channel
}.

Lemma served_mono n m w : n ≤ m → served n w → served m w.
Proof. intros Hle []. split; [lia| |done..]. intros cur Hcur. specialize (served_generation0 cur Hcur). lia. Qed.

Lemma served_fresh : served 0 freshAgent.
Proof.
  split; cbn; try done. intros id. split; intros [x Hx]; by rewrite lookup_empty in Hx.
Qed.

Lemma nextGeneration_next n w cur : served n w → n + 1 < 2 ^ 64 → currentSnapshot (agent w) = Some cur →
  nextGeneration (agent w) = Generation cur + 1.
Proof.
  intros Hs Hn Hcur. unfold nextGeneration. rewrite Hcur. pose proof (served_generation n w Hs cur Hcur).
  rewrite Z.mod_small; lia.
Qed.

Lemma installSnapshot_served n w g snapshot :
  served n w → n + 1 < 2 ^ 64 → refreshing w = Some g → Generation snapshot = g →
  served (n + 1) (MkWorldState (installSnapshot snapshot (agent w)) (watchers w) None).
Proof.
  intros Hs Hn Hg Hgen. unfold installSnapshot. pose proof (served_refresh n w Hs g Hg) as Hnext.
  case_decide; [apply (served_mono n); [lia|]; destruct Hs; by split|]. destruct Hs as [H0 H1 H2 H3 H4 H5]. split; cbn; [lia|..].
  - intros cur [= <-]. destruct (currentSnapshot (agent w)) as [old|] eqn:Hcur.
    + rewrite Hgen, Hnext. unfold nextGeneration. rewrite Hcur. specialize (H1 old eq_refl). rewrite Z.mod_small; lia.
    + rewrite Hgen, Hnext. unfold nextGeneration. rewrite Hcur.
      lia.
  - done.
  - intros id Hid. by rewrite lookup_fmap, H3.
  - intros id. rewrite lookup_fmap, fmap_is_Some. apply H4.
  - intros id v channel Hv. rewrite lookup_fmap. intros (old & Hold & ->)%fmap_Some.
    destruct (H5 id v old Hv Hold) as (cur & Hcur & Hinc & Hlast & Hch). exists snapshot. split; [done|].
    split_and!; [done..|]. right. pose proof (H1 cur Hcur).
    rewrite Hgen, Hnext. unfold nextGeneration. rewrite Hcur, Z.mod_small by lia.
    destruct Hch as [[Hl ->]|[Hlt ->]]; [rewrite Hl in Hlast; cbn in Hlast; simplify_eq|]; (split; [lia|done]).
Qed.

(** A call that is refused leaves the streams alone. *)
Lemma refuse_served n w : served n w → served n (refuse w).
Proof.
  intros [H0 H1 H2 H3 H4 H5]. unfold refuse, subscribe, unsubscribe. cbn.
  assert (delete (nextSubscriber (agent w)) (<[nextSubscriber (agent w) := []]> (subscribers (agent w))) = subscribers (agent w)) as Hd.
  { rewrite delete_insert_eq. apply delete_id. by apply H3. }
  split; cbn; try done.
  - intros id Hid. rewrite Hd. apply H3. lia.
  - intros id. by rewrite Hd.
  - intros id v channel. rewrite Hd. apply H5.
Qed.

Lemma watch_served n cfg expected ok w w' : served n w → watch cfg expected ok w = inr w' → served n w'.
Proof.
  intros [H0 H1 H2 H3 H4 H5]. unfold watch, subscribe. destruct (negb _); [done|].
  destruct (currentSnapshot (agent w)) as [cur|] eqn:Hcur; [|done]. destruct ok; [|done]. intros [= <-].
  set (id0 := nextSubscriber (agent w)). split; cbn; try done.
  - intros g Hg. rewrite (H2 g Hg). unfold nextGeneration. by rewrite Hcur.
  - intros id Hid. rewrite lookup_insert_ne by lia. apply H3. lia.
  - intros id. destruct (decide (id = id0)) as [->|Hne]; [rewrite !lookup_insert_eq; split; eauto|].
    rewrite !lookup_insert_ne by done. apply H4.
  - intros id v channel. destruct (decide (id = id0)) as [->|Hne].
    + rewrite !lookup_insert_eq. intros [= <-] [= <-]. exists cur. split; [done|].
      split_and!; cbn; [pose proof (H1 cur eq_refl); split; [lia|done]|done|by left].
    + rewrite !lookup_insert_ne by done. apply H5.
Qed.

Lemma endWatch_served n id w : served n w → served n (endWatch id w).
Proof.
  intros [H0 H1 H2 H3 H4 H5]. split; cbn; try done.
  - intros i Hi. apply lookup_delete_None. right. by apply H3.
  - intros i. destruct (decide (i = id)) as [->|Hne]; [rewrite !lookup_delete_eq; done|]. rewrite !lookup_delete_ne by done. apply H4.
  - intros i v channel. destruct (decide (i = id)) as [->|Hne]; [by rewrite lookup_delete_eq|].
    rewrite !lookup_delete_ne by done. apply H5.
Qed.

(** The channel of a stream holds nothing, or the current snapshot, which is newer than
    the last one sent; a delivery sends it. *)
Lemma deliver_served n id ok w w' : served n w → deliver id ok w = Some w' → served n w'.
Proof.
  intros Hs Hdel. pose proof Hs as [H0 H1 H2 H3 H4 H5]. unfold deliver in Hdel.
  apply bind_Some in Hdel as (v & Hv & Hdel). apply bind_Some in Hdel as (channel & Hc & Hdel).
  destruct (H5 id v channel Hv Hc) as (cur & Hcur & Hinc & Hlast & [[Hl ->]|[Hlt ->]]); [done|]. cbn zeta in Hdel.
  rewrite decide_False in Hdel by lia. destruct ok; simplify_eq.
  - split; cbn; try done.
    + intros i Hi. rewrite lookup_insert_ne; [by apply H3|]. intros ->. rewrite (H3 i Hi) in Hc. done.
    + intros i. destruct (decide (i = id)) as [->|Hne]; [rewrite !lookup_insert_eq; split; eauto|].
      rewrite !lookup_insert_ne by done. apply H4.
    + intros i v' ch. destruct (decide (i = id)) as [->|Hne].
      * rewrite !lookup_insert_eq. intros [= <-] [= <-]. exists cur. split; [done|]. split_and!; cbn.
        -- rewrite fmap_app. apply increasing_snoc; [done|]. rewrite fmap_last, Hlast. cbn. lia.
        -- by rewrite last_snoc.
        -- left. by rewrite last_snoc.
      * rewrite !lookup_insert_ne by done. apply H5.
  - unfold endWatch, unsubscribe. cbn. apply (endWatch_served n id) in Hs. unfold endWatch, unsubscribe in Hs.
    by rewrite delete_insert_eq.
Qed.

Lemma agentStep_served n cfg act w w' : served n w → n + 1 < 2 ^ 64 → agentStep cfg act w = Some w' → served (n + 1) w'.
Proof.
  intros Hs Hn. destruct act as [|output|expected ok|id ok|id]; cbn [agentStep].
  - destruct (refreshing w) eqn:Hr; [done|]. intros [= <-]. apply (served_mono n); [lia|]. destruct Hs. split; cbn; try done.
    by intros g [= <-].
  - intros (g & Hg & Hw)%bind_Some. destruct (output ≫= _) as [snapshot|] eqn:Hp.
    + simplify_eq. apply bind_Some in Hp as (o & -> & Hp). eapply installSnapshot_served; [done..|]. by eapply parseSnapshot_generation.
    + simplify_eq. apply (served_mono n); [lia|]. destruct Hs. by split.
  - destruct (watch cfg expected ok w) as [[]|w''] eqn:Hw; intros [= <-]; apply (served_mono n); try lia;
      [done|by apply refuse_served..|by eapply watch_served].
  - intros Hd. apply (served_mono n); [lia|]. by eapply deliver_served.
  - intros (v & _ & [= <-])%bind_Some. apply (served_mono n); [lia|]. by apply endWatch_served.
Qed.

Lemma agentRun_served n cfg acts w w' : served n w → n + Z.of_nat (length acts) < 2 ^ 64 → agentRun cfg acts w = Some w' →
  served (n + Z.of_nat (length acts)) w'.
Proof.
  revert n w. induction acts as [|act acts IH]; intros n w Hs Hn; cbn [agentRun length].
  { intros [= <-]. by rewrite Z.add_0_r. }
  cbn [length] in Hn. intros (w1 & H1 & Hrun)%bind_Some.
  replace (n + Z.of_nat (S (length acts))) with (n + 1 + Z.of_nat (length acts)) by lia.
  apply (IH (n + 1) w1); [|lia|done]. eapply agentStep_served; [done|lia|done].
Qed.

(** C26. Every stream follows the agent: after any interleaving of refreshes, calls, deliveries and
    hang-ups of fewer than 2^64 steps, a stream that is open has sent snapshots of strictly
    increasing generations, none of them stale for a controller that starts from zero, and the
    last one is the agent's current snapshot, or else that snapshot waits in the stream's channel
    and its next turn sends it: no change is lost however slow the stream is. *)
Theorem streams_follow cfg acts w id v :
  agentRun cfg acts freshAgent = Some w → Z.of_nat (length acts) < 2 ^ 64 → watchers w !! id = Some v →
  increasing 0 (Generation <$> sent v) ∧
  ∃ cur, currentSnapshot (agent w) = Some cur ∧
    (last (sent v) = Some cur ∨
     ∃ w', agentStep cfg (Deliver id true) w = Some w' ∧
       watchers w' !! id = Some (MkWatcher (Generation cur) (sent v ++ [cur]))).
Proof.
  intros Hrun Hn Hv. pose proof (agentRun_served 0 cfg acts freshAgent w served_fresh ltac:(lia) Hrun) as Hs.
  destruct (proj1 (served_domain _ _ Hs id)) as [channel Hc]; [eauto|].
  destruct (served_streams _ _ Hs id v channel Hv Hc) as (cur & Hcur & Hinc & Hlast & Hch).
  split; [done|]. exists cur. split; [done|]. destruct Hch as [[Hl _]|[Hlt ->]]; [by left|]. right.
  cbn [agentStep]. unfold deliver. rewrite Hv, Hc. cbn. rewrite decide_False by lia.
  eexists. split; [done|]. cbn. by rewrite lookup_insert_eq.
Qed.

(** Two neighbours, and then one. *)
Definition q (s : string) : string := quote +:+ s +:+ quote.
Definition neighbor_json (port remote : string) : string :=
  "{" +:+ q "name" +:+ ":" +:+ q port +:+ "," +:+ q "chassis" +:+ ":[{" +:+ q "id" +:+ ":[{" +:+ q "value" +:+ ":" +:+ q "m" +:+ "}]," +:+
  q "name" +:+ ":[{" +:+ q "value" +:+ ":" +:+ q remote +:+ "}]}]," +:+
  q "port" +:+ ":[{" +:+ q "id" +:+ ":[{" +:+ q "value" +:+ ":" +:+ q "p1" +:+ "}]}]}".
Definition lldp_json (l : list string) : string := "{" +:+ q "lldp" +:+ ":[{" +:+ q "interface" +:+ ":[" +:+ join "," l +:+ "]}]}".
Definition two_neighbors : string := lldp_json [neighbor_json "eth1" "leaf1"; neighbor_json "eth0" "leaf0"].
Definition one_neighbor : string := lldp_json [neighbor_json "eth0" "leaf0"].

Definition sample_agent : SwitchAgentConfig :=
  MkSwitchAgent "info" "Spine 1" ":8090" (MkAgentMTLS (Some true) "" "" "") (MkAgentLLDP "10s" "socket" "/run/lldpd.socket" "1.0.16").
Definition sample_run : list agentAction :=
  [BeginRefresh; EndRefresh (Some two_neighbors); Watch "" true; BeginRefresh; EndRefresh (Some one_neighbor)].

Lemma streams_follow_witness :
  ∃ w v cur, agentRun sample_agent sample_run freshAgent = Some w ∧ watchers w !! 0%nat = Some v ∧
    Generation <$> sent v = [1] ∧ currentSnapshot (agent w) = Some cur ∧
    (last (sent v) = Some cur ∨
     ∃ w', agentStep sample_agent (Deliver 0 true) w = Some w' ∧ watchers w' !! 0%nat = Some (MkWatcher (Generation cur) (sent v ++ [cur]))).
Proof.
  destruct (agentRun sample_agent sample_run freshAgent) as [w|] eqn:H; [|by vm_compute in H].
  destruct (watchers w !! 0%nat) as [v|] eqn:Hv; [|vm_compute in H; simplify_eq; by vm_compute in Hv].
  destruct (streams_follow sample_agent sample_run w 0 v H ltac:(done) Hv) as (_ & cur & Hcur & Hor).
  exists w, v, cur. split; [done|]. split; [done|]. split; [|done].
  vm_compute in H. simplify_eq. vm_compute in Hv. simplify_eq. reflexivity.
Defined.

(** ** A restarted agent

    A fresh agent counts from one again.  All it sends in its first [g] steps is stale
    for a controller that has seen generation [g], whose loop keeps the last generation
    when it connects again: the snapshots are ignored and the Switch stays as it was
    marked when the stream broke. *)
Theorem restarted_agent_ignored cfg acts w id v snapshot SetStatusCondition RetryOnConflict now ports name g world0 :
  agentRun cfg acts freshAgent = Some w → Z.of_nat (length acts) ≤ g → g < 2 ^ 64 →
  watchers w !! id = Some v → snapshot ∈ sent v →
  handleSnapshot SetStatusCondition RetryOnConflict now ports name snapshot g world0 = (Ret (g, false), world0).
Proof.
  intros Hrun Hle Hg Hv Hin. pose proof (agentRun_served 0 cfg acts freshAgent w served_fresh ltac:(lia) Hrun) as Hs.
  destruct (proj1 (served_domain _ _ Hs id)) as [channel Hc]; [eauto|].
  destruct (served_streams _ _ Hs id v channel Hv Hc) as (cur & Hcur & Hinc & Hlast & Hch).
  pose proof (served_generation _ _ Hs cur Hcur). unfold handleSnapshot. rewrite decide_True; [done|].
  assert (Forall (fun x => x ≤ g) (Generation <$> sent v)) as Hall.
  { apply (increasing_bound 0); [done|]. rewrite fmap_last, Hlast. cbn.
    destruct Hch as [[Hl _]|[Hlt _]]; [|lia]. rewrite Hl in Hlast. cbn in Hlast. simplify_eq. lia. }
  rewrite Forall_fmap, Forall_forall in Hall. by apply Hall.
Qed.

(** ** Refresh intervals

    The configuration of the agent accepts a refresh interval that is not positive, on
    which the ticker of the refresh loop panics. *)
Theorem refresh_interval_panics :
  ∃ cfg cfg', normalizeSwitchAgentConfig (Some "leaf1") cfg = Ret cfg' ∧ runSnapshotLoop cfg' = Panic.
Proof.
  exists (MkSwitchAgent "" "" "" (MkAgentMTLS None "" "" "") (MkAgentLLDP "0s" "" "" "")). eexists. split; vm_compute; reflexivity.
Qed.

(** A neighbour that sends no system description makes the node agent's parser panic. *)
Theorem missing_description_panics : ParseLLDPNeighbors one_neighbor = Panic.
Proof. vm_compute. reflexivity. Qed.

(** ** Pinned certificates *)
Section pinned.
Context {KeyPair Certificate : Type}.
Context (LoadX509KeyPair : string → string → string + KeyPair) (ReadFile : string → string + string) (pemDecode : string → option string).
Context (ParseCertificate : string → string + Certificate) (Raw : Certificate → string).

(** A certificate keeps the bytes it was read from: [ParseCertificate] refuses trailing data. *)
Hypothesis Raw_parsed : ∀ der cert, ParseCertificate der = inr cert → Raw cert = der.

(** The bytes of the certificate in a file. *)
Definition pinIn (file der : string) : Prop :=
  ∃ text, ReadFile file = inr text ∧ pemDecode text = Some der ∧ ∃ cert, ParseCertificate der = inr cert.

Lemma expectedPeer_spec role file cert :
  expectedPeer ReadFile pemDecode ParseCertificate role file = inr cert → pinIn file (Raw cert).
Proof using Raw_parsed.
  unfold expectedPeer. destruct (ReadFile file) as [|text] eqn:Hr; [done|].
  destruct (pemDecode text) as [der|] eqn:Hp; [|done]. destruct (ParseCertificate der) as [|c] eqn:Hc; [done|].
  intros [= <-]. exists text. rewrite (Raw_parsed der c Hc). eauto.
Qed.

Lemma verifyPinned_spec side role cert certs :
  (∃ c, ParseCertificate (Raw cert) = inr c) →
  verifyPinned ParseCertificate Raw side role cert certs = None ↔ head certs = Some (Raw cert).
Proof using Raw_parsed.
  intros [c0 Hp]. destruct certs as [|raw certs]; cbn; [done|]. destruct (ParseCertificate raw) as [err|c] eqn:Hc.
  - split; [done|]. intros [= ->]. by rewrite Hc in Hp.
  - rewrite (Raw_parsed raw c Hc). case_decide; split; congruence.
Qed.

(** The switch agent lets a client in exactly when the first certificate it presents is, byte for byte,
    the one in the agent's peer file; what the authorities of the system say does not matter.  The
    controller talks to a switch under the same condition on its own peer file. *)
Theorem pinned_server chain cfg config certs :
  loadPinnedMTLSConfig LoadX509KeyPair ReadFile pemDecode ParseCertificate Raw cfg = inr config →
  ∃ der, pinIn (AM_PeerCertFile (SA_MTLS cfg)) der ∧ (serverAccepts chain config certs = true ↔ head certs = Some der).
Proof using Raw_parsed.
  unfold loadPinnedMTLSConfig. destruct (LoadX509KeyPair _ _); [done|].
  destruct (expectedPeer _ _ _ _ _) as [|cert] eqn:He; [done|]. intros [= <-]. apply expectedPeer_spec in He as Hpin.
  exists (Raw cert). split; [done|]. destruct Hpin as (text & _ & _ & Hp). unfold serverAccepts.
  rewrite <-(verifyPinned_spec "client" "controller" cert certs Hp). destruct certs; cbn [ClientAuth VerifyPeerCertificate].
  - by cbn.
  - by rewrite bool_decide_eq_true.
Qed.

Theorem pinned_client chain config certs :
  loadPinnedMTLSClientConfig LoadX509KeyPair ReadFile pemDecode ParseCertificate Raw = inr config →
  ∃ der, pinIn controllerMTLSPeerFile der ∧ (clientAccepts chain config certs = true ↔ head certs = Some der).
Proof using Raw_parsed.
  unfold loadPinnedMTLSClientConfig. destruct (LoadX509KeyPair _ _); [done|].
  destruct (expectedPeer _ _ _ _ _) as [|cert] eqn:He; [done|]. intros [= <-]. apply expectedPeer_spec in He as Hpin.
  exists (Raw cert). split; [done|]. destruct Hpin as (text & _ & _ & Hp). unfold clientAccepts.
  rewrite <-(verifyPinned_spec "server" "switch" cert certs Hp). cbn. by rewrite bool_decide_eq_true.
Qed.

(** Without [enabled: false] the controller never dials without TLS; an agent serves without TLS only
    when it is told so as well. *)
Theorem never_insecure cfg creds :
  transportCredentials LoadX509KeyPair ReadFile pemDecode ParseCertificate Raw cfg = inr creds →
  creds = None ↔ SM_Enabled cfg = Some false.
Proof.
  unfold transportCredentials. destruct (SM_Enabled cfg) as [[]|]; cbn;
    try (destruct (loadPinnedMTLSClientConfig _ _ _ _ _); [done|]); intros [= <-]; done.
Qed.

Theorem agent_insecure cfg config a :
  NewAgent LoadX509KeyPair ReadFile pemDecode ParseCertificate Raw cfg = inr (config, a) →
  (∃ c, Creds c ∈ grpcServerOptions config) ↔ AM_Enabled (SA_MTLS cfg) ≠ Some false.
Proof.
  unfold NewAgent, MTLSEnabled. destruct (AM_Enabled (SA_MTLS cfg)) as [[]|]; cbn;
    try (destruct (loadPinnedMTLSConfig _ _ _ _ _ _) as [|c]; [done|]); intros [= <- <-];
    (split; [try done|]); try (intros; exists c; set_solver); try done.
  intros [c Hc]. unfold grpcServerOptions in Hc. cbn in Hc. apply list_elem_of_singleton in Hc. done.
Qed.
End pinned.

(** An agent and a controller that hold each other's certificate, here named by their text. *)
Module Pinned.
Definition files (file : string) : string + string :=
  if decide (file = "/agent/peer.crt") then inr "controller" else if decide (file = controllerMTLSPeerFile) then inr "switch" else inl "no such file".
Definition parse (der : string) : string + string := if decide (der = "garbage") then inl "malformed certificate" else inr der.
Definition agent_config : SwitchAgentConfig :=
  MkSwitchAgent "info" "leaf-1" ":8090" (MkAgentMTLS None "/agent/tls.crt" "/agent/tls.key" "/agent/peer.crt") (MkAgentLLDP "10s" "socket" "" "").
Definition pairs (cert key : string) : string + string := inr cert.

Definition agent_tls : option (tlsConfig string) :=
  match NewAgent pairs files Some parse id agent_config with inr (config, _) => config | inl _ => None end.
Definition controller_tls : option (tlsConfig string) :=
  match transportCredentials pairs files Some parse id (MkSwitchMTLS None "" "") with inr config => config | inl _ => None end.

Example connections :
  (fun c => serverAccepts (fun _ => false) c <$> [["controller"]; ["other"]; []; ["garbage"]; ["other"; "controller"]]) <$> agent_tls
    = Some [true; false; false; false; false] ∧
  (fun c => clientAccepts (fun _ => false) c <$> [["switch"; "ca"]; ["controller"]; []]) <$> controller_tls = Some [true; false; false].
Proof. split; vm_compute; reflexivity. Qed.

(** A missing file is a failed authentication for the status of the Switch. *)
Example missing_peer :
  let s := openStream (KeyPair:=string) pairs (fun _ => inl "open: no such file") Some parse id (MkSwitchMTLS None "" "")
    (fun _ => inr (inr (MkSession [] ErrCanceled))) in
  s_snapshots s = [] ∧ classifySubscriptionError (Some (codeOf (s_error s), match s_error s with ErrGrpc _ m => m | _ => "" end))
    = v1beta1.SwitchReasonAuthenticationFailed.
Proof. split; vm_compute; reflexivity. Qed.
End Pinned.
