(* ===== verification/SFlow.v ===== *)
(** * sFlow datagrams

    src/pkg/sflow/decoder.go: flow records from the samples of a datagram.  The
    datagram itself is decoded by goflow2, a parameter here; the sampled packet
    headers are parsed by the code below.  A slice or index out of range is a
    panic. *)
From stdpp Require Import base list numbers strings.
From Stdlib Require Import ZArith.
From S2P Require Import Prelude GoNumbers GoBytes GoNet.
Local Open Scope Z_scope.

Definition FlowTypeSFlow5 : Z := 1.
Definition etherTypeIPv4 : Z := 2048.
Definition etherTypeIPv6 : Z := 34525.
Definition protoTCP : Z := 6.
Definition protoUDP : Z := 17.
Definition protoSCTP : Z := 132.

Record EndpointAttribution := MkAttribution {
  PodName : string;
  PodNamespace : string;
  AttrNodeName : string;
  TopOwnerKind : string;
  TopOwnerName : string;
  TopOwnerNamespace : string
}.

Definition zeroAttribution : EndpointAttribution := MkAttribution "" "" "" "" "" "".

Record parsedFlow := MkParsed {
  pf_Bytes : Z;
  pf_SrcAddr : IP;
  pf_DstAddr : IP;
  pf_Etype : Z;
  pf_Proto : Z;
  pf_SrcPort : Z;
  pf_DstPort : Z
}.

Record FlowRecord := MkFlowRecord {
  FR_Type : Z;
  TimeReceived : Z;
  SequenceNum : Z;
  SamplingRate : Z;
  SamplerAddress : IP;
  TimeFlowStart : Z;
  TimeFlowEnd : Z;
  FR_Bytes : Z;
  Packets : Z;
  SrcAddr : IP;
  DstAddr : IP;
  SrcAS : Z;
  DstAS : Z;
  Etype : Z;
  Proto : Z;
  SrcPort : Z;
  DstPort : Z;
  SrcAttribution : EndpointAttribution;
  DstAttribution : EndpointAttribution
}.

(** ** The decoded datagram *)
Record SampledIPBase := MkSampledIP {
  Length : Z;
  Protocol : Z;
  SrcIP : IP;
  DstIP : IP;
  IP_SrcPort : Z;
  IP_DstPort : Z
}.

Inductive recordData :=
| SampledIPv4 (base : SampledIPBase)
| SampledIPv6 (base : SampledIPBase)
| SampledHeader (HeaderData : list Z) (FrameLength : Z)
| ExtendedGateway (srcAS asNumber : Z)
| OtherRecord.

Inductive sampleData :=
| FlowSample (rate : Z) (records : list recordData)
| ExpandedFlowSample (rate : Z) (records : list recordData)
| OtherSample.

Record Packet := MkPacket {
  AgentIP : IP;
  P_SequenceNumber : Z;
  Samples : list sampleData
}.

(** [uint8] addition. *)
Definition add8 (a b : Z) : Z := (a + b) mod 256.

Definition hasPorts (proto : Z) : bool :=
  bool_decide (proto = protoTCP) || bool_decide (proto = protoUDP) || bool_decide (proto = protoSCTP).

(** The ports at [offset], when the packet is long enough. *)
Definition portsAt (ip : list Z) (proto offset : Z) : outcome (Z * Z) :=
  if hasPorts proto then
    if decide (offset + 4 ≤ len ip) then
      srcPort ← uint16_at ip offset;
      dstPort ← uint16_at ip (offset + 2);
      Ret (srcPort, dstPort)
    else Ret (0, 0)
  else Ret (0, 0).

(** ** IPv4 *)
Definition parseIPv4 (ip : list Z) (frameLength : Z) : outcome (option parsedFlow) :=
  if decide (len ip < 20) then Ret None
  else
    first ← index ip 0;
    if decide (Z.shiftr first 4 ≠ 4) then Ret None
    else
      let ihl := Z.land first 15 * 4 in
      if decide (ihl < 20 ∨ len ip < ihl) then Ret None
      else
        proto ← index ip 9;
        '(srcPort, dstPort) ← portsAt ip proto ihl;
        bytesCount ← (if decide (frameLength = 0 ∧ 4 ≤ len ip) then uint16_at ip 2 else Ret frameLength);
        src ← slice ip 12 16;
        dst ← slice ip 16 20;
        Ret (Some (MkParsed bytesCount src dst etherTypeIPv4 proto srcPort dstPort)).

(** ** IPv6 *)

(** Where the walk over the extension headers ends: [None] when the packet is too
    short for a header. *)
Fixpoint skipExtensions (rounds : nat) (ip : list Z) (nextHeader offset : Z) : outcome (option (Z * Z)) :=
  match rounds with
  | O => Ret (Some (nextHeader, offset))
  | S rounds =>
    let skip hdrLen :=
      if decide (len ip < offset + hdrLen) then Ret None
      else
        next ← index ip offset;
        skipExtensions rounds ip next (offset + hdrLen) in
    if decide (nextHeader = 0 ∨ nextHeader = 43 ∨ nextHeader = 60) then
      if decide (len ip < offset + 2) then Ret None
      else l ← index ip (offset + 1); skip (add8 l 1 * 8)
    else if decide (nextHeader = 44) then
      if decide (len ip < offset + 8) then Ret None
      else next ← index ip offset; skipExtensions rounds ip next (offset + 8)
    else if decide (nextHeader = 51) then
      if decide (len ip < offset + 2) then Ret None
      else l ← index ip (offset + 1); skip (add8 l 2 * 4)
    else Ret (Some (nextHeader, offset))
  end.

Definition parseIPv6 (ip : list Z) (frameLength : Z) : outcome (option parsedFlow) :=
  if decide (len ip < 40) then Ret None
  else
    first ← index ip 0;
    if decide (Z.shiftr first 4 ≠ 6) then Ret None
    else
      nextHeader ← index ip 6;
      walked ← skipExtensions 8 ip nextHeader 40;
      match walked with
      | None => Ret None
      | Some (nextHeader, offset) =>
        '(srcPort, dstPort) ← portsAt ip nextHeader offset;
        bytesCount ← (if decide (frameLength = 0 ∧ 6 ≤ len ip) then payload ← uint16_at ip 4; Ret (40 + payload)
                      else Ret frameLength);
        src ← slice ip 8 24;
        dst ← slice ip 24 40;
        Ret (Some (MkParsed bytesCount src dst etherTypeIPv6 nextHeader srcPort dstPort))
      end.

(** ** Ethernet *)
Definition isVlan (etype : Z) : bool :=
  bool_decide (etype = 33024) || bool_decide (etype = 34984) || bool_decide (etype = 37120).

(** At most two VLAN tags are skipped. *)
Fixpoint skipVlans (rounds : nat) (header : list Z) (etype offset : Z) : outcome (option (Z * Z)) :=
  match rounds with
  | O => Ret (Some (etype, offset))
  | S rounds =>
    if negb (isVlan etype) then Ret (Some (etype, offset))
    else if decide (len header < offset + 4) then Ret None
    else
      etype ← uint16_at header (offset + 2);
      skipVlans rounds header etype (offset + 4)
  end.

Definition parseSampledHeader (header : list Z) (frameLength : Z) : outcome (option parsedFlow) :=
  if decide (len header < 14) then Ret None
  else
    etype ← uint16_at header 12;
    walked ← skipVlans 2 header etype 14;
    match walked with
    | None => Ret None
    | Some (etype, offset) =>
      if decide (etype = etherTypeIPv4) then
        ip ← slice header offset (len header); parseIPv4 ip frameLength
      else if decide (etype = etherTypeIPv6) then
        ip ← slice header offset (len header); parseIPv6 ip frameLength
      else Ret None
    end.

(** ** Records *)
Definition parsedFromSampledIP (data : SampledIPBase) (etype : Z) : parsedFlow :=
  MkParsed (Length data) (SrcIP data) (DstIP data) etype (Protocol data) (IP_SrcPort data) (IP_DstPort data).

Definition addRecord (st : list parsedFlow * Z * Z) (record : recordData) : outcome (list parsedFlow * Z * Z) :=
  let '(parsed, srcAS, dstAS) := st in
  match record with
  | SampledIPv4 base => Ret (parsed ++ [parsedFromSampledIP base etherTypeIPv4], srcAS, dstAS)
  | SampledIPv6 base => Ret (parsed ++ [parsedFromSampledIP base etherTypeIPv6], srcAS, dstAS)
  | SampledHeader header frameLength =>
    pf ← parseSampledHeader header frameLength;
    match pf with
    | Some pf => Ret (parsed ++ [pf], srcAS, dstAS)
    | None => Ret st
    end
  | ExtendedGateway s d => Ret (parsed, s, d)
  | OtherRecord => Ret st
  end.

Definition rowOf (now sequenceNum samplingRate : Z) (samplerIP : IP) (srcAS dstAS : Z) (pf : parsedFlow) : FlowRecord :=
  MkFlowRecord FlowTypeSFlow5 now sequenceNum samplingRate samplerIP now now
    (if decide (pf_Bytes pf = 0) then 1 else pf_Bytes pf) 1 (pf_SrcAddr pf) (pf_DstAddr pf) srcAS dstAS
    (pf_Etype pf) (pf_Proto pf) (pf_SrcPort pf) (pf_DstPort pf) zeroAttribution zeroAttribution.

Definition recordsFromFlowRecords (now sequenceNum samplingRate : Z) (samplerIP : IP) (flowRecords : list recordData)
    : outcome (list FlowRecord) :=
  '(parsed, srcAS, dstAS) ← go_foldl addRecord ([], 0, 0) flowRecords;
  Ret (rowOf now sequenceNum samplingRate samplerIP srcAS dstAS <$>
    filter (fun pf => pf_SrcAddr pf ≠ [] ∧ pf_DstAddr pf ≠ []) parsed).

Section datagram.
(** goflow2's decoder; [None] is an error. *)
Context (DecodeMessageVersion : list Z → option Packet).

Definition addSample (now : Z) (packet : Packet) (samplerIP : IP) (records : list FlowRecord) (sample : sampleData)
    : outcome (list FlowRecord) :=
  match sample with
  | FlowSample rate flowRecords | ExpandedFlowSample rate flowRecords =>
    rows ← recordsFromFlowRecords now (P_SequenceNumber packet) rate samplerIP flowRecords;
    Ret (records ++ rows)
  | OtherSample => Ret records
  end.

(** [None] is a decoding error. *)
Definition DecodeDatagram (now : Z) (payload : list Z) (remote : option IP) : outcome (option (list FlowRecord)) :=
  match DecodeMessageVersion payload with
  | None => Ret None
  | Some packet =>
    let samplerIP := if decide (AgentIP packet = []) then default [] remote else AgentIP packet in
    records ← go_foldl (addSample now packet samplerIP) [] (Samples packet);
    Ret (Some records)
  end.
End datagram.
