(* ===== verification/SFlowAttribution.v ===== *)
(** * Attribution of flows to pods

    src/pkg/sflow/attribution.go and owner.go: the table from pod addresses to pods,
    the addresses of a pod, the owner at the top of a pod's chain of owners, and the
    records enriched with both ends. *)
From stdpp Require Import base gmap list numbers strings.
From Stdlib Require Import ZArith.
From S2P Require Import Prelude GoStrings GoText GoJson GoBytes GoNet SFlow.
Local Open Scope Z_scope.

(** ** Contexts

    How many more times the context is found alive when it is polled; [None] is a
    context that is never cancelled. *)
Definition context : Type := option nat.

(** [select { case <-ctx.Done(): ...; default: }] *)
Definition poll (ctx : context) : bool * context :=
  match ctx with
  | None => (false, None)
  | Some O => (true, Some O)
  | Some (S n) => (false, Some n)
  end.

(** ** Objects of the cluster *)
Record OwnerReference := MkOwnerReference {
  APIVersion : string;
  Kind : string;
  OwnerName : string
}.

Record Pod := MkPod {
  Name : string;
  Namespace : string;
  NodeName : string;
  Phase : string;
  PodIP : string;
  PodIPs : list string;
  Annotations : gmap string string;
  OwnerReferences : list OwnerReference
}.

(** What [metav1.Object] shows of an object. *)
Record Object := MkObject {
  GetNamespace : string;
  GetOwnerReferences : list OwnerReference
}.

Record OwnerRef := MkOwnerRef {
  Ref_APIVersion : string;
  Ref_Kind : string;
  Ref_Namespace : string;
  Ref_Name : string
}.

Record PodInfo := MkPodInfo {
  Info_Name : string;
  Info_Namespace : string;
  Info_NodeName : string;
  IPs : list IP;
  TopOwner : option OwnerRef
}.

(** ** Owners *)
Definition maxOwnerResolutionDepth : nat := 32.

Definition ownerRefKey (namespace : string) (ownerRef : OwnerReference) : string :=
  namespace +:+ "/" +:+ APIVersion ownerRef +:+ "/" +:+ Kind ownerRef +:+ "/" +:+ OwnerName ownerRef.

Section owners.
(** [client.Reader.Get] by API version, kind, namespace and name; [None] is an
    error. *)
Context (Get : string → string → string → string → option Object).

(** The loop of [getTopOwner], with the rounds left. *)
Fixpoint climbOwners (rounds : nat) (ctx : context) (lastOwnerRef : option OwnerRef) (seen : gset string) (obj : Object)
    : option OwnerRef * context :=
  match rounds with
  | O => (lastOwnerRef, ctx)
  | S rounds =>
    let '(done, ctx) := poll ctx in
    if done then (lastOwnerRef, ctx)
    else match GetOwnerReferences obj with
    | [] => (lastOwnerRef, ctx)
    | ownerRef :: _ =>
      let key := ownerRefKey (GetNamespace obj) ownerRef in
      if decide (key ∈ seen) then (lastOwnerRef, ctx)
      else match Get (APIVersion ownerRef) (Kind ownerRef) (GetNamespace obj) (OwnerName ownerRef) with
      | None => (lastOwnerRef, ctx)
      | Some ownerObj =>
        climbOwners rounds ctx
          (Some (MkOwnerRef (APIVersion ownerRef) (Kind ownerRef) (GetNamespace obj) (OwnerName ownerRef)))
          ({[ key ]} ∪ seen) ownerObj
      end
    end
  end.

Definition getTopOwner (ctx : context) (obj : Object) : option OwnerRef * context :=
  climbOwners maxOwnerResolutionDepth ctx None ∅ obj.

Definition OwnerForPod (ctx : context) (pod : Pod) : option OwnerRef * context :=
  getTopOwner ctx (MkObject (Namespace pod) (OwnerReferences pod)).
End owners.

(** ** Addresses of a pod *)
Definition multusNetworkStatusAnnotation : string := "k8s.v1.cni.cncf.io/network-status".
Definition podIPsAnnotation : string := "k8s.v1.cni.cncf.io/podIPs".
Definition podIPAnnotation : string := "k8s.v1.cni.cncf.io/podIP".

Definition normalizeIPKey (ip : option IP) : string :=
  match ip with
  | None => ""
  | Some ip =>
    match To4 ip with
    | Some v4 => IP_String v4
    | None =>
      match To16 ip with
      | Some v16 => IP_String v16
      | None => ""
      end
    end
  end.

(** The closure [addIP] on the addresses found so far; the keys seen are those of the
    addresses. *)
Definition addIP (st : gset string * list IP) (value : string) : gset string * list IP :=
  let '(seen, ips) := st in
  match ParseIP value with
  | None => st
  | Some ip =>
    let key := normalizeIPKey (Some ip) in
    if decide (key = "" ∨ key ∈ seen) then st
    else ({[ key ]} ∪ seen, ips ++ [ip])
  end.

(** An element of the Multus network status. *)
Record networkStatus := MkNetworkStatus {
  ns_IP : string;
  ns_IPs : list string
}.

Definition d_networkStatus : decoder networkStatus :=
  d_struct (field_of
    [("ip", via ns_IP (fun x s => MkNetworkStatus x (ns_IPs s)) d_string);
     ("ips", via ns_IPs (fun x s => MkNetworkStatus (ns_IP s) x) (d_slice "" d_string))]).

Definition unmarshalStatuses (value : string) : option (list networkStatus) :=
  v ← json_parse value; d_slice (MkNetworkStatus "" []) d_networkStatus [] v.

Definition unmarshalStrings (value : string) : option (list string) :=
  v ← json_parse value; d_slice "" d_string [] v.

Definition annotation (annotations : gmap string string) (key : string) : string := default "" (annotations !! key).

(** The values [addAnnotatedPodIPs] passes to [addIP], in order. *)
Definition annotatedPodIPs (annotations : gmap string string) : list string :=
  let status := annotation annotations multusNetworkStatusAnnotation in
  let podIP := annotation annotations podIPAnnotation in
  let podIPs := annotation annotations podIPsAnnotation in
  (if decide (status = "") then []
   else match unmarshalStatuses status with
   | Some statuses => statuses ≫= (fun s => ns_IP s :: ns_IPs s)
   | None => []
   end) ++
  (if decide (podIP = "") then [] else [podIP]) ++
  (if decide (podIPs = "") then []
   else match unmarshalStrings podIPs with
   | Some values => values
   | None => [podIPs]
   end).

Definition podIPs (pod : Pod) : list IP :=
  (foldl addIP (∅, []) (PodIPs pod ++ [PodIP pod] ++ annotatedPodIPs (Annotations pod))).2.

(** ** The table *)
Definition PodIPCache : Type := gmap string EndpointAttribution.

Definition NewPodIPCache : PodIPCache := ∅.

Definition attributionOf (pod : PodInfo) : EndpointAttribution :=
  match TopOwner pod with
  | Some owner => MkAttribution (Info_Name pod) (Info_Namespace pod) (Info_NodeName pod) (Ref_Kind owner) (Ref_Name owner) (Ref_Namespace owner)
  | None => MkAttribution (Info_Name pod) (Info_Namespace pod) (Info_NodeName pod) "" "" ""
  end.

Definition addPod (next : PodIPCache) (pod : PodInfo) : PodIPCache :=
  foldl (fun next ip =>
    let key := normalizeIPKey (Some ip) in
    if decide (key = "") then next else <[key := attributionOf pod]> next) next (IPs pod).

Definition Replace (c : PodIPCache) (pods : list PodInfo) : PodIPCache := foldl addPod ∅ pods.

(** An interface value: [None] is nil. *)
Definition OwnerResolver : Type := option (context → Pod → option OwnerRef * context).

(** The loop of [ReplacePods]; [None] is the error of a cancelled context. *)
Fixpoint collectInfos (ctx : context) (ownerResolver : OwnerResolver) (infos : list PodInfo) (pods : list Pod)
    : option (list PodInfo) * context :=
  match pods with
  | [] => (Some infos, ctx)
  | pod :: pods =>
    let '(done, ctx) := poll ctx in
    if done then (None, ctx)
    else if decide (Phase pod ≠ "Running") then collectInfos ctx ownerResolver infos pods
    else
      let info owner := MkPodInfo (Name pod) (Namespace pod) (NodeName pod) (podIPs pod) owner in
      match ownerResolver with
      | None => collectInfos ctx ownerResolver (infos ++ [info None]) pods
      | Some ownerForPod =>
        let '(owner, ctx) := ownerForPod ctx pod in
        let '(done, ctx) := poll ctx in
        if done then (None, ctx)
        else collectInfos ctx ownerResolver (infos ++ [info owner]) pods
      end
  end.

(** The error and the table afterwards. *)
Definition ReplacePods (c : PodIPCache) (ctx : context) (pods : list Pod) (ownerResolver : OwnerResolver) : bool * PodIPCache :=
  match collectInfos ctx ownerResolver [] pods with
  | (None, _) => (false, c)
  | (Some infos, _) => (true, Replace c infos)
  end.

Definition Lookup (c : PodIPCache) (ip : IP) : option EndpointAttribution :=
  let key := normalizeIPKey (Some ip) in
  if decide (key = "") then None else c !! key.

(** ** Records *)

(** An interface value: [None] is nil. *)
Definition PodLookup : Type := option (IP → option EndpointAttribution).

Definition setSrcAttribution (attr : EndpointAttribution) (r : FlowRecord) : FlowRecord :=
  MkFlowRecord (FR_Type r) (TimeReceived r) (SequenceNum r) (SamplingRate r) (SamplerAddress r) (TimeFlowStart r) (TimeFlowEnd r)
    (FR_Bytes r) (Packets r) (SrcAddr r) (DstAddr r) (SrcAS r) (DstAS r) (Etype r) (Proto r) (SrcPort r) (DstPort r)
    attr (DstAttribution r).

Definition setDstAttribution (attr : EndpointAttribution) (r : FlowRecord) : FlowRecord :=
  MkFlowRecord (FR_Type r) (TimeReceived r) (SequenceNum r) (SamplingRate r) (SamplerAddress r) (TimeFlowStart r) (TimeFlowEnd r)
    (FR_Bytes r) (Packets r) (SrcAddr r) (DstAddr r) (SrcAS r) (DstAS r) (Etype r) (Proto r) (SrcPort r) (DstPort r)
    (SrcAttribution r) attr.

Definition EnrichRecord (record : FlowRecord) (lookup : PodLookup) : FlowRecord :=
  match lookup with
  | None => record
  | Some lookup =>
    let record := match lookup (SrcAddr record) with Some attr => setSrcAttribution attr record | None => record end in
    match lookup (DstAddr record) with Some attr => setDstAttribution attr record | None => record end
  end.

(** ** Log records (src/pkg/sflow/otel.go) *)
Definition WorkloadID (a : EndpointAttribution) : string :=
  if decide (TopOwnerNamespace a = "" ∨ TopOwnerKind a = "" ∨ TopOwnerName a = "") then ""
  else TopOwnerNamespace a +:+ "/" +:+ TopOwnerKind a +:+ "/" +:+ TopOwnerName a.

Definition ProtocolName (proto : Z) : string :=
  if decide (proto = 1) then "ICMP"
  else if decide (proto = 6) then "TCP"
  else if decide (proto = 17) then "UDP"
  else if decide (proto = 58) then "IPv6-ICMP"
  else if decide (proto = 132) then "SCTP"
  else "Protocol " +:+ GoNumbers.Itoa proto.

Definition ipString (ip : IP) : string := if decide (ip = []) then "" else IP_String ip.

(** [int64(x)] of a [uint64]. *)
Definition to_int64 (x : Z) : Z := (x + 2 ^ 63) mod 2 ^ 64 - 2 ^ 63.

Definition mul64 (x y : Z) : Z := (x * y) mod 2 ^ 64.

Inductive attrValue := Int64Value (z : Z) | StringValue (s : string).

Definition endAttributes (side : string) (a : EndpointAttribution) : list (string * attrValue) :=
  [(side +:+ "_pod_namespace", StringValue (PodNamespace a)); (side +:+ "_pod_name", StringValue (PodName a));
   (side +:+ "_node_name", StringValue (AttrNodeName a)); (side +:+ "_pod_top_owner_kind", StringValue (TopOwnerKind a));
   (side +:+ "_pod_top_owner_namespace", StringValue (TopOwnerNamespace a));
   (side +:+ "_pod_top_owner_name", StringValue (TopOwnerName a)); (side +:+ "_workload", StringValue (WorkloadID a))].

(** The attributes of the log record; the remaining fields are constants and the
    times. *)
Definition flowLogAttributes (r : FlowRecord) : list (string * attrValue) :=
  let scale := if decide (SamplingRate r = 0) then 1 else SamplingRate r in
  [("sequence_num", Int64Value (SequenceNum r)); ("sampling_rate", Int64Value (to_int64 (SamplingRate r)));
   ("sampler_ip", StringValue (ipString (SamplerAddress r))); ("bytes", Int64Value (to_int64 (FR_Bytes r)));
   ("packets", Int64Value (to_int64 (Packets r))); ("scaled_bytes", Int64Value (to_int64 (mul64 (FR_Bytes r) scale)));
   ("scaled_packets", Int64Value (to_int64 (mul64 (Packets r) scale))); ("proto", Int64Value (Proto r));
   ("protocol", StringValue (ProtocolName (Proto r))); ("src_ip", StringValue (ipString (SrcAddr r)));
   ("dst_ip", StringValue (ipString (DstAddr r))); ("src_port", Int64Value (SrcPort r)); ("dst_port", Int64Value (DstPort r))] ++
  endAttributes "src" (SrcAttribution r) ++ endAttributes "dst" (DstAttribution r).
