(* ===== verification/SFlowCollector.v ===== *)
(** * The sFlow collector

    src/pkg/sflow/collector.go and metrics.go: a reader goroutine decodes datagrams and
    sends their records to a bounded channel, a writer goroutine collects them into
    batches and hands these to the record writer.  The two goroutines are interleaved by
    a transition function; every choice the scheduler, a [select] or the environment
    makes is named by an action. *)
From stdpp Require Import base list numbers strings.
From Stdlib Require Import ZArith.
From S2P Require Import Prelude GoNumbers GoBytes GoNet SFlow SFlowAttribution Config.
Local Open Scope Z_scope.

Record Collector := MkCollector {
  ListenAddr : string;
  BatchSize : Z;
  FlushInterval : Z;
  QueueSize : Z;
  CollectorLookup : PodLookup
}.

(** [None] is the error of the duration. *)
Definition NewCollector (cfg : SFlowConfig) (lookup : PodLookup) : option Collector :=
  flushInterval ← ParseDuration (Writer_FlushInterval (SF_Writer cfg));
  Some (MkCollector (SF_Listen cfg) (Writer_BatchSize (SF_Writer cfg)) flushInterval (Writer_QueueSize (SF_Writer cfg)) lookup).

(** ** Counters *)
Definition add64 (a b : Z) : Z := (a + b) mod 2 ^ 64.

Record CollectorMetrics := MkMetrics {
  DatagramsAccepted : Z;
  DecodeErrors : Z;
  RecordsDecoded : Z;
  RecordsDropped : Z;
  RecordsWritten : Z;
  WriteErrors : Z;
  QueueDepth : Z
}.

Definition zeroMetrics : CollectorMetrics := MkMetrics 0 0 0 0 0 0 0.

Definition addAccepted (m : CollectorMetrics) : CollectorMetrics :=
  MkMetrics (add64 (DatagramsAccepted m) 1) (DecodeErrors m) (RecordsDecoded m) (RecordsDropped m) (RecordsWritten m) (WriteErrors m) (QueueDepth m).
Definition addDecodeError (m : CollectorMetrics) : CollectorMetrics :=
  MkMetrics (DatagramsAccepted m) (add64 (DecodeErrors m) 1) (RecordsDecoded m) (RecordsDropped m) (RecordsWritten m) (WriteErrors m) (QueueDepth m).
Definition addDecoded (n : Z) (m : CollectorMetrics) : CollectorMetrics :=
  MkMetrics (DatagramsAccepted m) (DecodeErrors m) (add64 (RecordsDecoded m) n) (RecordsDropped m) (RecordsWritten m) (WriteErrors m) (QueueDepth m).
Definition addDropped (n : Z) (m : CollectorMetrics) : CollectorMetrics :=
  if decide (0 < n) then
    MkMetrics (DatagramsAccepted m) (DecodeErrors m) (RecordsDecoded m) (add64 (RecordsDropped m) n) (RecordsWritten m) (WriteErrors m) (QueueDepth m)
  else m.
Definition addWritten (n : Z) (m : CollectorMetrics) : CollectorMetrics :=
  if decide (0 < n) then
    MkMetrics (DatagramsAccepted m) (DecodeErrors m) (RecordsDecoded m) (RecordsDropped m) (add64 (RecordsWritten m) n) (WriteErrors m) (QueueDepth m)
  else m.
Definition addWriteError (m : CollectorMetrics) : CollectorMetrics :=
  MkMetrics (DatagramsAccepted m) (DecodeErrors m) (RecordsDecoded m) (RecordsDropped m) (RecordsWritten m) (add64 (WriteErrors m) 1) (QueueDepth m).
Definition addDepth (n : Z) (m : CollectorMetrics) : CollectorMetrics :=
  MkMetrics (DatagramsAccepted m) (DecodeErrors m) (RecordsDecoded m) (RecordsDropped m) (RecordsWritten m) (WriteErrors m) (to_int64 (QueueDepth m + n)).

Record StatsSnapshot := MkStats {
  Stats_DatagramsAccepted : Z;
  Stats_DecodeErrors : Z;
  Stats_RecordsDecoded : Z;
  Stats_RecordsDropped : Z;
  Stats_RecordsWritten : Z;
  Stats_WriteErrors : Z
}.

(** A nil receiver gives zeros. *)
Definition Snapshot (m : option CollectorMetrics) : StatsSnapshot :=
  match m with
  | None => MkStats 0 0 0 0 0 0
  | Some m => MkStats (DatagramsAccepted m) (DecodeErrors m) (RecordsDecoded m) (RecordsDropped m) (RecordsWritten m) (WriteErrors m)
  end.

(** ** Goroutines *)

(** Where the reader is: in [ReadFromUDP], at the [select] for the first of some records,
    after a send and before the depth is counted, waiting for the writer after closing
    the channel, or returned. *)
Inductive readerPc :=
| Reading
| Sending (records : list FlowRecord)
| Sent (records : list FlowRecord)
| Waiting
| Returned.

(** Where the writer is: at its [select], after a receive, or returned. *)
Inductive writerPc :=
| Selecting
| Received (row : FlowRecord)
| WriterDone.

Record state := MkState {
  done : bool;
  queue : list FlowRecord;
  closed : bool;
  reader : readerPc;
  writer : writerPc;
  batch : list FlowRecord;
  calls : list (list FlowRecord * bool);
  metrics : CollectorMetrics
}.

Definition with_done v (s : state) : state := MkState v (queue s) (closed s) (reader s) (writer s) (batch s) (calls s) (metrics s).
Definition with_queue v (s : state) : state := MkState (done s) v (closed s) (reader s) (writer s) (batch s) (calls s) (metrics s).
Definition with_closed v (s : state) : state := MkState (done s) (queue s) v (reader s) (writer s) (batch s) (calls s) (metrics s).
Definition with_reader v (s : state) : state := MkState (done s) (queue s) (closed s) v (writer s) (batch s) (calls s) (metrics s).
Definition with_writer v (s : state) : state := MkState (done s) (queue s) (closed s) (reader s) v (batch s) (calls s) (metrics s).
Definition with_batch v (s : state) : state := MkState (done s) (queue s) (closed s) (reader s) (writer s) v (calls s) (metrics s).
Definition with_calls v (s : state) : state := MkState (done s) (queue s) (closed s) (reader s) (writer s) (batch s) v (metrics s).
Definition with_metrics v (s : state) : state := MkState (done s) (queue s) (closed s) (reader s) (writer s) (batch s) (calls s) v.

(** The next record of a datagram, or the next datagram. *)
Definition sendNext (records : list FlowRecord) : readerPc :=
  match records with [] => Reading | _ => Sending records end.

(** [close(rowsCh); <-writerDone] *)
Definition shutDown (s : state) : state := with_reader Waiting (with_closed true s).

(** The outcomes of the environment: the record writer answers a call with an error or
    not. *)
Inductive action :=
| Cancel
| Datagram (now : Z) (payload : list Z) (remote : option IP)
| ReadError
| Enqueue
| SeeDone
| Drop
| CountSent
| ReaderReturns
| Receive
| CountReceived (ok : bool)
| ReceiveClosed (ok : bool)
| WriterSeesDone (ok : bool)
| Tick (ok : bool).

(** What a step shows: a record to send, sent to the channel, or dropped. *)
Inductive event :=
| Offered (r : FlowRecord)
| Queued (r : FlowRecord)
| Dropped (r : FlowRecord)
| Abandoned (r : FlowRecord).

Section collector.
(** goflow2's decoder. *)
Context (DecodeMessageVersion : list Z → option Packet) (c : Collector).

Definition capacity : Z := if decide (QueueSize c ≤ 0) then 1 else QueueSize c.
Definition batchLimit : Z := if decide (BatchSize c ≤ 0) then 1 else BatchSize c.

Definition rows (l : list FlowRecord) : Z := Z.of_nat (length l).

(** The closure [flush]; [ok] is the answer of the record writer. *)
Definition flush (ok : bool) (s : state) : state :=
  if decide (rows (batch s) = 0) then s
  else
    let m := if ok then addWritten (rows (batch s)) (metrics s) else addWriteError (metrics s) in
    with_metrics m (with_calls (calls s ++ [(batch s, ok)]) (with_batch [] s)).

(** The body of the read loop for a datagram; the records are offered one by one. *)
Definition accept (now : Z) (payload : list Z) (remote : option IP) (s : state) : option (list event * state) :=
  let s := with_metrics (addAccepted (metrics s)) s in
  match DecodeDatagram DecodeMessageVersion now payload remote with
  | Ret None => Some ([], with_metrics (addDecodeError (metrics s)) s)
  | Ret (Some records) =>
    let offered := (fun r => EnrichRecord r (CollectorLookup c)) <$> records in
    Some (Offered <$> offered, with_reader (sendNext offered) (with_metrics (addDecoded (rows records) (metrics s)) s))
  | _ => None
  end.

(** One step of [ServeUDP]. *)
Definition readerStep (a : action) (s : state) : option (list event * state) :=
  match a, reader s with
  | Datagram now payload remote, Reading => accept now payload remote s
  | ReadError, Reading => Some ([], if done s then shutDown s else s)
  | Enqueue, Sending (record :: records) =>
    if decide (rows (queue s) < capacity) then
      Some ([Queued record], with_reader (Sent records) (with_queue (queue s ++ [record]) s))
    else None
  | SeeDone, Sending records => if done s then Some (Abandoned <$> records, shutDown s) else None
  | Drop, Sending (record :: records) =>
    if decide (done s = false ∧ capacity ≤ rows (queue s)) then
      Some ([Dropped record], with_reader (sendNext records) (with_metrics (addDropped 1 (metrics s)) s))
    else None
  | CountSent, Sent records => Some ([], with_reader (sendNext records) (with_metrics (addDepth 1 (metrics s)) s))
  | ReaderReturns, Waiting =>
    match writer s with WriterDone => Some ([], with_reader Returned s) | _ => None end
  | _, _ => None
  end.

(** One step of [writeLoop]. *)
Definition writerStep (a : action) (s : state) : option state :=
  match a, writer s with
  | WriterSeesDone ok, Selecting => if done s then Some (with_writer WriterDone (flush ok s)) else None
  | Receive, Selecting =>
    match queue s with
    | row :: rest => Some (with_writer (Received row) (with_queue rest s))
    | [] => None
    end
  | ReceiveClosed ok, Selecting =>
    if decide (queue s = [] ∧ closed s = true) then Some (with_writer WriterDone (flush ok s)) else None
  | CountReceived ok, Received row =>
    let s := with_writer Selecting (with_batch (batch s ++ [row]) (with_metrics (addDepth (-1) (metrics s)) s)) in
    Some (if decide (batchLimit ≤ rows (batch s)) then flush ok s else s)
  | Tick ok, Selecting => Some (flush ok s)
  | _, _ => None
  end.

Definition step (a : action) (s : state) : option (list event * state) :=
  match a with
  | Cancel => Some ([], with_done true s)
  | Datagram _ _ _ | ReadError | Enqueue | SeeDone | Drop | CountSent | ReaderReturns => readerStep a s
  | Receive | CountReceived _ | ReceiveClosed _ | WriterSeesDone _ | Tick _ => s' ← writerStep a s; Some ([], s')
  end.

(** A run of the two goroutines and what it shows. *)
Fixpoint run (acts : list action) (s : state) : option (list event * state) :=
  match acts with
  | [] => Some ([], s)
  | a :: acts => '(evs, s) ← step a s; '(evs', s) ← run acts s; Some (evs ++ evs', s)
  end.

Definition initial : state := MkState false [] false Reading Selecting [] [] zeroMetrics.

(** [ServeUDP] up to its loop: a nil writer is an error, and [time.NewTicker] panics
    when the interval is not positive. *)
Definition ServeUDP (hasWriter : bool) : go unit state :=
  if negb hasWriter then Err ()
  else if decide (FlushInterval c ≤ 0) then Panic
  else Ret initial.
End collector.

(** ** The OTLP writer (src/pkg/sflow/otel.go)

    What the provider of a writer is made of.  The SDK answers for the exporter, the probe and the
    flush; [None] is success. *)
Record OtelWriter := MkOtelWriter {
  ow_endpoint : string;
  ow_insecure : bool;
  ow_timeout : Z;
  ow_maxQueueSize : Z;
  ow_exportMaxBatchSize : Z;
  ow_exportInterval : Z
}.

Definition NewOtelWriter (exporterErr probeErr : option string) (cfg : SFlowOtelConfig) (writer : SFlowWriterConfig) : string + OtelWriter :=
  match ParseDuration (Otel_Timeout cfg), ParseDuration (Writer_FlushInterval writer) with
  | None, _ => inl "sflow.otel.timeout"
  | _, None => inl "sflow.writer.flushInterval"
  | Some timeout, Some flushInterval =>
    match exporterErr, probeErr with
    | Some err, _ => inl err
    | None, Some err => inl ("probe " +:+ Otel_Endpoint cfg +:+ ": " +:+ err)
    | None, None => inr (MkOtelWriter (Otel_Endpoint cfg) (Otel_Insecure cfg) timeout (Writer_QueueSize writer) (Writer_BatchSize writer) flushInterval)
    end
  end.

(** The records emitted for a batch, and the error of the flush; an empty batch is not flushed. *)
Definition otelWrite (flushErr : option string) (records : list FlowRecord) : list (list (string * attrValue)) * option string :=
  if decide (records = []) then ([], None) else (flowLogAttributes <$> records, flushErr).
