(* ===== verification/SFlowProperties.v ===== *)
(** * Properties of the sFlow decoder

    The claims about src/pkg/sflow/decoder.go: no datagram makes the parser read out
    of range, and well-formed IPv4 and IPv6 headers are read correctly. *)
From stdpp Require Import base list numbers strings.
From Stdlib Require Import ZArith.
From S2P Require Import Prelude GoNumbers GoBytes GoNet SFlow.
Local Open Scope Z_scope.

(** ** Reads in range *)
Lemma portsAt_ok ip proto offset : 0 ≤ offset → ∃ p, portsAt ip proto offset = Ret p.
Proof.
  intros Ho. unfold portsAt. destruct (hasPorts proto); [|eauto]. case_decide; [|eauto].
  destruct (uint16_ok ip offset) as [s ->]; [lia..|]. cbn.
  destruct (uint16_ok ip (offset + 2)) as [d ->]; [lia..|]. cbn. eauto.
Qed.

Lemma skipExtensions_ok rounds ip nh offset :
  0 ≤ offset → ∃ r, skipExtensions rounds ip nh offset = Ret r ∧
    match r with Some (_, offset') => offset ≤ offset' | None => True end.
Proof.
  revert nh offset. induction rounds as [|rounds IH]; intros nh offset Ho; cbn [skipExtensions].
  { eexists. split; [done|]. cbn. lia. }
  assert (∀ h, 0 ≤ h → 0 ≤ offset < len ip → ∃ r,
    (if decide (len ip < offset + h) then Ret None
     else next ← index ip offset; skipExtensions rounds ip next (offset + h)) = Ret r ∧
    match r with Some (_, offset') => offset ≤ offset' | None => True end) as Hskip.
  { intros h Hh Hl. case_decide; [by exists None|]. destruct (index_ok ip offset Hl) as (x & -> & _). cbn.
    destruct (IH x (offset + h)) as (r & -> & Hr); [lia|]. exists r. split; [done|]. destruct r as [[]|]; [lia|done]. }
  assert (∀ a b, 0 ≤ add8 a b) as Hadd by (intros; unfold add8; apply Z.mod_pos_bound; lia).
  destruct (decide (nh = 0 ∨ nh = 43 ∨ nh = 60)); [|destruct (decide (nh = 44)); [|destruct (decide (nh = 51))]].
  - case_decide; [by exists None|]. destruct (index_ok ip (offset + 1)) as (l & -> & _); [lia|]. cbn [mbind go_bind].
    apply Hskip; [specialize (Hadd l 1); lia|lia].
  - case_decide as Hl; [by exists None|]. specialize (Hskip 8). rewrite decide_False in Hskip by lia. apply Hskip; lia.
  - case_decide; [by exists None|]. destruct (index_ok ip (offset + 1)) as (l & -> & _); [lia|]. cbn [mbind go_bind].
    apply Hskip; [specialize (Hadd l 2); lia|lia].
  - eexists. split; [done|]. cbn. lia.
Qed.

Lemma parseIPv4_ok ip frameLength : ∃ r, parseIPv4 ip frameLength = Ret r.
Proof.
  unfold parseIPv4. case_decide; [eauto|]. destruct (index_ok ip 0) as (f & -> & _); [lia|]. cbn [mbind go_bind].
  case_decide; [eauto|]. case_decide as Hihl; [eauto|].
  destruct (index_ok ip 9) as (proto & -> & _); [lia|]. cbn [mbind go_bind].
  destruct (portsAt_ok ip proto (Z.land f 15 * 4)) as [[sp dp] ->]; [lia|]. cbn [mbind go_bind].
  assert (∃ n, (if decide (frameLength = 0 ∧ 4 ≤ len ip) then uint16_at ip 2 else Ret frameLength) = Ret n) as [n ->].
  { case_decide; [apply uint16_ok; lia|eauto]. }
  cbn [mbind go_bind]. rewrite !slice_ok by lia. cbn. eauto.
Qed.

Lemma parseIPv6_ok ip frameLength : ∃ r, parseIPv6 ip frameLength = Ret r.
Proof.
  unfold parseIPv6. case_decide; [eauto|]. destruct (index_ok ip 0) as (f & -> & _); [lia|]. cbn [mbind go_bind].
  case_decide; [eauto|]. destruct (index_ok ip 6) as (nh & -> & _); [lia|]. cbn [mbind go_bind].
  destruct (skipExtensions_ok 8 ip nh 40) as (r & -> & Hr); [lia|]. cbn [mbind go_bind].
  destruct r as [[nh' off]|]; [|eauto]. destruct (portsAt_ok ip nh' off) as [[sp dp] ->]; [lia|]. cbn [mbind go_bind].
  assert (∃ n, (if decide (frameLength = 0 ∧ 6 ≤ len ip) then payload ← uint16_at ip 4; Ret (40 + payload)
    else Ret frameLength : outcome Z) = Ret n) as [n ->].
  { case_decide; [|eauto]. destruct (uint16_ok ip 4) as [x ->]; [lia..|]. cbn. eauto. }
  cbn [mbind go_bind]. rewrite !slice_ok by lia. cbn. eauto.
Qed.

Lemma skipVlans_ok rounds header etype offset :
  0 ≤ offset ≤ len header → ∃ r, skipVlans rounds header etype offset = Ret r ∧
    match r with Some (_, offset') => 0 ≤ offset' ≤ len header | None => True end.
Proof.
  revert etype offset. induction rounds as [|rounds IH]; intros etype offset Ho; cbn [skipVlans]; [eexists; split; [done|cbn; lia]|].
  destruct (negb (isVlan etype)); [eexists; split; [done|cbn; lia]|]. case_decide; [by exists None|].
  destruct (uint16_ok header (offset + 2)) as [x ->]; [lia..|]. cbn. apply IH. lia.
Qed.

Lemma parseSampledHeader_ok header frameLength : ∃ r, parseSampledHeader header frameLength = Ret r.
Proof.
  unfold parseSampledHeader. case_decide; [eauto|]. destruct (uint16_ok header 12) as [etype ->]; [lia..|].
  cbn [mbind go_bind]. destruct (skipVlans_ok 2 header etype 14) as (r & -> & Hr); [lia|]. cbn [mbind go_bind].
  destruct r as [[et off]|]; [|eauto].
  case_decide; [rewrite slice_ok by lia; cbn [mbind go_bind]; apply parseIPv4_ok|].
  case_decide; [rewrite slice_ok by lia; cbn [mbind go_bind]; apply parseIPv6_ok|eauto].
Qed.

(** A loop whose body always returns. *)
Lemma go_foldl_total {E A B} (f : A → B → go E A) (l : list B) (a : A) :
  (∀ a x, ∃ a', f a x = Ret a') → ∃ a', go_foldl f a l = Ret a'.
Proof.
  intros Hf. revert a. induction l as [|x l IH]; intros a; [eauto|]. cbn. destruct (Hf a x) as [a' ->]. apply IH.
Qed.

(** ** Extension headers *)
Definition isExtension (nh : Z) : Prop := nh = 0 ∨ nh = 43 ∨ nh = 60 ∨ nh = 44 ∨ nh = 51.

(** The length RFC 8200 and RFC 4302 give an extension header. *)
Definition extLength (nh l : Z) : Z := if decide (nh = 44) then 8 else if decide (nh = 51) then (l + 2) * 4 else (l + 1) * 8.

(** A length byte whose header length does not fit the [uint8] sum of the code. *)
Definition wraps (nh l : Z) : Prop := nh ≠ 44 ∧ 256 ≤ l + (if decide (nh = 51) then 2 else 1).

(** A chain of [n] extension headers inside [ip], from header [nh] at [off] to the
    first header that is none. *)
Inductive ext_chain (ip : list Z) : nat → Z → Z → Z → Z → Prop :=
| chain_end nh off : ~ isExtension nh → ext_chain ip 0 nh off nh off
| chain_step n nh off l next nh' off' :
    isExtension nh → ip !! Z.to_nat off = Some next → ip !! Z.to_nat (off + 1) = Some l →
    0 ≤ l → ~ wraps nh l → off + extLength nh l ≤ len ip →
    ext_chain ip n next (off + extLength nh l) nh' off' → ext_chain ip (S n) nh off nh' off'.

Lemma skipExtensions_chain ip n nh off nh' off' rounds :
  ext_chain ip n nh off nh' off' → 0 ≤ off → (n ≤ rounds)%nat →
  skipExtensions rounds ip nh off = Ret (Some (nh', off')) ∧ 0 ≤ off'.
Proof.
  intros Hc. revert rounds. induction Hc as [nh off Hno|n nh off l next nh' off' Hext Hnext Hl Hl0 Hrange Hlen _ IH];
    intros rounds Hoff Hle.
  - split; [|done]. unfold isExtension in Hno. destruct rounds as [|rounds]; [done|]. cbn [skipExtensions].
    by rewrite !decide_False by naive_solver.
  - destruct rounds as [|rounds]; [lia|]. cbn [skipExtensions].
    assert (off + 1 < len ip) as Hlt by (unfold len; apply lookup_lt_Some in Hl; lia).
    assert (0 ≤ extLength nh l) as Hpos by (unfold extLength; repeat case_decide; lia).
    destruct (IH rounds) as [IHr IHo]; [lia|lia|].
    assert ((if decide (len ip < off + extLength nh l) then Ret None
      else next ← index ip off; skipExtensions rounds ip next (off + extLength nh l)) = Ret (Some (nh', off'))) as Hskip.
    { rewrite decide_False by lia. by rewrite (index_ret ip off next Hoff Hnext). }
    split; [|done]. unfold extLength, add8, wraps in *.
    destruct (decide (nh = 0 ∨ nh = 43 ∨ nh = 60)) as [H1|H1].
    { rewrite decide_False by lia. rewrite (index_ret ip (off + 1) l) by (lia || done). cbn [mbind go_bind].
      rewrite !(decide_False (P:=nh = 44)), !(decide_False (P:=nh = 51)) in Hskip by lia.
      rewrite (decide_False (P:=nh = 51)) in Hrange by lia. rewrite Z.mod_small by lia. done. }
    destruct (decide (nh = 44)) as [H2|H2].
    { rewrite decide_False in Hskip by lia. rewrite decide_False by lia. done. }
    assert (nh = 51) as H3 by (unfold isExtension in Hext; naive_solver).
    rewrite (decide_True (P:=nh = 51)) in Hskip by done. rewrite (decide_True (P:=nh = 51)) by done. rewrite decide_False by lia.
    rewrite (decide_True (P:=nh = 51)) in Hrange by done.
    rewrite (index_ret ip (off + 1) l) by (lia || done). cbn [mbind go_bind]. rewrite Z.mod_small by lia. done.
Qed.

(** ** Ports *)

(** A big-endian pair of bytes. *)
Definition be16 (hi lo : Z) : Z := hi * 256 + lo.

(** The ports of a payload: of the protocols that have them, the first two pairs of
    bytes. *)
Definition payloadPorts (proto : Z) (payload : list Z) : Z * Z :=
  match payload with
  | a :: b :: c :: d :: _ => if hasPorts proto then (be16 a b, be16 c d) else (0, 0)
  | _ => (0, 0)
  end.

Lemma drop_len a (b : list Z) : drop (Z.to_nat (len a)) (a ++ b) = b.
Proof. unfold len. rewrite Nat2Z.id. by rewrite drop_app_length. Qed.

Lemma uint16_app pre a b post lo : len pre = lo → uint16_at (pre ++ a :: b :: post) lo = Ret (be16 a b).
Proof. intros <-. unfold uint16_at. by rewrite (slice_app pre [a; b] post). Qed.

Lemma portsAt_app pre payload proto lo : len pre = lo → portsAt (pre ++ payload) proto lo = Ret (payloadPorts proto payload).
Proof.
  intros Hlo. unfold portsAt, payloadPorts. rewrite len_app, Hlo.
  destruct payload as [|a [|b [|c [|d l]]]]; destruct (hasPorts proto); try done;
    try (rewrite decide_False by (unfold len; cbn [length]; lia); done).
  rewrite decide_True by (unfold len; cbn [length]; lia). rewrite (uint16_app pre a b _ lo) by done. cbn [mbind go_bind].
  change (pre ++ a :: b :: c :: d :: l) with (pre ++ [a; b] ++ (c :: d :: l)). rewrite (assoc_L (++)).
  rewrite uint16_app by (rewrite len_app; unfold len in *; cbn [length]; lia). done.
Qed.

(** ** Reference encodings of sampled packets *)

(** An IPv4 packet: the fields the decoder does not read are kept as raw bytes.  The
    options fill whole 32-bit words. *)
Record ipv4_packet := MkIPv4 {
  v4_tos : Z;
  v4_total_hi : Z;
  v4_total_lo : Z;
  v4_id : Z * Z;
  v4_frag : Z * Z;
  v4_ttl : Z;
  v4_proto : Z;
  v4_sum : Z * Z;
  v4_src : list Z;
  v4_dst : list Z;
  v4_option_words : nat;
  v4_options : list Z;
  v4_payload : list Z
}.

Definition ipv4_wf (h : ipv4_packet) : Prop :=
  length (v4_src h) = 4%nat ∧ length (v4_dst h) = 4%nat ∧
  length (v4_options h) = (4 * v4_option_words h)%nat ∧ (v4_option_words h ≤ 10)%nat.

Definition encode_ipv4 (h : ipv4_packet) : list Z :=
  [64 + 5 + Z.of_nat (v4_option_words h); v4_tos h; v4_total_hi h; v4_total_lo h;
   (v4_id h).1; (v4_id h).2; (v4_frag h).1; (v4_frag h).2;
   v4_ttl h; v4_proto h; (v4_sum h).1; (v4_sum h).2] ++ v4_src h ++ v4_dst h ++ v4_options h ++ v4_payload h.

(** The flow an IPv4 packet describes. *)
Definition ipv4_flow (h : ipv4_packet) (frameLength : Z) : parsedFlow :=
  let ports := payloadPorts (v4_proto h) (v4_payload h) in
  MkParsed (if decide (frameLength = 0) then be16 (v4_total_hi h) (v4_total_lo h) else frameLength)
    (v4_src h) (v4_dst h) etherTypeIPv4 (v4_proto h) ports.1 ports.2.

(** An Ethernet frame with VLAN tags, each a tag protocol and two bytes of tag
    control information. *)
Record frame := MkFrame {
  fr_macs : list Z;
  fr_tags : list (Z * Z * Z * Z);
  fr_ethertype : Z * Z;
  fr_data : list Z
}.

Definition frame_wf (f : frame) : Prop :=
  length (fr_macs f) = 12%nat ∧ (length (fr_tags f) ≤ 2)%nat ∧
  Forall (fun '(a, b, _, _) => isVlan (be16 a b) = true) (fr_tags f) ∧
  isVlan (be16 (fr_ethertype f).1 (fr_ethertype f).2) = false.

Definition encode_tag (t : Z * Z * Z * Z) : list Z := let '(a, b, c, d) := t in [a; b; c; d].

Definition encode_frame (f : frame) : list Z :=
  fr_macs f ++ mjoin (encode_tag <$> fr_tags f) ++ [(fr_ethertype f).1; (fr_ethertype f).2] ++ fr_data f.

Lemma len_cons x l : len (x :: l) = 1 + len l.
Proof. unfold len. cbn [length]. lia. Qed.

Lemma first_byte n : (n ≤ 10)%nat → Z.shiftr (64 + 5 + Z.of_nat n) 4 = 4 ∧ Z.land (64 + 5 + Z.of_nat n) 15 = 5 + Z.of_nat n.
Proof. intros Hn. do 11 (destruct n as [|n]; [by vm_compute|]). lia. Qed.

(** Each read of the parser on an encoded packet. *)
Section ipv4_reads.
Context (h : ipv4_packet) (Hwf : ipv4_wf h).

Lemma len_encode_ipv4 : len (encode_ipv4 h) = 20 + 4 * Z.of_nat (v4_option_words h) + len (v4_payload h).
Proof.
  destruct Hwf as (Hs & Hd & Ho & _). unfold encode_ipv4. rewrite !len_app. unfold len. rewrite Hs, Hd, Ho.
  cbn [length]. lia.
Qed.

Lemma ports_encode_ipv4 : portsAt (encode_ipv4 h) (v4_proto h) ((5 + Z.of_nat (v4_option_words h)) * 4) =
  Ret (payloadPorts (v4_proto h) (v4_payload h)).
Proof.
  destruct Hwf as (Hs & Hd & Ho & _). unfold encode_ipv4. rewrite !(assoc_L (++)). apply portsAt_app.
  rewrite !len_app. unfold len. rewrite Hs, Hd, Ho. cbn [length]. lia.
Qed.

Lemma src_encode_ipv4 : slice (encode_ipv4 h) 12 16 = Ret (v4_src h).
Proof. destruct Hwf as (Hs & _). apply slice_app; unfold len; rewrite ?Hs; done. Qed.

Lemma dst_encode_ipv4 : slice (encode_ipv4 h) 16 20 = Ret (v4_dst h).
Proof.
  destruct Hwf as (Hs & Hd & _). unfold encode_ipv4. rewrite (assoc_L (++) _ (v4_src h)).
  apply slice_app; rewrite ?len_app; unfold len; rewrite ?Hs, ?Hd; done.
Qed.

Lemma parseIPv4_encode frameLength : parseIPv4 (encode_ipv4 h) frameLength = Ret (Some (ipv4_flow h frameLength)).
Proof.
  unfold parseIPv4. pose proof len_encode_ipv4 as Hl. pose proof (len_nonneg (v4_payload h)).
  destruct (first_byte (v4_option_words h)) as [Hver Hihl]; [apply Hwf|]. rewrite decide_False by lia.
  change (index (encode_ipv4 h) 0) with (Ret (64 + 5 + Z.of_nat (v4_option_words h)) : outcome Z). cbn [mbind go_bind].
  rewrite decide_False by lia. rewrite Hihl. rewrite decide_False by lia.
  change (index (encode_ipv4 h) 9) with (Ret (v4_proto h) : outcome Z). cbn [mbind go_bind].
  rewrite ports_encode_ipv4. cbn [mbind go_bind]. rewrite src_encode_ipv4, dst_encode_ipv4.
  unfold ipv4_flow. destruct (payloadPorts _ _) as [sp dp]. destruct (decide (frameLength = 0)) as [->|Hf].
  - rewrite decide_True by lia.
    by rewrite ((uint16_app [_; _] _ _ _ 2 eq_refl) : uint16_at (encode_ipv4 h) 2 = _).
  - rewrite decide_False by lia. done.
Qed.
End ipv4_reads.

(** The VLAN tags are skipped. *)
Lemma skipVlans_tags tags pre et data rounds :
  Forall (fun '(a, b, _, _) => isVlan (be16 a b) = true) tags → isVlan (be16 et.1 et.2) = false →
  (length tags ≤ rounds)%nat →
  let bytes := mjoin (encode_tag <$> tags) ++ [et.1; et.2] ++ data in
  ∃ first, uint16_at (pre ++ bytes) (len pre) = Ret first ∧
    skipVlans rounds (pre ++ bytes) first (len pre + 2) = Ret (Some (be16 et.1 et.2, len pre + 4 * Z.of_nat (length tags) + 2)).
Proof.
  intros Htags Het. revert pre rounds. induction Htags as [|[[[a b] c] d] tags Hab _ IH]; intros pre rounds Hle; cbn zeta.
  - exists (be16 et.1 et.2). split; [by apply uint16_app|]. destruct rounds as [|rounds]; cbn [skipVlans];
      [|rewrite Het; cbn [negb]]; do 3 f_equal; cbn [length]; lia.
  - exists (be16 a b). split; [by apply (uint16_app pre a b)|]. destruct rounds as [|rounds]; [cbn in Hle; lia|].
    cbn [skipVlans]. rewrite Hab. cbn [negb].
    destruct (IH (pre ++ [a; b; c; d]) rounds) as (first & Hfirst & Hskip); [cbn in Hle; lia|]. cbn zeta in Hfirst, Hskip.
    change (mjoin (encode_tag <$> _ :: tags)) with ([a; b; c; d] ++ mjoin (encode_tag <$> tags)).
    rewrite <- (assoc_L (++)) in Hfirst, Hskip.
    rewrite len_app in Hfirst, Hskip. change (len [a; b; c; d]) with 4 in Hfirst, Hskip.
    rewrite <- !(assoc_L (++)). rewrite decide_False.
    2: { rewrite !len_app. change (len [a; b; c; d]) with 4. change (len [et.1; et.2]) with 2.
         pose proof (len_nonneg data). pose proof (len_nonneg (mjoin (encode_tag <$> tags))). lia. }
    replace (len pre + 2 + 2) with (len pre + 4) by lia. rewrite Hfirst. cbn [mbind go_bind].
    replace (len pre + 2 + 4) with (len pre + 4 + 2) by lia. rewrite Hskip. do 3 f_equal. cbn [length]. lia.
Qed.

Lemma parseSampledHeader_frame f frameLength : frame_wf f →
  parseSampledHeader (encode_frame f) frameLength =
    (let etype := be16 (fr_ethertype f).1 (fr_ethertype f).2 in
     if decide (etype = etherTypeIPv4) then parseIPv4 (fr_data f) frameLength
     else if decide (etype = etherTypeIPv6) then parseIPv6 (fr_data f) frameLength
     else Ret None).
Proof.
  intros (Hm & Hn & Htags & Het). cbn zeta. unfold parseSampledHeader, encode_frame.
  set (bytes := mjoin (encode_tag <$> fr_tags f) ++ [(fr_ethertype f).1; (fr_ethertype f).2] ++ fr_data f).
  assert (len (fr_macs f) = 12) as Hm' by (unfold len; rewrite Hm; done).
  assert (len (mjoin (encode_tag <$> fr_tags f)) = 4 * Z.of_nat (length (fr_tags f))) as Hlt.
  { clear. induction (fr_tags f) as [|[[[a b] c] d] tags IH]; [done|].
    change (mjoin (encode_tag <$> _ :: tags)) with ([a; b; c; d] ++ mjoin (encode_tag <$> tags)).
    rewrite len_app, IH. change (len [a; b; c; d]) with 4. cbn [length]. lia. }
  rewrite decide_False.
  2: { unfold bytes. rewrite !len_app, Hm', Hlt. change (len [_; _]) with 2. pose proof (len_nonneg (fr_data f)). lia. }
  destruct (skipVlans_tags (fr_tags f) (fr_macs f) (fr_ethertype f) (fr_data f) 2 Htags Het Hn) as (first & Hfirst & Hskip).
  cbn zeta in Hfirst, Hskip. rewrite Hm' in Hfirst, Hskip. unfold bytes. rewrite Hfirst. cbn [mbind go_bind].
  change (12 + 2) with 14 in Hskip. rewrite Hskip. cbn [mbind go_bind].
  rewrite !(assoc_L (++)). rewrite slice_tail; [done|rewrite !len_app, Hm', Hlt; change (len [_; _]) with 2; lia|].
  rewrite (len_app _ (fr_data f)), !len_app, Hm', Hlt. change (len [_; _]) with 2. lia.
Qed.

Lemma ext_chain_end ip n nh off nh' off' : ext_chain ip n nh off nh' off' → 0 ≤ off ≤ len ip → 0 ≤ off' ≤ len ip.
Proof.
  induction 1 as [|n nh off l next nh' off' _ _ _ Hl0 _ Hlen _ IH]; [done|]. intros Hoff. apply IH.
  unfold extLength in *. repeat case_decide; lia.
Qed.

Lemma portsAt_drop ip proto off : 0 ≤ off ≤ len ip → portsAt ip proto off = Ret (payloadPorts proto (drop (Z.to_nat off) ip)).
Proof.
  intros Hoff. rewrite <- (take_drop (Z.to_nat off) ip) at 1. apply portsAt_app. unfold len in *. rewrite length_take. lia.
Qed.

(** ** Datagrams *)
Lemma addRecord_ok st record : ∃ st', addRecord st record = Ret st'.
Proof.
  destruct st as [[parsed srcAS] dstAS], record as [base|base|header fl| |]; cbn [addRecord]; [eauto..| |eauto|eauto].
  destruct (parseSampledHeader_ok header fl) as [[pf|] ->]; cbn; eauto.
Qed.

Lemma recordsFromFlowRecords_ok now seq rate sampler flowRecords :
  ∃ rows, recordsFromFlowRecords now seq rate sampler flowRecords = Ret rows.
Proof.
  unfold recordsFromFlowRecords. destruct (go_foldl_total addRecord flowRecords ([], 0, 0) addRecord_ok) as [[[parsed s] d] ->].
  cbn [mbind go_bind]. eauto.
Qed.

Lemma decode_total DecodeMessageVersion now payload remote :
  ∃ r, DecodeDatagram DecodeMessageVersion now payload remote = Ret r.
Proof.
  unfold DecodeDatagram. destruct (DecodeMessageVersion payload) as [packet|]; [|by exists None]. cbn zeta.
  set (sampler := if decide (AgentIP packet = []) then _ else _).
  destruct (go_foldl_total (addSample now packet sampler) (Samples packet) []) as [rows ->].
  - intros rows [rate rs|rate rs|]; cbn [addSample]; [| |eauto];
      destruct (recordsFromFlowRecords_ok now (P_SequenceNumber packet) rate sampler rs) as [x ->]; cbn; eauto.
  - cbn. eauto.
Qed.

(** C20. Decoding never panics: whatever the sFlow library hands over (truncated headers,
    absurd lengths, unknown protocols), every index and slice of the parser is in range, so
    [DecodeDatagram] returns, with an error exactly when the library could not decode the
    datagram. *)
Theorem decode_never_panics DecodeMessageVersion now payload remote :
  ∃ r, DecodeDatagram DecodeMessageVersion now payload remote = Ret r ∧
    (r = None ↔ DecodeMessageVersion payload = None).
Proof.
  destruct (decode_total DecodeMessageVersion now payload remote) as [r Hr]. exists r. split; [done|].
  unfold DecodeDatagram in Hr. destruct (DecodeMessageVersion payload) as [packet|]; [|by simplify_eq].
  cbn zeta in Hr. destruct (go_foldl _ _ _); by simplify_eq/=.
Qed.

(** C21. Round trip of sampled IPv4 frames: an Ethernet frame with at most two VLAN tags around
    an IPv4 packet with any number of option words is read back as the flow it was built from:
    its addresses, its protocol, the ports of its TCP, UDP or SCTP payload, and the sampled frame
    length, or the total length field when no frame length was sampled. *)
Theorem sampled_ipv4_roundtrip f h frameLength :
  frame_wf f → ipv4_wf h → be16 (fr_ethertype f).1 (fr_ethertype f).2 = etherTypeIPv4 → fr_data f = encode_ipv4 h →
  parseSampledHeader (encode_frame f) frameLength = Ret (Some (ipv4_flow h frameLength)).
Proof.
  intros Hf Hh Het Hdata. rewrite parseSampledHeader_frame by done. cbn zeta. rewrite Het, Hdata.
  by apply parseIPv4_encode.
Qed.

(** A tagged UDP packet with one option word. *)
Definition sample_ipv4 : ipv4_packet :=
  MkIPv4 0 0 36 (0, 1) (0, 0) 64 17 (0, 0) [10; 0; 0; 1] [10; 0; 0; 2] 1 [1; 1; 1; 0] [18; 52; 0; 53; 0; 8; 0; 0].
Definition sample_frame : frame :=
  MkFrame [2; 0; 0; 0; 0; 1; 2; 0; 0; 0; 0; 2] [(129, 0, 0, 100)] (8, 0) (encode_ipv4 sample_ipv4).

Lemma sampled_ipv4_roundtrip_witness :
  parseSampledHeader (encode_frame sample_frame) 0 =
    Ret (Some (MkParsed 36 [10; 0; 0; 1] [10; 0; 0; 2] etherTypeIPv4 17 4660 53)).
Proof.
  apply (sampled_ipv4_roundtrip sample_frame sample_ipv4 0); [|by repeat split; cbn; lia|done..].
  split; [done|]. split; [cbn; lia|]. split; [by repeat constructor|done].
Defined.

(** C22. The IPv6 walk refines the RFC chain of extension headers: when the packet holds a chain
    of at most eight extension headers from the first one to an upper-layer protocol, the parser
    returns that protocol, the ports found right behind the chain, and the addresses of the fixed
    header.  The chain excludes the length bytes for which the [uint8] sum of the code wraps. *)
Theorem ipv6_chain_refined ip frameLength first nh n nh' off' :
  40 ≤ len ip → ip !! 0%nat = Some first → Z.shiftr first 4 = 6 → ip !! 6%nat = Some nh →
  ext_chain ip n nh 40 nh' off' → (n ≤ 8)%nat →
  ∃ bytes, parseIPv6 ip frameLength = Ret (Some (MkParsed bytes (take 16 (drop 8 ip)) (take 16 (drop 24 ip)) etherTypeIPv6 nh'
      (payloadPorts nh' (drop (Z.to_nat off') ip)).1 (payloadPorts nh' (drop (Z.to_nat off') ip)).2)) ∧
    (frameLength ≠ 0 → bytes = frameLength).
Proof.
  intros Hlen Hfirst Hver Hnh Hchain Hn. unfold parseIPv6. rewrite decide_False by lia.
  rewrite (index_ret ip 0 first) by done. cbn [mbind go_bind]. rewrite decide_False by lia.
  rewrite (index_ret ip 6 nh) by done. cbn [mbind go_bind].
  destruct (skipExtensions_chain ip n nh 40 nh' off' 8 Hchain) as [-> _]; [lia|done|]. cbn [mbind go_bind].
  rewrite (portsAt_drop ip nh' off') by (eapply ext_chain_end; [done|lia]). cbn [mbind go_bind].
  destruct (payloadPorts _ _) as [sp dp]. rewrite !slice_ok by lia.
  destruct (uint16_ok ip 4) as [payload Hp]; [lia..|]. case_decide as Hf.
  - rewrite Hp. cbn [mbind go_bind]. eexists. split; [done|]. lia.
  - cbn [mbind go_bind]. eexists. split; [done|done].
Qed.

(** A hop-by-hop header in front of a TCP header. *)
Definition sample_ipv6 : list Z :=
  [96; 0; 0; 0; 0; 12; 0; 64] ++ replicate 15 0 ++ [1] ++ replicate 15 0 ++ [2] ++ [6; 0; 0; 0; 0; 0; 0; 0] ++ [1; 187; 0; 80].

Lemma ipv6_chain_refined_witness :
  ∃ bytes, parseIPv6 sample_ipv6 0 = Ret (Some (MkParsed bytes (replicate 15 0 ++ [1]) (replicate 15 0 ++ [2]) etherTypeIPv6 6 443 80)) ∧
    (0 ≠ 0 → bytes = 0).
Proof.
  apply (ipv6_chain_refined sample_ipv6 0 96 0 1 6 48); [done..| |lia].
  eapply (chain_step _ _ _ _ 0 6); [by left|done|done|lia|by intros [_ []]|done|]. apply chain_end.
  unfold isExtension. lia.
Defined.

(** A hop-by-hop, routing or destination header whose length byte is 255 takes no bytes at all in
    the walk, where it is 2048 bytes long: the sum [ip[offset+1]+1] is one of [uint8]. *)
Theorem extension_length_wraps rounds ip nh next off :
  nh = 0 ∨ nh = 43 ∨ nh = 60 → 0 ≤ off → ip !! Z.to_nat off = Some next → ip !! Z.to_nat (off + 1) = Some 255 →
  skipExtensions (S rounds) ip nh off = skipExtensions rounds ip next off ∧ extLength nh 255 = 2048.
Proof.
  intros Hnh Hoff Hnext Hl. assert (off + 1 < len ip) by (apply lookup_lt_Some in Hl; unfold len; lia). split.
  - cbn [skipExtensions]. rewrite decide_True by done. rewrite decide_False by lia.
    rewrite (index_ret ip (off + 1) 255) by (lia || done). cbn [mbind go_bind].
    change (add8 255 1 * 8) with 0. rewrite Z.add_0_r. rewrite decide_False by lia. by rewrite (index_ret ip off next).
  - unfold extLength. by rewrite !decide_False by lia.
Qed.
