(* ===== verification/SFlowCollectorFacts.v ===== *)
(** * Lemmas on the sFlow collector

    The invariants of the two goroutines, each preserved by every step: records leave
    the channel in the order they entered it, every record offered is accounted for,
    the counters agree with what happened, and the channel and the batch stay within
    their limits. *)
From stdpp Require Import base list numbers strings.
From Stdlib Require Import ZArith.
From S2P Require Import Prelude GoNumbers GoBytes GoNet SFlow SFlowAttribution SFlowProperties Config SFlowCollector.
Local Open Scope Z_scope.

(** ** What a run shows *)
Definition offeredOf (evs : list event) : list FlowRecord := omap (fun e => match e with Offered r => Some r | _ => None end) evs.
Definition queuedOf (evs : list event) : list FlowRecord := omap (fun e => match e with Queued r => Some r | _ => None end) evs.
Definition droppedOf (evs : list event) : list FlowRecord := omap (fun e => match e with Dropped r => Some r | _ => None end) evs.
Definition abandonedOf (evs : list event) : list FlowRecord := omap (fun e => match e with Abandoned r => Some r | _ => None end) evs.

(** A record between the channel and the batch. *)
Definition taken (s : state) : list FlowRecord := match writer s with Received row => [row] | _ => [] end.

(** The records of the current datagram that are still to be sent. *)
Definition pending (s : state) : list FlowRecord := match reader s with Sending l | Sent l => l | _ => [] end.

(** The records handed to the record writer, in order. *)
Definition handed (s : state) : list FlowRecord := mjoin (calls s).*1.

Definition written (s : state) : Z := foldr Z.add 0 ((fun call : list FlowRecord * bool => if call.2 then rows call.1 else 0) <$> calls s).
Definition failed (s : state) : Z := foldr Z.add 0 ((fun call : list FlowRecord * bool => if call.2 then 0 else 1) <$> calls s).

(** ** Invariants *)
Definition line (s : state) : list FlowRecord := handed s ++ batch s ++ taken s ++ queue s.

Definition fifo (evs : list event) (s : state) : Prop := queuedOf evs = line s.

Definition accounted (evs : list event) (s : state) : Prop :=
  offeredOf evs ≡ₚ queuedOf evs ++ droppedOf evs ++ pending s ++ abandonedOf evs ∧ (closed s = false → abandonedOf evs = []).

Definition counted (evs : list event) (s : state) : Prop :=
  RecordsDecoded (metrics s) = rows (offeredOf evs) mod 2 ^ 64 ∧
  RecordsDropped (metrics s) = rows (droppedOf evs) mod 2 ^ 64 ∧
  RecordsWritten (metrics s) = written s mod 2 ^ 64 ∧
  WriteErrors (metrics s) = failed s mod 2 ^ 64 ∧
  QueueDepth (metrics s) = to_int64 (rows (queue s) + rows (taken s) - match reader s with Sent _ => 1 | _ => 0 end).

Definition bounded (c : Collector) (s : state) : Prop :=
  rows (queue s) ≤ capacity c ∧
  rows (batch s) < batchLimit c ∧
  Forall (fun call : list FlowRecord * bool => 0 < rows call.1 ≤ batchLimit c) (calls s).

Definition ordered (s : state) : Prop :=
  (closed s = true ↔ reader s = Waiting ∨ reader s = Returned) ∧ (closed s = true → done s = true) ∧
  (reader s = Returned → writer s = WriterDone) ∧
  match reader s with Sending [] => False | _ => True end.

(** ** Lists *)
Lemma rows_app l l' : rows (l ++ l') = rows l + rows l'.
Proof. unfold rows. rewrite length_app. lia. Qed.

Lemma sum_snoc {A} (f : A → Z) l x : foldr Z.add 0 (f <$> (l ++ [x])) = foldr Z.add 0 (f <$> l) + f x.
Proof. induction l as [|y l IH]; cbn [app fmap list_fmap foldr] in *; [lia|]. rewrite IH. lia. Qed.

Lemma offered_app evs evs' : offeredOf (evs ++ evs') = offeredOf evs ++ offeredOf evs'.
Proof. apply omap_app. Qed.
Lemma queued_app evs evs' : queuedOf (evs ++ evs') = queuedOf evs ++ queuedOf evs'.
Proof. apply omap_app. Qed.
Lemma dropped_app evs evs' : droppedOf (evs ++ evs') = droppedOf evs ++ droppedOf evs'.
Proof. apply omap_app. Qed.
Lemma abandoned_app evs evs' : abandonedOf (evs ++ evs') = abandonedOf evs ++ abandonedOf evs'.
Proof. apply omap_app. Qed.

Lemma omap_fmap_all {A B C} (f : A → B) (h : B → option C) (l : list A) : (∀ a, h (f a) = None) → omap h (f <$> l) = [].
Proof. intros Hn. induction l as [|a l IH]; [done|]. cbn. by rewrite Hn. Qed.

Lemma omap_fmap_id {A B} (f : A → B) (h : B → option A) (l : list A) : (∀ a, h (f a) = Some a) → omap h (f <$> l) = l.
Proof. intros Hn. induction l as [|a l IH]; [done|]. cbn. rewrite Hn. f_equal. exact IH. Qed.

Lemma offered_Offered l : offeredOf (Offered <$> l) = l ∧ queuedOf (Offered <$> l) = [] ∧ droppedOf (Offered <$> l) = [] ∧ abandonedOf (Offered <$> l) = [].
Proof. split_and!; [by apply omap_fmap_id|by apply omap_fmap_all..]. Qed.

Lemma abandoned_Abandoned l :
  offeredOf (Abandoned <$> l) = [] ∧ queuedOf (Abandoned <$> l) = [] ∧ droppedOf (Abandoned <$> l) = [] ∧ abandonedOf (Abandoned <$> l) = l.
Proof. split_and!; [by apply omap_fmap_all..|by apply omap_fmap_id]. Qed.

Lemma pending_next l s : pending (with_reader (sendNext l) s) = l.
Proof. by destruct l. Qed.

(** ** Counters *)
Lemma add64_mod a x b : a = x mod 2 ^ 64 → add64 a b = (x + b) mod 2 ^ 64.
Proof. intros ->. unfold add64. by rewrite Zplus_mod_idemp_l. Qed.

Lemma to_int64_add x y : to_int64 (to_int64 x + y) = to_int64 (x + y).
Proof.
  unfold to_int64. f_equal. replace ((x + 2 ^ 63) mod 2 ^ 64 - 2 ^ 63 + y + 2 ^ 63) with ((x + 2 ^ 63) mod 2 ^ 64 + y) by lia.
  rewrite Zplus_mod_idemp_l. f_equal. lia.
Qed.

(** ** [flush] *)
Lemma flush_frame ok s :
  queue (flush ok s) = queue s ∧ reader (flush ok s) = reader s ∧ writer (flush ok s) = writer s ∧ done (flush ok s) = done s ∧
  closed (flush ok s) = closed s ∧ taken (flush ok s) = taken s ∧ pending (flush ok s) = pending s.
Proof. unfold flush. case_decide; split_and!; reflexivity. Qed.

Lemma flush_queue ok s : queue (flush ok s) = queue s.
Proof. apply flush_frame. Qed.
Lemma flush_reader ok s : reader (flush ok s) = reader s.
Proof. apply flush_frame. Qed.
Lemma flush_writer ok s : writer (flush ok s) = writer s.
Proof. apply flush_frame. Qed.
Lemma flush_done ok s : done (flush ok s) = done s.
Proof. apply flush_frame. Qed.
Lemma flush_closed ok s : closed (flush ok s) = closed s.
Proof. apply flush_frame. Qed.
Create HintDb flush.
#[export] Hint Rewrite flush_queue flush_reader flush_writer flush_done flush_closed : flush.

Lemma flush_handed ok s : handed (flush ok s) ++ batch (flush ok s) = handed s ++ batch s.
Proof.
  unfold flush. case_decide; [done|]. unfold handed. cbn [calls with_metrics with_calls batch with_batch].
  rewrite fmap_app, join_app. cbn. by rewrite !app_nil_r.
Qed.

Lemma flush_line ok s : line (flush ok s) = line s.
Proof.
  unfold line. rewrite (assoc_L (++) (handed (flush ok s))), flush_handed.
  destruct (flush_frame ok s) as (-> & _ & _ & _ & _ & -> & _). by rewrite <- (assoc_L (++)).
Qed.

(** The writer returns from its [select]. *)
Lemma line_writer_done s : writer s = Selecting → line (with_writer WriterDone s) = line s.
Proof. intros Hw. unfold line, taken. by rewrite Hw. Qed.

Lemma flush_counted evs ok s : counted evs s → counted evs (flush ok s).
Proof.
  intros (H1 & H2 & H3 & H4 & H5). unfold flush. case_decide as Hb; [done|].
  assert (0 < rows (batch s)) as Hpos by (unfold rows in *; lia). unfold counted, written, failed.
  destruct ok; cbn [metrics with_metrics with_calls with_batch calls queue reader].
  - unfold addWritten. rewrite decide_True by done. cbn [RecordsDecoded RecordsDropped RecordsWritten WriteErrors QueueDepth].
    rewrite !sum_snoc. cbn [snd fst]. split_and!; [done|done| | |done].
    + by apply add64_mod.
    + rewrite Z.add_0_r. done.
  - cbn [addWriteError RecordsDecoded RecordsDropped RecordsWritten WriteErrors QueueDepth].
    rewrite !sum_snoc. cbn [snd fst]. split_and!; [done|done| | |done].
    + rewrite Z.add_0_r. done.
    + by apply add64_mod.
Qed.

Lemma flush_empties ok s : batch (flush ok s) = [].
Proof. unfold flush. case_decide as H; [|done]. unfold rows in H. destruct (batch s); [done|cbn in H; lia]. Qed.

Lemma flush_calls (Q : list FlowRecord * bool → Prop) ok s :
  Forall Q (calls s) → (rows (batch s) ≠ 0 → Q (batch s, ok)) → Forall Q (calls (flush ok s)).
Proof.
  intros H1 H2. unfold flush. case_decide; [done|]. cbn [calls with_metrics with_calls].
  apply Forall_app. split; [done|]. constructor; auto.
Qed.

(** ** Steps *)

(** The branches of a step that was taken. *)
Ltac step_inv H :=
  repeat (match type of H with
  | context [match reader ?s with _ => _ end] => let E := fresh "Hr" in destruct (reader s) as [|l|l| |] eqn:E
  | context [match writer ?s with _ => _ end] => let E := fresh "Hw" in destruct (writer s) as [|row|] eqn:E
  | context [match ?l with [] => _ | _ :: _ => _ end] => is_var l; destruct l as [|record records]
  | context [match queue ?s with _ => _ end] => let E := fresh "Hq" in destruct (queue s) as [|row rest] eqn:E
  | context [if done ?s then _ else _] => let E := fresh "Hd" in destruct (done s) eqn:E
  | context [decide ?P] => let E := fresh "Hif" in destruct (decide P) as [E|E]
  end; cbn [mbind option_bind] in H; try discriminate H).

Section steps.
Context (DecodeMessageVersion : list Z → option Packet) (c : Collector).
Local Abbreviation step := (step DecodeMessageVersion c).
Local Abbreviation accept := (accept DecodeMessageVersion c).

(** Every datagram is either counted as an error or offered. *)
Lemma accept_inv now payload remote s evs s' :
  accept now payload remote s = Some (evs, s') →
  (evs = [] ∧ s' = with_metrics (addDecodeError (addAccepted (metrics s))) s) ∨
  (∃ l, evs = Offered <$> l ∧ s' = with_reader (sendNext l) (with_metrics (addDecoded (rows l) (addAccepted (metrics s))) s)).
Proof.
  unfold accept. destruct (DecodeDatagram _ _ _ _) as [[records|]| | |]; intros H; simplify_eq.
  - right. eexists. split; [done|]. unfold rows. by rewrite length_fmap.
  - by left.
Qed.

Lemma accept_total now payload remote s : is_Some (accept now payload remote s).
Proof.
  unfold accept. destruct (decode_total DecodeMessageVersion now payload remote) as [[records|] ->]; eauto.
Qed.

Lemma step_fifo a evs s evs' s' : step a s = Some (evs', s') → fifo evs s → fifo (evs ++ evs') s'.
Proof.
  intros H Hf. unfold fifo in *. rewrite queued_app, Hf. clear Hf.
  destruct a; cbn [SFlowCollector.step readerStep writerStep] in H; step_inv H; simplify_eq; try (rewrite app_nil_r; reflexivity).
  - apply accept_inv in H as [[-> ->]|(l & -> & ->)]; rewrite ?(proj1 (proj2 (offered_Offered l))); apply app_nil_r.
  - unfold queuedOf, line. cbn. by rewrite <- !(assoc_L (++)).
  - rewrite (proj1 (proj2 (abandoned_Abandoned l))). apply app_nil_r.
  - rewrite app_nil_r. unfold line, taken. cbn. by rewrite Hw, Hq.
  - rewrite app_nil_r, flush_line. unfold line, taken. cbn. rewrite Hw. by rewrite <- !(assoc_L (++)).
  - rewrite app_nil_r. unfold line, taken. cbn. rewrite Hw. by rewrite <- !(assoc_L (++)).
  - rewrite app_nil_r, line_writer_done, flush_line; [done|]. by rewrite (proj1 (proj2 (proj2 (flush_frame ok s)))).
  - rewrite app_nil_r, line_writer_done, flush_line; [done|]. by rewrite (proj1 (proj2 (proj2 (flush_frame ok s)))).
  - by rewrite app_nil_r, flush_line.
Qed.

Lemma accounted_keep evs s s' :
  accounted evs s → pending s' = pending s → (closed s' = false → closed s = false) → accounted (evs ++ []) s'.
Proof. intros [Hp Hab] Hpend Hc. unfold accounted. rewrite app_nil_r, Hpend. split; [done|]. auto. Qed.

Lemma accounted_lose evs s s' :
  accounted evs s → pending s' = [] → closed s' = true → accounted (evs ++ (Abandoned <$> pending s)) s'.
Proof.
  intros [Hp _] Hpend Hc. unfold accounted. rewrite queued_app, offered_app, dropped_app, abandoned_app, Hpend, Hc.
  destruct (abandoned_Abandoned (pending s)) as (-> & -> & -> & ->). rewrite !app_nil_r. split; [|done]. rewrite Hp. cbn [app].
  do 2 f_equiv. apply (comm (++)).
Qed.

Lemma step_accounted a evs s evs' s' : step a s = Some (evs', s') → accounted evs s → accounted (evs ++ evs') s'.
Proof.
  intros H Hacc. pose proof Hacc as [Hp Hab].
  destruct a; cbn [SFlowCollector.step readerStep writerStep] in H; step_inv H; simplify_eq;
    try (apply (accounted_keep _ _ _ Hacc); [|by cbn]; cbn; unfold pending; by rewrite ?Hr).
  - apply accept_inv in H as [[-> ->]|(l & -> & ->)]; [by apply (accounted_keep _ _ _ Hacc)|].
    unfold accounted. rewrite queued_app, offered_app, dropped_app, abandoned_app, pending_next.
    destruct (offered_Offered l) as (-> & -> & -> & ->). rewrite !app_nil_r. split; [|done].
    unfold pending in Hp. rewrite Hr in Hp. rewrite Hp. cbn [app].
    rewrite <- !(assoc_L (++)). do 2 f_equiv. apply (comm (++)).
  - unfold accounted. rewrite queued_app, offered_app, dropped_app, abandoned_app. split; [|by rewrite app_nil_r].
    unfold pending, offeredOf, queuedOf, droppedOf, abandonedOf in *. rewrite Hr in Hp. cbn. rewrite !app_nil_r, Hp.
    rewrite <- !(assoc_L (++)). f_equiv. cbn. symmetry. apply Permutation_middle.
  - assert (l = pending s) as -> by (unfold pending; by rewrite Hr). by apply (accounted_lose _ _ _ Hacc).
  - unfold accounted. rewrite queued_app, offered_app, dropped_app, abandoned_app, pending_next. split; [|by rewrite app_nil_r].
    unfold pending, offeredOf, queuedOf, droppedOf, abandonedOf in *. rewrite Hr in Hp. cbn. rewrite !app_nil_r, Hp.
    by rewrite <- !(assoc_L (++)).
  - apply (accounted_keep _ _ _ Hacc); [|done]. rewrite pending_next. unfold pending. by rewrite Hr.
  - apply (accounted_keep _ _ _ Hacc); destruct (flush_frame ok (with_writer Selecting (with_batch (batch s ++ [row])
      (with_metrics (addDepth (-1) (metrics s)) s)))) as (_ & _ & _ & _ & Hd & _ & Hpe); by rewrite ?Hd, ?Hpe.
  - apply (accounted_keep _ _ _ Hacc); destruct (flush_frame ok s) as (_ & _ & _ & _ & Hd' & _ & Hpe); [exact Hpe|]. cbn. by rewrite Hd'.
  - apply (accounted_keep _ _ _ Hacc); destruct (flush_frame ok s) as (_ & _ & _ & _ & Hd' & _ & Hpe); [exact Hpe|]. cbn. by rewrite Hd'.
  - apply (accounted_keep _ _ _ Hacc); destruct (flush_frame ok s) as (_ & _ & _ & _ & Hd' & _ & Hpe); [exact Hpe|]. cbn. by rewrite Hd'.
Qed.

(** The counters are right for what the next state shows: the depth moves by as much as
    the channel and the counts in flight. *)
Lemma counted_next evs evs' s s' m dec drop d :
  counted evs s → metrics s' = m → calls s' = calls s →
  rows (offeredOf evs') = dec → rows (droppedOf evs') = drop →
  RecordsDecoded m = add64 (RecordsDecoded (metrics s)) dec → RecordsDropped m = add64 (RecordsDropped (metrics s)) drop →
  RecordsWritten m = RecordsWritten (metrics s) → WriteErrors m = WriteErrors (metrics s) →
  QueueDepth m = to_int64 (QueueDepth (metrics s) + d) →
  rows (queue s') + rows (taken s') - (match reader s' with Sent _ => 1 | _ => 0 end) =
    rows (queue s) + rows (taken s) - (match reader s with Sent _ => 1 | _ => 0 end) + d →
  counted (evs ++ evs') s'.
Proof.
  intros (H1 & H2 & H3 & H4 & H5) Hm Hcalls <- <- Hdec Hdrop Hwr Hwe Hqd Hd. unfold counted, written, failed in *.
  rewrite offered_app, dropped_app, !rows_app, Hm, Hcalls, Hdec, Hdrop, Hwr, Hwe, Hqd, Hd, H5, to_int64_add.
  split_and!; [by apply add64_mod..|done|done|done].
Qed.

Lemma add64_0 a x : a = x mod 2 ^ 64 → a = add64 a 0.
Proof. intros ->. unfold add64. by rewrite Z.add_0_r, Z.mod_mod. Qed.

Lemma counted_same evs s s' :
  counted evs s → metrics s' = metrics s → calls s' = calls s → 
  rows (queue s') + rows (taken s') - (match reader s' with Sent _ => 1 | _ => 0 end) =
    rows (queue s) + rows (taken s) - (match reader s with Sent _ => 1 | _ => 0 end) → counted (evs ++ []) s'.
Proof.
  intros (H1 & H2 & H3 & H4 & H5) Hm Hcalls Hd. rewrite app_nil_r. unfold counted, written, failed in *.
  by rewrite Hm, Hcalls, Hd.
Qed.

Lemma depth_same a x : a = to_int64 x → a = to_int64 (a + 0).
Proof. intros ->. rewrite to_int64_add. f_equal. lia. Qed.

(** The writer takes a record into its batch. *)
Lemma counted_received evs s row :
  writer s = Received row → counted evs s →
  counted evs (with_writer Selecting (with_batch (batch s ++ [row]) (with_metrics (addDepth (-1) (metrics s)) s))).
Proof.
  intros Hw (H1 & H2 & H3 & H4 & H5). split_and!; [done..|]. cbn. rewrite H5, to_int64_add. f_equal.
  unfold taken. cbn. rewrite Hw. unfold rows. cbn. lia.
Qed.

(** The writer returns. *)
Lemma counted_done evs s : writer s = Selecting → counted evs s → counted (evs ++ []) (with_writer WriterDone s).
Proof. intros Hw Hc. apply (counted_same _ _ _ Hc); [done..|]. cbn. unfold taken. by rewrite Hw. Qed.

(** The records in the channel and in flight, after the step of a branch. *)
Ltac depth_solve := cbn; unfold taken; cbn;
  repeat match goal with H : reader _ = _ |- _ => rewrite H | H : writer _ = _ |- _ => rewrite H | H : queue _ = _ |- _ => rewrite H end;
  rewrite ?rows_app; unfold rows; cbn [length]; lia.

Lemma step_counted a evs s evs' s' : step a s = Some (evs', s') → counted evs s → counted (evs ++ evs') s'.
Proof.
  intros H Hc. pose proof Hc as (H1 & H2 & _ & _ & H5).
  destruct a; cbn [SFlowCollector.step readerStep writerStep] in H; step_inv H; simplify_eq;
    try (apply (counted_same _ _ _ Hc); [done..|]; depth_solve).
  - apply accept_inv in H as [[-> ->]|(l & -> & ->)].
    + eapply (counted_next _ _ _ _ _ 0 0 0 Hc); try reflexivity; cbn; try (by eapply add64_0); [by eapply depth_same|depth_solve].
    + destruct (offered_Offered l) as (Ho & _ & Hdr & _).
      eapply (counted_next _ _ _ _ _ (rows l) 0 0 Hc); rewrite ?Ho, ?Hdr; try reflexivity; cbn; try (by eapply add64_0);
        [by eapply depth_same|destruct l; depth_solve].
  - eapply (counted_next _ _ _ _ _ 0 0 0 Hc); try reflexivity; cbn; try (by eapply add64_0); [by eapply depth_same|depth_solve].
  - destruct (abandoned_Abandoned l) as (Ho & _ & Hdr & _).
    eapply (counted_next _ _ _ _ _ 0 0 0 Hc); rewrite ?Ho, ?Hdr; try reflexivity; cbn; try (by eapply add64_0); [by eapply depth_same|depth_solve].
  - eapply (counted_next _ _ _ _ _ 0 1 0 Hc); try reflexivity; cbn; try (by eapply add64_0);
      [by eapply depth_same|destruct records; depth_solve].
  - eapply (counted_next _ _ _ _ _ 0 0 1 Hc); try reflexivity; cbn; try (by eapply add64_0). destruct l; depth_solve.
  - rewrite app_nil_r. apply flush_counted. by apply (counted_received _ _ _ Hw).
  - rewrite app_nil_r. by apply (counted_received _ _ _ Hw).
  - apply counted_done; [by rewrite (proj1 (proj2 (proj2 (flush_frame ok s))))|by apply flush_counted].
  - apply counted_done; [by rewrite (proj1 (proj2 (proj2 (flush_frame ok s))))|by apply flush_counted].
  - rewrite app_nil_r. by apply flush_counted.
Qed.

Lemma batchLimit_pos : 0 < batchLimit c.
Proof. unfold batchLimit. case_decide; lia. Qed.

Lemma capacity_pos : 0 < capacity c.
Proof. unfold capacity. case_decide; lia. Qed.

Lemma flush_bounded ok s :
  rows (queue s) ≤ capacity c → rows (batch s) ≤ batchLimit c →
  Forall (fun call : list FlowRecord * bool => 0 < rows call.1 ≤ batchLimit c) (calls s) → bounded c (flush ok s).
Proof.
  intros Hq Hb Hc. pose proof batchLimit_pos. split_and!.
  - by rewrite (proj1 (flush_frame ok s)).
  - rewrite flush_empties. unfold rows. cbn. lia.
  - apply flush_calls; [done|]. cbn. unfold rows in *. lia.
Qed.

Lemma step_bounded a s evs' s' : step a s = Some (evs', s') → bounded c s → bounded c s'.
Proof.
  intros H (Hq & Hb & Hc). destruct a; cbn [SFlowCollector.step readerStep writerStep] in H; step_inv H; simplify_eq; try done.
  - apply accept_inv in H as [[-> ->]|(l & -> & ->)]; done.
  - split_and!; [|done..]. cbn. rewrite rows_app. unfold rows in *. cbn [length]. lia.
  - split_and!; [|done..]. cbn. unfold rows in *. cbn [length] in Hq. lia.
  - apply flush_bounded; [done| |done]. cbn. rewrite rows_app. unfold rows in *. cbn [length]. lia.
  - split_and!; [done| |done]. cbn. cbn in Hif. lia.
  - apply (flush_bounded ok s); [done|lia|done].
  - apply (flush_bounded ok s); [done|lia|done].
  - apply (flush_bounded ok s); [done|lia|done].
Qed.

Lemma step_ordered a s evs' s' : step a s = Some (evs', s') → ordered s → ordered s'.
Proof.
  intros H (Hcl & Hdone & Hret & Hne). unfold ordered.
  destruct a; cbn [SFlowCollector.step readerStep writerStep] in H; step_inv H; simplify_eq;
    try (apply accept_inv in H as [[-> ->]|([|] & -> & ->)]); try (destruct l); try (destruct records);
    cbn; autorewrite with flush; cbn; try rewrite Hr in *; split_and!; naive_solver.
Qed.
End steps.
