(* ===== verification/SFlowCollectorProperties.v ===== *)
(** * Properties of the sFlow collector

    The claims about src/pkg/sflow/collector.go, attribution.go and owner.go and about src/pkg/config/sflow.go: records are
    neither lost nor duplicated nor reordered behind the channel, the counters agree with
    what happened, shutting down terminates, a normalized configuration starts, and an address is
    attributed to the last running pod that has it. *)
From stdpp Require Import base list numbers strings gmap.
From Stdlib Require Import ZArith.
From S2P Require Import Prelude GoNumbers GoBytes GoNet SFlow SFlowAttribution Config SFlowCollector SFlowCollectorFacts GoStrings GoText GoJson.
Local Open Scope Z_scope.

(** ** Runs *)
Section runs.
Context (DecodeMessageVersion : list Z → option Packet) (c : Collector).
Local Abbreviation run := (run DecodeMessageVersion c).
Local Abbreviation step := (step DecodeMessageVersion c).

Definition invariant (evs : list event) (s : state) : Prop :=
  fifo evs s ∧ accounted evs s ∧ counted evs s ∧ bounded c s ∧ ordered s.

Lemma run_invariant acts evs s evs' s' : run acts s = Some (evs', s') → invariant evs s → invariant (evs ++ evs') s'.
Proof.
  revert evs s evs'. induction acts as [|a acts IH]; intros evs s evs' H Hinv; cbn [SFlowCollector.run] in H.
  { simplify_eq. by rewrite app_nil_r. }
  destruct (step a s) as [[e1 s1]|] eqn:Ha; cbn in H; [|done].
  destruct (run acts s1) as [[e2 s2]|] eqn:Hr; cbn in H; [|done]. simplify_eq. rewrite (assoc_L (++)).
  apply (IH _ _ _ Hr). destruct Hinv as (H1 & H2 & H3 & H4 & H5). split_and!.
  - by eapply step_fifo.
  - by eapply step_accounted.
  - by eapply step_counted.
  - by eapply step_bounded.
  - by eapply step_ordered.
Qed.

Lemma initial_invariant : invariant [] initial.
Proof.
  pose proof (batchLimit_pos c). pose proof (capacity_pos c). split_and!.
  - done.
  - split; done.
  - split_and!; done.
  - split_and!; [unfold rows; cbn; lia..|constructor].
  - split_and!; cbn; naive_solver.
Qed.
End runs.

(** C23. The collector loses no record on the way: in every interleaving of the reader and the
    writer, what was sent to the channel is what the record writer was handed, in the same order,
    followed by the batch, the record in flight and the channel; every record decoded was sent,
    dropped because the channel was full, is still to be sent, or was abandoned with the rest of its
    datagram by a reader that saw the cancellation, after which the channel is closed and no other
    datagram is read; the counters are these numbers (modulo 2^64); the channel and each batch stay within
    their limits; and the collector returns only after its writer. *)
Theorem collector_conserves DecodeMessageVersion c acts evs s :
  run DecodeMessageVersion c acts initial = Some (evs, s) → invariant c evs s.
Proof. intros H. apply (run_invariant _ _ _ [] _ _ _ H). apply initial_invariant. Qed.

(** Two sampled packets in one datagram, a batch size of two. *)
Definition sample_collector : Collector := MkCollector ":6343" 2 1 1 None.
Definition sample_base (n : Z) : SampledIPBase := MkSampledIP 100 6 [10; 0; 0; n] [10; 0; 0; 9] 1000 80.
Definition sample_decoder (payload : list Z) : option Packet :=
  Some (MkPacket [10; 0; 0; 254] 7 [FlowSample 10 (SampledIPv4 ∘ sample_base <$> payload)]).
Definition sample_acts : list action :=
  [Datagram 5 [1; 2; 3] None; Enqueue; CountSent; Receive; Enqueue; CountReceived true; CountSent; Drop; Receive; CountReceived true].

Lemma collector_conserves_witness :
  ∃ evs s, run sample_decoder sample_collector sample_acts initial = Some (evs, s) ∧
    rows (droppedOf evs) = 1 ∧ RecordsWritten (metrics s) = 2 ∧ invariant sample_collector evs s.
Proof.
  destruct (run sample_decoder sample_collector sample_acts initial) as [[evs s]|] eqn:H; [|by vm_compute in H].
  exists evs, s. split; [done|]. split; [|split].
  - vm_compute in H. simplify_eq. reflexivity.
  - vm_compute in H. simplify_eq. reflexivity.
  - exact (collector_conserves sample_decoder sample_collector sample_acts evs s H).
Defined.

(** ** Shutting down *)

(** The actions that do not wait for the network or the clock: everything but a new
    datagram, a tick and a cancellation. *)
Definition local (a : action) : Prop :=
  match a with Cancel | Datagram _ _ _ | Tick _ => False | _ => True end.

Definition readerWork (r : readerPc) : Z :=
  match r with
  | Reading => 2
  | Sending l => 4 * rows l + 3
  | Sent l => 4 * rows l + 4
  | Waiting => 1
  | Returned => 0
  end.

Definition writerWork (w : writerPc) : Z := match w with Selecting => 1 | Received _ => 2 | WriterDone => 0 end.

(** An upper bound on the local steps left once the context is cancelled. *)
Definition work (s : state) : Z := readerWork (reader s) + writerWork (writer s) + 2 * rows (queue s).

#[local] Instance finished_dec s : Decision (reader s = Returned ∧ writer s = WriterDone).
Proof. destruct (reader s), (writer s); first [by left|right; naive_solver]. Defined.

Section shutdown.
Context (DecodeMessageVersion : list Z → option Packet) (c : Collector).
Local Abbreviation run := (run DecodeMessageVersion c).
Local Abbreviation step := (step DecodeMessageVersion c).

Lemma work_nonneg s : 0 ≤ work s.
Proof. unfold work, readerWork, writerWork, rows. destruct (reader s), (writer s); lia. Qed.

Lemma local_step a s evs s' : local a → done s = true → step a s = Some (evs, s') → work s' < work s ∧ done s' = true.
Proof.
  intros Hl Hd H. destruct a; try done; cbn [SFlowCollector.step readerStep writerStep] in H; rewrite ?Hd in H; step_inv H;
    try (destruct Hif; congruence); simplify_eq; unfold work;
    try (destruct l); cbn; autorewrite with flush; cbn; rewrite ?Hr, ?Hw, ?Hq, ?rows_app; unfold rows; cbn [readerWork writerWork length];
    unfold rows; cbn [length]; split; try done; lia.
Qed.

(** A local step is possible until both goroutines have returned. *)
Lemma local_enabled s : done s = true → ~ (reader s = Returned ∧ writer s = WriterDone) → ∃ a, local a ∧ is_Some (step a s).
Proof.
  intros Hd Hend. destruct (writer s) as [|row|] eqn:Hw.
  - exists (WriterSeesDone true). split; [done|]. cbn. rewrite Hw, Hd. cbn. eauto.
  - exists (CountReceived true). split; [done|]. cbn. rewrite Hw. cbn. eauto.
  - destruct (reader s) as [|l|l| |] eqn:Hr.
    + exists ReadError. split; [done|]. cbn. rewrite Hr. eauto.
    + exists SeeDone. split; [done|]. cbn. rewrite Hr, Hd. eauto.
    + exists CountSent. split; [done|]. cbn. rewrite Hr. eauto.
    + exists ReaderReturns. split; [done|]. cbn. rewrite Hr, Hw. eauto.
    + naive_solver.
Qed.

Lemma local_run acts s evs s' : Forall local acts → done s = true → run acts s = Some (evs, s') →
  Z.of_nat (length acts) + work s' ≤ work s ∧ done s' = true.
Proof.
  revert s evs. induction acts as [|a acts IH]; intros s evs Hl Hd H; cbn [SFlowCollector.run] in H.
  { simplify_eq. cbn. split; [lia|done]. }
  apply Forall_cons in Hl as [Ha Hl]. destruct (step a s) as [[e1 s1]|] eqn:Hs; cbn in H; [|done].
  destruct (run acts s1) as [[e2 s2]|] eqn:Hr; cbn in H; [|done]. simplify_eq.
  destruct (local_step a s e1 s1 Ha Hd Hs) as [Hlt Hd1]. destruct (IH s1 e2 Hl Hd1 Hr) as [Hle Hd2].
  split; [cbn [length]; lia|done].
Qed.
End shutdown.

(** C24. Shutting down terminates: once the context is cancelled, however the two goroutines are
    scheduled and whichever ready case a [select] picks, at most [work s] steps can be taken before
    the next datagram or tick, and when no step is left both goroutines have returned: neither
    waits for the other forever, and no send blocks on the full channel. *)
Theorem collector_shuts_down DecodeMessageVersion c acts s evs s' :
  done s = true → Forall local acts → run DecodeMessageVersion c acts s = Some (evs, s') →
  Z.of_nat (length acts) ≤ work s ∧
  ((∀ a, local a → step DecodeMessageVersion c a s' = None) → reader s' = Returned ∧ writer s' = WriterDone).
Proof.
  intros Hd Hl H. destruct (local_run DecodeMessageVersion c acts s evs s' Hl Hd H) as [Hle Hd'].
  pose proof (work_nonneg s'). split; [lia|]. intros Hstuck.
  destruct (decide (reader s' = Returned ∧ writer s' = WriterDone)) as [?|Hne]; [done|].
  destruct (local_enabled DecodeMessageVersion c s' Hd' Hne) as (a & Ha & Hsome).
  rewrite (Hstuck a Ha) in Hsome. by apply is_Some_None in Hsome.
Qed.

(** Four records are waiting when the context is cancelled. *)
Definition shutdown_acts : list action := [WriterSeesDone false; SeeDone; ReaderReturns].
Definition shutdown_state : state :=
  default initial (snd <$> run sample_decoder sample_collector (take 3 sample_acts ++ [Cancel]) initial).

Lemma collector_shuts_down_witness :
  ∃ evs s', run sample_decoder sample_collector shutdown_acts shutdown_state = Some (evs, s') ∧
    Z.of_nat (length shutdown_acts) ≤ work shutdown_state ∧ reader s' = Returned ∧ writer s' = WriterDone.
Proof.
  destruct (run sample_decoder sample_collector shutdown_acts shutdown_state) as [[evs s']|] eqn:H; [|by vm_compute in H].
  exists evs, s'. split; [done|].
  pose proof (collector_shuts_down sample_decoder sample_collector shutdown_acts shutdown_state evs s' eq_refl) as [Hle Hend];
    [by repeat constructor|done|]. split; [done|]. apply Hend.
  vm_compute in H. simplify_eq. intros [] Ha; done.
Defined.

(** ** Configuration *)

(** Invert a validation that succeeded. *)
Ltac checked_inv :=
  repeat (go_inv; match goal with
  | H : (if decide ?P then Err _ else _) = Ret _ |- _ => destruct (decide P); [discriminate H|]
  end); go_inv.

Lemma validateDuration_ok field value d : validateDuration field value = Ret d → ParseDuration value = Some d.
Proof. unfold validateDuration. case_match; intros; by simplify_eq. Qed.

Lemma validateBindAddress_ok field value u : validateBindAddress field value = Ret u → is_Some (SplitHostPort value).
Proof. unfold validateBindAddress. case_match; intros; [eauto|done]. Qed.

Lemma positive_ok field d u : positive field d = Ret u → 0 < d.
Proof. unfold positive. case_decide; [done|lia]. Qed.

(** A normalized sFlow configuration starts the collector: its addresses split into host and
    port, the flush interval parses to a positive duration, so that creating the collector succeeds
    and its ticker does not panic, and the batch and queue sizes are positive. *)
Theorem sflow_config_starts cfg cfg' lookup :
  NormalizeSFlowConfig cfg = Ret cfg' →
  ∃ c, NewCollector cfg' lookup = Some c ∧ ServeUDP c true = Ret initial ∧
    0 < BatchSize c ∧ 0 < QueueSize c ∧ capacity c = QueueSize c ∧ batchLimit c = BatchSize c ∧ is_Some (SplitHostPort (ListenAddr c)).
Proof.
  unfold NormalizeSFlowConfig. intros H. checked_inv. subst cfg'. unfold NewCollector.
  apply validateDuration_ok in E6. apply positive_ok in E7. apply validateBindAddress_ok in E0.
  cbn [SF_Writer Writer_FlushInterval mbind option_bind]. rewrite E6. cbn [mbind option_bind]. eexists. split; [done|].
  unfold ServeUDP, capacity, batchLimit. cbn [FlushInterval BatchSize QueueSize ListenAddr negb Writer_BatchSize Writer_QueueSize SF_Listen SF_Writer].
  rewrite !decide_False by (repeat case_decide; lia). split_and!; try done; repeat case_decide; lia.
Qed.

Definition sample_config : SFlowConfig := MkSFlow "" "" "" "" (MkOtel "otel:4317" true "") (MkWriter 0 "" 0).

Lemma sflow_config_starts_witness :
  ∃ c, NewCollector (default sample_config (match NormalizeSFlowConfig sample_config with Ret c => Some c | _ => None end)) None = Some c ∧
    ServeUDP c true = Ret initial ∧ 0 < BatchSize c ∧ 0 < QueueSize c ∧ capacity c = QueueSize c ∧ batchLimit c = BatchSize c ∧
    is_Some (SplitHostPort (ListenAddr c)).
Proof.
  apply (sflow_config_starts sample_config). vm_compute. reflexivity.
Defined.

(** The writer of a normalized configuration opens unless the collector of logs cannot be reached; its
    intervals are positive. *)
Theorem otel_writer_opens cfg cfg' exporterErr probeErr :
  NormalizeSFlowConfig cfg = Ret cfg' →
  (∃ w, NewOtelWriter exporterErr probeErr (SF_Otel cfg') (SF_Writer cfg') = inr w ∧ 0 < ow_timeout w ∧ 0 < ow_exportInterval w) ↔
  exporterErr = None ∧ probeErr = None.
Proof.
  unfold NormalizeSFlowConfig. intros H. checked_inv. subst cfg'. unfold NewOtelWriter.
  apply validateDuration_ok in E4, E6. apply positive_ok in E5, E7.
  cbn [SF_Otel SF_Writer Otel_Timeout Writer_FlushInterval]. rewrite E4, E6. destruct exporterErr, probeErr; split; try naive_solver.
Qed.

(** ** Owners *)
Section owners.
Context (Get : string → string → string → string → option Object).

(** A chain of owners from an object to one without owners: the keys and the references
    on the way. *)
Inductive owner_chain : Object → list string → list OwnerRef → Prop :=
| chain_root obj : GetOwnerReferences obj = [] → owner_chain obj [] []
| chain_up obj ref refs owner keys path :
    GetOwnerReferences obj = ref :: refs →
    Get (APIVersion ref) (Kind ref) (GetNamespace obj) (OwnerName ref) = Some owner →
    owner_chain owner keys path →
    owner_chain obj (ownerRefKey (GetNamespace obj) ref :: keys)
      (MkOwnerRef (APIVersion ref) (Kind ref) (GetNamespace obj) (OwnerName ref) :: path).

Lemma climbOwners_chain obj keys path rounds seen found :
  owner_chain obj keys path → NoDup keys → (∀ k, k ∈ keys → k ∉ seen) → (length keys ≤ rounds)%nat →
  climbOwners Get rounds None found seen obj = (match last path with Some r => Some r | None => found end, None).
Proof.
  intros Hc. revert rounds seen found. induction Hc as [obj Hno|obj ref refs owner keys path Hrefs Hget _ IH];
    intros rounds seen found Hnd Hseen Hlen; (destruct rounds as [|rounds]; [try (cbn in Hlen; lia); done|]); cbn [climbOwners poll].
  - by rewrite Hno.
  - rewrite Hrefs. cbn zeta. apply NoDup_cons in Hnd as [Hnotin Hnd].
    rewrite decide_False by (apply Hseen; left). rewrite Hget.
    rewrite IH; [|done| |cbn in Hlen; lia].
    + f_equal. destruct path as [|r path]; [done|]. change (last (?x :: r :: path)) with (last (r :: path)).
      destruct (last_is_Some (r :: path)) as [_ [x Hx]]; [done|]. by rewrite Hx.
    + intros k Hk. apply not_elem_of_union. split; [|by apply Hseen; right].
      intros ->%elem_of_singleton. done.
Qed.

(** Polling: either the context is found dead afterwards, or it made no difference. *)
Lemma climbOwners_context rounds ctx found seen obj :
  (climbOwners Get rounds ctx found seen obj).2 = Some 0%nat ∨
  (climbOwners Get rounds ctx found seen obj).1 = (climbOwners Get rounds None found seen obj).1.
Proof.
  revert ctx found seen obj. induction rounds as [|rounds IH]; intros ctx found seen obj; [by right|].
  cbn [climbOwners]. destruct ctx as [[|n]|]; cbn [poll]; [by left| |].
  - destruct (GetOwnerReferences obj) as [|ref refs]; [by right|]. cbn zeta. case_decide; [by right|].
    destruct (Get _ _ _ _); [apply IH|by right].
  - by right.
Qed.

Lemma climbOwners_alive rounds found seen obj : (climbOwners Get rounds None found seen obj).2 = None.
Proof.
  revert found seen obj. induction rounds as [|rounds IH]; intros found seen obj; [done|]. cbn [climbOwners poll].
  destruct (GetOwnerReferences obj); [done|]. cbn zeta. case_decide; [done|]. destruct (Get _ _ _ _); [apply IH|done].
Qed.
End owners.

(** ** The table *)
Definition ip_key (ip : IP) : string := normalizeIPKey (Some ip).

Definition podKeys (pod : Pod) : list string := ip_key <$> podIPs pod.

Lemma addPod_lookup next pod key :
  key ≠ "" → addPod next pod !! key = if decide (key ∈ ip_key <$> IPs pod) then Some (attributionOf pod) else next !! key.
Proof.
  intros Hkey. unfold addPod. generalize (attributionOf pod) as attr. intros attr. revert next.
  induction (IPs pod) as [|ip ips IH]; intros next; [done|]. cbn [foldl]. cbn zeta. rewrite IH. clear IH.
  change (ip_key <$> ip :: ips) with (ip_key ip :: (ip_key <$> ips)). change (normalizeIPKey (Some ip)) with (ip_key ip).
  destruct (decide (key ∈ ip_key <$> ips)) as [Hin|Hin].
  - rewrite decide_True by (by right). done.
  - case_decide as He; [rewrite decide_False by (rewrite elem_of_cons; congruence || naive_solver); done|].
    destruct (decide (key = ip_key ip)) as [->|Hne].
    + rewrite decide_True by left. apply lookup_insert_eq.
    + rewrite decide_False by (rewrite elem_of_cons; naive_solver). by apply lookup_insert_ne.
Qed.

(** A later pod wins. *)
Lemma Replace_lookup c infos key :
  key ≠ "" → Replace c infos !! key = attributionOf <$> last (filter (fun info => key ∈ ip_key <$> IPs info) infos).
Proof.
  intros Hkey. unfold Replace. induction infos as [|info infos IH] using rev_ind; [done|].
  rewrite foldl_app. cbn [foldl]. rewrite addPod_lookup, filter_app by done. case_decide as Hin.
  - rewrite filter_cons_True, filter_nil by done. by rewrite last_snoc.
  - rewrite filter_cons_False, filter_nil, app_nil_r by done. exact IH.
Qed.

Section pods.
Context (Get : string → string → string → string → option Object).

(** What [ReplacePods] keeps of a pod. *)
Definition infoOf (pod : Pod) : PodInfo :=
  MkPodInfo (Name pod) (Namespace pod) (NodeName pod) (podIPs pod) (OwnerForPod Get None pod).1.

Definition running (pod : Pod) : Prop := Phase pod = "Running".
#[local] Instance running_dec pod : Decision (running pod).
Proof. unfold running. apply _. Defined.

Local Abbreviation resolver := (Some (OwnerForPod Get)).

Lemma collectInfos_alive infos pods :
  collectInfos None resolver infos pods = (Some (infos ++ (infoOf <$> filter running pods)), None).
Proof.
  revert infos. induction pods as [|pod pods IH]; intros infos; cbn [collectInfos poll]; [by rewrite app_nil_r|].
  case_decide as Hp.
  - rewrite IH, filter_cons_False by done. done.
  - rewrite filter_cons_True by (unfold running; destruct (decide (Phase pod = "Running")); [done|tauto]).
    unfold OwnerForPod at 1, getTopOwner. pose proof (climbOwners_alive Get maxOwnerResolutionDepth None ∅
      (MkObject (Namespace pod) (OwnerReferences pod))) as Hal.
    destruct (climbOwners _ _ _ _ _ _) as [owner ctx] eqn:Hc. cbn in Hal. subst ctx. cbn [poll]. rewrite IH.
    rewrite <- (assoc_L (++)). cbn [app fmap list_fmap]. unfold infoOf at 2, OwnerForPod, getTopOwner. by rewrite Hc.
Qed.

Lemma collectInfos_context ctx infos pods :
  (collectInfos ctx resolver infos pods).1 = None ∨ (collectInfos ctx resolver infos pods).1 = (collectInfos None resolver infos pods).1.
Proof.
  revert ctx infos. induction pods as [|pod pods IH]; intros ctx infos; [by right|]. cbn [collectInfos].
  destruct ctx as [[|n]|]; cbn [poll]; [by left| |].
  - case_decide; [apply IH|]. unfold OwnerForPod, getTopOwner.
    set (obj := MkObject (Namespace pod) (OwnerReferences pod)).
    pose proof (climbOwners_context Get maxOwnerResolutionDepth (Some n) None ∅ obj) as Hctx.
    pose proof (climbOwners_alive Get maxOwnerResolutionDepth None ∅ obj) as Hal.
    destruct (climbOwners Get maxOwnerResolutionDepth (Some n) None ∅ obj) as [o1 c1].
    destruct (climbOwners Get maxOwnerResolutionDepth None None ∅ obj) as [o2 c2]. cbn in Hctx, Hal. subst c2.
    destruct Hctx as [->| ->]; [by left|]. destruct c1 as [[|m]|]; cbn [poll]; [by left|apply IH..].
  - by right.
Qed.
End pods.

(** C25. The table of pod addresses: refreshing it is all or nothing, since a context cancelled at
    any point leaves the table as it was and never one with owners that were not resolved; a
    refreshed table attributes an address to the last running pod of the list that has it, with the
    owner found by the climb, and to no pod when none has it. *)
Theorem pod_lookup Get c ctx pods :
  ReplacePods c ctx pods (Some (OwnerForPod Get)) = (false, c) ∨
  (∃ c', ReplacePods c ctx pods (Some (OwnerForPod Get)) = (true, c') ∧
    ∀ ip, Lookup c' ip =
      (if decide (ip_key ip = "") then None
       else attributionOf ∘ infoOf Get <$> last (filter (fun pod => running pod ∧ ip_key ip ∈ podKeys pod) pods))).
Proof.
  unfold ReplacePods. pose proof (collectInfos_context Get ctx [] pods) as Hctx. rewrite collectInfos_alive in Hctx.
  destruct (collectInfos ctx _ [] pods) as [[infos|] ctx']; [|by left]. destruct Hctx as [|Hinfos]; [done|].
  cbn in Hinfos. simplify_eq. right. eexists. split; [done|]. intros ip. unfold Lookup. change (normalizeIPKey (Some ip)) with (ip_key ip).
  case_decide as Hkey; [done|]. rewrite Replace_lookup by done. clear Hkey.
  induction pods as [|pod pods IH] using rev_ind; [done|]. rewrite !filter_app, fmap_app, filter_app.
  destruct (decide (running pod)) as [Hr|Hr].
  - rewrite (filter_cons_True running), filter_nil by done. cbn [fmap list_fmap].
    destruct (decide (ip_key ip ∈ podKeys pod)) as [Hin|Hin].
    + rewrite (filter_cons_True (fun info => ip_key ip ∈ ip_key <$> IPs info)), filter_nil by done.
      rewrite (filter_cons_True (fun pod => running pod ∧ ip_key ip ∈ podKeys pod)), filter_nil by done. by rewrite !last_snoc.
    + rewrite (filter_cons_False (fun info => ip_key ip ∈ ip_key <$> IPs info)), filter_nil by done.
      rewrite (filter_cons_False (fun pod => running pod ∧ ip_key ip ∈ podKeys pod)), filter_nil by tauto. by rewrite !app_nil_r.
  - rewrite (filter_cons_False running), filter_nil by done.
    rewrite (filter_cons_False (fun pod => running pod ∧ ip_key ip ∈ podKeys pod)), filter_nil by tauto. by rewrite !app_nil_r.
Qed.

(** A chain of at most 32 distinct owners is climbed to the object without owners, the answer is
    the reference to it. *)
Theorem top_owner_found Get obj keys path :
  owner_chain Get obj keys path → NoDup keys → (length keys ≤ maxOwnerResolutionDepth)%nat →
  getTopOwner Get None obj = (last path, None).
Proof.
  intros Hc Hnd Hlen. unfold getTopOwner. rewrite (climbOwners_chain Get obj keys path); [by destruct (last path)|done|done| |done].
  intros k _. set_solver.
Qed.
