(* ===== verification/TopologyApi.v ===== *)
(** * The topology HTTP API

    src/pkg/topologyapi and its server in src/pkg/controller/topologyapi: a read-only API over the objects of the clusters the controller
    knows.  Requests are a method and the escaped path, which the router of [net/http] cleans,
    splits and decodes; the client of a cluster and its scheme are parameters. *)
From stdpp Require Import base sets list numbers strings.
From Stdlib Require Import ZArith.
From S2P Require Import Prelude GoStrings GoText GoJson Config.
Local Open Scope Z_scope.

(** ** Clients *)

(** The errors of a client the handlers tell apart. *)
Inductive clientError := IsNotFound | IsNoMatch | OtherClientError.

(** What the scheme creates for a kind. *)
Inductive schemeType := ClientObject | ClientObjectList | OtherType.

#[export] Instance schemeType_eq_dec : EqDecision schemeType.
Proof. solve_decision. Defined.

(** A client of a cluster with objects of type [O] and lists of type [L]: the kinds its
    scheme knows in the served group and version, in the order a range over the map
    lists them, and its reads. *)
Record client (O L : Type) := MkClient {
  KnownTypes : list (string * schemeType);
  List : string → L + clientError;
  Get : string → string → O + clientError
}.
Arguments MkClient {O L}.
Arguments KnownTypes {O L}.
Arguments List {O L}.
Arguments Get {O L}.

(** [schema.New] of a kind. *)
Definition schemeNew {O L} (c : client O L) (kind : string) : option schemeType :=
  snd <$> head (filter (fun e => e.1 = kind) (KnownTypes c)).

(** ** Clusters (resolver.go) *)
Record ClusterResolver (O L : Type) := MkResolver {
  GetClusterClient : string → option (client O L);
  ListClusters : option (list string)
}.
Arguments MkResolver {O L}.
Arguments GetClusterClient {O L}.
Arguments ListClusters {O L}.

Definition DefaultClusterName : string := "default".

Definition SingleCluster {O L} (c : client O L) : ClusterResolver O L :=
  MkResolver (fun clusterName => if decide (clusterName ≠ DefaultClusterName) then None else Some c) (Some [DefaultClusterName]).

(** ** Responses *)
Definition StatusOK : Z := 200.
Definition StatusNotFound : Z := 404.
Definition StatusMethodNotAllowed : Z := 405.
Definition StatusInternalServerError : Z := 500.

(** What is encoded: nothing, the clusters, or an object or list with the kind set on
    it; or the text of an error. *)
Inductive body (O L : Type) :=
| NoBody
| ClusterItems (names : list string)
| ObjectBody (kind : string) (object : O)
| ListBody (kind : string) (items : L)
| ErrorText (text : string).
Arguments NoBody {O L}.
Arguments ClusterItems {O L}.
Arguments ObjectBody {O L}.
Arguments ListBody {O L}.
Arguments ErrorText {O L}.

Definition response (O L : Type) : Type := Z * body O L.

Definition httpError {O L} (text : string) (status : Z) : response O L := (status, ErrorText text).

(** ** Handlers (resource.go, handler.go) *)
Definition Group : string := "unifabric.io".
Definition Version : string := "v1beta1".

(** [strings.EqualFold], where one of the names is ASCII. *)
Definition EqualFold (a b : string) : Prop := fold_name a = fold_name b.

#[export] Instance EqualFold_dec a b : Decision (EqualFold a b).
Proof. unfold EqualFold. apply _. Defined.

(** ** Paths (the router of net/http) *)

(** [url.PathUnescape]. *)
Fixpoint unescape (s : list Z) : option (list Z) :=
  match s with
  | 37 :: a :: b :: r => x ← hex_digit a; y ← hex_digit b; r ← unescape r; Some (x * 16 + y :: r)
  | 37 :: _ => None
  | c :: r => r ← unescape r; Some (c :: r)
  | [] => Some []
  end.

Definition pathUnescape (s : list Z) : string := of_bytes (default s (unescape s)).

(** The raw segments of a path after its first slash. *)
Definition rawSegments (path : string) : list (list Z) := split_on 47 (drop 1 (bytes path)).

(** Whether the path is its own clean form: it starts with a slash and has no segment "." or ".." and, but for a trailing
    slash, no empty segment. *)
Definition cleanPath (path : string) : bool :=
  bool_decide (head (bytes path) = Some 47) &&
  forallb (fun seg => negb (bool_decide (seg = [46] ∨ seg = [46; 46]))) (rawSegments path) &&
  forallb (fun seg => bool_decide (seg ≠ [])) (removelast (rawSegments path)).

(** The decoded segments; the empty one after a trailing slash is "/". *)
Definition segments (path : string) : list string :=
  let raw := rawSegments path in
  (pathUnescape <$> removelast raw) ++
  match last raw with Some [] => ["/"] | Some seg => [pathUnescape seg] | None => [] end.

Example segments_ex :
  segments "/clusters/my%2Fcluster/apis/" = ["clusters"; "my/cluster"; "apis"; "/"] ∧
  cleanPath "/clusters//x" = false ∧ cleanPath "/clusters/../x" = false ∧ cleanPath "clusters" = false ∧
  cleanPath "/clusters/" = true ∧ segments "/clusters" = ["clusters"].
Proof. vm_compute. done. Qed.

Section handlers.
Context {O L : Type} (clusters : ClusterResolver O L).

Definition isGettable (c : client O L) (kind : string) : Prop := schemeNew c kind = Some ClientObject.

#[export] Instance isGettable_dec c kind : Decision (isGettable c kind).
Proof. unfold isGettable. apply _. Defined.

(** The client and the kind, or the response. *)
Definition resolveKind (cluster group version kind : string) : client O L * string + response O L :=
  match GetClusterClient clusters cluster with
  | None => inr (httpError ("unknown cluster " +:+ Quote cluster) StatusNotFound)
  | Some c =>
    if decide (group ≠ Group ∨ version ≠ Version) then
      inr (httpError ("unknown API group/version " +:+ Quote (if decide (group = "") then version else group +:+ "/" +:+ version)) StatusNotFound)
    else match head (filter (fun known => EqualFold known kind ∧ isGettable c known) (fst <$> KnownTypes c)) with
    | Some known => inl (c, known)
    | None => inr (httpError ("unknown kind " +:+ Quote kind) StatusNotFound)
    end
  end.

(** [newObject] and [newList]; [None] is an error. *)
Definition newObject (c : client O L) (kind : string) : option unit :=
  match schemeNew c kind with Some ClientObject => Some () | _ => None end.
Definition newList (c : client O L) (kind : string) : option unit :=
  match schemeNew c (kind +:+ "List") with Some ClientObjectList => Some () | _ => None end.

Definition writeGetError (verb : string) (err : clientError) (resource : string) : response O L :=
  match err with
  | IsNotFound | IsNoMatch => httpError (resource +:+ " not found") StatusNotFound
  | OtherClientError => httpError ("failed to " +:+ verb +:+ " " +:+ resource) StatusInternalServerError
  end.

Definition handleList (cluster group version kind : string) : response O L :=
  match resolveKind cluster group version kind with
  | inr r => r
  | inl (c, known) =>
    let resource := ToLower known in
    match newList c known with
    | None => writeGetError "list" OtherClientError resource
    | Some _ =>
      match List c known with
      | inr err => writeGetError "list" err resource
      | inl items => (StatusOK, ListBody (known +:+ "List") items)
      end
    end
  end.

Definition handleGet (cluster group version kind name : string) : response O L :=
  match resolveKind cluster group version kind with
  | inr r => r
  | inl (c, known) =>
    let resource := ToLower known in
    match newObject c known with
    | None => httpError ("failed to get " +:+ resource) StatusInternalServerError
    | Some _ =>
      match Get c known name with
      | inr err => writeGetError "get" err resource
      | inl object => (StatusOK, ObjectBody known object)
      end
    end
  end.

Definition handleHealthz : response O L := (StatusOK, NoBody).

Definition handleClusters : response O L :=
  match ListClusters clusters with
  | None => httpError "failed to list clusters" StatusInternalServerError
  | Some names => (StatusOK, ClusterItems names)
  end.

(** The routes of [NewHandler] on the segments of a path; a GET pattern also serves HEAD.  The segment "/" stands for a
    trailing slash and matches no pattern. *)
Definition route (path : list string) : option (response O L) :=
  if decide ("/" ∈ path) then None
  else match path with
  | ["healthz"] => Some handleHealthz
  | ["clusters"] => Some handleClusters
  | ["clusters"; cluster; "apis"; group; version; kind] => Some (handleList cluster group version kind)
  | ["clusters"; cluster; "apis"; group; version; kind; name] => Some (handleGet cluster group version kind name)
  | _ => None
  end.

Definition serve (method : string) (path : list string) : response O L :=
  match route path with
  | None => httpError "404 page not found" StatusNotFound
  | Some r => if decide (method = "GET" ∨ method = "HEAD") then r else httpError "Method Not Allowed" StatusMethodNotAllowed
  end.

(** [ServeMux] before the routes: a path that is not clean is redirected to the clean one, except for CONNECT, with
    [redirectStatus] (301 or 307, by the version of Go). *)
Definition ServeHTTP (redirectStatus : Z) (method path : string) : response O L :=
  if negb (cleanPath path) && bool_decide (method ≠ "CONNECT") then (redirectStatus, NoBody) else serve method (segments path).
End handlers.

(** ** The server of the controller (src/pkg/controller/topologyapi/server.go)

    What is added to the manager: nothing unless the API is enabled, and then a server at an address. *)
Definition NewTopologyAPIServer (cfg : option ControllerConfig) (logger : bool) : string + option string :=
  match cfg with
  | None => inl "topology API server config must not be nil"
  | Some cfg =>
    if negb logger then inl "topology API server logger must not be nil"
    else inr (if TopologyAPI_Enabled cfg then Some (TopologyAPI_BindAddress cfg) else None)
  end.

(** How a server ends: the context is done and [Shutdown] answers, or [ListenAndServe] returns. *)
Inductive serveError := ErrServerClosed | OtherServeError (text : string).
Inductive serverEnd := ServerContextDone (shutdown : option string) | ServerReturned (err : serveError).

Definition startServer (e : serverEnd) : option string :=
  match e with
  | ServerContextDone shutdown => shutdown
  | ServerReturned ErrServerClosed => None
  | ServerReturned (OtherServeError text) => Some text
  end.

(** A scheme whose kinds differ in more than case, each with its list type, as the
    generated registration of this project has it. *)
Record scheme_ok {O L} (c : client O L) : Prop := {
  scheme_nodup : NoDup (fst <$> KnownTypes c);
  scheme_fold : ∀ a b, a ∈ (KnownTypes c).*1 → b ∈ (KnownTypes c).*1 → EqualFold a b → a = b;
  scheme_lists : ∀ kind, schemeNew c kind = Some ClientObject → schemeNew c (kind +:+ "List") = Some ClientObjectList
}.

Lemma schemeNew_known {O L} (c : client O L) kind t : schemeNew c kind = Some t → kind ∈ (KnownTypes c).*1.
Proof.
  unfold schemeNew. intros (e & He & ->)%fmap_Some. apply head_Some_elem_of, list_elem_of_filter in He as [He Hin].
  apply list_elem_of_fmap. exists e. by rewrite He.
Qed.

(** The kind a request names: the known kind of the same name up to case. *)
Definition names_kind {O L} (c : client O L) (kind known : string) : Prop :=
  schemeNew c known = Some ClientObject ∧ EqualFold known kind.

Lemma resolveKind_found {O L} (clusters : ClusterResolver O L) c cluster kind known :
  GetClusterClient clusters cluster = Some c → scheme_ok c → names_kind c kind known →
  resolveKind clusters cluster Group Version kind = inl (c, known).
Proof.
  intros Hc Hok [Hnew Hfold]. unfold resolveKind. rewrite Hc, decide_False by tauto.
  destruct (head (filter _ _)) as [k|] eqn:Hh.
  - apply head_Some_elem_of, list_elem_of_filter in Hh as [[Hk Hg] Hin].
    by rewrite (scheme_fold c Hok k known Hin (schemeNew_known c known _ Hnew) (eq_trans Hk (eq_sym Hfold))).
  - exfalso. apply head_None in Hh. assert (known ∈ filter (fun known => EqualFold known kind ∧ isGettable c known) (KnownTypes c).*1) as Hin.
    { apply list_elem_of_filter. split; [done|]. by eapply schemeNew_known. }
    rewrite Hh in Hin. by apply not_elem_of_nil in Hin.
Qed.

Lemma resolveKind_missing {O L} (clusters : ClusterResolver O L) cluster group version kind :
  (∀ c known, GetClusterClient clusters cluster = Some c → group = Group → version = Version → names_kind c kind known → False) →
  ∃ text, resolveKind clusters cluster group version kind = inr (httpError text StatusNotFound).
Proof.
  intros Hno. unfold resolveKind. destruct (GetClusterClient clusters cluster) as [c|]; [|eauto].
  case_decide as Hgv; [eauto|]. destruct (head (filter _ _)) as [k|] eqn:Hh; [|eauto].
  apply head_Some_elem_of, list_elem_of_filter in Hh as [[Hk Hg] Hin]. exfalso.
  apply (Hno c k); [done|destruct (decide (group = Group)); [done|tauto]|destruct (decide (version = Version)); [done|tauto]|done].
Qed.

(** The kind of a request is served by its cluster. *)
Definition known_to {O L} (clusters : ClusterResolver O L) (cluster group version kind : string) (c : client O L) (known : string) : Prop :=
  GetClusterClient clusters cluster = Some c ∧ group = Group ∧ version = Version ∧ names_kind c kind known.

Lemma serve_get {O L} (clusters : ClusterResolver O L) path r : route clusters path = Some r → serve clusters "GET" path = r.
Proof. intros Hr. unfold serve. rewrite Hr. by rewrite decide_True by tauto. Qed.

Lemma serve_foreign {O L} (clusters : ClusterResolver O L) method path :
  method ≠ "GET" → method ≠ "HEAD" →
  (serve clusters method path).1 = StatusNotFound ∨ (serve clusters method path).1 = StatusMethodNotAllowed.
Proof. intros H1 H2. unfold serve. destruct (route clusters path); [|by left]. rewrite decide_False by tauto. by right. Qed.

Lemma resource_route {O L} (clusters : ClusterResolver O L) cluster group version kind rest :
  ("/" ∉ ["clusters"; cluster; "apis"; group; version; kind] ++ rest) →
  route clusters (["clusters"; cluster; "apis"; group; version; kind] ++ rest) =
    match rest with
    | [] => Some (handleList clusters cluster group version kind)
    | [name] => Some (handleGet clusters cluster group version kind name)
    | _ => None
    end.
Proof. intros Hn. unfold route. rewrite decide_False by done. by destruct rest as [|name [|]]. Qed.

Lemma route_shape {O L} (clusters : ClusterResolver O L) path r :
  route clusters path = Some r →
  path = ["healthz"] ∨ path = ["clusters"] ∨
  ∃ cluster group version kind rest, (length rest ≤ 1)%nat ∧ path = ["clusters"; cluster; "apis"; group; version; kind] ++ rest.
Proof.
  unfold route. case_decide; [done|]. intros Hr. repeat (case_match; try done); subst;
    first [by left|by right; left|right; right; eexists _, _, _, _, []; by split; [cbn; lia|]|
           right; right; eexists _, _, _, _, [_]; by split; [cbn; lia|]].
Qed.

Lemma resource_missing {O L} (clusters : ClusterResolver O L) cluster group version kind rest :
  (∀ c known, ~ known_to clusters cluster group version kind c known) →
  ∃ text, serve clusters "GET" (["clusters"; cluster; "apis"; group; version; kind] ++ rest) = httpError text StatusNotFound.
Proof.
  intros Hno. destruct (resolveKind_missing clusters cluster group version kind) as [text Htext].
  { intros c known ? ? ? ?. by apply (Hno c known). }
  destruct (decide ("/" ∈ ["clusters"; cluster; "apis"; group; version; kind] ++ rest)) as [Hin|Hn].
  { eexists. unfold serve, route. by rewrite decide_True. }
  unfold serve. rewrite (resource_route clusters cluster group version kind rest Hn).
  destruct rest as [|name [|]]; [exists text|exists text|by eexists]; rewrite decide_True by tauto; unfold handleList, handleGet; by rewrite Htext.
Qed.


(** The routes docs/design/topology-visualization.md lists are not served. *)
Theorem documented_routes_missing O L (clusters : ClusterResolver O L) cluster resource rest :
  (length rest ≤ 1)%nat → serve clusters "GET" (["clusters"; cluster; resource] ++ rest) = httpError "404 page not found" StatusNotFound.
Proof.
  intros Hl. unfold serve, route. case_decide; [done|]. destruct rest as [|x [|y rest]]; [..|cbn in Hl; lia]; cbn; by repeat case_match.
Qed.

(** The kinds of the project, and a cluster with one switch. *)
Definition sample_client : client nat (list nat) :=
  MkClient [("Switch", ClientObject); ("SwitchList", ClientObjectList); ("ListOptions", OtherType)]
    (fun _ => inl [7%nat]) (fun _ name => if decide (name = "leaf1") then inl 7%nat else inr IsNotFound).

Lemma sample_scheme : scheme_ok sample_client.
Proof.
  split.
  - apply (bool_decide_unpack _). vm_compute. exact I.
  - intros a b Ha Hb Hab. cbn in Ha, Hb. unfold EqualFold in Hab.
    apply elem_of_cons in Ha as [->|[->|[->|Ha%elem_of_nil]%elem_of_cons]%elem_of_cons]; [..|done];
    apply elem_of_cons in Hb as [->|[->|[->|Hb%elem_of_nil]%elem_of_cons]%elem_of_cons]; [..|done]; try done; vm_compute in Hab; done.
  - intros kind Hk. pose proof (schemeNew_known sample_client kind _ Hk) as Hin. cbn in Hin.
    apply elem_of_cons in Hin as [->|[->|[->|Hin%elem_of_nil]%elem_of_cons]%elem_of_cons]; [..|done]; by vm_compute in Hk |- *.
Qed.

