(* ===== verification/InterfaceSelector.v ===== *)
(** * Interface selectors

    src/pkg/agent/fabricnode/pattern.go and the selectors of fabricnode.go: names matched
    against comma-separated wildcard patterns, addresses against a CIDR block.  A wildcard
    pattern is turned into a regular expression; the expressions that arise from names,
    dots and wildcards are matched here, those with other special characters are a
    parameter. *)
From stdpp Require Import base list numbers strings.
From Stdlib Require Import ZArith Ascii.
From S2P Require Import Prelude GoStrings GoText GoJson GoNet Api Lldp.
Local Open Scope Z_scope.

(** ** Wildcards *)

(** The pieces of the regular expression a pattern becomes. *)
Inductive wildcard :=
| AnyRunes
| AnyRune
| Rune (r : Z).

(** A star and a question mark are replaced, and a dot is one already. *)
Definition wildcardOf (r : Z) : wildcard :=
  if decide (r = 42) then AnyRunes
  else if decide (r = 63 ∨ r = 46) then AnyRune
  else Rune r.

(** The other characters with a meaning in a regular expression. *)
Definition specialRunes : list Z := [92; 43; 40; 41; 124; 91; 93; 123; 125; 94; 36].

(** A dot does not match a line feed. *)
Definition notNewline (r : Z) : bool := bool_decide (r ≠ 10).

Fixpoint matchPieces (pieces : list wildcard) : list Z → bool :=
  match pieces with
  | [] => fun s => match s with [] => true | _ => false end
  | Rune r :: pieces => fun s => match s with x :: s => bool_decide (x = r) && matchPieces pieces s | [] => false end
  | AnyRune :: pieces => fun s => match s with x :: s => notNewline x && matchPieces pieces s | [] => false end
  | AnyRunes :: pieces =>
    (fix star (s : list Z) : bool :=
      matchPieces pieces s || match s with x :: s => notNewline x && star s | [] => false end)
  end.

Definition runesOf (s : string) : list Z := fst <$> runes (bytes s).

Section patterns.
(** [regexp.MatchString] without an error, for the other patterns. *)
Context (matchRegexp : string → string → bool).

(** An expression that is not UTF-8 is an error. *)
Definition matchPositive (s pattern : string) : bool :=
  if negb (utf8_valid pattern) then false
  else if decide (Exists (fun r => r ∈ specialRunes) (runesOf pattern)) then matchRegexp pattern s
  else matchPieces (wildcardOf <$> runesOf pattern) (runesOf s).

(** Each leading exclamation mark negates. *)
Fixpoint matchWildcardPattern (s pattern : string) : bool :=
  match pattern with
  | String "!"%char rest => negb (matchWildcardPattern s rest)
  | _ => matchPositive s pattern
  end.

(** [strings.Split(patternList, ",")], trimmed and without the empty ones. *)
Definition patternsOf (patternList : string) : list string :=
  filter (fun p => p ≠ "") ((fun p => TrimSpace (of_bytes p)) <$> split_on 44 (bytes patternList)).

Definition isExclusion (p : string) : bool := has_prefix p "!".

(** [strings.TrimPrefix(p, "!")] *)
Definition trimBang (p : string) : string := match p with String "!"%char rest => rest | _ => p end.

Definition matchMultiplePatterns (s patternList : string) : bool :=
  if decide (patternList = "") then false
  else
    let patterns := patternsOf patternList in
    let exclusions := filter (fun p => isExclusion p = true) patterns in
    let inclusions := filter (fun p => isExclusion p = false) patterns in
    match inclusions, exclusions with
    | [], [p] => negb (matchWildcardPattern s (trimBang p))
    | [p], [] => matchWildcardPattern s p
    | _, _ =>
      if existsb (fun p => matchWildcardPattern s (trimBang p)) exclusions then false
      else match inclusions, exclusions with
      | [], [] => false
      | [], _ => true
      | _, _ => existsb (matchWildcardPattern s) inclusions
      end
    end.

(** ** CIDR blocks *)

(** The text behind the slash: decimal digits only. *)
Definition prefixLength (s : list Z) : option Z :=
  match span_digits s with
  | ([], _) => None
  | (ds, []) => if decide (digits_Z ds < 16777215) then Some (digits_Z ds) else None
  | _ => None
  end.

(** A block: an address of 4 or 16 bytes and the length of its prefix in bits. *)
Record IPNet := MkIPNet {
  Net_IP : IP;
  Net_Prefix : Z
}.

(** The address, in 4 bytes when it is written in dotted form. *)
Definition ParseCIDR (s : string) : option IPNet :=
  '(addr, mask) ← split_first 47 (bytes s);
  ip ← ParseIP (of_bytes addr);
  n ← prefixLength mask;
  let ip := if decide (58 ∈ addr) then ip else drop 12 ip in
  if decide (8 * Z.of_nat (length ip) < n) then None else Some (MkIPNet ip n).

(** The bits of an address. *)
Definition ip_bits (ip : IP) : list bool := ip ≫= (fun b => (fun i => Z.testbit b (7 - Z.of_nat i)) <$> seq 0 8).

(** [n.Contains(ip)]; a block of mapped addresses is one of IPv4 addresses. *)
Definition Contains (n : IPNet) (ip : IP) : bool :=
  let '(nn, prefix) := match To4 (Net_IP n) with
    | Some v4 => (v4, if decide (length (Net_IP n) = 16%nat) then 0 `max` (Net_Prefix n - 96) else Net_Prefix n)
    | None => (Net_IP n, Net_Prefix n)
    end in
  let x := default ip (To4 ip) in
  if decide (length x ≠ length nn) then false
  else bool_decide (take (Z.to_nat prefix) (ip_bits nn) = take (Z.to_nat prefix) (ip_bits x)).

(** ** Selecting an interface *)

(** An address of an interface and the length of its mask. *)
Record netlinkAddr := MkAddr {
  addr_IP : IP;
  addr_ones : Z
}.

Definition matchInterface (nic : v1beta1.NicInfo) (pattern : RdmaInterfaceMethod) (addrs : list netlinkAddr) : bool :=
  if decide (Method pattern = "interface") then matchMultiplePatterns (v1beta1.Nic_Name nic) (MethodValue pattern)
  else if decide (Method pattern = "cidr") then
    match ParseCIDR (MethodValue pattern) with
    | None => false
    | Some cidrNet => existsb (fun addr => bool_decide (addr_IP addr ≠ []) && Contains cidrNet (addr_IP addr)) addrs
    end
  else false.
End patterns.

Example wildcard_examples :
  matchWildcardPattern (fun _ _ => false) "ens1f0np0" "ens1f?np*" = true ∧
  matchWildcardPattern (fun _ _ => false) "eth0" "!eth*" = false ∧
  matchMultiplePatterns (fun _ _ => false) "ens2" "ens*, !ens1" = true ∧
  matchMultiplePatterns (fun _ _ => false) "ens1" "ens*, !ens1" = false ∧
  Contains (default (MkIPNet [] 0) (ParseCIDR "10.1.0.0/20")) [10; 1; 15; 7] = true ∧
  Contains (default (MkIPNet [] 0) (ParseCIDR "10.1.0.0/20")) [10; 1; 16; 7] = false ∧
  ParseCIDR "10.0.0.0/33" = None.
Proof. vm_compute. done. Qed.
