(* ===== verification/FabricNode.v ===== *)
(** * The node agent's FabricNode

    src/pkg/agent/fabricnode/fabricnode.go and pod.go: the status of the FabricNode of a
    node, computed from its interfaces, their LLDP neighbours and its pods, and the
    reconciler that writes it.  What the kernel, lldpcli, the API server and the
    Kubernetes libraries answer are inputs. *)
From stdpp Require Import base gmap list numbers strings.
From Stdlib Require Import ZArith.
From S2P Require Import Prelude GoStrings GoNumbers GoText GoNet GoPath Api Lldp InterfaceSelector.
Local Open Scope Z_scope.

(** ** Objects *)
Record OwnerRef := MkOwnerRef {
  Owner_APIVersion : string;
  Owner_Kind : string;
  Owner_Namespace : string;
  Owner_Name : string
}.

Record RdmaPod := MkRdmaPod {
  RP_Namespace : string;
  RP_Name : string;
  ContainerList : list string;
  HostRDMA : bool;
  RP_TopOwner : option OwnerRef
}.

Record FabricNodeStatus := MkStatus {
  ST_Conditions : list v1beta1.Condition;
  TotalNics : Z;
  RdmaPods : list RdmaPod;
  ST_ScaleOutNics : list v1beta1.NicInfo;
  ST_StorageNics : list v1beta1.NicInfo;
  ST_NodeRole : string;
  NodeIP : string;
  ST_Topologies : list string
}.

Definition zeroStatus : FabricNodeStatus := MkStatus [] 0 [] [] [] "" "" [].

(** The parts of the object the agent reads or writes; an owner is a Node and its
    UID. *)
Record fabricNode := MkFabricNodeObject {
  Object_Name : string;
  Object_Annotations : gmap string string;
  Object_Owners : list (string * string);
  Object_Status : FabricNodeStatus
}.

#[export] Instance LLDPNeighbor_eq_dec : EqDecision v1beta1.LLDPNeighbor.
Proof. solve_decision. Defined.
#[export] Instance NicInfo_eq_dec : EqDecision v1beta1.NicInfo.
Proof. solve_decision. Defined.
#[export] Instance OwnerRef_eq_dec : EqDecision OwnerRef.
Proof. solve_decision. Defined.

Definition set_conditions v (s : FabricNodeStatus) : FabricNodeStatus :=
  MkStatus v (TotalNics s) (RdmaPods s) (ST_ScaleOutNics s) (ST_StorageNics s) (ST_NodeRole s) (NodeIP s) (ST_Topologies s).
Definition set_total v (s : FabricNodeStatus) : FabricNodeStatus :=
  MkStatus (ST_Conditions s) v (RdmaPods s) (ST_ScaleOutNics s) (ST_StorageNics s) (ST_NodeRole s) (NodeIP s) (ST_Topologies s).
Definition set_pods v (s : FabricNodeStatus) : FabricNodeStatus :=
  MkStatus (ST_Conditions s) (TotalNics s) v (ST_ScaleOutNics s) (ST_StorageNics s) (ST_NodeRole s) (NodeIP s) (ST_Topologies s).
Definition set_scaleOut v (s : FabricNodeStatus) : FabricNodeStatus :=
  MkStatus (ST_Conditions s) (TotalNics s) (RdmaPods s) v (ST_StorageNics s) (ST_NodeRole s) (NodeIP s) (ST_Topologies s).
Definition set_storage v (s : FabricNodeStatus) : FabricNodeStatus :=
  MkStatus (ST_Conditions s) (TotalNics s) (RdmaPods s) (ST_ScaleOutNics s) v (ST_NodeRole s) (NodeIP s) (ST_Topologies s).
Definition set_role v (s : FabricNodeStatus) : FabricNodeStatus :=
  MkStatus (ST_Conditions s) (TotalNics s) (RdmaPods s) (ST_ScaleOutNics s) (ST_StorageNics s) v (NodeIP s) (ST_Topologies s).
Definition set_ip v (s : FabricNodeStatus) : FabricNodeStatus :=
  MkStatus (ST_Conditions s) (TotalNics s) (RdmaPods s) (ST_ScaleOutNics s) (ST_StorageNics s) (ST_NodeRole s) v (ST_Topologies s).

(** ** Conditions

    The condition helpers of the Kubernetes libraries, with what the code relies on. *)
Class StatusConditions := {
  SetStatusCondition : list v1beta1.Condition → v1beta1.Condition → list v1beta1.Condition * bool;
  RemoveStatusCondition : list v1beta1.Condition → string → list v1beta1.Condition * bool;
  FindStatusCondition : list v1beta1.Condition → string → option v1beta1.Condition
}.

Definition FabricNodeConditionReady : string := "Ready".
Definition FabricNodeConditionLLDPNeighborsReady : string := "LLDPNeighborsReady".
Definition FabricNodeReasonReady : string := "Ready".
Definition FabricNodeReasonConditionNotReady : string := "ConditionNotReady".
Definition FabricNodeReasonConditionUnknown : string := "ConditionUnknown".
Definition FabricNodeReasonLLDPNeighborsReady : string := "LLDPNeighborsReady".
Definition FabricNodeReasonLLDPNeighborMissing : string := "LLDPNeighborMissing".
Definition FabricNodeReasonDiscoveryFailed : string := "DiscoveryFailed".

(** A condition without times, as the code builds it. *)
Definition condition (type status reason message : string) : v1beta1.Condition := v1beta1.MkCondition type status 0 0 reason message.

(** ** Interfaces *)
Record netlinkLink := MkLink {
  Link_Name : string;
  Link_Type : string;
  EncapType : string;
  OperState : string;
  IsSriovVf : bool;
  RdmaDevice : option string;
  Link_Addrs : option (list netlinkAddr)
}.

Definition IsSupportedRdmaNetdeviceType (linkType : string) : bool :=
  bool_decide (linkType = "device") || bool_decide (linkType = "ipoib").

Definition IsInfiniBandNetdeviceType (linkType encapType : string) : bool :=
  bool_decide (linkType = "ipoib") || bool_decide (encapType = "infiniband").

(** [(&net.IPNet{IP: ip, Mask: mask}).String()] *)
Definition cidrString (addr : netlinkAddr) : string := IP_String (addr_IP addr) +:+ "/" +:+ Itoa (addr_ones addr).

Definition addAddress (nic : v1beta1.NicInfo) (addr : netlinkAddr) : v1beta1.NicInfo :=
  if IsLinkLocalUnicast (addr_IP addr) || IsLinkLocalMulticast (addr_IP addr) then nic
  else match To4 (addr_IP addr), To16 (addr_IP addr) with
  | Some _, _ =>
    v1beta1.MkNicInfo (v1beta1.Nic_Name nic) (v1beta1.RdmaDeviceName nic) (v1beta1.RDMA nic) (cidrString addr) (v1beta1.IPv6 nic)
      (v1beta1.State nic) (v1beta1.Nic_LLDPNeighbor nic)
  | None, Some _ =>
    v1beta1.MkNicInfo (v1beta1.Nic_Name nic) (v1beta1.RdmaDeviceName nic) (v1beta1.RDMA nic) (v1beta1.IPv4 nic) (cidrString addr)
      (v1beta1.State nic) (v1beta1.Nic_LLDPNeighbor nic)
  | None, None => nic
  end.

Inductive topologyNICClass := topologyNICClassNone | topologyNICClassScaleOut | topologyNICClassStorage.

(** The configuration of the reconciler. *)
(** ** The RDMA device of an interface (src/pkg/utils/rdma_linux.go)

    [EvalSymlinks] and [ReadDir] of the file system ([None] is an error), and the answer of the rdmamap
    library, which is asked first. *)
Definition SysClassNetDevicePath : string := "/sys/class/net".
Definition sysClassInfinibandDevicePath : string := "/sys/class/infiniband".

Section rdmaDevice.
Context (EvalSymlinks : string → option string) (ReadDir : string → option (list string)) (rdmamap : string → option string).

Definition getRdmaDeviceForNetdeviceBySysfsDeviceFromPaths (netdevName sysClassNetPath sysClassInfinibandPath : string) : option string :=
  netdevDevicePath ← EvalSymlinks (Join [sysClassNetPath; netdevName; "device"]);
  entries ← ReadDir sysClassInfinibandPath;
  snd <$> list_find (fun entry => EvalSymlinks (Join [sysClassInfinibandPath; entry; "device"]) = Some netdevDevicePath) entries.

Definition getRdmaDeviceForNetdeviceBySysfsDevice (netdevName : string) : option string :=
  getRdmaDeviceForNetdeviceBySysfsDeviceFromPaths netdevName SysClassNetDevicePath sysClassInfinibandDevicePath.

Definition GetRdmaDeviceForNetdevice (netdevName : string) : option string :=
  match rdmamap netdevName with
  | Some rdmaDevice => if decide (rdmaDevice = "") then getRdmaDeviceForNetdeviceBySysfsDevice netdevName else Some rdmaDevice
  | None => getRdmaDeviceForNetdeviceBySysfsDevice netdevName
  end.

(** [Lstat] says whether a path exists. *)
Definition IsSriovVfForNetDev (Lstat : string → bool) (iface : string) : bool :=
  Lstat (Join [SysClassNetDevicePath; iface; "device"; "physfn"]).

(** The links that carry RDMA, of their names and types. *)
Definition GetRdmaInterfaces (Lstat : string → bool) (links : list (string * string)) : list string :=
  fst <$> filter (fun '(name, linkType) => IsSupportedRdmaNetdeviceType linkType = true ∧ IsSriovVfForNetDev Lstat name = false ∧
    is_Some (GetRdmaDeviceForNetdevice name)) links.
End rdmaDevice.

Record reconciler := MkReconciler {
  nodeName : string;
  storageNode : bool;
  nodeIPProbeAddress : string;
  scaleOutRdmaPattern : RdmaInterfaceMethod;
  storageRdmaPattern : RdmaInterfaceMethod;
  scaleUpRdmaPattern : RdmaInterfaceMethod
}.

Section nics.
Context (matchRegexp : string → string → bool) (r : reconciler).

Definition classifyTopologyNIC (nic : v1beta1.NicInfo) (addrs : list netlinkAddr) : topologyNICClass :=
  if bool_decide (Method (storageRdmaPattern r) ≠ "") && matchInterface matchRegexp nic (storageRdmaPattern r) addrs then topologyNICClassStorage
  else if bool_decide (Method (scaleUpRdmaPattern r) ≠ "") && matchInterface matchRegexp nic (scaleUpRdmaPattern r) addrs then topologyNICClassNone
  else if bool_decide (Method (scaleOutRdmaPattern r) = "") || matchInterface matchRegexp nic (scaleOutRdmaPattern r) addrs then topologyNICClassScaleOut
  else topologyNICClassNone.

(** An interface the loop goes on with, and its addresses. *)
Definition nicOf (neighborsMap : option (gmap string v1beta1.LLDPNeighbor)) (l : netlinkLink) : option (v1beta1.NicInfo * list netlinkAddr) :=
  if negb (IsSupportedRdmaNetdeviceType (Link_Type l)) then None
  else if IsSriovVf l then None
  else
    rdmaDevice ← RdmaDevice l;
    addrs ← Link_Addrs l;
    let neighbor := default (v1beta1.MkLLDPNeighbor "" "" "" "" "") (neighborsMap ≫= lookup (Link_Name l)) in
    Some (foldl addAddress (v1beta1.MkNicInfo (Link_Name l) rdmaDevice true "" "" (OperState l) neighbor) addrs, addrs).

(** The two slices the loop appends to. *)
Definition addLink (neighborsMap : option (gmap string v1beta1.LLDPNeighbor)) (st : list v1beta1.NicInfo * list v1beta1.NicInfo) (l : netlinkLink)
    : list v1beta1.NicInfo * list v1beta1.NicInfo :=
  let '(scaleOut, storage) := st in
  match nicOf neighborsMap l with
  | None => st
  | Some (nic, addrs) =>
    match classifyTopologyNIC nic addrs with
    | topologyNICClassStorage => (scaleOut, storage ++ [nic])
    | topologyNICClassScaleOut => (scaleOut ++ [nic], storage)
    | topologyNICClassNone => st
    end
  end.

(** The names that need no LLDP neighbour: the map is filled before the addresses are
    listed. *)
Definition lldpOptional (links : list netlinkLink) : list string :=
  Link_Name <$> filter (fun l => IsSupportedRdmaNetdeviceType (Link_Type l) = true ∧ IsSriovVf l = false ∧ is_Some (RdmaDevice l) ∧
    IsInfiniBandNetdeviceType (Link_Type l) (EncapType l) = true) links.
End nics.

Section conditions.
Context `{StatusConditions}.

(** [err] is the text of the discovery error. *)
Definition setLLDPNeighborsReadyCondition (status : FabricNodeStatus) (totalNics : Z) (nics : list v1beta1.NicInfo)
    (lldpOptionalInterfaces : list string) (discoveryErr : option string) : FabricNodeStatus * bool :=
  let put c := let '(conditions, changed) := SetStatusCondition (ST_Conditions status) c in (set_conditions conditions status, changed) in
  if decide (totalNics = 0) then
    let '(conditions, changed) := RemoveStatusCondition (ST_Conditions status) FabricNodeConditionLLDPNeighborsReady in
    (set_conditions conditions status, changed)
  else
    let lldpRequiredNics := filter (fun nic => v1beta1.Nic_Name nic ∉ lldpOptionalInterfaces) nics in
    let ready message := condition FabricNodeConditionLLDPNeighborsReady "True" FabricNodeReasonLLDPNeighborsReady message in
    if decide (lldpRequiredNics = []) then put (ready "Selected RDMA interfaces do not require LLDP neighbors")
    else match discoveryErr with
    | Some err => put (condition FabricNodeConditionLLDPNeighborsReady "Unknown" FabricNodeReasonDiscoveryFailed
                    ("Failed to discover LLDP neighbors: " +:+ err))
    | None =>
      let missing := v1beta1.Nic_Name <$> filter (fun nic => v1beta1.State nic = "up" ∧ v1beta1.Hostname (v1beta1.Nic_LLDPNeighbor nic) = "") lldpRequiredNics in
      if decide (missing = []) then put (ready "All selected RDMA interfaces have LLDP neighbors")
      else put (condition FabricNodeConditionLLDPNeighborsReady "False" FabricNodeReasonLLDPNeighborMissing
             ("Selected RDMA interfaces are missing LLDP neighbors: " +:+ join ", " missing))
    end.

(** The loop of [updateReadyCondition], which stops at the first condition that is
    False. *)
Fixpoint readyLoop (ready : v1beta1.Condition) (conditions : list v1beta1.Condition) : v1beta1.Condition :=
  match conditions with
  | [] => ready
  | c :: conditions =>
    if decide (v1beta1.C_Type c = FabricNodeConditionReady) then readyLoop ready conditions
    else if decide (v1beta1.C_Status c = "False") then
      condition FabricNodeConditionReady "False" FabricNodeReasonConditionNotReady (v1beta1.C_Type c +:+ " is not ready: " +:+ v1beta1.Message c)
    else if decide (v1beta1.C_Status c = "Unknown" ∧ v1beta1.C_Status ready ≠ "False") then
      readyLoop (condition FabricNodeConditionReady "Unknown" FabricNodeReasonConditionUnknown
        (v1beta1.C_Type c +:+ " readiness is unknown: " +:+ v1beta1.Message c)) conditions
    else readyLoop ready conditions
  end.

Definition readyCondition (conditions : list v1beta1.Condition) : v1beta1.Condition :=
  readyLoop (condition FabricNodeConditionReady "True" FabricNodeReasonReady "All FabricNode conditions are ready") conditions.

Definition updateReadyCondition (status : FabricNodeStatus) : FabricNodeStatus * bool :=
  let '(conditions, changed) := SetStatusCondition (ST_Conditions status) (readyCondition (ST_Conditions status)) in
  (set_conditions conditions status, changed).

(** An event of the recorder. *)
Record event := MkEvent {
  event_type : string;
  event_reason : string;
  event_message : string
}.

Definition emitLLDPNeighborsReadyEventLocked (cached : option fabricNode) (object : fabricNode) : list event :=
  match FindStatusCondition (ST_Conditions (Object_Status object)) FabricNodeConditionLLDPNeighborsReady with
  | None => []
  | Some current =>
    let previous := cached ≫= fun c => FindStatusCondition (ST_Conditions (Object_Status c)) FabricNodeConditionLLDPNeighborsReady in
    let previousStatus := v1beta1.C_Status <$> previous in
    if decide (previousStatus = Some (v1beta1.C_Status current) ∧ v1beta1.Reason <$> previous = Some (v1beta1.Reason current)) then []
    else if decide (v1beta1.C_Status current = "True") then
      if decide (previousStatus = Some "True") then []
      else [MkEvent "Normal" FabricNodeReasonLLDPNeighborsReady "LLDP neighbors are ready"]
    else if decide (previousStatus = None ∨ previousStatus = Some "True") then
      let reason := if decide (v1beta1.Reason current = FabricNodeReasonDiscoveryFailed) then "LLDPDiscoveryFailed" else v1beta1.Reason current in
      [MkEvent "Warning" reason ("LLDP neighbors are not ready: " +:+ v1beta1.Message current)]
    else []
  end.
End conditions.
