(* ===== verification/FabricNodePods.v ===== *)
(** * RDMA pods and the reconciler of the FabricNode

    src/pkg/agent/fabricnode/pod.go and the rest of fabricnode.go: the RDMA pods of a
    node, one reconciliation as a function from what the world answers to what is
    written, and the loop around it. *)
From stdpp Require Import base gmap list numbers strings.
From Stdlib Require Import ZArith.
From S2P Require Import Prelude GoStrings GoNumbers GoText GoNet Config Api Lldp InterfaceSelector FabricNode.
Local Open Scope Z_scope.

(** ** Pods *)
Record OwnerReference := MkOwnerReference {
  OR_APIVersion : string;
  OR_Kind : string;
  OR_Name : string
}.

Record Container := MkContainer {
  Privileged : option bool;
  VolumeMounts : list string
}.

Record Pod := MkPod {
  Pod_Name : string;
  Pod_Namespace : string;
  Pod_Annotations : gmap string string;
  Pod_Owners : list OwnerReference;
  HostNetwork : bool;
  Containers : list Container;
  ContainerIDs : list string;
  Phase : string
}.

Record Object := MkObject {
  GetNamespace : string;
  GetOwnerReferences : list OwnerReference
}.

Definition NetworkStatusAnnotation : string := "k8s.v1.cni.cncf.io/network-status".

Definition isSriovRDMA (pod : Pod) : bool := contains (default "" (Pod_Annotations pod !! NetworkStatusAnnotation)) "rdma-device".

Definition getContainerList (pod : Pod) : list string := filter (fun id => id ≠ "") (ContainerIDs pod).

Definition isHostRDMA (pod : Pod) : bool :=
  HostNetwork pod &&
  existsb (fun container => default false (Privileged container) && existsb (fun m => bool_decide (m = "/dev/infiniband")) (VolumeMounts container))
    (Containers pod).

Definition isContainerListEqual (old new : list string) : bool :=
  bool_decide (length old = length new) && forallb (fun id => bool_decide (id ∈ old)) new.

Definition isOwnerRefEqual (a b : option OwnerRef) : bool := bool_decide (a = b).

Definition podKey (pod : RdmaPod) : string := RP_Namespace pod +:+ "/" +:+ RP_Name pod.

(** The map of the old pods; a later one replaces an earlier one with its key. *)
Definition podsByKey (old : list RdmaPod) : gmap string RdmaPod := foldl (fun m pod => <[podKey pod := pod]> m) ∅ old.

Definition samePod (oldPods : gmap string RdmaPod) (pod : RdmaPod) : bool :=
  match oldPods !! podKey pod with
  | None => false
  | Some oldPod =>
    bool_decide (HostRDMA oldPod = HostRDMA pod) && isContainerListEqual (ContainerList oldPod) (ContainerList pod) &&
    isOwnerRefEqual (RP_TopOwner oldPod) (RP_TopOwner pod)
  end.

Definition isRdmaPodsEqual (old new : list RdmaPod) : bool :=
  bool_decide (length old = length new) && forallb (samePod (podsByKey old)) new.

Section owners.
(** [client.Get] by API version, kind, namespace and name. *)
Context (Get : string → string → string → string → option Object).

(** The loop of [getTopOwner], which has no bound of its own. *)
Fixpoint topOwner (fuel : nat) (lastOwnerRef : option OwnerRef) (obj : Object) : go unit (option OwnerRef) :=
  match fuel with
  | O => OutOfFuel
  | S fuel =>
    match GetOwnerReferences obj with
    | [] => Ret lastOwnerRef
    | ownerRef :: _ =>
      match Get (OR_APIVersion ownerRef) (OR_Kind ownerRef) (GetNamespace obj) (OR_Name ownerRef) with
      | None => Ret None
      | Some ownerObj =>
        topOwner fuel (Some (MkOwnerRef (OR_APIVersion ownerRef) (OR_Kind ownerRef) (GetNamespace obj) (OR_Name ownerRef))) ownerObj
      end
    end
  end.

Definition getTopOwner (fuel : nat) (obj : Object) : go unit (option OwnerRef) := topOwner fuel None obj.

Definition isPodRunning (pod : Pod) : bool := bool_decide (Phase pod = "Running").

Definition addRdmaPod (fuel : nat) (rdmaPods : list RdmaPod) (pod : Pod) : go unit (list RdmaPod) :=
  if isPodRunning pod && (isSriovRDMA pod || isHostRDMA pod) then
    owner ← getTopOwner fuel (MkObject (Pod_Namespace pod) (Pod_Owners pod));
    Ret (rdmaPods ++ [MkRdmaPod (Pod_Namespace pod) (Pod_Name pod) (getContainerList pod) (isHostRDMA pod) owner])
  else Ret rdmaPods.

(** [None] is a failed list; the answer is the status, whether it changed, and whether
    the call failed. *)
Definition updateRdmaPodsStatus (fuel : nat) (pods : option (list Pod)) (status : FabricNodeStatus) : go unit (FabricNodeStatus * bool) :=
  match pods with
  | None => Ret (status, false)
  | Some pods =>
    rdmaPods ← go_foldl (addRdmaPod fuel) [] pods;
    Ret (if isRdmaPodsEqual (RdmaPods status) rdmaPods then (status, false) else (set_pods rdmaPods status, true))
  end.
End owners.

(** An answer of the API server to a Get. *)
Inductive getAnswer (A : Type) := Found (a : A) | NotFound | GetFailed.
Arguments Found {A}.
Arguments NotFound {A}.
Arguments GetFailed {A}.

(** ** The status *)
Section status.
Context `{StatusConditions} (matchRegexp : string → string → bool) (r : reconciler).

(** What lldpcli answers: the neighbours, or the text of the error. *)
Definition lldpAnswer : Type := gmap string v1beta1.LLDPNeighbor + string.

Definition selectNics (lldp : lldpAnswer) (links : list netlinkLink) : list v1beta1.NicInfo * list v1beta1.NicInfo :=
  foldl (addLink matchRegexp r (match lldp with inl m => Some m | inr _ => None end)) ([], []) links.

(** [inr] of the links is the text of the error of listing them. *)
Definition updateTopologyStatus (lldp : lldpAnswer) (links : list netlinkLink + string) (status : FabricNodeStatus) : FabricNodeStatus * bool :=
  match links with
  | inr err =>
    let '(conditions, changed) := SetStatusCondition (ST_Conditions status)
      (condition FabricNodeConditionLLDPNeighborsReady "Unknown" FabricNodeReasonDiscoveryFailed
         ("Failed to list network interfaces: " +:+ err)) in
    (set_conditions conditions status, changed)
  | inl links =>
    let '(scaleOutNics, storageNics) := selectNics lldp links in
    let totalNics := Z.of_nat (length scaleOutNics + length storageNics) in
    let '(status, changed) := setLLDPNeighborsReadyCondition status totalNics (scaleOutNics ++ storageNics) (lldpOptional links)
      (match lldp with inl _ => None | inr err => Some err end) in
    let '(status, changed) := if decide (TotalNics status ≠ totalNics) then (set_total totalNics status, true) else (status, changed) in
    let '(status, changed) := if decide (ST_ScaleOutNics status ≠ scaleOutNics) then (set_scaleOut scaleOutNics status, true) else (status, changed) in
    if decide (ST_StorageNics status ≠ storageNics) then (set_storage storageNics status, true) else (status, changed)
  end.

Definition updateNodeRole (status : FabricNodeStatus) : FabricNodeStatus * bool :=
  let role := if storageNode r then v1beta1.NodeRoleStorage else v1beta1.NodeRoleGPU in
  if decide (ST_NodeRole status ≠ role) then (set_role role status, true) else (status, false).

(** [local] is the local address of a UDP socket towards the probe, if there is one. *)
Definition updateNodeIP (local : option IP) (status : FabricNodeStatus) : FabricNodeStatus * bool :=
  if decide (nodeIPProbeAddress r = "") then (status, false)
  else match local with
  | None => (status, false)
  | Some ip =>
    let text := IP_String ip in
    if decide (text = "" ∨ text = NodeIP status) then (status, false) else (set_ip text status, true)
  end.

(** ** One reconciliation *)

(** What the world answers while [doReconcile] runs. *)
Record answers := MkAnswers {
  a_fabricNode : getAnswer fabricNode;
  a_nodeUID : getAnswer string;
  a_createOk : bool;
  a_updateOk : bool;
  a_statusOk : bool;
  a_started : bool;
  a_lldp : lldpAnswer;
  a_links : list netlinkLink + string;
  a_pods : option (list Pod);
  a_local : option IP
}.

(** What the reconciler does to the API server. *)
Inductive effect :=
| CreateNode (object : fabricNode)
| UpdateNode (object : fabricNode)
| UpdateStatus (object : fabricNode)
| DeleteNode (object : fabricNode)
| Emit (e : event).

Definition with_status (status : FabricNodeStatus) (object : fabricNode) : fabricNode :=
  MkFabricNodeObject (Object_Name object) (Object_Annotations object) (Object_Owners object) status.

(** The object and whether an owner was added; a failed read leaves it as it is. *)
Definition ensureNodeOwnerReference (nodeUID : getAnswer string) (object : fabricNode) : fabricNode * bool :=
  if storageNode r || bool_decide (Object_Owners object ≠ []) then (object, false)
  else match nodeUID with
  | Found uid => (MkFabricNodeObject (Object_Name object) (Object_Annotations object) [(nodeName r, uid)] (Object_Status object), true)
  | _ => (object, false)
  end.

Context (Get : string → string → string → string → option Object) (fuel : nat).

(** The status [doReconcile] computes for an object, and whether it differs. *)
Definition reconcileStatus (a : answers) (status : FabricNodeStatus) : go unit (FabricNodeStatus * bool) :=
  let '(status, topologyNeedUpdate) := if a_started a then updateTopologyStatus (a_lldp a) (a_links a) status else (status, false) in
  '(status, rdmaPodNeedUpdate) ← (if storageNode r then Ret (status, false) else updateRdmaPodsStatus Get fuel (a_pods a) status);
  let '(status, roleChanged) := updateNodeRole status in
  let '(status, ipChanged) := updateNodeIP (a_local a) status in
  let '(status, readyChanged) := updateReadyCondition status in
  Ret (status, rdmaPodNeedUpdate || topologyNeedUpdate || roleChanged || ipChanged || readyChanged).

(** The effects, and the cached object afterwards; the cache is kept when a call
    fails. *)
Definition doReconcile (a : answers) (cached : option fabricNode) : go unit (list effect * option fabricNode) :=
  match a_fabricNode a with
  | GetFailed => Ret ([], cached)
  | found =>
    let object := match found with Found o => o | _ => MkFabricNodeObject (nodeName r) ∅ [] zeroStatus end in
    let exists_ := match found with Found _ => true | _ => false end in
    let '(object, ownerRefAdded) := ensureNodeOwnerReference (a_nodeUID a) object in
    let writes := if negb exists_ then [CreateNode object] else if (ownerRefAdded : bool) then [UpdateNode object] else [] in
    if (negb exists_ && negb (a_createOk a)) || (exists_ && ownerRefAdded && negb (a_updateOk a)) then Ret (writes, cached)
    else
      '(status, changed) ← reconcileStatus a (Object_Status object);
      let object := with_status status object in
      let events := Emit <$> emitLLDPNeighborsReadyEventLocked cached object in
      if (changed : bool) then
        if a_statusOk a then Ret (writes ++ events ++ [UpdateStatus object], Some object)
        else Ret (writes ++ events ++ [UpdateStatus object], cached)
      else Ret (writes ++ events, Some object)
  end.

(** What is done on behalf of a storage node when the agent ends, and for a node that is gone: the
    effects, and whether the call succeeded. *)
Definition cleanupStorageNodeFabricNode (got : getAnswer fabricNode) : list effect :=
  match got with Found object => [DeleteNode object] | _ => [] end.

Definition handleNodeDeletion (got : getAnswer fabricNode) (deleteOk : bool) : list effect * bool :=
  match got with
  | GetFailed => ([], false)
  | NotFound => ([], true)
  | Found object => ([DeleteNode object], deleteOk)
  end.

(** One round of the loop, for a tick or a signal; its error is logged. *)
Definition reconcileRound (st : list effect * option fabricNode) (a : answers) : go unit (list effect * option fabricNode) :=
  '(effects, cached) ← doReconcile a st.2; Ret (st.1 ++ effects, cached).

(** The loop: a reconciliation at once and one for each tick or signal until the context ends, when
    [got] is read for the cleanup.  [time.NewTicker] panics when the interval is not positive. *)
Definition reconcileLoop (refreshInterval : Z) (first : answers) (rounds : list answers) (got : getAnswer fabricNode) : go unit (list effect) :=
  if decide (refreshInterval ≤ 0) then Panic
  else
    '(effects, _) ← go_foldl reconcileRound ([], None) (first :: rounds);
    Ret (effects ++ if storageNode r then cleanupStorageNodeFabricNode got else []).

(** The cached object answers [IsStorageLeader] and [GetFabricNode]. *)
Definition IsStorageLeader (cached : option fabricNode) : bool :=
  match cached with
  | None => false
  | Some object => bool_decide (Object_Annotations object !! "unifabric.io/storage-node-leader" = Some "true")
  end.

Definition GetFabricNode (cached : option fabricNode) : option fabricNode := cached.
End status.

(** [checkAndSetStorageLeader] on the roles the other FabricNodes report. *)
Definition checkAndSetStorageLeader (nodeName : string) (items : list v1beta1.FabricNode) : bool :=
  negb (existsb (fun fn => bool_decide (v1beta1.FN_Name fn ≠ nodeName) && bool_decide (v1beta1.NodeRole fn = v1beta1.NodeRoleStorage)) items).

(** [Reconcile] only wakes the loop: the channel holds one signal, further ones are
    dropped. *)
Definition Reconcile (reconcileChan : nat) : nat := if decide (reconcileChan < 1)%nat then S reconcileChan else reconcileChan.

(** ** A new reconciler

    [NewFabricNodeController] up to its registration: the reconciler, the interval of its loop and the time of
    its first scan of the interfaces, or an error. *)
Inductive newError := LldpcliUnavailable (e : lldpError) | UnexpectedInterval (field value : string) | InvalidPattern (pattern : string).

Definition parsePattern (selector : string) : go newError RdmaInterfaceMethod :=
  if decide (selector = "") then Ret noMethod
  else match CheckOrParsePattern noMethod selector with
  | Some m => Ret m
  | None => Err (InvalidPattern selector)
  end.

Definition parseInterval (field value : string) : go newError Z :=
  match ParseDuration value with
  | Some d => Ret d
  | None => Err (UnexpectedInterval field value)
  end.

Definition NewFabricNodeController (lldpcli : go lldpError unit) (now : Z) (cfg : AgentConfig) : go newError (reconciler * Z * Z) :=
  let discovery := AG_NodeTopologyDiscovery cfg in
  match lldpcli with
  | Ret _ =>
    refreshInterval ← parseInterval "nodeTopologyDiscovery.refreshInterval" (NT_RefreshInterval discovery);
    initialScanDelay ← parseInterval "nodeTopologyDiscovery.initialScanDelay" (NT_InitialScanDelay discovery);
    scaleOut ← parsePattern (NT_ScaleOutInterfaceSelector discovery);
    storage ← parsePattern (NT_StorageInterfaceSelector discovery);
    scaleUp ← parsePattern (NT_ScaleUpInterfaceSelector discovery);
    Ret (MkReconciler (AN_Name (AG_Node cfg)) (bool_decide (AN_Role (AG_Node cfg) = AgentNodeRoleStorage))
           (DefaultRouteProbe (AG_Node cfg)) scaleOut storage scaleUp, refreshInterval, now + initialScanDelay)
  | Err e => Err (LldpcliUnavailable e)
  | Panic => Panic
  | OutOfFuel => OutOfFuel
  end.
