(* ===== verification/FabricNodeProperties.v ===== *)
(** * Properties of the node agent

    The claim about src/pkg/agent/fabricnode: a reconciliation computes a status that the
    next one leaves alone.  Further theorems record where the code departs from its
    documentation. *)
From stdpp Require Import base gmap list numbers strings.
From Stdlib Require Import ZArith.
From S2P Require Import Prelude GoStrings GoNumbers GoText GoNet GoPath Api Config Lldp InterfaceSelector FabricNode FabricNodePods.
Local Open Scope Z_scope.

(** ** Conditions *)

(** What [SetStatusCondition] compares. *)
Definition same_condition (c0 c : v1beta1.Condition) : Prop :=
  v1beta1.C_Status c0 = v1beta1.C_Status c ∧ v1beta1.Reason c0 = v1beta1.Reason c ∧ v1beta1.Message c0 = v1beta1.Message c ∧
  v1beta1.ObservedGeneration c0 = v1beta1.ObservedGeneration c.

Definition others (t : string) (l : list v1beta1.Condition) : list v1beta1.Condition := filter (fun c => v1beta1.C_Type c ≠ t) l.

(** Documented behaviour of the helpers: setting a condition changes nothing exactly when
    it is there already, replaces or adds that condition otherwise, and never touches the
    others; removing one leaves the others. *)
Class ConditionLaws (SC : StatusConditions) : Prop := {
  set_same l c c0 : FindStatusCondition l (v1beta1.C_Type c) = Some c0 → same_condition c0 c → SetStatusCondition l c = (l, false);
  set_found l c : ∃ c0, FindStatusCondition (SetStatusCondition l c).1 (v1beta1.C_Type c) = Some c0 ∧ same_condition c0 c;
  set_others l c : others (v1beta1.C_Type c) (SetStatusCondition l c).1 = others (v1beta1.C_Type c) l;
  remove_none l t : FindStatusCondition l t = None → RemoveStatusCondition l t = (l, false);
  remove_found l t : FindStatusCondition (RemoveStatusCondition l t).1 t = None;
  remove_others l t : others t (RemoveStatusCondition l t).1 = others t l;
  set_kept l c : (SetStatusCondition l c).2 = false → (SetStatusCondition l c).1 = l;
  remove_kept l t : (RemoveStatusCondition l t).2 = false → (RemoveStatusCondition l t).1 = l;
  find_others l l' t t' : others t l = others t l' → t' ≠ t → FindStatusCondition l t' = FindStatusCondition l' t'
}.

(** An implementation with a fixed time. *)
Definition set_condition (now : Z) (l : list v1beta1.Condition) (c : v1beta1.Condition) : list v1beta1.Condition * bool :=
  match head (filter (fun c0 => v1beta1.C_Type c0 = v1beta1.C_Type c) l) with
  | None => (l ++ [v1beta1.MkCondition (v1beta1.C_Type c) (v1beta1.C_Status c) (v1beta1.ObservedGeneration c) now (v1beta1.Reason c) (v1beta1.Message c)], true)
  | Some c0 =>
    if decide (v1beta1.C_Status c0 = v1beta1.C_Status c ∧ v1beta1.Reason c0 = v1beta1.Reason c ∧ v1beta1.Message c0 = v1beta1.Message c ∧
               v1beta1.ObservedGeneration c0 = v1beta1.ObservedGeneration c) then (l, false)
    else ((fun c' => if decide (v1beta1.C_Type c' = v1beta1.C_Type c) then
             v1beta1.MkCondition (v1beta1.C_Type c) (v1beta1.C_Status c) (v1beta1.ObservedGeneration c) now (v1beta1.Reason c) (v1beta1.Message c)
           else c') <$> l, true)
  end.

Definition library (now : Z) : StatusConditions := {|
  SetStatusCondition := set_condition now;
  RemoveStatusCondition l t := (others t l, bool_decide (others t l ≠ l));
  FindStatusCondition l t := head (filter (fun c => v1beta1.C_Type c = t) l)
|}.

Lemma find_split l t t' : t' ≠ t → filter (fun c => v1beta1.C_Type c = t') l = filter (fun c => v1beta1.C_Type c = t') (others t l).
Proof.
  intros Ht. unfold others. rewrite list_filter_filter. apply list_filter_iff. intros c. split; [|tauto]. by intros ->.
Qed.

Definition of_type (t : string) (l : list v1beta1.Condition) : list v1beta1.Condition := filter (fun c => v1beta1.C_Type c = t) l.

(** The condition a list gets. *)
Definition stamped (now : Z) (c : v1beta1.Condition) : v1beta1.Condition :=
  v1beta1.MkCondition (v1beta1.C_Type c) (v1beta1.C_Status c) (v1beta1.ObservedGeneration c) now (v1beta1.Reason c) (v1beta1.Message c).

Definition replaced (now : Z) (c : v1beta1.Condition) (l : list v1beta1.Condition) : list v1beta1.Condition :=
  (fun c' => if decide (v1beta1.C_Type c' = v1beta1.C_Type c) then stamped now c else c') <$> l.

Lemma of_type_replaced now c l c0 : head (of_type (v1beta1.C_Type c) l) = Some c0 →
  head (of_type (v1beta1.C_Type c) (replaced now c l)) = Some (stamped now c).
Proof.
  unfold of_type, replaced. induction l as [|x l IH]; [done|]. cbn [fmap list_fmap].
  destruct (decide (v1beta1.C_Type x = v1beta1.C_Type c)) as [Hx|Hx].
  - by rewrite (filter_cons_True _ (stamped now c)).
  - rewrite !filter_cons_False by done. apply IH.
Qed.

Lemma others_replaced now c l : others (v1beta1.C_Type c) (replaced now c l) = others (v1beta1.C_Type c) l.
Proof.
  unfold others, replaced. induction l as [|x l IH]; [done|]. cbn [fmap list_fmap].
  destruct (decide (v1beta1.C_Type x = v1beta1.C_Type c)) as [Hx|Hx].
  - rewrite (filter_cons_False _ (stamped now c)), filter_cons_False by (unfold stamped; cbn; tauto). done.
  - rewrite !filter_cons_True by done. by rewrite IH.
Qed.

Lemma others_none l t : of_type t l = [] → others t l = l.
Proof.
  unfold of_type, others. induction l as [|x l IH]; [done|]. destruct (decide (v1beta1.C_Type x = t)) as [Hx|Hx].
  - by rewrite filter_cons_True.
  - rewrite filter_cons_False, filter_cons_True by done. intros Hf. by rewrite IH.
Qed.

#[export] Instance library_laws now : ConditionLaws (library now).
Proof.
  split; cbn [SetStatusCondition RemoveStatusCondition FindStatusCondition library fst].
  - intros l c c0 Hf Hs. unfold set_condition. rewrite Hf. by rewrite decide_True.
  - intros l c. unfold set_condition. destruct (head (filter (fun c0 => v1beta1.C_Type c0 = v1beta1.C_Type c) l)) as [c0|] eqn:Hf.
    + case_decide as Hs; [by exists c0|]. exists (stamped now c). split; [|done]. by eapply of_type_replaced.
    + apply head_None in Hf. exists (stamped now c). split; [|done]. cbn [fst]. rewrite filter_app, Hf.
      by rewrite filter_cons_True.
  - intros l c. unfold set_condition. destruct (head _) as [c0|]; [case_decide; [done|]; apply others_replaced|].
    cbn [fst]. unfold others. rewrite filter_app, (filter_cons_False _ _ []), filter_nil, app_nil_r by (cbn; tauto). done.
  - intros l t Hf. apply head_None in Hf. rewrite (others_none l t Hf). by rewrite bool_decide_eq_false_2 by tauto.
  - intros l t. unfold others. rewrite list_filter_filter.
    destruct (filter _ l) as [|x k] eqn:Hx; [done|]. assert (x ∈ x :: k) as Hin by left. rewrite <- Hx in Hin.
    apply list_elem_of_filter in Hin. tauto.
  - intros l t. unfold others. rewrite list_filter_filter. apply list_filter_iff. tauto.
  - intros l c. unfold set_condition. destruct (head _) as [c0|]; [case_decide; [done|]|]; done.
  - intros l t Hb. apply bool_decide_eq_false in Hb. by apply dec_stable in Hb.
  - intros l l' t t' Ho Ht. by rewrite (find_split l t t'), (find_split l' t t'), Ho.
Qed.

(** ** Idempotence *)
Section idempotent.
Context `{SC : StatusConditions} {Laws : ConditionLaws SC}.

(** A condition that was set is there, whatever happened to another one since. *)
Lemma set_again l l' c t : t ≠ v1beta1.C_Type c → others t l' = others t (SetStatusCondition l c).1 → SetStatusCondition l' c = (l', false).
Proof.
  intros Ht Ho. destruct (set_found l c) as (c0 & Hf & Hs). eapply set_same; [|done].
  by rewrite (find_others l' (SetStatusCondition l c).1 t).
Qed.

Lemma readyLoop_others r l : readyLoop r l = readyLoop r (others FabricNodeConditionReady l).
Proof.
  revert r. induction l as [|c l IH]; intros r; [done|]. unfold others. cbn [readyLoop].
  destruct (decide (v1beta1.C_Type c = FabricNodeConditionReady)) as [Hc|Hc].
  - rewrite filter_cons_False by tauto. apply IH.
  - rewrite filter_cons_True by done. cbn [readyLoop]. rewrite !(decide_False (P:=v1beta1.C_Type c = _)) by done.
    case_decide; [done|]. case_decide; apply IH.
Qed.

Lemma readyCondition_others l l' :
  others FabricNodeConditionReady l = others FabricNodeConditionReady l' → readyCondition l = readyCondition l'.
Proof. intros Ho. unfold readyCondition. by rewrite readyLoop_others, Ho, <- readyLoop_others. Qed.

Lemma readyLoop_type r l : v1beta1.C_Type r = FabricNodeConditionReady → v1beta1.C_Type (readyLoop r l) = FabricNodeConditionReady.
Proof.
  revert r. induction l as [|c l IH]; intros r Hr; [done|]. cbn [readyLoop]. repeat case_decide; auto.
Qed.

Lemma readyCondition_type l : v1beta1.C_Type (readyCondition l) = FabricNodeConditionReady.
Proof. by apply readyLoop_type. Qed.

Lemma updateReady_again s s' b : updateReadyCondition s = (s', b) →
  others FabricNodeConditionReady (ST_Conditions s') = others FabricNodeConditionReady (ST_Conditions s) ∧
  s' = set_conditions (ST_Conditions s') s ∧ updateReadyCondition s' = (s', false).
Proof.
  unfold updateReadyCondition. destruct (SetStatusCondition (ST_Conditions s) _) as [l b0] eqn:Hset. intros [= <- <-].
  pose proof (set_others (ST_Conditions s) (readyCondition (ST_Conditions s))) as Ho. rewrite Hset in Ho. cbn [fst] in Ho.
  rewrite readyCondition_type in Ho. split; [done|]. split; [done|]. cbn [ST_Conditions set_conditions].
  rewrite (readyCondition_others l (ST_Conditions s) Ho).
  destruct (set_found (ST_Conditions s) (readyCondition (ST_Conditions s))) as (c0 & Hf & Hs). rewrite Hset in Hf.
  by rewrite (set_same l _ c0 Hf Hs).
Qed.

(** The same, for the condition on the neighbours. *)
Lemma setLLDP_again s s1 s' total nics optional err b :
  setLLDPNeighborsReadyCondition s total nics optional err = (s1, b) →
  others FabricNodeConditionReady (ST_Conditions s') = others FabricNodeConditionReady (ST_Conditions s1) →
  setLLDPNeighborsReadyCondition s' total nics optional err = (s', false).
Proof.
  assert (FabricNodeConditionReady ≠ FabricNodeConditionLLDPNeighborsReady) as Hne by done.
  assert (∀ c l, v1beta1.C_Type c = FabricNodeConditionLLDPNeighborsReady →
    others FabricNodeConditionReady l = others FabricNodeConditionReady (SetStatusCondition (ST_Conditions s) c).1 →
    SetStatusCondition l c = (l, false)) as Hset.
  { intros c l Hc Ho. eapply set_again; [|done]. by rewrite Hc. }
  assert (∀ c, v1beta1.C_Type c = FabricNodeConditionLLDPNeighborsReady →
    (let '(conditions, changed) := SetStatusCondition (ST_Conditions s) c in (set_conditions conditions s, changed)) = (s1, b) →
    others FabricNodeConditionReady (ST_Conditions s') = others FabricNodeConditionReady (ST_Conditions s1) →
    (let '(conditions, changed) := SetStatusCondition (ST_Conditions s') c in (set_conditions conditions s', changed)) = (s', false)) as Hput.
  { intros c Hc Hs1 Ho. rewrite (Hset c (ST_Conditions s') Hc); [by destruct s'|]. rewrite Ho.
    destruct (SetStatusCondition (ST_Conditions s) c). by simplify_eq. }
  unfold setLLDPNeighborsReadyCondition. intros Hs1 Ho. case_decide.
  { pose proof (remove_found (ST_Conditions s) FabricNodeConditionLLDPNeighborsReady) as Hrem.
    destruct (RemoveStatusCondition (ST_Conditions s) _) as [l b0]. simplify_eq. cbn in Ho, Hrem.
    rewrite remove_none; [by destruct s'|]. by rewrite (find_others _ l FabricNodeConditionReady). }
  cbn zeta in Hs1 |- *. case_decide; [eapply Hput; [|done..]; done|]. destruct err; [eapply Hput; [|done..]; done|].
  case_decide; (eapply Hput; [|done..]; done).
Qed.
Context (matchRegexp : string → string → bool) (r : reconciler).
Local Abbreviation updateTopologyStatus := (updateTopologyStatus matchRegexp r).

(** The interfaces a status lists. *)
Definition nics_listed (s : FabricNodeStatus) (selected : list v1beta1.NicInfo * list v1beta1.NicInfo) : Prop :=
  ST_ScaleOutNics s = selected.1 ∧ ST_StorageNics s = selected.2 ∧ TotalNics s = Z.of_nat (length selected.1 + length selected.2).

Lemma setLLDP_frame s s1 total nics optional err b :
  setLLDPNeighborsReadyCondition s total nics optional err = (s1, b) → s1 = set_conditions (ST_Conditions s1) s.
Proof.
  unfold setLLDPNeighborsReadyCondition. cbn zeta. intros Hs. repeat case_decide; try destruct err;
    match goal with H : (let '(_, _) := ?x in _) = _ |- _ => destruct x end; by simplify_eq.
Qed.

Lemma updateTopology_nics lldp links s s1 b : updateTopologyStatus lldp (inl links) s = (s1, b) →
  nics_listed s1 (selectNics matchRegexp r lldp links) ∧ RdmaPods s1 = RdmaPods s ∧ ST_NodeRole s1 = ST_NodeRole s ∧ NodeIP s1 = NodeIP s ∧
  ∃ b0, setLLDPNeighborsReadyCondition s (TotalNics s1) (ST_ScaleOutNics s1 ++ ST_StorageNics s1) (lldpOptional links)
    (match lldp with inl _ => None | inr err => Some err end) = (set_conditions (ST_Conditions s1) s, b0).
Proof.
  cbn [FabricNodePods.updateTopologyStatus]. destruct (selectNics _ _ _ _) as [so st]. cbn zeta.
  destruct (setLLDPNeighborsReadyCondition s _ _ _ _) as [s0 b0] eqn:Hl. pose proof (setLLDP_frame _ _ _ _ _ _ _ Hl) as Hs0.
  rewrite Hs0 in Hl |- *. clear Hs0. unfold nics_listed. cbn [fst snd].
  assert (∃ total, total = Z.of_nat (length so + length st)) as [total Htot] by eauto. rewrite <- Htot in *. clear Htot.
  intros H. repeat case_decide; simplify_eq; cbn in *;
    subst; split_and!; eauto.
Qed.

Lemma updateTopology_again lldp links s s1 s' b : updateTopologyStatus lldp links s = (s1, b) →
  TotalNics s' = TotalNics s1 → ST_ScaleOutNics s' = ST_ScaleOutNics s1 → ST_StorageNics s' = ST_StorageNics s1 →
  others FabricNodeConditionReady (ST_Conditions s') = others FabricNodeConditionReady (ST_Conditions s1) →
  updateTopologyStatus lldp links s' = (s', false).
Proof.
  intros Hs1 Ht Hso Hst Ho. destruct links as [links|err].
  - destruct (updateTopology_nics lldp links s s1 b Hs1) as ((Hso1 & Hst1 & Ht1) & _ & _ & _ & b0 & Hset).
    cbn [FabricNodePods.updateTopologyStatus]. destruct (selectNics _ _ _ _) as [so st]. cbn [fst snd] in *. cbn zeta.
    rewrite Hso1, Hst1, Ht1 in Hset. rewrite (setLLDP_again _ _ s' _ _ _ _ _ Hset Ho).
    by rewrite !decide_False by (intros Hneq; apply Hneq; congruence).
  - cbn [FabricNodePods.updateTopologyStatus] in *. destruct (SetStatusCondition (ST_Conditions s) _) as [l b1] eqn:Hset. simplify_eq.
    cbn in Ho. rewrite (set_again (ST_Conditions s) (ST_Conditions s') _ FabricNodeConditionReady); [by destruct s'|done|by rewrite Hset].
Qed.
End idempotent.

(** ** Pods *)
Lemma podsByKey_lookup pods pod : NoDup (podKey <$> pods) → pod ∈ pods → podsByKey pods !! podKey pod = Some pod.
Proof.
  unfold podsByKey. induction pods as [|p pods IH] using rev_ind; [by intros _ ?%elem_of_nil|].
  rewrite fmap_app, foldl_app. cbn [foldl]. intros (Hnd & Hdis & _)%NoDup_app [Hin| ->%list_elem_of_singleton]%elem_of_app.
  - rewrite lookup_insert_ne; [by apply IH|]. intros He. apply (Hdis (podKey p)); [|by left].
    rewrite He. apply list_elem_of_fmap. eauto.
  - by rewrite lookup_insert_eq.
Qed.

Lemma isRdmaPodsEqual_refl pods : NoDup (podKey <$> pods) → isRdmaPodsEqual pods pods = true.
Proof.
  intros Hnd. unfold isRdmaPodsEqual. rewrite bool_decide_eq_true_2 by done. cbn [andb]. apply forallb_forall.
  intros pod Hin%list_elem_of_In. unfold samePod. rewrite podsByKey_lookup by done.
  rewrite bool_decide_eq_true_2 by done. unfold isContainerListEqual, isOwnerRefEqual. rewrite !bool_decide_eq_true_2 by done.
  cbn [andb]. rewrite andb_true_r. apply forallb_forall. intros id Hid. apply bool_decide_eq_true_2. by apply list_elem_of_In.
Qed.

Section pods.
Context (Get : string → string → string → string → option Object) (fuel : nat).

Lemma addRdmaPods_keys pods acc rdmaPods : go_foldl (addRdmaPod Get fuel) acc pods = Ret rdmaPods →
  ∃ l, rdmaPods = acc ++ l ∧ podKey <$> l `sublist_of` ((fun pod => Pod_Namespace pod +:+ "/" +:+ Pod_Name pod) <$> pods).
Proof.
  revert acc. induction pods as [|pod pods IH]; intros acc H; cbn [go_foldl] in H.
  { simplify_eq. exists []. by rewrite app_nil_r. }
  destruct (addRdmaPod Get fuel acc pod) as [acc'| | |] eqn:Ha; cbn [mbind go_bind] in H; try done.
  destruct (IH _ H) as (l & -> & Hl). unfold addRdmaPod in Ha. destruct (isPodRunning pod && _).
  - destruct (getTopOwner _ _ _) as [owner| | |]; cbn [mbind go_bind] in Ha; simplify_eq.
    rewrite <- (assoc_L (++)). eexists. split; [done|]. cbn. by apply sublist_skip.
  - simplify_eq. exists l. split; [done|]. cbn. by apply sublist_cons.
Qed.

Lemma updateRdmaPods_again pods s s1 s' b : updateRdmaPodsStatus Get fuel pods s = Ret (s1, b) →
  NoDup ((fun pod => Pod_Namespace pod +:+ "/" +:+ Pod_Name pod) <$> default [] pods) → RdmaPods s' = RdmaPods s1 →
  updateRdmaPodsStatus Get fuel pods s' = Ret (s', false).
Proof.
  intros H Hnd Hp. destruct pods as [pods|]; [|done]. cbn [updateRdmaPodsStatus default] in *.
  destruct (go_foldl (addRdmaPod Get fuel) [] pods) as [rdmaPods| | |] eqn:Hf; cbn [mbind go_bind] in *; try done.
  rewrite Hp. destruct (isRdmaPodsEqual (RdmaPods s) rdmaPods) eqn:He; simplify_eq; [by rewrite He|].
  cbn [set_pods RdmaPods]. rewrite isRdmaPodsEqual_refl; [done|].
  destruct (addRdmaPods_keys _ _ _ Hf) as (l & -> & Hl). cbn [app]. by eapply sublist_NoDup.
Qed.

Lemma updateRdmaPods_frame pods s s1 b : updateRdmaPodsStatus Get fuel pods s = Ret (s1, b) → s1 = set_pods (RdmaPods s1) s.
Proof.
  unfold updateRdmaPodsStatus. destruct pods as [pods|]; intros H; [|simplify_eq; by destruct s1].
  destruct (go_foldl _ _ _); cbn [mbind go_bind] in H; try done. destruct (isRdmaPodsEqual _ _); simplify_eq; [by destruct s1|done].
Qed.
End pods.

(** ** The reconciled status *)
Section reconcile.
Context `{SC : StatusConditions} {Laws : ConditionLaws SC} (matchRegexp : string → string → bool) (r : reconciler)
  (Get : string → string → string → string → option Object) (fuel : nat).
Local Abbreviation reconcileStatus := (reconcileStatus matchRegexp r Get fuel).

Lemma updateNodeRole_again s s1 b : updateNodeRole r s = (s1, b) →
  s1 = set_role (if storageNode r then v1beta1.NodeRoleStorage else v1beta1.NodeRoleGPU) s ∧
  ∀ s', ST_NodeRole s' = ST_NodeRole s1 → updateNodeRole r s' = (s', false).
Proof.
  unfold updateNodeRole. case_decide as Hr; intros [= <- <-].
  - split; [done|]. intros s' Hs'. rewrite decide_False; [done|]. intros Hne. by apply Hne.
  - split; [destruct s; cbn in *; by rewrite <- Hr|]. intros s' Hs'. rewrite decide_False; [done|].
    intros Hne. apply Hne. by rewrite Hs'.
Qed.

Lemma updateNodeIP_again local s s1 b : updateNodeIP r local s = (s1, b) →
  s1 = set_ip (NodeIP s1) s ∧ ∀ s', NodeIP s' = NodeIP s1 → updateNodeIP r local s' = (s', false).
Proof.
  unfold updateNodeIP. case_decide; [intros [= <- <-]; split; [by destruct s|done]|].
  destruct local as [ip|]; [|intros [= <- <-]; split; [by destruct s|done]]. cbn zeta. case_decide as Hip; intros [= <- <-].
  - split; [by destruct s|]. intros s' Hs'. rewrite decide_True by (rewrite Hs'; tauto). done.
  - split; [done|]. intros s' Hs'. rewrite decide_True by (right; by rewrite Hs'). done.
Qed.

(** A flag that is not set means that nothing changed. *)
Lemma updateReady_kept s s1 : updateReadyCondition s = (s1, false) → s1 = s.
Proof.
  unfold updateReadyCondition. pose proof (set_kept (ST_Conditions s) (readyCondition (ST_Conditions s))) as Hk.
  destruct (SetStatusCondition _ _) as [l b]. intros [= <- ->]. cbn in Hk. rewrite Hk by done. by destruct s.
Qed.

Lemma setLLDP_kept s s1 total nics optional err : setLLDPNeighborsReadyCondition s total nics optional err = (s1, false) → s1 = s.
Proof.
  assert (∀ c, (let '(conditions, changed) := SetStatusCondition (ST_Conditions s) c in (set_conditions conditions s, changed)) = (s1, false) → s1 = s) as Hput.
  { intros c. pose proof (set_kept (ST_Conditions s) c) as Hk. destruct (SetStatusCondition _ _) as [l b].
    intros [= <- ->]. cbn in Hk. rewrite Hk by done. by destruct s. }
  unfold setLLDPNeighborsReadyCondition. case_decide.
  { pose proof (remove_kept (ST_Conditions s) FabricNodeConditionLLDPNeighborsReady) as Hk.
    destruct (RemoveStatusCondition _ _) as [l b]. intros [= <- ->]. cbn in Hk. rewrite Hk by done. by destruct s. }
  cbn zeta. repeat case_decide; try destruct err; try case_decide; apply Hput.
Qed.

Lemma updateTopology_kept lldp links s s1 : updateTopologyStatus matchRegexp r lldp links s = (s1, false) → s1 = s.
Proof.
  destruct links as [links|err]; cbn [updateTopologyStatus].
  - destruct (selectNics _ _ _ _) as [so st]. destruct (setLLDPNeighborsReadyCondition s _ _ _ _) as [s0 b0] eqn:Hl.
    repeat case_decide; intros [= <- ->]; by eapply setLLDP_kept.
  - pose proof (set_kept (ST_Conditions s) (condition FabricNodeConditionLLDPNeighborsReady "Unknown" FabricNodeReasonDiscoveryFailed
      ("Failed to list network interfaces: " +:+ err))) as Hk.
    destruct (SetStatusCondition _ _) as [l b]. intros [= <- ->]. cbn in Hk. rewrite Hk by done. by destruct s.
Qed.

Lemma updateRdmaPods_kept pods s s1 : updateRdmaPodsStatus Get fuel pods s = Ret (s1, false) → s1 = s.
Proof.
  unfold updateRdmaPodsStatus. destruct pods as [pods|]; [|by intros [= <-]]. intros Hu. go_inv.
  destruct (isRdmaPodsEqual _ _); by injection Hu.
Qed.

Lemma reconcileStatus_kept a s s' : reconcileStatus a s = Ret (s', false) → s' = s.
Proof.
  unfold FabricNodePods.reconcileStatus. intros H.
  destruct (if a_started a then _ else (s, false)) as [s1 b1] eqn:H1.
  destruct (if storageNode r then Ret (s1, false) else _) as [[s2 b2]| | |] eqn:H2; cbn [mbind go_bind] in H; try done.
  destruct (updateNodeRole r s2) as [s3 b3] eqn:H3. destruct (updateNodeIP r (a_local a) s3) as [s4 b4] eqn:H4.
  destruct (updateReadyCondition s4) as [s5 b5] eqn:H5. injection H as <- Hb.
  apply orb_false_iff in Hb as [[[[-> ->]%orb_false_iff ->]%orb_false_iff ->]%orb_false_iff ->].
  rewrite (updateReady_kept _ _ H5).
  assert (s4 = s3) as ->. { unfold updateNodeIP in H4. repeat case_decide; try destruct (a_local a); repeat case_decide; by simplify_eq. }
  assert (s3 = s2) as ->. { unfold updateNodeRole in H3. case_decide; by simplify_eq. }
  assert (s2 = s1) as ->. { destruct (storageNode r); [by injection H2|]. by eapply updateRdmaPods_kept. }
  destruct (a_started a); [by eapply updateTopology_kept|by injection H1].
Qed.

(** The climb to the top owner ends when the owners have no cycle: [rank] falls along them. *)
Definition owner_rank (rank : Object → nat) : Prop :=
  ∀ obj ref refs owner, GetOwnerReferences obj = ref :: refs →
    Get (OR_APIVersion ref) (OR_Kind ref) (GetNamespace obj) (OR_Name ref) = Some owner → (rank owner < rank obj)%nat.

Lemma topOwner_returns rank n found obj : owner_rank rank → (rank obj < n)%nat → ∃ owner, topOwner Get n found obj = Ret owner.
Proof.
  intros Hrank. revert found obj. induction n as [|n IH]; intros found obj Hn; [lia|]. cbn [topOwner].
  destruct (GetOwnerReferences obj) as [|ref refs] eqn:Hr; [eauto|].
  destruct (Get _ _ _ _) as [owner|] eqn:Hg; [|eauto]. apply IH. specialize (Hrank obj ref refs owner Hr Hg). lia.
Qed.

Definition podObject (pod : Pod) : Object := MkObject (Pod_Namespace pod) (Pod_Owners pod).

Lemma addRdmaPods_return rank pods acc :
  owner_rank rank → (∀ pod, pod ∈ pods → (rank (podObject pod) < fuel)%nat) → ∃ l, go_foldl (addRdmaPod Get fuel) acc pods = Ret l.
Proof.
  intros Hrank. revert acc. induction pods as [|pod pods IH]; intros acc Hp; [by exists acc|]. cbn [go_foldl].
  assert (∃ acc', addRdmaPod Get fuel acc pod = Ret acc') as [acc' ->]; [|apply IH; intros; apply Hp; by right].
  unfold addRdmaPod. destruct (isPodRunning pod && _); [|eauto].
  destruct (topOwner_returns rank fuel None (podObject pod) Hrank) as [owner Ho]; [apply Hp; by left|].
  unfold getTopOwner. unfold podObject in Ho. rewrite Ho. eauto.
Qed.

Lemma reconcileStatus_returns rank a s :
  owner_rank rank → (∀ pod, pod ∈ default [] (a_pods a) → (rank (podObject pod) < fuel)%nat) → ∃ s' b, reconcileStatus a s = Ret (s', b).
Proof.
  intros Hrank Hp. unfold FabricNodePods.reconcileStatus. destruct (if a_started a then _ else _) as [s1 b1].
  assert (∃ s2 b2, (if storageNode r then Ret (s1, false) else updateRdmaPodsStatus Get fuel (a_pods a) s1) = Ret (s2, b2)) as (s2 & b2 & ->).
  { destruct (storageNode r); [eauto|]. unfold updateRdmaPodsStatus. destruct (a_pods a) as [pods|]; [|eauto].
    destruct (addRdmaPods_return rank pods [] Hrank Hp) as [l ->]. cbn. destruct (isRdmaPodsEqual _ _); eauto. }
  cbn [mbind go_bind]. destruct (updateNodeRole r s2) as [s3 b3]. destruct (updateNodeIP r (a_local a) s3) as [s4 b4].
  destruct (updateReadyCondition s4) as [s5 b5]. eauto.
Qed.

(** The RDMA pods of a status are those that were collected. *)
Lemma updateRdmaPods_listed pods s s1 b : updateRdmaPodsStatus Get fuel (Some pods) s = Ret (s1, b) →
  NoDup ((fun pod => Pod_Namespace pod +:+ "/" +:+ Pod_Name pod) <$> pods) →
  ∃ l, go_foldl (addRdmaPod Get fuel) [] pods = Ret l ∧ isRdmaPodsEqual (RdmaPods s1) l = true.
Proof.
  intros H Hnd. cbn [updateRdmaPodsStatus] in H.
  destruct (go_foldl (addRdmaPod Get fuel) [] pods) as [l| | |] eqn:Hf; cbn [mbind go_bind] in H; try done. exists l. split; [done|].
  destruct (isRdmaPodsEqual (RdmaPods s) l) eqn:He; simplify_eq; [done|]. cbn. apply isRdmaPodsEqual_refl.
  destruct (addRdmaPods_keys Get fuel _ _ _ Hf) as (l' & -> & Hl). by eapply sublist_NoDup.
Qed.

(** Everything [reconcileStatus] does, in one place. *)
Lemma reconcileStatus_spec a s s' b : reconcileStatus a s = Ret (s', b) →
  NoDup ((fun pod => Pod_Namespace pod +:+ "/" +:+ Pod_Name pod) <$> default [] (a_pods a)) →
  reconcileStatus a s' = Ret (s', false) ∧
  ST_NodeRole s' = (if storageNode r then v1beta1.NodeRoleStorage else v1beta1.NodeRoleGPU) ∧
  (∀ links, a_started a = true → a_links a = inl links → nics_listed s' (selectNics matchRegexp r (a_lldp a) links)) ∧
  (∀ pods, storageNode r = false → a_pods a = Some pods →
     ∃ l, go_foldl (addRdmaPod Get fuel) [] pods = Ret l ∧ isRdmaPodsEqual (RdmaPods s') l = true) ∧
  ∃ c0, FindStatusCondition (ST_Conditions s') FabricNodeConditionReady = Some c0 ∧ same_condition c0 (readyCondition (ST_Conditions s')).
Proof.
  unfold FabricNodePods.reconcileStatus. intros H Hnd.
  destruct (if a_started a then _ else (s, false)) as [s1 b1] eqn:H1.
  destruct (if storageNode r then Ret (s1, false) else _) as [[s2 b2]| | |] eqn:H2; cbn [mbind go_bind] in H; try done.
  destruct (updateNodeRole r s2) as [s3 b3] eqn:H3. destruct (updateNodeIP r (a_local a) s3) as [s4 b4] eqn:H4.
  destruct (updateReadyCondition s4) as [s5 b5] eqn:H5. simplify_eq.
  destruct (updateReady_again _ _ _ H5) as (Ho & Hs5 & Hready).
  destruct (updateNodeIP_again _ _ _ _ H4) as [Hs4 Hip]. destruct (updateNodeRole_again _ _ _ H3) as [Hs3 Hrole].
  assert (s2 = set_pods (RdmaPods s2) s1) as Hs2.
  { destruct (storageNode r); [simplify_eq; by destruct s2|by eapply updateRdmaPods_frame]. }
  assert (TotalNics s' = TotalNics s1 ∧ ST_ScaleOutNics s' = ST_ScaleOutNics s1 ∧ ST_StorageNics s' = ST_StorageNics s1 ∧
    RdmaPods s' = RdmaPods s2 ∧ ST_NodeRole s' = ST_NodeRole s3 ∧ NodeIP s' = NodeIP s4 ∧ ST_Conditions s4 = ST_Conditions s1)
    as (Ht & Hso & Hst & Hp & Hro & Hi & Hc).
  { split_and!; try rewrite Hs5; cbn; try rewrite Hs4; cbn; try rewrite Hs3; cbn; try rewrite Hs2; reflexivity. }
  rewrite Hc in Ho. split_and!.
  - replace (if a_started a then updateTopologyStatus matchRegexp r (a_lldp a) (a_links a) s' else (s', false)) with (s', false).
    2: { destruct (a_started a); [|done]. symmetry. by eapply updateTopology_again. }
    replace (if storageNode r then Ret (s', false) else updateRdmaPodsStatus Get fuel (a_pods a) s') with (Ret (s', false) : go unit (FabricNodeStatus * bool)).
    2: { destruct (storageNode r); [done|]. symmetry. by eapply updateRdmaPods_again. }
    cbn [mbind go_bind]. by rewrite (Hrole s' Hro), (Hip s' Hi), Hready.
  - by rewrite Hro, Hs3.
  - intros links Hstart Hl. rewrite Hstart, Hl in H1. destruct (updateTopology_nics _ _ _ _ _ _ _ H1) as ((? & ? & ?) & _).
    unfold nics_listed. by rewrite Ht, Hso, Hst.
  - intros pods Hn Hpods. rewrite Hn, Hpods in H2. rewrite Hpods in Hnd. rewrite Hp. by eapply updateRdmaPods_listed.
  - unfold updateReadyCondition in H5.
    destruct (SetStatusCondition (ST_Conditions s4) (readyCondition (ST_Conditions s4))) as [l bl] eqn:Hset. simplify_eq.
    destruct (set_found (ST_Conditions s4) (readyCondition (ST_Conditions s4))) as (c0 & Hf & Hs). rewrite Hset in Hf.
    rewrite readyCondition_type in Hf. exists c0. split; [exact Hf|]. cbn [ST_Conditions set_conditions] in *.
    pose proof (set_others (ST_Conditions s4) (readyCondition (ST_Conditions s4))) as Hoth. rewrite Hset, readyCondition_type in Hoth.
    by rewrite (readyCondition_others l (ST_Conditions s4) Hoth).
Qed.
End reconcile.

(** The next reconciliation reads the object this one wrote. *)
Definition read_back (object : fabricNode) (a : answers) : answers :=
  MkAnswers (Found object) (a_nodeUID a) (a_createOk a) (a_updateOk a) (a_statusOk a) (a_started a) (a_lldp a) (a_links a) (a_pods a) (a_local a).

Lemma ensureOwner_again r uid object object1 b : ensureNodeOwnerReference r uid object = (object1, b) →
  Object_Status object1 = Object_Status object ∧ ∀ status, ensureNodeOwnerReference r uid (with_status status object1) = (with_status status object1, false).
Proof.
  unfold ensureNodeOwnerReference. destruct (storageNode r) eqn:Hs; cbn [orb]; [intros [= <- <-]; done|].
  case_bool_decide as Ho; [intros [= <- <-]; split; [done|]; intros st; by rewrite bool_decide_eq_true_2|].
  destruct uid; intros [= <- <-]; (split; [done|]); intros st; cbn [with_status Object_Owners]; case_bool_decide; done.
Qed.

Lemma emit_same `{SC : StatusConditions} object : emitLLDPNeighborsReadyEventLocked (Some object) object = [].
Proof.
  unfold emitLLDPNeighborsReadyEventLocked. destruct (FindStatusCondition _ _) as [c|] eqn:Hf; [|done]. cbn zeta.
  rewrite decide_True; [done|]. cbn. by rewrite Hf.
Qed.

(** What the API server stores after an effect: a create and an update leave the status alone, an update of the status leaves
    everything else alone. *)
Definition stored_by (stored : option fabricNode) (e : effect) : option fabricNode :=
  match e with
  | CreateNode o => Some (with_status zeroStatus o)
  | UpdateNode o => (fun s => with_status (Object_Status s) o) <$> stored
  | UpdateStatus o => (fun s => with_status (Object_Status o) s) <$> stored
  | DeleteNode _ => None
  | Emit _ => stored
  end.

Definition readFrom (stored : option fabricNode) : getAnswer fabricNode :=
  match stored with Some o => Found o | None => NotFound end.

Lemma stored_events events stored : foldl stored_by stored (Emit <$> events) = stored.
Proof. induction events as [|e events IH]; [done|]. exact IH. Qed.

(** The writes before the status is computed. *)
Lemma stored_owner r uid stored o1 b :
  ensureNodeOwnerReference r uid (default (MkFabricNodeObject (nodeName r) ∅ [] zeroStatus) stored) = (o1, b) →
  foldl stored_by stored (if negb (bool_decide (is_Some stored)) then [CreateNode o1] else if (b : bool) then [UpdateNode o1] else []) = Some o1.
Proof.
  intros Ho. destruct (ensureOwner_again _ _ _ _ _ Ho) as [Hs _]. destruct stored as [o|]; cbn.
  - destruct b; cbn; [|unfold ensureNodeOwnerReference in Ho; cbn in Ho; repeat case_match; by simplify_eq].
    cbn in Hs. rewrite <-Hs. by destruct o1.
  - cbn in Hs. rewrite <-Hs. by destruct o1.
Qed.

(** A run of [doReconcile] whose calls succeed. *)
Lemma doReconcile_run (SC : StatusConditions) matchRegexp r Get fuel a cached stored o1 b status changed :
  a_fabricNode a = readFrom stored → a_createOk a && a_updateOk a && a_statusOk a = true →
  ensureNodeOwnerReference r (a_nodeUID a) (default (MkFabricNodeObject (nodeName r) ∅ [] zeroStatus) stored) = (o1, b) →
  reconcileStatus matchRegexp r Get fuel a (Object_Status o1) = Ret (status, changed) →
  doReconcile matchRegexp r Get fuel a cached =
    Ret ((if negb (bool_decide (is_Some stored)) then [CreateNode o1] else if (b : bool) then [UpdateNode o1] else []) ++
         (Emit <$> emitLLDPNeighborsReadyEventLocked cached (with_status status o1)) ++
         (if (changed : bool) then [UpdateStatus (with_status status o1)] else []), Some (with_status status o1)).
Proof.
  intros Hget [[Hcr Hup]%andb_prop Hst]%andb_prop Ho Hs. unfold doReconcile. rewrite Hget, Hcr, Hup, Hst.
  destruct stored as [o|]; cbn [readFrom default id] in *; rewrite Ho; cbn [negb andb orb];
    rewrite ?andb_false_r; rewrite Hs; cbn [mbind go_bind]; destruct changed; rewrite ?app_nil_r; done.
Qed.

(** C29. A reconciliation settles the FabricNode: when its calls succeed and the owners of the pods form no cycle ([rank]
    falls along them, and the fuel is more than the ranks), [doReconcile] returns, and the object the API server stores after
    its writes is the one it caches: with the role of the agent, the interfaces the selectors choose with their total, the
    RDMA pods that were collected, and a Ready condition that sums up the others.  Reconciling that object again, with the
    same interfaces, neighbours and pods, writes nothing and emits no event. *)
Theorem fabric_node_settles (SC : StatusConditions) matchRegexp r Get rank fuel a cached stored :
  ConditionLaws SC → owner_rank Get rank → (∀ pod, pod ∈ default [] (a_pods a) → (rank (podObject pod) < fuel)%nat) →
  a_fabricNode a = readFrom stored → a_createOk a && a_updateOk a && a_statusOk a = true →
  NoDup ((fun pod => Pod_Namespace pod +:+ "/" +:+ Pod_Name pod) <$> default [] (a_pods a)) →
  ∃ effects object, doReconcile matchRegexp r Get fuel a cached = Ret (effects, Some object) ∧
  foldl stored_by stored effects = Some object ∧
  doReconcile matchRegexp r Get fuel (read_back object a) (Some object) = Ret ([], Some object) ∧
  ST_NodeRole (Object_Status object) = (if storageNode r then v1beta1.NodeRoleStorage else v1beta1.NodeRoleGPU) ∧
  (∀ links, a_started a = true → a_links a = inl links → nics_listed (Object_Status object) (selectNics matchRegexp r (a_lldp a) links)) ∧
  (∀ pods, storageNode r = false → a_pods a = Some pods →
     ∃ l, go_foldl (addRdmaPod Get fuel) [] pods = Ret l ∧ isRdmaPodsEqual (RdmaPods (Object_Status object)) l = true) ∧
  ∃ c0, FindStatusCondition (ST_Conditions (Object_Status object)) FabricNodeConditionReady = Some c0 ∧
    same_condition c0 (readyCondition (ST_Conditions (Object_Status object))).
Proof.
  intros Laws Hrank Hfuel Hget Hok Hnd.
  destruct (ensureNodeOwnerReference r (a_nodeUID a) (default (MkFabricNodeObject (nodeName r) ∅ [] zeroStatus) stored)) as [o1 b] eqn:Ho.
  destruct (reconcileStatus_returns matchRegexp r Get fuel rank a (Object_Status o1) Hrank Hfuel) as (status & changed & Hs).
  destruct (reconcileStatus_spec matchRegexp r Get fuel a _ _ _ Hs Hnd) as (Hagain & Hspec).
  eexists _, (with_status status o1). split; [by eapply doReconcile_run|]. split; [|split; [|exact Hspec]].
  - rewrite !foldl_app, (stored_owner _ _ _ _ _ Ho), stored_events. destruct changed; [done|]. cbn.
    rewrite (reconcileStatus_kept matchRegexp r Get fuel _ _ _ Hs). by destruct o1.
  - destruct (ensureOwner_again _ _ _ _ _ Ho) as [_ Hown].
    rewrite (doReconcile_run SC matchRegexp r Get fuel (read_back (with_status status o1) a) _ (Some (with_status status o1)) (with_status status o1)
      false status false); [|done|done|apply Hown|done].
    replace (with_status status (with_status status o1)) with (with_status status o1) by done. by rewrite emit_same.
Qed.

(** One storage interface with a neighbour and one without. *)
Definition sample_reconciler : reconciler := MkReconciler "node1" false "1.1.1.1:53" noMethod (MkMethod "interface" "sto*") noMethod.
Definition sample_links : list netlinkLink :=
  [MkLink "ens1" "device" "ether" "up" false (Some "mlx5_0") (Some [MkAddr [10; 0; 0; 5] 24]);
   MkLink "sto0" "device" "ether" "up" false (Some "mlx5_1") (Some []); MkLink "lo" "loopback" "" "unknown" false None None].
Definition sample_answers : answers :=
  MkAnswers NotFound (Found "uid-1") true true true true
    (inl {[ "ens1" := v1beta1.MkLLDPNeighbor "leaf1" "" "" "Ethernet1" "" ]}) (inl sample_links) (Some []) (Some [10; 0; 0; 5]).

Lemma fabric_node_settles_witness :
  ∃ effects object, doReconcile (H:=library 1) (fun _ _ => false) sample_reconciler (fun _ _ _ _ => None) 1 sample_answers None = Ret (effects, Some object) ∧
    foldl stored_by None effects = Some object ∧ TotalNics (Object_Status object) = 2 ∧
    doReconcile (H:=library 1) (fun _ _ => false) sample_reconciler (fun _ _ _ _ => None) 1 (read_back object sample_answers) (Some object) = Ret ([], Some object).
Proof.
  destruct (fabric_node_settles (library 1) (fun _ _ => false) sample_reconciler (fun _ _ _ _ => None) (fun _ => 0%nat) 1 sample_answers None None
    (library_laws 1)) as (effects & object & Hr & Hstored & Hsettled & _ & Hnics & _).
  - intros obj ref refs owner _ Hg. discriminate Hg.
  - intros pod _. lia.
  - reflexivity.
  - reflexivity.
  - constructor.
  - exists effects, object. split; [done|]. split; [done|]. split; [|done].
    destruct (Hnics sample_links eq_refl eq_refl) as (_ & _ & ->). vm_compute. reflexivity.
Defined.

(** ** Findings *)

(** An object that is, directly or not, its own owner: the climb of the node agent has no
    bound, so it never returns, however long it is given. *)
Theorem cyclic_owner_diverges Get obj ref refs :
  GetOwnerReferences obj = ref :: refs →
  Get (OR_APIVersion ref) (OR_Kind ref) (GetNamespace obj) (OR_Name ref) = Some obj →
  ∀ fuel, getTopOwner Get fuel obj = OutOfFuel.
Proof.
  intros Hrefs Hget fuel. unfold getTopOwner. generalize (@None OwnerRef) as found.
  induction fuel as [|fuel IH]; intros found; [done|]. cbn [topOwner]. rewrite Hrefs, Hget. apply IH.
Qed.

(** A dot in a pattern matches any character: the selector of one VLAN interface also
    selects another interface. *)
Theorem dot_matches_anything matchRegexp : matchMultiplePatterns matchRegexp "ens1x100" "ens1.100" = true.
Proof. reflexivity. Qed.

(** The documentation of the flow component says that an empty directory disables
    pinning; the defaults leave no directory empty. *)
Theorem pinning_always_enabled order cfg cfg' : normalizeEBPFFlowConfig order cfg = Ret cfg' → PinDir cfg' ≠ "".
Proof.
  unfold normalizeEBPFFlowConfig. cbn zeta. intros H. destruct (go_foldl _ _ _); cbn [mbind go_bind] in H; try done.
  case_decide; [done|]. simplify_eq. cbn. unfold setDefault. by case_decide.
Qed.

(** ** The life of the reconciler *)

(** A configuration that was accepted makes a reconciler, if lldpcli is there: the selectors the
    configuration checks are those the reconciler parses. *)
Lemma parsePattern_checked field selector : validateInterfaceSelector field selector = Ret () → ∃ m, parsePattern selector = Ret m.
Proof.
  unfold validateInterfaceSelector, parsePattern, CheckOrParsePattern. destruct (decide (selector = "")); [eauto|].
  destruct (split_first 61 (bytes selector)) as [[method value]|]; cbn; [eauto|done].
Qed.

Lemma parseInterval_checked field field' value fallback d :
  is_Some (ParseDuration fallback) → durationOr field value fallback = Ret d → ∃ z, parseInterval field' d = Ret z.
Proof.
  intros [f Hf]. unfold durationOr, validateDuration, parseInterval. case_decide; [intros [= <-]; rewrite Hf; eauto|].
  destruct (ParseDuration value) as [z|] eqn:Hz; cbn; [|done]. intros [= <-]. rewrite Hz. eauto.
Qed.

Theorem accepted_config_reconciles cfg topology now :
  normalizeNodeTopologyDiscoveryConfig (AG_NodeTopologyDiscovery cfg) = Ret topology →
  ∃ r refreshInterval start,
    NewFabricNodeController (Ret ()) now
      (MkAgent (AG_LogLevel cfg) (AG_Metrics cfg) (AG_HealthProbe cfg) (AG_Node cfg) topology (AG_EBPFFlow cfg)) = Ret (r, refreshInterval, start) ∧
    nodeName r = AN_Name (AG_Node cfg).
Proof.
  unfold normalizeNodeTopologyDiscoveryConfig. set (d := AG_NodeTopologyDiscovery cfg).
  destruct (validateInterfaceSelector _ (NT_ScaleOutInterfaceSelector d)) as [[]| | |] eqn:H1; [|done..].
  destruct (validateInterfaceSelector _ (NT_StorageInterfaceSelector d)) as [[]| | |] eqn:H2; [|done..].
  destruct (validateInterfaceSelector _ (NT_ScaleUpInterfaceSelector d)) as [[]| | |] eqn:H3; [|done..]. cbn.
  destruct (durationOr _ (NT_RefreshInterval d) _) as [refresh| | |] eqn:H4; [|done..].
  destruct (durationOr _ (NT_InitialScanDelay d) _) as [delay| | |] eqn:H5; [|done..]. cbn. intros [= <-].
  apply parsePattern_checked in H1 as [m1 H1]. apply parsePattern_checked in H2 as [m2 H2]. apply parsePattern_checked in H3 as [m3 H3].
  eapply (parseInterval_checked _ "nodeTopologyDiscovery.refreshInterval") in H4 as [z1 H4]; [|by eexists].
  eapply (parseInterval_checked _ "nodeTopologyDiscovery.initialScanDelay") in H5 as [z2 H5]; [|by eexists].
  unfold NewFabricNodeController. cbn. rewrite H4. cbn. rewrite H5. cbn. rewrite H1. cbn. rewrite H2. cbn. rewrite H3. cbn. eauto.
Qed.

(** Only an agent of a storage node removes its FabricNode, and only when it ends; the objects of other
    nodes go with their Nodes, which own them. *)
Definition deletes (e : effect) : bool := match e with DeleteNode _ => true | _ => false end.

Lemma doReconcile_keeps `{SC : StatusConditions} matchRegexp r Get fuel a cached effects cached' object :
  doReconcile matchRegexp r Get fuel a cached = Ret (effects, cached') → DeleteNode object ∉ effects.
Proof.
  unfold doReconcile. intros Hd. assert (Forall (fun e => deletes e = false) effects) as Hall.
  { revert Hd. destruct (a_fabricNode a) as [o| |]; [| |by intros [= <- <-]];
      (destruct (ensureNodeOwnerReference r (a_nodeUID a) _) as [o' added]);
      (destruct (_ || _)%bool; [intros [= <- <-]; destruct added; by repeat constructor|]);
      (destruct (reconcileStatus _ _ _ _ _ _) as [[s changed]| | |]; [|done..]); cbn;
      (destruct changed, (a_statusOk a); intros [= <- <-]); destruct added;
      repeat first [apply Forall_app_2 | apply Forall_cons_2 | apply Forall_nil_2 | apply Forall_fmap, Forall_true; intros ? | done]. }
  intros Hin. by apply (proj1 (Forall_forall _ _) Hall) in Hin.
Qed.

Lemma rounds_keep `{SC : StatusConditions} matchRegexp r Get fuel rounds st st' object :
  go_foldl (reconcileRound matchRegexp r Get fuel) st rounds = Ret st' → DeleteNode object ∉ st.1 → DeleteNode object ∉ st'.1.
Proof.
  revert st. induction rounds as [|a rounds IH]; intros st; cbn [go_foldl]; [by intros [= <-]|].
  destruct (reconcileRound _ _ _ _ st a) as [st1| | |] eqn:Hr; [|done..]. cbn [mbind go_bind]. intros Hf Hst. apply (IH st1 Hf).
  revert Hr. unfold reconcileRound. destruct (doReconcile _ _ _ _ _ _) as [[effects cached]| | |] eqn:Hd; [|done..].
  intros [= <-]. apply (doReconcile_keeps _ _ _ _ _ _ _ _ object) in Hd. set_solver.
Qed.

Theorem storage_cleanup `{SC : StatusConditions} matchRegexp r Get fuel interval first rounds got effects object :
  reconcileLoop matchRegexp r Get fuel interval first rounds got = Ret effects →
  DeleteNode object ∈ effects ↔ storageNode r = true ∧ got = Found object.
Proof.
  unfold reconcileLoop. case_decide; [done|].
  destruct (go_foldl _ ([], None) (first :: rounds)) as [[effects1 cached]| | |] eqn:Hf; [|done..]. intros [= <-].
  apply (rounds_keep _ _ _ _ _ _ _ object) in Hf as Hno; [|set_solver]. cbn in Hno.
  rewrite elem_of_app. destruct (storageNode r), got as [o| |]; cbn; rewrite ?list_elem_of_singleton, ?elem_of_nil; naive_solver.
Qed.

(** ** The RDMA device of an interface

    Without an answer of the library, the device is the first of the class whose device directory is
    that of the interface. *)
Theorem sysfs_device EvalSymlinks ReadDir rdmamap netdev device :
  rdmamap netdev = None ∨ rdmamap netdev = Some "" →
  GetRdmaDeviceForNetdevice EvalSymlinks ReadDir rdmamap netdev = Some device ↔
  ∃ path entries before after, EvalSymlinks (Join ["/sys/class/net"; netdev; "device"]) = Some path ∧
    ReadDir "/sys/class/infiniband" = Some entries ∧ entries = before ++ device :: after ∧
    EvalSymlinks (Join ["/sys/class/infiniband"; device; "device"]) = Some path ∧
    Forall (fun d => EvalSymlinks (Join ["/sys/class/infiniband"; d; "device"]) ≠ Some path) before.
Proof.
  intros Hmap.
  assert (GetRdmaDeviceForNetdevice EvalSymlinks ReadDir rdmamap netdev = getRdmaDeviceForNetdeviceBySysfsDevice EvalSymlinks ReadDir netdev) as ->
    by (unfold GetRdmaDeviceForNetdevice; by destruct Hmap as [->| ->]).
  unfold getRdmaDeviceForNetdeviceBySysfsDevice, getRdmaDeviceForNetdeviceBySysfsDeviceFromPaths, SysClassNetDevicePath, sysClassInfinibandDevicePath.
  destruct (EvalSymlinks (Join ["/sys/class/net"; netdev; "device"])) as [path|]; cbn [mbind option_bind]; [|split; [done|naive_solver]].
  destruct (ReadDir "/sys/class/infiniband") as [entries|]; cbn [mbind option_bind]; [|split; [done|naive_solver]]. split.
  - destruct (list_find _ entries) as [[i d]|] eqn:Hf; [|done]. intros [= <-].
    apply list_find_Some in Hf as (Hi & Hd & Hbefore). exists path, entries, (take i entries), (drop (S i) entries).
    do 2 (split; [done|]). split; [by rewrite take_drop_middle|]. split; [done|].
    apply Forall_forall. intros d' [j Hj]%list_elem_of_lookup. apply lookup_take_Some in Hj as [Hj Hlt]. by apply (Hbefore j d').
  - intros (path' & entries' & before & after & [= <-] & [= <-] & -> & Hd & Hbefore).
    rewrite list_find_app_r by (apply list_find_None; done). cbn. by rewrite decide_True by done.
Qed.
