(* ===== verification/RdmaScraper.v ===== *)
(** * RDMA metrics: samples, names and files

    src/pkg/agent/rdmascraper: the samples of a scrape (snapshot.go), the kind of an interface
    (kind.go), the paths (paths.go) and files (reader_linux.go) of sysfs, names of statistics,
    and what the Prometheus collector emits (emitter.go).  The file system of a mount namespace
    is a record of answers; the addresses of an interface are a parameter. *)
From stdpp Require Import base gmap list numbers strings.
From Stdlib Require Import ZArith Ascii.
From S2P Require Import Prelude GoStrings GoNumbers GoFloat GoText GoJson GoBytes GoNet GoPath Api Config Lldp InterfaceSelector FabricNode.
Local Open Scope Z_scope.

(** ** Samples *)
Inductive MetricScope := MetricScopeHost | MetricScopePod.
Inductive MetricSource :=
  MetricSourceCounters | MetricSourceHWCounters | MetricSourceInterface | MetricSourceDevice | MetricSourceEthtool.
Inductive DeviceProvider := DeviceProviderUnknown | DeviceProviderMLX5 | DeviceProviderRXE.

#[export] Instance MetricSource_eq_dec : EqDecision MetricSource.
Proof. solve_decision. Defined.
#[export] Instance MetricScope_eq_dec : EqDecision MetricScope.
Proof. solve_decision. Defined.

Definition scopeText (s : MetricScope) : string := match s with MetricScopeHost => "host" | MetricScopePod => "pod" end.
Definition sourceText (s : MetricSource) : string :=
  match s with
  | MetricSourceCounters => "counters"
  | MetricSourceHWCounters => "hw_counters"
  | MetricSourceInterface => "interface"
  | MetricSourceDevice => "device"
  | MetricSourceEthtool => "ethtool"
  end.

Record TopOwnerLabels := MkTopOwner {
  TO_APIVersion : string;
  TO_Kind : string;
  TO_Namespace : string;
  TO_Name : string
}.

Record WorkloadLabels := MkWorkload {
  WL_PodName : string;
  WL_PodNamespace : string;
  WL_HostRDMA : bool;
  WL_TopOwner : TopOwnerLabels
}.

Definition noOwner : TopOwnerLabels := MkTopOwner "" "" "" "".
Definition noWorkload : WorkloadLabels := MkWorkload "" "" false noOwner.

Record MetricSample := MkSample {
  MS_Name : string;
  MS_Value : float64;
  MS_Scope : MetricScope;
  MS_Source : MetricSource;
  MS_Device : string;
  MS_Ifname : string;
  MS_ParentIfname : string;
  MS_Port : string;
  MS_Priority : string;
  MS_IsRoot : bool;
  MS_Kind : string;
  MS_Workload : WorkloadLabels
}.

Record RDMADevice := MkRDMADevice {
  RD_Name : string;
  RD_Provider : DeviceProvider;
  RD_Ifname : string;
  RD_ParentIfname : string;
  RD_Ports : list string
}.

Definition IsRoot (d : RDMADevice) : bool := bool_decide (RD_Ifname d ≠ "" ∧ RD_Ifname d = RD_ParentIfname d).

Record ScrapeWarning := MkWarning {
  SW_Scope : MetricScope;
  SW_Device : string;
  SW_Ifname : string;
  SW_Port : string;
  SW_Path : string;
  SW_Message : string;
  SW_Error : string
}.

Record ScrapeSnapshot := MkSnapshot {
  SS_NodeName : string;
  SS_Devices : list RDMADevice;
  SS_Samples : list MetricSample;
  SS_Warnings : list ScrapeWarning
}.

Definition emptySnapshot (node : string) : ScrapeSnapshot := MkSnapshot node [] [] [].

Definition AddSample (s : ScrapeSnapshot) (x : MetricSample) : ScrapeSnapshot :=
  MkSnapshot (SS_NodeName s) (SS_Devices s) (SS_Samples s ++ [x]) (SS_Warnings s).
Definition AddWarning (s : ScrapeSnapshot) (w : ScrapeWarning) : ScrapeSnapshot :=
  MkSnapshot (SS_NodeName s) (SS_Devices s) (SS_Samples s) (SS_Warnings s ++ [w]).
Definition AddDevice (s : ScrapeSnapshot) (d : RDMADevice) : ScrapeSnapshot :=
  MkSnapshot (SS_NodeName s) (SS_Devices s ++ [d]) (SS_Samples s) (SS_Warnings s).

(** An error is its text; the text of [nil] is empty. *)
Definition scrapeWarning (scope : MetricScope) (device ifname port path message : string) (err : option string) : ScrapeWarning :=
  MkWarning scope device ifname port path message (default "" err).

(** ** The kind of an interface *)
Definition rdmaInterfaceKindScaleOut : string := "scaleOut".
Definition rdmaInterfaceKindStorage : string := "storage".
Definition rdmaInterfaceKindScaleUp : string := "scaleUp".

Record interfaceSelector := MkSelector {
  sel_method : string;
  sel_value : string
}.

Definition newInterfaceSelector (selector : string) : interfaceSelector :=
  match split_first 61 (bytes selector) with
  | Some (method, value) => MkSelector (of_bytes method) (of_bytes value)
  | None => MkSelector "" ""
  end.

Record interfaceKindMatcher := MkMatcher {
  km_scaleOut : interfaceSelector;
  km_storage : interfaceSelector;
  km_scaleUp : interfaceSelector
}.

Definition buildInterfaceKindMatcher (cfg : NodeTopologyDiscoveryConfig) : interfaceKindMatcher :=
  MkMatcher (newInterfaceSelector (NT_ScaleOutInterfaceSelector cfg)) (newInterfaceSelector (NT_StorageInterfaceSelector cfg))
    (newInterfaceSelector (NT_ScaleUpInterfaceSelector cfg)).

Definition isSet (s : interfaceSelector) : bool := bool_decide (sel_method s ≠ "" ∧ sel_value s ≠ "").

(** [regexp.QuoteMeta] *)
Definition metaBytes : list Z := bytes "\.+*?()|[]{}^$".
Definition QuoteMeta (s : list Z) : list Z := s ≫= (fun b => if decide (b ∈ metaBytes) then [92; b] else [b]).

(** [strings.ReplaceAll] of a text of two bytes *)
Fixpoint replacePair (a b : Z) (new : list Z) (s : list Z) : list Z :=
  match s with
  | x :: ((y :: rest) as tl) =>
    if decide (x = a ∧ y = b) then new ++ replacePair a b new rest else x :: replacePair a b new tl
  | s => s
  end.

(** The expressions of literals, escaped literals, dots and dots with a star; [None] for any other. *)
Fixpoint compileRegexp (s : list Z) : option (list wildcard) :=
  match s with
  | [] => Some []
  | 92 :: c :: s => if decide (c ∈ metaBytes) then (Rune c ::.) <$> compileRegexp s else None
  | 46 :: 42 :: s => (AnyRunes ::.) <$> compileRegexp s
  | 46 :: s => (AnyRune ::.) <$> compileRegexp s
  | c :: s => if decide (c ∈ metaBytes) then None else (Rune c ::.) <$> compileRegexp s
  end.

(** The expression is anchored at both ends; one that is not UTF-8 is an error. *)
Definition matchInterfacePattern (ifname pattern : string) : bool :=
  let regexPattern := QuoteMeta (bytes pattern) in
  let regexPattern := replacePair 92 42 (bytes ".*") regexPattern in
  let regexPattern := replacePair 92 63 (bytes ".") regexPattern in
  utf8_valid (of_bytes regexPattern) &&
  match compileRegexp (runesOf (of_bytes regexPattern)) with
  | Some pieces => matchPieces pieces (runesOf ifname)
  | None => false
  end.

Definition matchMultipleInterfacePatterns (ifname patternList : string) : bool :=
  if decide (patternList = "") then false
  else
    let patterns := patternsOf patternList in
    let exclusions := trimBang <$> filter (fun p => isExclusion p = true) patterns in
    let inclusions := filter (fun p => isExclusion p = false) patterns in
    if existsb (matchInterfacePattern ifname) exclusions then false
    else match inclusions with
    | [] => bool_decide (exclusions ≠ [])
    | _ => existsb (matchInterfacePattern ifname) inclusions
    end.

(** An address of an interface, as [net.Addr]. *)
Inductive netAddr :=
| IPNetAddr (ip : IP)
| IPAddrAddr (ip : IP)
| OtherAddr.

Definition addrIP (addr : netAddr) : IP :=
  match addr with
  | IPNetAddr ip | IPAddrAddr ip => ip
  | OtherAddr => []
  end.

Section kinds.
(** The addresses of an interface: [net.InterfaceByName] fails, [Addrs] fails, or a list. *)
Context (interfaceByName : string → option (option (list netAddr))).

Definition matchInterfaceCIDR (ifname cidr : string) : bool :=
  match interfaceByName ifname with
  | Some (Some addrs) =>
    match ParseCIDR cidr with
    | Some cidrNet => existsb (fun addr => bool_decide (addrIP addr ≠ []) && Contains cidrNet (addrIP addr)) addrs
    | None => false
    end
  | _ => false
  end.

Definition selectorMatch (s : interfaceSelector) (ifname : string) : bool :=
  if negb (isSet s) then false
  else if decide (sel_method s = "interface") then matchMultipleInterfacePatterns ifname (sel_value s)
  else if decide (sel_method s = "cidr") then matchInterfaceCIDR ifname (sel_value s)
  else false.

Definition explicitKindForInterface (m : interfaceKindMatcher) (ifname : string) : string :=
  if selectorMatch (km_storage m) ifname then rdmaInterfaceKindStorage
  else if selectorMatch (km_scaleUp m) ifname then rdmaInterfaceKindScaleUp
  else if selectorMatch (km_scaleOut m) ifname then rdmaInterfaceKindScaleOut
  else "".

Definition interfaceKind (m : interfaceKindMatcher) (ifname parentIfname : string) : string :=
  let candidates := filter (fun c => c ≠ "") [parentIfname; ifname] in
  match filter (fun kind => kind ≠ "") (explicitKindForInterface m <$> candidates) with
  | kind :: _ => kind
  | [] => if bool_decide (candidates ≠ []) && negb (isSet (km_scaleOut m)) then rdmaInterfaceKindScaleOut else ""
  end.
End kinds.

(** ** Paths *)
Record scraperPaths := MkPaths {
  infinibandClassPath : string;
  netClassPath : string;
  hostNetNSPath : string;
  hostProcPath : string;
  containerdTaskPath : string;
  hostMountNSPID : Z
}.

Definition defaultScraperPaths : scraperPaths :=
  MkPaths "/sys/class/infiniband" "/sys/class/net" "/host/proc/1/ns/net" "/host/proc"
    "/host/run/containerd/io.containerd.runtime.v2.task/k8s.io" 1.

Section paths.
Context (paths : scraperPaths).

Definition devicePath (device : string) (elem : list string) : string := Join (infinibandClassPath paths :: device :: elem).
Definition netDevicePath (ifname : string) (elem : list string) : string := Join (netClassPath paths :: ifname :: elem).

Definition counterDirectoryPath (device port : string) (source : MetricSource) : string :=
  let dir := if decide (source = MetricSourceHWCounters) then "hw_counters" else "counters" in
  devicePath device ["ports"; port; dir].

Definition mountNamespacePath (pid : Z) : string := Join [hostProcPath paths; Itoa pid; "ns"; "mnt"].
Definition hostMountNamespacePath : string := mountNamespacePath (hostMountNSPID paths).
Definition netNamespacePath (pid : Z) : string := Join [hostProcPath paths; Itoa pid; "ns"; "net"].
Definition containerInitPIDPath (containerID : string) : string :=
  Join [containerdTaskPath paths; trim_prefix containerID "containerd://"; "init.pid"].
End paths.

(** ** Files *)
Inductive ioKind := IsNotExist | IsPermission | OtherIo.
#[export] Instance ioKind_eq_dec : EqDecision ioKind.
Proof. solve_decision. Defined.

Record ioError := MkIoError {
  io_kind : ioKind;
  io_text : string
}.

Record dirEntry := MkEntry {
  de_name : string;
  de_regular : bool
}.

(** What the calls to the file system of a mount namespace answer. *)
Record fsView := MkFs {
  ReadDir : string → ioError + list dirEntry;
  ReadFile : string → ioError + string;
  EvalSymlinks : string → ioError + string;
  Lstat : string → option ioError;
  Stat : string → option ioError
}.

Section files.
Context (fs : fsView).

Definition readCounterValue (path : string) : option float64 :=
  match ReadFile fs path with
  | inl _ => None
  | inr content =>
    let valueText := TrimSpace content in
    if contains valueText "N/A (no PMA)" then None
    else
      value ← ParseFloat valueText;
      Some (if decide (Base path = "port_xmit_data" ∨ Base path = "port_rcv_data") then mul64 value (of_int 4) else value)
  end.

(** The text of the error of [strconv.ParseFloat] is not kept. *)
Definition parseError : ioError := MkIoError OtherIo "strconv.ParseFloat".

Definition parseText (s : string) : ioError + float64 :=
  match ParseFloat s with Some v => inr v | None => inl parseError end.

Definition readFloatFile (path : string) : ioError + float64 :=
  match ReadFile fs path with
  | inl err => inl err
  | inr content => parseText (TrimSpace content)
  end.

Definition readOperStateFile (path : string) : ioError + float64 :=
  match ReadFile fs path with
  | inl err => inl err
  | inr content => inr (if decide (TrimSpace content = "up") then of_int 1 else of_int 0)
  end.

Definition readDeviceTOS (path : string) : ioError + float64 :=
  match ReadFile fs path with
  | inl err => inl err
  | inr content =>
    match strip_prefix "Global tclass=" (TrimSpace content) with
    | None => inr (of_int 0)
    | Some rest => parseText (TrimSpace rest)
    end
  end.
End files.

(** ** Names *)
Definition shouldSkipNetDevice (ifname : string) : bool := bool_decide (ifname = "lo") || has_prefix ifname "cali".

Definition rdmaDeviceProvider (device : string) : DeviceProvider :=
  if has_prefix device "mlx5_" then DeviceProviderMLX5
  else if has_prefix device "rxe_" then DeviceProviderRXE
  else DeviceProviderUnknown.

Definition isPriorityMetric (statName : string) : bool :=
  let directed := has_prefix statName "rx_prio" || has_prefix statName "tx_prio" in
  if decide (String.length statName = 14%nat) then directed && has_suffix statName "_pause"
  else if decide (String.length statName = 17%nat) then directed && has_suffix statName "_discards"
  else false.

Definition extractPriorityMetric (statName : string) : option (string * Z) :=
  if negb (isPriorityMetric statName) then None
  else match of_bytes <$> split_on 95 (bytes statName) with
  | [direction; rawPriority; counter] =>
    digits ← strip_prefix "prio" rawPriority;
    priority ← Atoi digits;
    Some (direction +:+ "_" +:+ counter, priority)
  | _ => None
  end.

(** The labels of a Pod. *)
Definition workloadLabelsForPod (pod : RdmaPod) : WorkloadLabels :=
  MkWorkload (RP_Name pod) (RP_Namespace pod) (HostRDMA pod)
    match RP_TopOwner pod with
    | Some o => MkTopOwner (Owner_APIVersion o) (Owner_Kind o) (Owner_Namespace o) (Owner_Name o)
    | None => noOwner
    end.

(** ** What the collector emits *)
Definition defaultMetricNamespace : string := "unifabric".
Definition nodeInfoMetricName : string := "unifabric_node_info".
Definition nodeInfoLabelName : string := "unifabric_node_name".

Definition rdmaSampleLabelNames : list string :=
  ["node_name"; "device"; "ifname"; "parent_ifname"; "port"; "priority"; "pod_name"; "pod_namespace";
   "topowner_api_version"; "topowner_kind"; "topowner_namespace"; "topowner_name"; "host_rdma"; "is_root";
   "kind"; "scope"; "source"].

Record Desc := MkDesc {
  d_name : string;
  d_help : string;
  d_labels : list string
}.

Record Metric := MkMetric {
  m_desc : Desc;
  m_value : float64;
  m_labels : list string
}.

Record PrometheusEmitter := MkEmitter {
  pe_namespace : string;
  pe_descs : gmap string Desc
}.

Definition NewPrometheusEmitter : PrometheusEmitter := MkEmitter defaultMetricNamespace ∅.

Definition metricName (e : PrometheusEmitter) (name : string) : string :=
  if has_prefix name (pe_namespace e +:+ "_") then name else pe_namespace e +:+ "_" +:+ name.

(** The byte 255, as a text. *)
Definition descSeparator : string := of_bytes [255].
Definition descKey (name : string) (labelNames : list string) : string :=
  name +:+ descSeparator +:+ join descSeparator labelNames.

Definition desc (e : PrometheusEmitter) (name help : string) (labelNames : list string) : Desc * PrometheusEmitter :=
  let key := descKey name labelNames in
  match pe_descs e !! key with
  | Some d => (d, e)
  | None => let d := MkDesc name help labelNames in (d, MkEmitter (pe_namespace e) (<[key := d]> (pe_descs e)))
  end.

Definition FormatBool (b : bool) : string := if b then "true" else "false".

Definition sampleLabelValues (nodeName : string) (x : MetricSample) : list string :=
  [nodeName; MS_Device x; MS_Ifname x; MS_ParentIfname x; MS_Port x; MS_Priority x;
   WL_PodName (MS_Workload x); WL_PodNamespace (MS_Workload x);
   TO_APIVersion (WL_TopOwner (MS_Workload x)); TO_Kind (WL_TopOwner (MS_Workload x));
   TO_Namespace (WL_TopOwner (MS_Workload x)); TO_Name (WL_TopOwner (MS_Workload x));
   FormatBool (WL_HostRDMA (MS_Workload x)); FormatBool (MS_IsRoot x); MS_Kind x;
   scopeText (MS_Scope x); sourceText (MS_Source x)].

Section emit.
(** Whether Prometheus accepts a metric name. *)
Context (validName : string → bool).

(** [prometheus.MustNewConstMetric]: the name has to be valid, and every label has a value in UTF-8. *)
Definition MustNewConstMetric (d : Desc) (value : float64) (labelValues : list string) : outcome Metric :=
  if validName (d_name d) && bool_decide (length labelValues = length (d_labels d)) && forallb utf8_valid labelValues
  then Ret (MkMetric d value labelValues) else Panic.

Definition emitNodeInfo (nodeName : string) (e : PrometheusEmitter) : outcome (Metric * PrometheusEmitter) :=
  let '(d, e) := desc e nodeInfoMetricName "Unifabric node information" [nodeInfoLabelName] in
  m ← MustNewConstMetric d (of_int 1) [nodeName];
  Ret (m, e).

Definition emitSample (nodeName : string) (x : MetricSample) (e : PrometheusEmitter) : outcome (Metric * PrometheusEmitter) :=
  let '(d, e) := desc e (metricName e (MS_Name x)) "" rdmaSampleLabelNames in
  m ← MustNewConstMetric d (MS_Value x) (sampleLabelValues nodeName x);
  Ret (m, e).

(** The metrics sent to the channel. *)
Definition Emit (snapshot : ScrapeSnapshot) (e : PrometheusEmitter) : outcome (list Metric * PrometheusEmitter) :=
  '(m, e) ← emitNodeInfo (SS_NodeName snapshot) e;
  go_foldl (fun '(ms, e) x => '(m, e) ← emitSample (SS_NodeName snapshot) x e; Ret (ms ++ [m], e)) ([m], e) (SS_Samples snapshot).
End emit.

Example priority_examples :
  extractPriorityMetric "rx_prio3_pause" = Some ("rx_pause", 3) ∧
  extractPriorityMetric "tx_prio0_discards" = Some ("tx_discards", 0) ∧
  extractPriorityMetric "rx_prio3_bytes" = None ∧ extractPriorityMetric "rx_prio__pause" = None ∧
  matchMultipleInterfacePatterns "eth0.100" "eth0.1*, !eth0.2*" = true ∧
  matchMultipleInterfacePatterns "eth0x100" "eth0.1*" = false ∧
  interfaceKind (fun _ => None) (MkMatcher (MkSelector "" "") (newInterfaceSelector "interface=ens*") (MkSelector "" "")) "eth1" "" = "scaleOut".
Proof. vm_compute. done. Qed.
