(* ===== verification/RdmaEthtool.v ===== *)
(** * The cache of ethtool statistics

    src/pkg/agent/rdmascraper/ethtool.go and ethtool_linux.go: statistics per priority are read
    in a network namespace and reused by the scrapes that follow soon.  Scrapes run at the same
    time, so a call of [Stats] is a state machine with one step per reading of the clock, critical
    section and lock operation, and a run is any interleaving of the steps of its callers.  Times
    are nanoseconds of the monotonic clock. *)
From stdpp Require Import base gmap list numbers strings.
From Stdlib Require Import ZArith.
From S2P Require Import Prelude GoStrings GoNumbers RdmaScraper.
Local Open Scope Z_scope.

Definition ethtoolStatsTTL : Z := 5 * 10 ^ 9.
Definition hostNetNSID : string := "host".

Record netnsRef := MkNetns {
  nr_id : string;
  nr_path : string
}.

Record ethtoolStatsResult := MkStats {
  es_stats : gmap string Z;
  es_err : option string
}.

(** What the results of one call are: a result per interface. *)
Abbreviation statsResults := (gmap string ethtoolStatsResult).

(** ** Reading the kernel *)

(** What the system answers inside a network namespace: entering it, opening the ethtool socket,
    and the statistics of an interface. *)
Record netnsWorld := MkWorld {
  nw_enter : option string;
  nw_init : option string;
  nw_stats : string → string + gmap string Z
}.

Definition readInterfaceStats (w : netnsWorld) (ifname : string) : ethtoolStatsResult :=
  match nw_stats w ifname with
  | inl err => MkStats ∅ (Some err)
  | inr stats => MkStats (filter (fun kv => isPriorityMetric kv.1 = true) stats) None
  end.

Definition readEthtoolStats (w : netnsWorld) (ifnames : list string) : statsResults * option string :=
  match nw_enter w, nw_init w with
  | Some err, _ => (∅, Some err)
  | None, Some err => (∅, Some ("init ethtool: " +:+ err))
  | None, None => (foldl (fun m ifname => <[ifname := readInterfaceStats w ifname]> m) ∅ ifnames, None)
  end.

(** ** The cache *)
Record ethtoolStatsEntry := MkStatsEntry {
  en_result : ethtoolStatsResult;
  en_fetchedAt : Z
}.

Abbreviation ethtoolStatsKey := (string * string)%type.

Record ethtoolStatsCache := MkStatsCache {
  ec_ttl : Z;
  ec_retention : Z;
  ec_entries : gmap ethtoolStatsKey ethtoolStatsEntry
}.

Definition newEthtoolStatsCache (ttl : Z) : ethtoolStatsCache := MkStatsCache ttl (10 * ttl) ∅.

Definition lookupOne (c : ethtoolStatsCache) (now : Z) (netnsID : string) (allowStale : bool)
    (acc : statsResults * list string) (ifname : string) : statsResults * list string :=
  match ec_entries c !! (netnsID, ifname) with
  | Some entry =>
    if negb allowStale && bool_decide (ec_ttl c ≤ now - en_fetchedAt entry) then (acc.1, acc.2 ++ [ifname])
    else (<[ifname := en_result entry]> acc.1, acc.2)
  | None => (acc.1, acc.2 ++ [ifname])
  end.

(** [lookup]; the clock was read as [now] before. *)
Definition lookupStats (c : ethtoolStatsCache) (now : Z) (netnsID : string) (ifnames : list string) (allowStale : bool)
  : statsResults * list string :=
  foldl (lookupOne c now netnsID allowStale) (∅, []) ifnames.

Section order.
Context `{RangeOrder}.

(** [store] *)
Definition storeStats (c : ethtoolStatsCache) (now : Z) (netnsID : string) (fetched : statsResults) : ethtoolStatsCache :=
  let entries := foldl (fun m '(ifname, result) => <[(netnsID, ifname) := MkStatsEntry result now]> m) (ec_entries c) (range fetched) in
  MkStatsCache (ec_ttl c) (ec_retention c) (filter (fun ke => now - en_fetchedAt ke.2 < ec_retention c) entries).

(** ** Callers *)

(** A fetch that was stored: the namespace and interface, the result and the time. *)
Record fetchRecord := MkFetch {
  fr_key : ethtoolStatsKey;
  fr_entry : ethtoolStatsEntry
}.

(** Where a call of [Stats] is.  [Returned] keeps, when the values may be stale, what had been
    fetched when they were looked up, newest first. *)
Inductive statsPc :=
| Looking
| Looked (now : Z)
| Trying
| Stale
| Waiting
| Holding
| Relooking (now : Z)
| Fetching (results : statsResults) (missing : list string)
| Fetched (results fetched : statsResults) (err : option string)
| Storing (now : Z) (results fetched : statsResults) (err : option string)
| Unlocking (results : statsResults) (err : option string)
| Returned (results : statsResults) (err : option string) (stale : option (list fetchRecord)).

Record statsCaller := MkCaller {
  sc_netns : netnsRef;
  sc_ifnames : list string;
  sc_called : Z;
  sc_pc : statsPc
}.

Definition with_pc (pc : statsPc) (c : statsCaller) : statsCaller := MkCaller (sc_netns c) (sc_ifnames c) (sc_called c) pc.

(** The shared state: the clock, the cache, who holds [fetchMu], and the callers; [sm_log] are the
    stored fetches, newest first. *)
Record statsMachine := MkMachine {
  sm_now : Z;
  sm_cache : ethtoolStatsCache;
  sm_lock : option nat;
  sm_callers : list statsCaller;
  sm_log : list fetchRecord
}.

Definition newMachine (ttl now : Z) : statsMachine := MkMachine now (newEthtoolStatsCache ttl) None [] [].

Inductive statsAction :=
| Tick (d : N)
| Call (netns : netnsRef) (ifnames : list string)
| Step (i : nat)
| Answer (i : nat) (w : netnsWorld).

Definition fetchRecords (netnsID : string) (now : Z) (fetched : statsResults) : list fetchRecord :=
  (fun '(ifname, result) => MkFetch (netnsID, ifname) (MkStatsEntry result now)) <$> range fetched.

(** A caller moves on, with a change of the lock. *)
Definition moves (m : statsMachine) (i : nat) (c : statsCaller) (lock : option nat) (pc : statsPc) : statsMachine :=
  MkMachine (sm_now m) (sm_cache m) lock (<[i := with_pc pc c]> (sm_callers m)) (sm_log m).

(** The step of caller [i] from its place; [None] where it waits for the lock or for the kernel, or
    has returned. *)
Definition callerStep (m : statsMachine) (i : nat) (c : statsCaller) : option statsMachine :=
  let id := nr_id (sc_netns c) in
  let look now stale := lookupStats (sm_cache m) now id (sc_ifnames c) stale in
  let goes pc := Some (moves m i c (sm_lock m) pc) in
  match sc_pc c with
  | Looking => goes (Looked (sm_now m))
  | Looked now => let '(results, missing) := look now false in
    goes (if decide (missing = []) then Returned results None None else Trying)
  | Trying => match sm_lock m with
    | None => Some (moves m i c (Some i) Holding)
    | Some _ => goes Stale
    end
  | Stale => let '(stale, unknown) := look (sm_now m) true in
    goes (if decide (unknown = []) then Returned stale None (Some (sm_log m)) else Waiting)
  | Waiting => match sm_lock m with
    | None => Some (moves m i c (Some i) Holding)
    | Some _ => None
    end
  | Holding => goes (Relooking (sm_now m))
  | Relooking now => let '(results, missing) := look now false in
    goes (if decide (missing = []) then Unlocking results None else Fetching results missing)
  | Fetching _ _ => None
  | Fetched results fetched err => goes (Storing (sm_now m) results fetched err)
  | Storing now results fetched err =>
    Some (MkMachine (sm_now m) (storeStats (sm_cache m) now id fetched) (sm_lock m)
      (<[i := with_pc (Unlocking (fetched ∪ results) err) c]> (sm_callers m)) (fetchRecords id now fetched ++ sm_log m))
  | Unlocking results err => Some (moves m i c None (Returned results err None))
  | Returned _ _ _ => None
  end.

Definition statsStep (m : statsMachine) (a : statsAction) : option statsMachine :=
  match a with
  | Tick d => Some (MkMachine (sm_now m + Z.of_N d) (sm_cache m) (sm_lock m) (sm_callers m) (sm_log m))
  | Call netns ifnames =>
    Some (MkMachine (sm_now m) (sm_cache m) (sm_lock m) (sm_callers m ++ [MkCaller netns ifnames (sm_now m) Looking]) (sm_log m))
  | Step i => c ← sm_callers m !! i; callerStep m i c
  | Answer i w =>
    c ← sm_callers m !! i;
    match sc_pc c with
    | Fetching results missing =>
      let '(fetched, err) := readEthtoolStats w missing in Some (moves m i c (sm_lock m) (Fetched results fetched err))
    | _ => None
    end
  end.

(** A run; an action that is not enabled does nothing. *)
Definition statsRun (m : statsMachine) (actions : list statsAction) : statsMachine :=
  foldl (fun m a => default m (statsStep m a)) m actions.
End order.

(** ** What the cache promises *)

(** The last stored fetch of a key. *)
Fixpoint lastFetch (log : list fetchRecord) (key : ethtoolStatsKey) : option ethtoolStatsEntry :=
  match log with
  | [] => None
  | r :: log => if decide (fr_key r = key) then Some (fr_entry r) else lastFetch log key
  end.

(** The caller holds [fetchMu]. *)
Definition critical (pc : statsPc) : bool :=
  match pc with
  | Holding | Relooking _ | Fetching _ _ | Fetched _ _ _ | Storing _ _ _ _ | Unlocking _ _ => true
  | _ => false
  end.

(** Every result was fetched for this namespace and interface, during the call or less than [ttl]
    before it began. *)
Definition fresh (ttl : Z) (log : list fetchRecord) (c : statsCaller) (results : statsResults) : Prop :=
  ∀ ifname r, results !! ifname = Some r → ifname ∈ sc_ifnames c ∧
    ∃ t, MkFetch (nr_id (sc_netns c), ifname) (MkStatsEntry r t) ∈ log ∧ (sc_called c ≤ t ∨ sc_called c - t < ttl).

(** Every result is the last one fetched. *)
Definition lastKnown (log : list fetchRecord) (c : statsCaller) (results : statsResults) : Prop :=
  ∀ ifname, ifname ∈ sc_ifnames c → ∃ e, lastFetch log (nr_id (sc_netns c), ifname) = Some e ∧ results !! ifname = Some (en_result e).

Definition covered (c : statsCaller) (results : statsResults) : Prop := ∀ ifname, ifname ∈ sc_ifnames c → is_Some (results !! ifname).

(** The answer of a call: with values that may be stale, every interface has the last value that
    was known; else all values are fresh, and only an error excuses a missing one. *)
Definition answerOk (ttl : Z) (log : list fetchRecord) (c : statsCaller) (results : statsResults) (err : option string)
    (stale : option (list fetchRecord)) : Prop :=
  match stale with
  | Some log' => err = None ∧ (∃ newer, log = newer ++ log') ∧ lastKnown log' c results
  | None => fresh ttl log c results ∧ (err = None → covered c results)
  end.

(** ** Lookups, fetches and stores *)
Section lookups.
Context (c : ethtoolStatsCache) (now : Z) (id : string) (stale : bool).

Definition servable (ifname : string) (r : ethtoolStatsResult) : Prop :=
  ∃ e, ec_entries c !! (id, ifname) = Some e ∧ en_result e = r ∧ (stale = false → now - en_fetchedAt e < ec_ttl c).

Lemma lookupStats_spec ifnames results missing : lookupStats c now id ifnames stale = (results, missing) →
  (∀ ifname r, results !! ifname = Some r → ifname ∈ ifnames ∧ servable ifname r) ∧
  (∀ ifname, ifname ∈ ifnames → is_Some (results !! ifname) ∨ ifname ∈ missing) ∧ (∀ ifname, ifname ∈ missing → ifname ∈ ifnames).
Proof.
  unfold lookupStats. revert results missing. induction ifnames as [|x l IH] using rev_ind; intros results missing.
  { intros [= <- <-]. split; [intros ? ?; by rewrite lookup_empty|]. split; set_solver. }
  rewrite foldl_app. cbn [foldl]. destruct (foldl _ _ l) as [rs ms]. destruct (IH rs ms eq_refl) as (H1 & H2 & H3).
  unfold lookupOne. cbn [fst snd]. set (stop := (rs, ms ++ [x])).
  assert ((results, missing) = stop → (∀ ifname r, results !! ifname = Some r → ifname ∈ l ++ [x] ∧ servable ifname r) ∧
    (∀ ifname, ifname ∈ l ++ [x] → is_Some (results !! ifname) ∨ ifname ∈ missing) ∧ (∀ ifname, ifname ∈ missing → ifname ∈ l ++ [x])) as Hstop.
  { intros [= -> ->]. split; [intros i r Hr; destruct (H1 i r Hr); set_solver|]. split; [|set_solver].
    intros i [Hi|Hi]%elem_of_app; [destruct (H2 i Hi); [by left|right; set_solver]|right; set_solver]. }
  destruct (ec_entries c !! (id, x)) as [e|] eqn:He; [|by intros H; apply Hstop].
  destruct (negb stale && _) eqn:Hcond; [by intros H; apply Hstop|]. intros [= <- <-]. split; [|split].
  - intros i r. rewrite lookup_insert_Some. intros [[<- <-]|[_ Hr]]; [|destruct (H1 i r Hr); set_solver].
    split; [set_solver|]. exists e. split; [done|]. split; [done|]. intros ->. cbn in Hcond. apply bool_decide_eq_false in Hcond. lia.
  - intros i [Hi|Hi]%elem_of_app.
    + destruct (decide (i = x)) as [->|Hne]; [left; rewrite lookup_insert_eq; by eexists|].
      rewrite lookup_insert_ne by done. by apply H2.
    + apply list_elem_of_singleton in Hi as ->. left. rewrite lookup_insert_eq. by eexists.
  - set_solver.
Qed.
End lookups.

Lemma readEthtoolStats_spec w ifnames fetched err : readEthtoolStats w ifnames = (fetched, err) →
  (∀ ifname, is_Some (fetched !! ifname) → ifname ∈ ifnames) ∧ (err = None → ∀ ifname, ifname ∈ ifnames → is_Some (fetched !! ifname)).
Proof.
  unfold readEthtoolStats. destruct (nw_enter w); [intros [= <- <-]; split; [intros i [r Hr]; by rewrite lookup_empty in Hr|done]|].
  destruct (nw_init w); [intros [= <- <-]; split; [intros i [r Hr]; by rewrite lookup_empty in Hr|done]|]. intros [= <- <-].
  assert (∀ i, is_Some (foldl (fun m ifname => <[ifname := readInterfaceStats w ifname]> m) (∅ : statsResults) ifnames !! i) ↔ i ∈ ifnames) as H.
  { induction ifnames as [|x l IH] using rev_ind; intros i; [cbn; rewrite lookup_empty; split; [by intros []|set_solver]|].
    rewrite foldl_app. cbn [foldl]. rewrite lookup_insert_is_Some, IH, elem_of_app, list_elem_of_singleton. destruct (decide (x = i)); naive_solver. }
  split; [intros i; apply H|intros _ i; apply H].
Qed.

Lemma lastFetch_elem log key e : lastFetch log key = Some e → MkFetch key e ∈ log.
Proof.
  induction log as [|[k f] log IH]; [done|]. cbn. case_decide as Hk; [|intros H; apply list_elem_of_further; by apply IH].
  intros [= ->]. subst. apply list_elem_of_here.
Qed.

(** ** The invariant of runs *)
Section runs.
Context `{o : RangeOrder}.

Lemma storeStats_entries c now id fetched key e : ec_entries (storeStats c now id fetched) !! key = Some e →
  now - en_fetchedAt e < ec_retention c ∧
  ((∃ ifname r, key = (id, ifname) ∧ fetched !! ifname = Some r ∧ e = MkStatsEntry r now) ∨
   (ec_entries c !! key = Some e ∧ ∀ ifname, key = (id, ifname) → fetched !! ifname = None)).
Proof.
  unfold storeStats. cbn [ec_entries]. rewrite map_lookup_filter_Some. intros [He Hr]. split; [done|]. clear Hr.
  assert (∀ l (m : gmap ethtoolStatsKey ethtoolStatsEntry), NoDup l.*1 → foldl (fun m '(ifname, result) => <[(id, ifname) := MkStatsEntry result now]> m) m l !! key = Some e →
    (∃ ifname r, key = (id, ifname) ∧ (ifname, r) ∈ l ∧ e = MkStatsEntry r now) ∨
    (m !! key = Some e ∧ ∀ ifname, key = (id, ifname) → ifname ∉ l.*1)) as Hl.
  { clear He. induction l as [|[x r] l IH] using rev_ind; intros m Hd; [right; set_solver|]. rewrite foldl_app. cbn [foldl].
    rewrite fmap_app in Hd |- *. apply NoDup_app in Hd as (Hd & _ & _). rewrite lookup_insert_Some.
    intros [[<- <-]|[Hne He]]; [left; exists x, r; set_solver|]. destruct (IH m Hd He) as [(i & r' & ? & ? & ?)|[? Hn]].
    - left. exists i, r'. set_solver.
    - right. split; [done|]. intros i Hi. specialize (Hn i Hi). cbn. set_solver. }
  destruct (Hl (range fetched) (ec_entries c) (NoDup_range_keys fetched) He) as [(i & r & -> & Hin & ->)|[Hm Hn]].
  - left. exists i, r. by apply elem_of_range in Hin.
  - right. split; [done|]. intros i Hi. specialize (Hn i Hi). rewrite elem_of_range_keys in Hn. by apply eq_None_not_Some.
Qed.

Lemma lastFetch_records id now fetched log key :
  lastFetch (fetchRecords id now fetched ++ log) key =
    match decide (key.1 = id) with
    | left _ => match fetched !! key.2 with Some r => Some (MkStatsEntry r now) | None => lastFetch log key end
    | right _ => lastFetch log key
    end.
Proof.
  unfold fetchRecords. assert (∀ l, NoDup l.*1 → lastFetch (((fun '(ifname, result) => MkFetch (id, ifname) (MkStatsEntry result now)) <$> l) ++ log) key =
    match decide (key.1 = id) with
    | left _ => match (list_to_map l : statsResults) !! key.2 with Some r => Some (MkStatsEntry r now) | None => lastFetch log key end
    | right _ => lastFetch log key
    end) as H.
  { destruct key as [i k]. cbn [fst snd]. induction l as [|[x r] l IH]; intros Hd; [by case_decide|]. cbn in Hd. apply NoDup_cons in Hd as [Hx Hd].
    cbn [fmap list_fmap app lastFetch fr_key fr_entry]. rewrite (IH Hd). rewrite list_to_map_cons.
    destruct (decide ((id, x) = (i, k))) as [[= -> ->]|Hne].
    - rewrite decide_True by done. by rewrite lookup_insert_eq.
    - case_decide as Hi; [|done]. subst. rewrite lookup_insert_ne; [done|congruence]. }
  rewrite H by apply NoDup_range_keys. case_decide; [|done].
  rewrite (list_to_map_proper _ (map_to_list fetched)); [by rewrite list_to_map_to_list|apply NoDup_range_keys|apply range_perm].
Qed.

(** What is known of a caller at each place. *)
Definition pcOk (ttl : Z) (log : list fetchRecord) (c : statsCaller) : Prop :=
  let known results fetched (err : option string) :=
    fresh ttl log c results ∧ (∀ i, is_Some (fetched !! i) → i ∈ sc_ifnames c) ∧
    (err = None → ∀ i, i ∈ sc_ifnames c → is_Some (results !! i) ∨ is_Some (fetched !! i)) in
  match sc_pc c with
  | Looking | Trying | Stale | Waiting | Holding => True
  | Looked t | Relooking t => sc_called c ≤ t
  | Fetching results missing =>
    fresh ttl log c results ∧ (∀ i, i ∈ sc_ifnames c → is_Some (results !! i) ∨ i ∈ missing) ∧ (∀ i, i ∈ missing → i ∈ sc_ifnames c)
  | Fetched results fetched err => known results fetched err
  | Storing t results fetched err => known results fetched err ∧ sc_called c ≤ t
  | Unlocking results err => fresh ttl log c results ∧ (err = None → covered c results)
  | Returned results err stale => answerOk ttl log c results err stale
  end.

Definition lockOk (lock : option nat) (callers : list statsCaller) : Prop :=
  (∀ i c, callers !! i = Some c → critical (sc_pc c) = bool_decide (lock = Some i)) ∧ (∀ i, lock = Some i → is_Some (callers !! i)).

Record machineOk (ttl : Z) (m : statsMachine) : Prop := {
  mo_ttl : ec_ttl (sm_cache m) = ttl;
  mo_cache key e : ec_entries (sm_cache m) !! key = Some e → lastFetch (sm_log m) key = Some e;
  mo_lock : lockOk (sm_lock m) (sm_callers m);
  mo_callers i c : sm_callers m !! i = Some c → sc_called c ≤ sm_now m ∧ pcOk ttl (sm_log m) c
}.

Lemma fresh_app ttl newer log c results : fresh ttl log c results → fresh ttl (newer ++ log) c results.
Proof. intros H i r Hr. destruct (H i r Hr) as (Hi & t & Ht & Hc). split; [done|]. exists t. split; [apply elem_of_app; by right|done]. Qed.

Lemma pcOk_app ttl newer log c : pcOk ttl log c → pcOk ttl (newer ++ log) c.
Proof.
  unfold pcOk. destruct (sc_pc c) as [| | | | | | |results missing|results fetched err|t results fetched err|results err|results err [log'|]];
    intros H; try done; try (destruct H as [H1 H2]; split; [by apply fresh_app|done]).
  - destruct H as [[H1 H2] H3]. split; [|done]. split; [by apply fresh_app|done].
  - destruct H as (H1 & (l & ->) & H2). split; [done|]. split; [|done]. exists (newer ++ l). by rewrite app_assoc.
Qed.

(** The lock changes with the critical section of the caller that moves. *)
Lemma lockOk_moves lock lock' callers i c pc : lockOk lock callers → callers !! i = Some c →
  (lock' = lock ∧ critical pc = critical (sc_pc c) ∨ lock = None ∧ lock' = Some i ∧ critical pc = true ∨
   critical (sc_pc c) = true ∧ lock' = None ∧ critical pc = false) →
  lockOk lock' (<[i := with_pc pc c]> callers).
Proof.
  intros [Hl1 Hl2] Hi Hlock. assert (i < length callers)%nat as Hlen by (by eapply lookup_lt_Some).
  pose proof (Hl1 i c Hi) as Hci. split.
  - intros j cj Hj. apply list_lookup_insert_Some in Hj as [(<- & <- & _)|[Hne Hj]]; cbn [with_pc sc_pc].
    + destruct Hlock as [(-> & ->)|[(_ & -> & ->)|(_ & -> & ->)]]; [done|by rewrite bool_decide_eq_true_2|done].
    + rewrite (Hl1 j cj Hj). destruct Hlock as [(-> & _)|[(-> & -> & _)|(Hcr & -> & _)]]; [done| |].
      * apply bool_decide_ext. naive_solver.
      * apply bool_decide_ext. rewrite Hci in Hcr. apply bool_decide_eq_true in Hcr. naive_solver.
  - intros j Hj. destruct Hlock as [(-> & _)|[(_ & -> & _)|(_ & -> & _)]]; [| |done].
    + destruct (decide (i = j)) as [->|Hne]; [rewrite list_lookup_insert_eq by done; by eexists|rewrite list_lookup_insert_ne by done; by apply Hl2].
    + injection Hj as <-. rewrite list_lookup_insert_eq by done. by eexists.
Qed.

(** One caller moves to a place that is right. *)
Lemma machineOk_moves ttl m i c lock pc : machineOk ttl m → sm_callers m !! i = Some c → pcOk ttl (sm_log m) (with_pc pc c) →
  (lock = sm_lock m ∧ critical pc = critical (sc_pc c) ∨ sm_lock m = None ∧ lock = Some i ∧ critical pc = true ∨
   critical (sc_pc c) = true ∧ lock = None ∧ critical pc = false) →
  machineOk ttl (moves m i c lock pc).
Proof.
  intros [Ht Hc Hl Hcs] Hi Hpc Hlock. split; [done|done|by eapply lockOk_moves|].
  unfold moves. cbn. intros j cj Hj. apply list_lookup_insert_Some in Hj as [(<- & <- & _)|[Hne Hj]]; [|exact (Hcs j cj Hj)].
  split; [exact (proj1 (Hcs i c Hi))|done].
Qed.

Lemma fresh_lookup ttl m i c now results missing : machineOk ttl m → sm_callers m !! i = Some c → sc_called c ≤ now →
  lookupStats (sm_cache m) now (nr_id (sc_netns c)) (sc_ifnames c) false = (results, missing) → fresh ttl (sm_log m) c results.
Proof.
  intros Hm Hi Hnow Hl. destruct (lookupStats_spec _ _ _ _ _ _ _ Hl) as (H1 & _ & _). intros ifname r Hr.
  destruct (H1 ifname r Hr) as (Hin & e & He & <- & Hf). split; [done|]. exists (en_fetchedAt e). split.
  - apply lastFetch_elem. rewrite (mo_cache ttl m Hm _ _ He). by destruct e.
  - right. specialize (Hf eq_refl). rewrite (mo_ttl ttl m Hm) in Hf. lia.
Qed.

(** Storing what was fetched: the results are fresh, and the cache knows the last fetches. *)
Lemma store_ok ttl m i c t results fetched err : machineOk ttl m → sm_callers m !! i = Some c → sc_pc c = Storing t results fetched err →
  machineOk ttl (MkMachine (sm_now m) (storeStats (sm_cache m) t (nr_id (sc_netns c)) fetched) (sm_lock m)
    (<[i := with_pc (Unlocking (fetched ∪ results) err) c]> (sm_callers m)) (fetchRecords (nr_id (sc_netns c)) t fetched ++ sm_log m)).
Proof.
  intros Hm Hi Epc. destruct (mo_callers ttl m Hm i c Hi) as [Hcalled Hpc]. unfold pcOk in Hpc. rewrite Epc in Hpc.
  destruct Hpc as [(Hf & Hdom & Hcov) Ht]. set (records := fetchRecords _ _ _).
  assert (pcOk ttl (records ++ sm_log m) (with_pc (Unlocking (fetched ∪ results) err) c)) as Hnew.
  { unfold pcOk. cbn. split.
    - intros x r Hr. cbn. apply lookup_union_Some_raw in Hr as [Hr|[_ Hr]].
      + split; [by apply Hdom; eexists|]. exists t. split; [|by left]. apply elem_of_app. left. subst records. unfold fetchRecords.
        apply list_elem_of_fmap. exists (x, r). split; [done|by apply elem_of_range].
      + destruct (Hf x r Hr) as (Hx & t' & Ht' & Hc). split; [done|]. exists t'. split; [apply elem_of_app; by right|done].
    - intros He x Hx. cbn in Hx. apply lookup_union_is_Some. destruct (Hcov He x Hx); auto. }
  split; cbn.
  - apply (mo_ttl ttl m Hm).
  - intros key e He. destruct (storeStats_entries _ _ _ _ _ _ He) as [_ Hcase]. subst records. rewrite lastFetch_records.
    destruct Hcase as [(x & r & -> & Hr & ->)|[Hold Hnone]].
    + cbn. rewrite decide_True by done. by rewrite Hr.
    + rewrite (mo_cache ttl m Hm _ _ Hold). case_decide as Hid; [|done]. destruct key as [a b]. cbn in *. subst. by rewrite (Hnone b eq_refl).
  - eapply lockOk_moves; [apply (mo_lock ttl m Hm)|done|]. left. by rewrite Epc.
  - intros j cj Hj. apply list_lookup_insert_Some in Hj as [(<- & <- & _)|[Hne Hj]]; [by split|].
    destruct (mo_callers ttl m Hm j cj Hj). split; [done|by apply pcOk_app].
Qed.

(** A caller takes a step of its own. *)
Lemma callerStep_ok ttl m i c m' : machineOk ttl m → sm_callers m !! i = Some c → callerStep m i c = Some m' → machineOk ttl m'.
Proof.
  intros Hm Hi. destruct (mo_callers ttl m Hm i c Hi) as [Hcalled Hpc]. pose proof (mo_lock ttl m Hm) as [Hl _]. specialize (Hl i c Hi).
  unfold callerStep. unfold pcOk in Hpc.
  destruct (sc_pc c) as [|t| | | | |t|results missing|results fetched err|t results fetched err|results err|results err stale] eqn:Epc;
    cbn [critical] in Hl; try done.
  - intros [= <-]. apply machineOk_moves; [done..|left; by rewrite Epc].
  - destruct (lookupStats _ _ _ _ _) as [results missing] eqn:Hlk. intros [= <-]. pose proof (lookupStats_spec _ _ _ _ _ _ _ Hlk) as (_ & H2 & _).
    apply machineOk_moves; [done..| |left; rewrite Epc; split; [done|by destruct (decide (missing = []))]]. destruct (decide (missing = [])) as [Hmis|]; [|done]. unfold pcOk. cbn. split.
    + by eapply (fresh_lookup ttl m i c).
    + intros _ x Hx. destruct (H2 x Hx); [done|subst; set_solver].
  - destruct (sm_lock m) eqn:Elock; intros [= <-]; (apply machineOk_moves; [done..|]); [left; by rewrite Epc, Elock|right; by left].
  - destruct (lookupStats _ _ _ _ _) as [results missing] eqn:Hlk. intros [= <-]. pose proof (lookupStats_spec _ _ _ _ _ _ _ Hlk) as (H1 & H2 & _).
    apply machineOk_moves; [done..| |left; rewrite Epc; split; [done|by destruct (decide (missing = []))]]. destruct (decide (missing = [])) as [Hmis|]; [|done]. unfold pcOk. cbn.
    split; [done|]. split; [by exists []|]. intros x Hx. destruct (H2 x Hx) as [[r Hr]|]; [|subst; set_solver].
    destruct (H1 x r Hr) as (_ & e & He & <- & _). exists e. split; [by apply (mo_cache ttl m Hm)|done].
  - destruct (sm_lock m) eqn:Elock; intros [= <-]. apply machineOk_moves; [done..|]. right. by left.
  - intros [= <-]. apply machineOk_moves; [done..|left; by rewrite Epc].
  - destruct (lookupStats _ _ _ _ _) as [results missing] eqn:Hlk. intros [= <-]. pose proof (lookupStats_spec _ _ _ _ _ _ _ Hlk) as (_ & H2 & H3).
    pose proof (fresh_lookup ttl m i c t results missing Hm Hi Hpc Hlk) as Hf.
    apply machineOk_moves; [done..| |left; rewrite Epc; split; [done|by destruct (decide (missing = []))]]. destruct (decide (missing = [])) as [Hmis|]; unfold pcOk; cbn; [|done].
    split; [done|]. intros _ x Hx. destruct (H2 x Hx); [done|subst; set_solver].
  - intros [= <-]. apply machineOk_moves; [done..| |left; by rewrite Epc]. unfold pcOk. cbn. done.
  - intros [= <-]. by eapply store_ok.
  - intros [= <-]. apply machineOk_moves; [done..|]. right. right. by rewrite Epc.
Qed.
End runs.

(** ** Every call returns *)
Definition pcRank (pc : statsPc) : nat :=
  match pc with
  | Looking => 11 | Looked _ => 10 | Trying => 9 | Stale => 8 | Waiting => 7 | Holding => 6 | Relooking _ => 5
  | Fetching _ _ => 4 | Fetched _ _ _ => 3 | Storing _ _ _ _ => 2 | Unlocking _ _ => 1 | Returned _ _ _ => 0
  end.

(** The steps the callers have left at most. *)
Definition work (callers : list statsCaller) : nat := sum_list_with (fun c => pcRank (sc_pc c)) callers.

Lemma work_insert callers i c pc : callers !! i = Some c → (pcRank pc < pcRank (sc_pc c))%nat →
  (work (<[i := with_pc pc c]> callers) < work callers)%nat.
Proof.
  intros Hi Hr. assert (i < length callers)%nat as Hlen by (by eapply lookup_lt_Some). unfold work.
  rewrite insert_take_drop by done. rewrite <-(take_drop_middle callers i c Hi) at 3. rewrite !sum_list_with_app. cbn. lia.
Qed.

(** The action is one of caller [i]. *)
Definition actsFor (i : nat) (a : statsAction) : Prop := a = Step i ∨ ∃ w, a = Answer i w.

Section runs.
Context `{o : RangeOrder}.

Lemma statsStep_work m i a m' : actsFor i a → statsStep m a = Some m' → (work (sm_callers m') < work (sm_callers m))%nat.
Proof.
  intros [->|[w ->]]; cbn [statsStep]; destruct (sm_callers m !! i) as [c|] eqn:Hi; cbn [mbind option_bind]; try done.
  - unfold callerStep. destruct (sc_pc c) eqn:Epc; intros Hs; repeat case_match; simplify_eq;
      cbn [moves sm_callers]; (apply work_insert; [done|]); rewrite Epc; try (destruct (decide _)); cbn; lia.
  - destruct (sc_pc c) eqn:Epc; try done. destruct (readEthtoolStats w missing) as [fetched err]. intros [= <-].
    cbn. apply work_insert; [done|]. rewrite Epc. cbn. lia.
Qed.

Lemma statsStep_ok ttl m a m' : machineOk ttl m → statsStep m a = Some m' → machineOk ttl m'.
Proof.
  intros Hm. destruct a as [d|netns ifnames|i|i w]; cbn [statsStep].
  - intros [= <-]. destruct Hm as [Ht Hc Hl Hcs]. split; [done..|]. cbn. intros i c Hi. destruct (Hcs i c Hi). split; [lia|done].
  - intros [= <-]. destruct Hm as [Ht Hc [Hl1 Hl2] Hcs]. split; [done|done| |]; cbn.
    + split; [|intros i Hi; destruct (Hl2 i Hi) as [c Hci]; exists c; by apply lookup_app_l_Some].
      intros i c Hi. apply lookup_app_Some in Hi as [Hi|[Hlen Hi]]; [by apply Hl1|].
      apply list_lookup_singleton_Some in Hi as [Hi <-]. cbn. symmetry. apply bool_decide_eq_false. intros Hi'.
      destruct (Hl2 i Hi') as [c' Hc']. apply lookup_lt_Some in Hc'. lia.
    + intros i c Hi. apply lookup_app_Some in Hi as [Hi|[Hlen Hi]]; [by apply (Hcs i)|].
      apply list_lookup_singleton_Some in Hi as [_ <-]. cbn. split; [lia|done].
  - destruct (sm_callers m !! i) as [c|] eqn:Hi; [|done]. cbn. by apply callerStep_ok.
  - destruct (sm_callers m !! i) as [c|] eqn:Hi; [|done]. cbn. destruct (sc_pc c) as [| | | | | | |results missing| | | | ] eqn:Epc; try done.
    destruct (readEthtoolStats w missing) as [fetched err] eqn:Hf. intros [= <-].
    destruct (mo_callers ttl m Hm i c Hi) as [_ Hpc]. unfold pcOk in Hpc. rewrite Epc in Hpc. destruct Hpc as (H1 & H2 & H3).
    destruct (readEthtoolStats_spec _ _ _ _ Hf) as [F1 F2].
    apply machineOk_moves; [done..| |left; by rewrite Epc]. unfold pcOk. cbn. split; [done|]. split; [by intros x Hx; apply H3, F1|].
    intros He x Hx. destruct (H2 x Hx); [by left|right; by apply F2].
Qed.

Lemma statsRun_ok ttl now actions : machineOk ttl (statsRun (newMachine ttl now) actions).
Proof.
  unfold statsRun. apply (foldl_inv (fun _ m => machineOk ttl m)).
  - split; [done|intros key e He; cbn [newMachine sm_cache newEthtoolStatsCache ec_entries] in He; by rewrite lookup_empty in He| |done]. split; done.
  - intros _ a _ m _ Hm. destruct (statsStep m a) as [m'|] eqn:Hs; [|done]. by eapply statsStep_ok.
Qed.

(** A caller that has not returned can take a step, or the holder of the lock can. *)
Lemma stats_progress ttl m i c : machineOk ttl m → sm_callers m !! i = Some c → (0 < pcRank (sc_pc c))%nat →
  ∃ j a m', (j = i ∨ sm_lock m = Some j) ∧ actsFor j a ∧ statsStep m a = Some m'.
Proof.
  intros Hm Hi Hr.
  assert (∀ j cj, sm_callers m !! j = Some cj → (0 < pcRank (sc_pc cj))%nat → sc_pc cj ≠ Waiting → ∃ a m', actsFor j a ∧ statsStep m a = Some m') as Hgo.
  { intros j cj Hj Hrj Hw. destruct (sc_pc cj) eqn:Epc; try done; try (cbn in Hrj; lia);
      try (exists (Step j); cbn [statsStep]; rewrite Hj; cbn [mbind option_bind]; unfold callerStep; rewrite Epc;
        repeat case_match; eexists; (split; [by left|done])).
    exists (Answer j (MkWorld None None (fun _ => inr ∅))). cbn [statsStep]. rewrite Hj. cbn [mbind option_bind]. rewrite Epc.
    destruct (readEthtoolStats _ _). eexists. split; [right; by eexists|done]. }
  destruct (decide (critical (sc_pc c) = false ∧ pcRank (sc_pc c) = 7%nat)) as [[_ Hw]|Hw].
  - destruct (sc_pc c) eqn:Epc; try done. destruct (sm_lock m) as [j|] eqn:El.
    + destruct (mo_lock ttl m Hm) as [Hl1 Hl2]. destruct (Hl2 j El) as [cj Hj]. pose proof (Hl1 j cj Hj) as Hcr.
      rewrite bool_decide_eq_true_2 in Hcr by done. destruct (Hgo j cj Hj) as (a & m' & ? & ?).
      * destruct (sc_pc cj); cbn in *; lia || done.
      * intros E. by rewrite E in Hcr.
      * exists j, a, m'. auto.
    + exists i, (Step i). cbn [statsStep]. rewrite Hi. cbn [mbind option_bind]. unfold callerStep. rewrite Epc, El.
      eexists. split; [by left|]. split; [by left|done].
  - destruct (Hgo i c Hi Hr) as (a & m' & ? & ?); [|exists i, a, m'; auto]. intros E. apply Hw. by rewrite E.
Qed.
End runs.

(** C31. In every interleaving of scrapes the cache of ethtool statistics keeps its promises: at most
    one caller holds the lock that fetches need; what a call returns was fetched for the same
    namespace and interface during the call or less than the time to live before it, or, when
    another fetch was in flight, is the last value known; a call without an error has a value for
    every interface; and while a call has not returned, it or the holder of the lock can take a
    step, each of which brings the callers closer to their end. *)
Theorem stats_cache_runs `{RangeOrder} ttl now actions :
  let m := statsRun (newMachine ttl now) actions in
  (∀ i j ci cj, sm_callers m !! i = Some ci → sm_callers m !! j = Some cj →
    critical (sc_pc ci) = true → critical (sc_pc cj) = true → i = j) ∧
  (∀ i c results err stale, sm_callers m !! i = Some c → sc_pc c = Returned results err stale →
    answerOk ttl (sm_log m) c results err stale) ∧
  (∀ i c, sm_callers m !! i = Some c → (0 < pcRank (sc_pc c))%nat →
    ∃ j a m', (j = i ∨ sm_lock m = Some j) ∧ actsFor j a ∧ statsStep m a = Some m' ∧
      (work (sm_callers m') < work (sm_callers m))%nat).
Proof.
  intros m. pose proof (statsRun_ok ttl now actions) as Hm. fold m in Hm. split; [|split].
  - intros i j ci cj Hi Hj Ci Cj. destruct (mo_lock ttl m Hm) as [Hl _].
    rewrite (Hl i ci Hi) in Ci. rewrite (Hl j cj Hj) in Cj. apply bool_decide_eq_true in Ci, Cj. congruence.
  - intros i c results err stale Hi Hpc. destruct (mo_callers ttl m Hm i c Hi) as [_ Hok]. unfold pcOk in Hok. by rewrite Hpc in Hok.
  - intros i c Hi Hr. destruct (stats_progress ttl m i c Hm Hi Hr) as (j & a & m' & Hj & Ha & Hs).
    exists j, a, m'. split; [done|]. split; [done|]. split; [done|]. by eapply statsStep_work.
Qed.
