(* ===== verification/RdmaCollect.v ===== *)
(** * Scraping the node and its Pods

    host_linux.go, pod_linux.go, namespace_linux.go, scraper.go and collector.go of
    src/pkg/agent/rdmascraper: the samples of the devices of the node, read in the mount
    namespace of the host, and of the Pods, read in the namespaces of their containers.  The
    outcome of switching a namespace, the files seen there and the answers of the statistics
    cache are arguments. *)
From stdpp Require Import base gmap list numbers strings.
From Stdlib Require Import ZArith.
From S2P Require Import Prelude GoStrings GoNumbers GoFloat GoBytes GoText GoNet GoPath Api Config InterfaceSelector FabricNode RdmaScraper RdmaEthtool.
Local Open Scope Z_scope.

(** ** Mount namespaces *)

(** The errors of the calls that switch a thread to a namespace and back. *)
Record nsAnswers := MkNsAnswers {
  ns_unshare : option string;
  ns_openOriginal : option string;
  ns_openTarget : option string;
  ns_setns : option string;
  ns_restore : option string
}.

Definition withMountNamespace {S} (paths : scraperPaths) (a : nsAnswers) (pid : Z) (fn : S → option string * S) (s : S)
  : option string * S :=
  let mntPath := mountNamespacePath paths pid in
  match ns_unshare a, ns_openOriginal a, ns_openTarget a, ns_setns a with
  | Some err, _, _, _ => (Some ("unshare: " +:+ err), s)
  | _, Some err, _, _ => (Some ("open original mount namespace: " +:+ err), s)
  | _, _, Some err, _ => (Some ("open target mount namespace " +:+ mntPath +:+ ": " +:+ err), s)
  | _, _, _, Some err => (Some ("switch to mount namespace " +:+ mntPath +:+ ": " +:+ err), s)
  | None, None, None, None =>
    let '(err, s) := fn s in
    match ns_restore a, err with
    | Some restoreErr, None => (Some ("switch back to original mount namespace: " +:+ restoreErr), s)
    | _, _ => (err, s)
    end
  end.

Record hostCollection := MkHostCollection {
  pciToPfIfname : gmap string string;
  rootIfnames : list string
}.

Definition noCollection : hostCollection := MkHostCollection ∅ [].

(** The calls of [ethtoolStatsCache.Stats]. *)
Abbreviation statsCall := (netnsRef → list string → statsResults * option string).

Section scraper.
Context `{RangeOrder}.
Context (interfaceByName : string → option (option (list netAddr))).
Context (kindMatcher : interfaceKindMatcher) (paths : scraperPaths).

(** ** Devices and their interfaces *)
Section sysfs.
Context (fs : fsView).

Definition readRDMAPorts (device : string) : ioError + list string :=
  match ReadDir fs (devicePath paths device ["ports"]) with
  | inl err => inl err
  | inr entries => inr (de_name <$> entries)
  end.

(** The interfaces of the class directory that are not skipped and have a device, with its path. *)
Definition pciDevices : list (string * string) :=
  match ReadDir fs (netClassPath paths) with
  | inl _ => []
  | inr entries =>
    omap (fun entry =>
      let ifname := de_name entry in
      if shouldSkipNetDevice ifname then None
      else match EvalSymlinks fs (netDevicePath paths ifname ["device"]) with
           | inl _ => None
           | inr absPci => Some (absPci, ifname)
           end) entries
  end.

Definition buildPciToIfnameMap : gmap string string := foldl (fun m '(absPci, ifname) => <[absPci := ifname]> m) ∅ pciDevices.

(** A physical function has no link to another one. *)
Definition hasNoPhysfn (ifname : string) : bool :=
  match Lstat fs (Join [netDevicePath paths ifname ["device"]; "physfn"]) with
  | Some err => bool_decide (io_kind err = IsNotExist)
  | None => false
  end.

Definition buildPciToPfIfnameMap : gmap string string :=
  foldl (fun m '(absPci, ifname) => if hasNoPhysfn ifname then <[absPci := ifname]> m else m) ∅ pciDevices.

(** The first interface named by an attribute of a port that exists. *)
Definition gidInterface (ndevsPath : string) (entry : dirEntry) : option string :=
  match ReadFile fs (Join [ndevsPath; de_name entry]) with
  | inl _ => None
  | inr content =>
    let ifname := TrimSpace content in
    if decide (ifname = "") then None
    else match Stat fs (netDevicePath paths ifname []) with
         | Some _ => None
         | None => Some ifname
         end
  end.

Definition getIfNameFromGIDAttrs (device : string) : option string :=
  match readRDMAPorts device with
  | inl _ => None
  | inr ports =>
    head (ports ≫= (fun port =>
      let ndevsPath := devicePath paths device ["ports"; port; "gid_attrs"; "ndevs"] in
      match ReadDir fs ndevsPath with
      | inl _ => []
      | inr entries => omap (gidInterface ndevsPath) entries
      end))
  end.

(** The name, or the text of an error. *)
Definition getIfNameForInfinibandDevice (device : string) (pciToIfname : gmap string string) : string + string :=
  match getIfNameFromGIDAttrs device with
  | Some ifname => inr ifname
  | None =>
    match EvalSymlinks fs (devicePath paths device ["device"]) with
    | inl err => inl (io_text err)
    | inr absPciPath =>
      match pciToIfname !! absPciPath with
      | Some ifname => inr ifname
      | None => inl ("no matching netdev for " +:+ device)
      end
    end
  end.

Definition resolveParentIfname (ifname : string) (pciToPf : gmap string string) : string :=
  if decide (ifname = "") then ifname
  else match EvalSymlinks fs (netDevicePath paths ifname ["device"; "physfn"]) with
  | inl _ => ifname
  | inr pfPciPath => default ifname (pciToPf !! pfPciPath)
  end.

(** ** Samples of a device

    The collectors of the host and of the Pods differ in the sample they make ([sample] of a
    name and a value), the scope, and the text of warnings. *)
Section device.
Context (scope : MetricScope) (sample : string → float64 → MetricSample).

Definition counterDirectory (message device ifname port dirPath : string) (snap : ScrapeSnapshot) : ScrapeSnapshot :=
  match ReadDir fs dirPath with
  | inl err =>
    if decide (io_kind err = OtherIo)
    then AddWarning snap (scrapeWarning scope device ifname port dirPath message (Some (io_text err))) else snap
  | inr files =>
    foldl (fun snap f =>
      if negb (de_regular f) then snap
      else match readCounterValue fs (Join [dirPath; de_name f]) with
           | None => snap
           | Some value => AddSample snap (sample (de_name f) value)
           end) snap files
  end.

Definition interfaceSamples (message device ifname port : string) (snap : ScrapeSnapshot) : ScrapeSnapshot :=
  foldl (fun snap '(name, path, read) =>
    match read path with
    | inl err => AddWarning snap (scrapeWarning scope device ifname port path message (Some (io_text err)))
    | inr value => AddSample snap (sample name value)
    end) snap
    [("port_speed_mbps", netDevicePath paths ifname ["speed"], readFloatFile fs);
     ("port_mtu", netDevicePath paths ifname ["mtu"], readFloatFile fs);
     ("port_oper_state", netDevicePath paths ifname ["operstate"], readOperStateFile fs)].

Definition deviceTOS (message device ifname : string) (snap : ScrapeSnapshot) : ScrapeSnapshot :=
  let path := devicePath paths device ["tc"; "1"; "traffic_class"] in
  match readDeviceTOS fs path with
  | inl err =>
    let snap := if decide (io_kind err = IsNotExist) then snap
      else AddWarning snap (scrapeWarning scope device ifname "" path message (Some (io_text err))) in
    AddSample snap (sample "rdma_device_tos" (of_int 0))
  | inr value => AddSample snap (sample "rdma_device_tos" value)
  end.
End device.
End sysfs.

(** Samples per priority out of the statistics of an interface. *)
Definition prioritySamples (sample : string → float64 → string → MetricSample) (stats : gmap string Z) (snap : ScrapeSnapshot)
  : ScrapeSnapshot :=
  foldl (fun snap '(statName, statValue) =>
    match extractPriorityMetric statName with
    | None => snap
    | Some (name, priority) => AddSample snap (sample name (of_int statValue) (Itoa priority))
    end) snap (range stats).

(** ** The host *)
Definition hostSample (name : string) (value : float64) (source : MetricSource) (device ifname parentIfname port priority : string)
  : MetricSample :=
  MkSample name value MetricScopeHost source device ifname parentIfname port priority
    (bool_decide (ifname ≠ "" ∧ ifname = parentIfname)) (interfaceKind interfaceByName kindMatcher ifname parentIfname) noWorkload.

Definition collectCounterDirectory (fs : fsView) (device ifname parentIfname port : string) (source : MetricSource)
  : ScrapeSnapshot → ScrapeSnapshot :=
  counterDirectory fs MetricScopeHost (fun name value => hostSample name value source device ifname parentIfname port "")
    "failed to list RDMA counter directory" device ifname port (counterDirectoryPath paths device port source).

Definition collectInterfaceSamples (fs : fsView) (device ifname parentIfname port : string) : ScrapeSnapshot → ScrapeSnapshot :=
  interfaceSamples fs MetricScopeHost
    (fun name value => hostSample name value MetricSourceInterface device ifname parentIfname port "")
    "failed to collect interface metric" device ifname port.

Definition collectDeviceTOS (fs : fsView) (device ifname parentIfname : string) : ScrapeSnapshot → ScrapeSnapshot :=
  deviceTOS fs MetricScopeHost (fun name value => hostSample name value MetricSourceDevice device ifname parentIfname "" "")
    "failed to read or parse RDMA device ToS" device ifname.

(** The samples of one port. *)
Definition collectPort (fs : fsView) (device ifname parentIfname : string) (snap : ScrapeSnapshot) (port : string) : ScrapeSnapshot :=
  collectInterfaceSamples fs device ifname parentIfname port
    (collectCounterDirectory fs device ifname parentIfname port MetricSourceCounters
      (collectCounterDirectory fs device ifname parentIfname port MetricSourceHWCounters snap)).

(** One device of the loop of [collectHostSysfs]. *)
Definition collectHostDevice (fs : fsView) (pciToIfname pciToPf : gmap string string) (acc : list string * ScrapeSnapshot)
    (dev : dirEntry) : list string * ScrapeSnapshot :=
  let '(roots, snap) := acc in
  let deviceName := de_name dev in
  let '(ifname, snap) := match getIfNameForInfinibandDevice fs deviceName pciToIfname with
    | inl err => ("", AddWarning snap (scrapeWarning MetricScopeHost deviceName "" "" (devicePath paths deviceName ["device"])
        "no matching netdev for infiniband device" (Some err)))
    | inr ifname => (ifname, snap)
    end in
  let parentIfname := resolveParentIfname fs ifname pciToPf in
  let roots := if decide (ifname ≠ "" ∧ parentIfname = ifname) then roots ++ [ifname] else roots in
  if decide (ifname ≠ "" ∧ parentIfname ≠ ifname) then (roots, snap)
  else match readRDMAPorts fs deviceName with
  | inl err =>
    (roots, AddWarning snap (scrapeWarning MetricScopeHost deviceName ifname "" (devicePath paths deviceName ["ports"])
      "failed to list RDMA ports" (Some (io_text err))))
  | inr ports =>
    let snap := AddDevice snap (MkRDMADevice deviceName (rdmaDeviceProvider deviceName) ifname parentIfname ports) in
    let snap := collectDeviceTOS fs deviceName ifname parentIfname snap in
    (roots, foldl (collectPort fs deviceName ifname parentIfname) snap ports)
  end.

(** The collection, an error, and the snapshot. *)
Definition collectHostSysfs (fs : fsView) (snap : ScrapeSnapshot) : hostCollection * option string * ScrapeSnapshot :=
  let pciToIfname := buildPciToIfnameMap fs in
  let pciToPf := buildPciToPfIfnameMap fs in
  match ReadDir fs (infinibandClassPath paths) with
  | inl err => (MkHostCollection pciToPf [], Some ("list infiniband devices: " +:+ io_text err), snap)
  | inr devices =>
    let '(roots, snap) := foldl (collectHostDevice fs pciToIfname pciToPf) ([], snap) devices in
    (MkHostCollection pciToPf roots, None, snap)
  end.

Definition hostEthtoolInterface (results : statsResults) (snap : ScrapeSnapshot) (ifname : string) : ScrapeSnapshot :=
  match results !! ifname with
  | None => snap
  | Some result =>
    match es_err result with
    | Some err => AddWarning snap (scrapeWarning MetricScopeHost "" ifname "" (hostNetNSPath paths) "failed to read ethtool stats" (Some err))
    | None =>
      prioritySamples (fun name value priority => hostSample name value MetricSourceEthtool "" ifname ifname "" priority)
        (es_stats result) snap
    end
  end.

Definition collectHostEthtool (Stats : statsCall) (roots : list string) (snap : ScrapeSnapshot) : ScrapeSnapshot :=
  if decide (hostNetNSPath paths = "" ∨ roots = []) then snap
  else
    let '(results, err) := Stats (MkNetns hostNetNSID (hostNetNSPath paths)) roots in
    let snap := match err with
      | Some err => AddWarning snap (scrapeWarning MetricScopeHost "" "" "" (hostNetNSPath paths) "failed to enter host net namespace" (Some err))
      | None => snap
      end in
    foldl (hostEthtoolInterface results) snap roots.

(** What a scrape of the host meets: the context, the switch to the namespace of the host and the
    files there, the files seen without it, and the statistics. *)
Record hostWorld := MkHostWorld {
  hw_ctx : option string;
  hw_ns : nsAnswers;
  hw_target : fsView;
  hw_own : fsView;
  hw_stats : statsCall
}.

Definition warnCollect (err : option string) (snap : ScrapeSnapshot) : ScrapeSnapshot :=
  match err with
  | Some err => AddWarning snap (scrapeWarning MetricScopeHost "" "" "" (infinibandClassPath paths) "failed to collect host RDMA metrics" (Some err))
  | None => snap
  end.

(** The variables [collection] and [collectErr] are assigned by the function that is called in
    the namespace. *)
Definition collectHost (w : hostWorld) (snap : ScrapeSnapshot) : hostCollection * ScrapeSnapshot :=
  match hw_ctx w with
  | Some err =>
    (noCollection, AddWarning snap (scrapeWarning MetricScopeHost "" "" "" "" "host scrape skipped because context is done" (Some err)))
  | None =>
    let '(collection, snap) :=
      if decide (0 < hostMountNSPID paths) then
        let '(nsErr, (collection, collectErr, snap)) :=
          withMountNamespace paths (hw_ns w) (hostMountNSPID paths)
            (fun '(_, _, snap) => (None, collectHostSysfs (hw_target w) snap)) (noCollection, None, snap) in
        match nsErr with
        | Some nsErr =>
          let snap := AddWarning snap (scrapeWarning MetricScopeHost "" "" "" (hostMountNamespacePath paths)
            "failed to enter host mount namespace" (Some nsErr)) in
          let '(collection, err, snap) := collectHostSysfs (hw_own w) snap in
          (collection, warnCollect err snap)
        | None => (collection, warnCollect collectErr snap)
        end
      else
        let '(collection, err, snap) := collectHostSysfs (hw_own w) snap in
        (collection, warnCollect err snap) in
    (collection, collectHostEthtool (hw_stats w) (rootIfnames collection) snap)
  end.

(** ** Pods *)
Definition podSample (name : string) (value : float64) (source : MetricSource) (workload : WorkloadLabels)
    (device ifname parentIfname port priority : string) : MetricSample :=
  MkSample name value MetricScopePod source device ifname parentIfname port priority
    (bool_decide (ifname ≠ "" ∧ ifname = parentIfname)) (interfaceKind interfaceByName kindMatcher ifname parentIfname) workload.

Definition with_pod (workload : WorkloadLabels) (x : MetricSample) : MetricSample :=
  MkSample (MS_Name x) (MS_Value x) MetricScopePod (MS_Source x) (MS_Device x) (MS_Ifname x) (MS_ParentIfname x) (MS_Port x)
    (MS_Priority x) (MS_IsRoot x) (MS_Kind x) workload.

Definition collectHostRDMAPod (hostSamples : list MetricSample) (workload : WorkloadLabels) (snap : ScrapeSnapshot) : ScrapeSnapshot :=
  foldl (fun snap x => if decide (MS_Name x = "rdma_device_tos") then snap else AddSample snap (with_pod workload x)) snap hostSamples.

Definition collectPodCounterDirectory (fs : fsView) (workload : WorkloadLabels) (device ifname parentIfname port : string)
    (source : MetricSource) : ScrapeSnapshot → ScrapeSnapshot :=
  counterDirectory fs MetricScopePod (fun name value => podSample name value source workload device ifname parentIfname port "")
    "failed to list pod RDMA counter directory" device ifname port (counterDirectoryPath paths device port source).

Definition collectPodInterfaceSamples (fs : fsView) (workload : WorkloadLabels) (device ifname parentIfname : string)
  : ScrapeSnapshot → ScrapeSnapshot :=
  interfaceSamples fs MetricScopePod
    (fun name value => podSample name value MetricSourceInterface workload device ifname parentIfname "" "")
    "failed to collect pod interface metric" device ifname "".

Definition collectPodDeviceTOS (fs : fsView) (workload : WorkloadLabels) (device ifname parentIfname : string)
  : ScrapeSnapshot → ScrapeSnapshot :=
  deviceTOS fs MetricScopePod (fun name value => podSample name value MetricSourceDevice workload device ifname parentIfname "" "")
    "failed to read or parse pod RDMA device ToS" device ifname.

Definition collectPodPort (fs : fsView) (workload : WorkloadLabels) (device ifname parentIfname : string) (snap : ScrapeSnapshot)
    (port : string) : ScrapeSnapshot :=
  collectPodCounterDirectory fs workload device ifname parentIfname port MetricSourceCounters
    (collectPodCounterDirectory fs workload device ifname parentIfname port MetricSourceHWCounters snap).

(** One device of the loop of [collectPodSysfs]. *)
Definition collectPodDevice (fs : fsView) (workload : WorkloadLabels) (pciToIfname hostPciToPf : gmap string string)
    (acc : gmap string string * ScrapeSnapshot) (dev : dirEntry) : gmap string string * ScrapeSnapshot :=
  let '(ifNameToDevice, snap) := acc in
  let deviceName := de_name dev in
  match getIfNameForInfinibandDevice fs deviceName pciToIfname with
  | inl err =>
    (ifNameToDevice, AddWarning snap (scrapeWarning MetricScopePod deviceName "" "" (devicePath paths deviceName ["device"])
      "no matching pod netdev for infiniband device" (Some err)))
  | inr ifname =>
    let parentIfname := resolveParentIfname fs ifname hostPciToPf in
    match readRDMAPorts fs deviceName with
    | inl err =>
      (ifNameToDevice, AddWarning snap (scrapeWarning MetricScopePod deviceName ifname "" (devicePath paths deviceName ["ports"])
        "failed to list pod RDMA ports" (Some (io_text err))))
    | inr ports =>
      let snap := foldl (collectPodPort fs workload deviceName ifname parentIfname) snap ports in
      let snap := collectPodInterfaceSamples fs workload deviceName ifname parentIfname snap in
      let snap := collectPodDeviceTOS fs workload deviceName ifname parentIfname snap in
      (<[ifname := deviceName]> ifNameToDevice, snap)
    end
  end.

(** The devices by interface, which are [nil] with an error, and the snapshot. *)
Definition collectPodSysfs (fs : fsView) (pod : RdmaPod) (workload : WorkloadLabels) (hostPciToPf : gmap string string)
    (snap : ScrapeSnapshot) : gmap string string * option string * ScrapeSnapshot :=
  match ReadDir fs (infinibandClassPath paths) with
  | inl err =>
    (∅, Some ("list pod infiniband devices for " +:+ RP_Namespace pod +:+ "/" +:+ RP_Name pod +:+ ": " +:+ io_text err), snap)
  | inr devices =>
    let '(ifNameToDevice, snap) := foldl (collectPodDevice fs workload (buildPciToIfnameMap fs) hostPciToPf) (∅, snap) devices in
    (ifNameToDevice, None, snap)
  end.

Definition podEthtoolInterface (netns : netnsRef) (workload : WorkloadLabels) (results : statsResults) (snap : ScrapeSnapshot)
    (id : string * string) : ScrapeSnapshot :=
  let '(ifname, device) := id in
  match results !! ifname with
  | None => snap
  | Some result =>
    match es_err result with
    | Some err => AddWarning snap (scrapeWarning MetricScopePod device ifname "" (nr_path netns) "failed to read pod ethtool stats" (Some err))
    | None =>
      prioritySamples (fun name value priority => podSample name value MetricSourceEthtool workload device ifname ifname "" priority)
        (es_stats result) snap
    end
  end.

Definition collectPodEthtool (Stats : statsCall) (workload : WorkloadLabels) (containerID : string) (pid : Z)
    (ifNameToDevice : gmap string string) (snap : ScrapeSnapshot) : ScrapeSnapshot :=
  let netns := MkNetns containerID (netNamespacePath paths pid) in
  let '(results, err) := Stats netns (range ifNameToDevice).*1 in
  let snap := match err with
    | Some err => AddWarning snap (scrapeWarning MetricScopePod "" "" "" (nr_path netns) "failed to enter pod net namespace" (Some err))
    | None => snap
    end in
  foldl (podEthtoolInterface netns workload results) snap (range ifNameToDevice).

(** The process of a container, or the text of an error. *)
Definition containerInitPID (own : fsView) (containerID : string) : string + Z :=
  if negb (has_prefix containerID "containerd://") then inl ("not a containerd container: " +:+ containerID)
  else
    let pidPath := containerInitPIDPath paths containerID in
    match ReadFile own pidPath with
    | inl err => inl ("read " +:+ pidPath +:+ ": " +:+ io_text err)
    | inr pidBytes =>
      match Atoi (TrimSpace pidBytes) with
      | None => inl ("parse pid from " +:+ pidPath)
      | Some pid => inr pid
      end
    end.

(** What the scrape of a container meets. *)
Record containerWorld := MkContainerWorld {
  cw_own : fsView;
  cw_ns : nsAnswers;
  cw_target : fsView;
  cw_stats : statsCall
}.

Definition warnPodCollect (err : option string) (snap : ScrapeSnapshot) : ScrapeSnapshot :=
  match err with
  | Some err => AddWarning snap (scrapeWarning MetricScopePod "" "" "" (infinibandClassPath paths)
      "failed to collect pod RDMA sysfs metrics" (Some err))
  | None => snap
  end.

(** One container: whether the loop goes on, and the snapshot. *)
Definition collectContainer (w : containerWorld) (pod : RdmaPod) (workload : WorkloadLabels) (host : hostCollection)
    (containerID : string) (snap : ScrapeSnapshot) : bool * ScrapeSnapshot :=
  match containerInitPID (cw_own w) containerID with
  | inl err =>
    (true, AddWarning snap (scrapeWarning MetricScopePod "" "" "" (containerInitPIDPath paths containerID)
      "failed to resolve container init pid" (Some err)))
  | inr pid =>
    let sampleCountBefore := length (SS_Samples snap) in
    let '(nsErr, (ifNameToDevice, collectErr, snap)) :=
      withMountNamespace paths (cw_ns w) pid
        (fun '(_, _, snap) => (None, collectPodSysfs (cw_target w) pod workload (pciToPfIfname host) snap)) (∅, None, snap) in
    match nsErr with
    | Some nsErr =>
      (true, AddWarning snap (scrapeWarning MetricScopePod "" "" "" (mountNamespacePath paths pid)
        "failed to enter pod mount namespace" (Some nsErr)))
    | None =>
      let snap := warnPodCollect collectErr snap in
      let ethtoolBefore := length (SS_Samples snap) in
      let snap := if decide (ifNameToDevice = ∅) then snap
        else collectPodEthtool (cw_stats w) workload containerID pid ifNameToDevice snap in
      (negb (bool_decide (sampleCountBefore < length (SS_Samples snap) ∨ ethtoolBefore < length (SS_Samples snap))%nat), snap)
    end
  end.

Fixpoint collectContainers (worlds : nat → containerWorld) (pod : RdmaPod) (workload : WorkloadLabels) (host : hostCollection)
    (containers : list string) (snap : ScrapeSnapshot) : ScrapeSnapshot :=
  match containers with
  | [] => snap
  | containerID :: rest =>
    let '(goesOn, snap) := collectContainer (worlds 0%nat) pod workload host containerID snap in
    if goesOn then collectContainers (fun i => worlds (S i)) pod workload host rest snap else snap
  end.

Definition collectNamespacedPod (worlds : nat → containerWorld) (pod : RdmaPod) (workload : WorkloadLabels) (host : hostCollection)
    (snap : ScrapeSnapshot) : ScrapeSnapshot :=
  if decide (ContainerList pod = []) then
    AddWarning snap (scrapeWarning MetricScopePod "" "" "" ""
      ("RDMA pod " +:+ RP_Namespace pod +:+ "/" +:+ RP_Name pod +:+ " has no container IDs") None)
  else collectContainers worlds pod workload host (ContainerList pod) snap.

(** What the scrape of the Pods meets, by the position of the Pod. *)
Record podWorld := MkPodWorld {
  pw_ctx : option string;
  pw_containers : nat → containerWorld
}.

Fixpoint collectPods (worlds : nat → podWorld) (pods : list RdmaPod) (hostSamples : list MetricSample) (host : hostCollection)
    (snap : ScrapeSnapshot) : ScrapeSnapshot :=
  match pods with
  | [] => snap
  | pod :: rest =>
    match pw_ctx (worlds 0%nat) with
    | Some err => AddWarning snap (scrapeWarning MetricScopePod "" "" "" "" "pod scrape stopped because context is done" (Some err))
    | None =>
      let workload := workloadLabelsForPod pod in
      let snap := if HostRDMA pod then collectHostRDMAPod hostSamples workload snap
        else collectNamespacedPod (pw_containers (worlds 0%nat)) pod workload host snap in
      collectPods (fun i => worlds (S i)) rest hostSamples host snap
    end
  end.

(** ** A scrape *)

(** The node of the agent, when it is known: its name and its Pods. *)
Definition Scrape (ctxErr : option string) (node : option (string * list RdmaPod)) (w : hostWorld) (worlds : nat → podWorld)
  : string + ScrapeSnapshot :=
  match ctxErr with
  | Some err => inl err
  | None =>
    match node with
    | None => inr (emptySnapshot "")
    | Some (name, pods) =>
      let '(host, snap) := collectHost w (emptySnapshot name) in
      let hostSamples := SS_Samples snap in
      inr (collectPods worlds pods hostSamples host snap)
    end
  end.
End scraper.

(** What the collector of Prometheus sends for a scrape; [None] when there is no scraper. *)
Definition Collect (validName : string → bool) (scraped : option (string + ScrapeSnapshot)) (e : PrometheusEmitter)
  : outcome (list Metric * PrometheusEmitter) :=
  match scraped with
  | None | Some (inl _) => Ret ([], e)
  | Some (inr snapshot) => Emit validName snapshot e
  end.
