(* ===== verification/RdmaFacts.v ===== *)
(** * Lemmas on scraping

    Which samples the collectors of src/pkg/agent/rdmascraper add to a snapshot, and why no two
    of them have the same identity; the names of statistics per priority; the regular expressions
    of interface patterns. *)
From stdpp Require Import base gmap list numbers strings.
From Stdlib Require Import ZArith Ascii.
From S2P Require Import Prelude GoStrings GoNumbers GoFloat GoBytes GoText GoNet GoPath Api Config InterfaceSelector FabricNode RdmaScraper RdmaEthtool RdmaCollect.
Local Open Scope Z_scope.

(** ** Identities of samples *)

(** What tells the samples of a node apart. *)
Definition ident (x : MetricSample) : string * MetricScope * MetricSource * (string * string * string * string) * (string * string) :=
  (MS_Name x, MS_Scope x, MS_Source x, (MS_Device x, MS_Ifname x, MS_Port x, MS_Priority x),
   (WL_PodName (MS_Workload x), WL_PodNamespace (MS_Workload x))).

(** The operation appended samples with different identities that all satisfy [P]. *)
Definition adds (P : MetricSample → Prop) (s s' : ScrapeSnapshot) : Prop :=
  ∃ new, SS_Samples s' = SS_Samples s ++ new ∧ NoDup (ident <$> new) ∧ Forall P new.

(** Samples of [P] and of [Q] are never the same. *)
Definition apart (P Q : MetricSample → Prop) : Prop := ∀ x y, P x → Q y → ident x ≠ ident y.

Lemma adds_same P s s' : SS_Samples s' = SS_Samples s → adds P s s'.
Proof. intros Hs. exists []. rewrite app_nil_r. repeat split; [done|constructor|constructor]. Qed.

Lemma adds_one (P : MetricSample → Prop) s x : P x → adds P s (AddSample s x).
Proof. intros Hx. exists [x]. repeat split; [apply NoDup_singleton|by constructor]. Qed.

Lemma adds_mono (P Q : MetricSample → Prop) s s' : (∀ x, P x → Q x) → adds P s s' → adds Q s s'.
Proof. intros HPQ (new & Hs & Hd & HP). exists new. repeat split; [done..|]. by eapply Forall_impl. Qed.

Lemma NoDup_ident_app P Q new new' : apart P Q → Forall P new → Forall Q new' →
  NoDup (ident <$> new) → NoDup (ident <$> new') → NoDup (ident <$> (new ++ new')).
Proof.
  intros Ha HP HQ H1 H2. rewrite fmap_app. apply NoDup_app. split; [done|]. split; [|done].
  intros k Hk Hk'. apply list_elem_of_fmap in Hk as (x & -> & Hx). apply list_elem_of_fmap in Hk' as (y & Hxy & Hy).
  rewrite Forall_forall in HP, HQ. exact (Ha x y (HP x Hx) (HQ y Hy) Hxy).
Qed.

Lemma adds_trans (P Q R : MetricSample → Prop) s1 s2 s3 :
  apart P Q → (∀ x, P x → R x) → (∀ x, Q x → R x) → adds P s1 s2 → adds Q s2 s3 → adds R s1 s3.
Proof.
  intros Ha HP HQ (n1 & H1 & D1 & F1) (n2 & H2 & D2 & F2). exists (n1 ++ n2). rewrite H2, H1, app_assoc.
  split; [done|]. split; [by eapply NoDup_ident_app|]. apply Forall_app. split; by eapply Forall_impl.
Qed.

(** Warnings and devices are no samples. *)
Lemma adds_after P s s' s'' : adds P s s' → SS_Samples s'' = SS_Samples s' → adds P s s''.
Proof. intros (new & Hs & ?) Heq. exists new. by rewrite Heq, Hs. Qed.

Lemma adds_before P s s' s'' : SS_Samples s' = SS_Samples s → adds P s' s'' → adds P s s''.
Proof. intros Heq (new & Hs & ?). exists new. by rewrite Hs, Heq. Qed.

(** A loop whose rounds add samples that are apart; its state may hold more than the snapshot. *)
Lemma adds_foldl_state {A B K} (get : A → ScrapeSnapshot) (key : B → K) (P : B → MetricSample → Prop) (f : A → B → A) (l : list B) a :
  NoDup (key <$> l) → (∀ b b', key b ≠ key b' → apart (P b) (P b')) → (∀ a b, b ∈ l → adds (P b) (get a) (get (f a b))) →
  adds (fun x => ∃ b, b ∈ l ∧ P b x) (get a) (get (foldl f a l)).
Proof.
  revert a. induction l as [|b l IH]; intros a Hd Ha Hf; [by apply adds_same|]. cbn [foldl].
  cbn in Hd. apply NoDup_cons in Hd as [Hb Hd].
  apply (adds_trans (P b) (fun x => ∃ b', b' ∈ l ∧ P b' x) _ _ (get (f a b))).
  - intros x y Hx (b' & Hb' & Hy). apply (Ha b b'); [|done..]. intros Hk. apply Hb. rewrite Hk. by apply list_elem_of_fmap_2.
  - intros x Hx. exists b. split; [apply list_elem_of_here|done].
  - intros x (b' & Hb' & Hx). exists b'. split; [by apply list_elem_of_further|done].
  - apply Hf, list_elem_of_here.
  - apply IH; [done..|]. intros. apply Hf. by apply list_elem_of_further.
Qed.

Lemma adds_foldl {B K} (key : B → K) (P : B → MetricSample → Prop) (f : ScrapeSnapshot → B → ScrapeSnapshot) (l : list B) s :
  NoDup (key <$> l) → (∀ b b', key b ≠ key b' → apart (P b) (P b')) → (∀ s b, b ∈ l → adds (P b) s (f s b)) →
  adds (fun x => ∃ b, b ∈ l ∧ P b x) s (foldl f s l).
Proof. apply (adds_foldl_state id). Qed.

(** ** The samples of a collector *)

(** Names that do not carry the prefix of the exporter yet. *)
Definition cleanName (n : string) : Prop := has_prefix n "unifabric_" = false.
#[export] Instance cleanName_dec n : Decision (cleanName n).
Proof. unfold cleanName. apply _. Defined.

(** A sample of a host or a Pod, of one source, of one device and port of it, of one interface. *)
Definition ownSample (scope : MetricScope) (wl : WorkloadLabels) (x : MetricSample) : Prop :=
  MS_Scope x = scope ∧ MS_Workload x = wl ∧ cleanName (MS_Name x).
Definition portSample scope wl (device : string) (src : MetricSource) (port : string) (x : MetricSample) : Prop :=
  ownSample scope wl x ∧ MS_Device x = device ∧ MS_Source x = src ∧ MS_Port x = port.
Definition deviceSample scope wl (device : string) (x : MetricSample) : Prop :=
  ownSample scope wl x ∧ MS_Device x = device ∧ MS_Source x ≠ MetricSourceEthtool.
Definition sysfsSample scope wl (x : MetricSample) : Prop := ownSample scope wl x ∧ MS_Source x ≠ MetricSourceEthtool.
Definition ethtoolSample scope wl (x : MetricSample) : Prop := ownSample scope wl x ∧ MS_Source x = MetricSourceEthtool.
Definition interfaceSample scope wl (ifname : string) (x : MetricSample) : Prop := ethtoolSample scope wl x ∧ MS_Ifname x = ifname.

(** Two samples that differ in a part of their identity. *)
Ltac solve_apart :=
  unfold apart, interfaceSample, ethtoolSample, sysfsSample, deviceSample, portSample, ownSample, ident;
  let Heq := fresh "Heq" in intros ? ? ? ? Heq; destruct_and?; injection Heq; intros; congruence.

Ltac solve_sample :=
  intros;
  repeat match goal with
  | H : _ ∧ _ |- _ => destruct H
  | H : _ ∨ _ |- _ => destruct H
  | H : ∃ _, _ |- _ => destruct H
  | H : portSample _ _ _ _ _ _ |- _ => unfold portSample in H
  | H : deviceSample _ _ _ _ |- _ => unfold deviceSample in H
  | H : sysfsSample _ _ _ |- _ => unfold sysfsSample in H
  | H : interfaceSample _ _ _ _ |- _ => unfold interfaceSample in H
  | H : ethtoolSample _ _ _ |- _ => unfold ethtoolSample in H
  | H : ownSample _ _ _ |- _ => unfold ownSample in H
  end;
  unfold interfaceSample, ethtoolSample, sysfsSample, deviceSample, portSample, ownSample;
  repeat split; cbn; congruence || done.

(** Builders of samples that carry the name they are given. *)
Definition named (sample : string → float64 → MetricSample) : Prop := ∀ n v, MS_Name (sample n v) = n.

Lemma named_apart sample n n' : named sample → n ≠ n' → apart (fun x => ∃ v, x = sample n v) (fun x => ∃ v, x = sample n' v).
Proof. intros Hn Hne x y [v ->] [v' ->] Heq. unfold ident in Heq. rewrite !Hn in Heq. congruence. Qed.

Section collectors.
Context (paths : scraperPaths) (fs : fsView).

(** The entries of a directory have different names, and no counter has the prefix of the exporter. *)
Record fsOk : Prop := {
  fs_names p es : ReadDir fs p = inr es → NoDup (de_name <$> es);
  fs_clean d port src es e : ReadDir fs (counterDirectoryPath paths d port src) = inr es → e ∈ es → cleanName (de_name e)
}.
Context (Hfs : fsOk).

Lemma counterDirectory_adds scope sample msg device ifname port src P snap :
  named sample → (∀ n v, cleanName n → P (sample n v)) →
  adds P snap (counterDirectory fs scope sample msg device ifname port (counterDirectoryPath paths device port src) snap).
Proof.
  intros Hn HP. unfold counterDirectory. destruct (ReadDir fs _) as [err|files] eqn:Hd.
  { case_decide; by apply adds_same. }
  apply (adds_mono (fun x => ∃ f, f ∈ files ∧ ∃ v, x = sample (de_name f) v)).
  { intros x (f & Hf & v & ->). apply HP. by eapply fs_clean. }
  apply (adds_foldl de_name (fun f x => ∃ v, x = sample (de_name f) v)); [by eapply fs_names| |].
  { intros b b' Hb. by apply named_apart. }
  intros s f Hf. destruct (negb _); [by apply adds_same|]. destruct (readCounterValue fs _) as [v|]; [|by apply adds_same].
  apply adds_one. by exists v.
Qed.

Lemma interfaceSamples_adds scope sample msg device ifname port P snap :
  named sample → (∀ n v, cleanName n → P (sample n v)) →
  adds P snap (interfaceSamples paths fs scope sample msg device ifname port snap).
Proof.
  intros Hn HP. unfold interfaceSamples. set (l := [_; _; _]).
  apply (adds_mono (fun x => ∃ b, b ∈ l ∧ ∃ v, x = sample b.1.1 v)).
  { intros x (b & Hb & v & ->). apply HP. subst l. rewrite !elem_of_cons, elem_of_nil in Hb. by destruct_or? Hb; subst b. }
  apply (adds_foldl (fun b => b.1.1) (fun b x => ∃ v, x = sample b.1.1 v)).
  { change (NoDup ["port_speed_mbps"; "port_mtu"; "port_oper_state"]). by apply (bool_decide_unpack (NoDup _)). }
  { intros b b' Hb. by apply named_apart. }
  intros s [[name path] read] _. destruct (read path) as [err|v]; [by apply adds_same|]. apply adds_one. by exists v.
Qed.

Lemma deviceTOS_adds scope sample msg device ifname P snap :
  (∀ n v, cleanName n → P (sample n v)) → adds P snap (deviceTOS paths fs scope sample msg device ifname snap).
Proof.
  intros HP. unfold deviceTOS. destruct (readDeviceTOS fs _) as [err|v]; [|by apply adds_one, HP].
  case_decide; [by apply adds_one, HP|]. eapply adds_before; [|by apply adds_one, HP]. done.
Qed.
End collectors.

(** ** Statistics per priority *)
Definition priorityStat (direction counter : string) (priority : Z) : string :=
  direction +:+ "_prio" +:+ Itoa priority +:+ "_" +:+ counter.

Lemma strip_list_spec p s r : strip_list p s = Some r → s = p ++ r.
Proof.
  revert s. induction p as [|a p IH]; intros s; cbn [strip_list]; [by intros [= ->]|].
  destruct s as [|b s]; [done|]. case_decide as Hab; [|done]. intros H. cbn. by rewrite Hab, (IH s H).
Qed.

Lemma of_bytes_app a b : of_bytes (a ++ b) = of_bytes a +:+ of_bytes b.
Proof. induction a as [|x a IH]; [done|]. cbn [app of_bytes]. by rewrite IH, str_app_cons. Qed.

Lemma has_suffix_spec s suffix : has_suffix s suffix = true → ∃ r, s = r +:+ suffix.
Proof.
  unfold has_suffix, strip_suffix. rewrite bool_decide_eq_true. intros [r Hr].
  destruct (strip_list _ _) as [t|] eqn:Ht; [|done]. apply strip_list_spec in Ht. exists (of_bytes (reverse t)).
  apply (f_equal reverse) in Ht. rewrite reverse_app, !reverse_involutive in Ht.
  apply (f_equal of_bytes) in Ht. by rewrite of_bytes_app, !of_bytes_bytes in Ht.
Qed.

(** Between a prefix of seven characters and a suffix is one character. *)
Lemma middle_char (p q s : string) : (String.length p + 1 + String.length q)%nat = String.length s →
  has_prefix s p = true → has_suffix s q = true → ∃ c, s = p +:+ String c q.
Proof.
  intros Hlen [r ->]%has_prefix_spec [u Hu]%has_suffix_spec. rewrite str_length_app in Hlen.
  destruct r as [|c r]; [cbn in Hlen; lia|]. exists c. cbn in Hlen. f_equal. f_equal.
  revert r u Hlen Hu. induction p as [|x p IH]; intros r u Hlen Hu.
  - apply (f_equal String.length) in Hu as Hl. rewrite !str_length_app in Hl. cbn [String.length] in Hl, Hlen.
    destruct u as [|y [|z u]]; cbn [String.length] in Hl; [lia| |lia]. by injection Hu.
  - apply (f_equal String.length) in Hu as Hl. rewrite !str_length_app in Hl. cbn [String.length] in Hl, Hlen.
    destruct u as [|y u]; cbn [String.length] in Hl; [lia|].
    rewrite !str_app_cons in Hu. injection Hu as -> Hu. apply (IH r u); [lia|done].
Qed.

Lemma isPriorityMetric_spec s : isPriorityMetric s = true →
  ∃ direction counter c, direction ∈ ["rx"; "tx"] ∧ counter ∈ ["pause"; "discards"] ∧
    s = direction +:+ "_prio" +:+ String c ("_" +:+ counter).
Proof.
  unfold isPriorityMetric.
  assert (∀ counter : string, String.length s = (8 + String.length ("_" +:+ counter))%nat →
    (has_prefix s "rx_prio" || has_prefix s "tx_prio") && has_suffix s ("_" +:+ counter) = true →
    ∃ direction c, direction ∈ ["rx"; "tx"] ∧ s = direction +:+ "_prio" +:+ String c ("_" +:+ counter)) as Hs.
  { intros counter Hlen [Hp Hsuf]%andb_true_iff. apply orb_true_iff in Hp as [Hp|Hp].
    - destruct (middle_char "rx_prio" ("_" +:+ counter) s ltac:(by rewrite Hlen) Hp Hsuf) as [c ->].
      exists "rx", c. split; [set_solver|done].
    - destruct (middle_char "tx_prio" ("_" +:+ counter) s ltac:(by rewrite Hlen) Hp Hsuf) as [c ->].
      exists "tx", c. split; [set_solver|done]. }
  case_decide as Hl; [|case_decide as Hl'; [|done]]; intros H.
  - destruct (Hs "pause" Hl H) as (d & c & ? & ?). exists d, "pause", c. set_solver.
  - destruct (Hs "discards" Hl' H) as (d & c & ? & ?). exists d, "discards", c. set_solver.
Qed.

(** A statistic is split into its counter and a priority of one digit, and nothing is lost. *)
Lemma extract_spec s n p : extractPriorityMetric s = Some (n, p) →
  ∃ direction counter, direction ∈ ["rx"; "tx"] ∧ counter ∈ ["pause"; "discards"] ∧ 0 ≤ p ≤ 9 ∧
    s = priorityStat direction counter p ∧ n = direction +:+ "_" +:+ counter.
Proof.
  intros H. destruct (isPriorityMetric s) eqn:Hs; [|unfold extractPriorityMetric in H; by rewrite Hs in H].
  destruct (isPriorityMetric_spec s Hs) as (d & k & c & Hd & Hk & ->). exists d, k. split; [done|]. split; [done|].
  clear Hs. rewrite !elem_of_cons, elem_of_nil in Hd, Hk.
  destruct Hd as [->|[->|[]]], Hk as [->|[->|[]]];
    destruct c as [[] [] [] [] [] [] [] []]; vm_compute in H; try discriminate H; injection H as <- <-;
    (split; [lia|]); by vm_compute.
Qed.

Lemma extract_inj s s' n p : extractPriorityMetric s = Some (n, p) → extractPriorityMetric s' = Some (n, p) → s = s'.
Proof.
  intros (d & k & Hd & Hk & _ & -> & Hn)%extract_spec (d' & k' & Hd' & Hk' & _ & -> & Hn')%extract_spec.
  rewrite !elem_of_cons, elem_of_nil in Hd, Hk, Hd', Hk'.
  destruct Hd as [->|[->|[]]], Hk as [->|[->|[]]], Hd' as [->|[->|[]]], Hk' as [->|[->|[]]]; congruence || (exfalso; subst n; by vm_compute in Hn').
Qed.

Lemma extract_clean s n p : extractPriorityMetric s = Some (n, p) → cleanName n.
Proof.
  intros (d & k & Hd & Hk & _ & _ & ->)%extract_spec. rewrite !elem_of_cons, elem_of_nil in Hd, Hk.
  destruct Hd as [->|[->|[]]], Hk as [->|[->|[]]]; by vm_compute.
Qed.

Lemma Itoa_inj p p' : int_ok p → int_ok p' → Itoa p = Itoa p' → p = p'.
Proof. intros H H' Heq. apply (f_equal Atoi) in Heq. rewrite !Atoi_Itoa in Heq by done. by injection Heq. Qed.

Section scrape.
Context `{o : RangeOrder}.
Context (interfaceByName : string → option (option (list netAddr))).
Context (kindMatcher : interfaceKindMatcher) (paths : scraperPaths).

Lemma prioritySamples_adds sample stats (P : MetricSample → Prop) snap :
  (∀ n v p, MS_Name (sample n v p) = n ∧ MS_Priority (sample n v p) = p) → (∀ n v p, cleanName n → P (sample n v p)) →
  adds P snap (prioritySamples sample stats snap).
Proof.
  intros Hs HP. unfold prioritySamples.
  set (Pb := fun (b : string * Z) x => ∃ n p v, extractPriorityMetric b.1 = Some (n, p) ∧ x = sample n v (Itoa p)).
  apply (adds_mono (fun x => ∃ b, b ∈ range stats ∧ Pb b x)).
  { intros x (b & _ & n & p & v & Hb & ->). eapply HP, extract_clean, Hb. }
  apply (adds_foldl fst Pb).
  - apply NoDup_range_keys.
  - intros [k z] [k' z'] Hne x y (n & p & v & Hb & ->) (n' & p' & v' & Hb' & ->) Heq. unfold ident in Heq.
    destruct (Hs n v (Itoa p)) as [N1 N2], (Hs n' v' (Itoa p')) as [N3 N4]. rewrite N1, N2, N3, N4 in Heq.
    injection Heq as -> _ _ _ _ _ Hp _ _. apply extract_spec in Hb as He, Hb' as He'.
    destruct He as (_ & _ & _ & _ & Hr & _), He' as (_ & _ & _ & _ & Hr' & _).
    apply Itoa_inj in Hp; [|unfold int_ok, min_int, max_int; lia..]. subst p'. apply Hne. by eapply extract_inj.
  - intros s [k z] _. destruct (extractPriorityMetric k) as [[n p]|] eqn:Hk; [|by apply adds_same].
    apply adds_one. by exists n, p, (of_int z).
Qed.

Abbreviation hostWl := noWorkload.

(** ** The host *)
Section host.
Context (fs : fsView) (Hfs : fsOk paths fs).

Lemma collectCounterDirectory_adds device ifname parent port src snap :
  adds (portSample MetricScopeHost hostWl device src port) snap
    (collectCounterDirectory interfaceByName kindMatcher paths fs device ifname parent port src snap).
Proof. apply (counterDirectory_adds paths fs Hfs); [done|]. intros n v Hn. solve_sample. Qed.

Lemma collectPort_adds device ifname parent port snap :
  adds (fun x => deviceSample MetricScopeHost hostWl device x ∧ MS_Port x = port ∧ MS_Source x ≠ MetricSourceDevice) snap
    (collectPort interfaceByName kindMatcher paths fs device ifname parent snap port).
Proof.
  unfold collectPort.
  set (P1 := fun x => portSample MetricScopeHost hostWl device MetricSourceHWCounters port x ∨
    portSample MetricScopeHost hostWl device MetricSourceCounters port x).
  apply (adds_trans P1 (portSample MetricScopeHost hostWl device MetricSourceInterface port) _ _
    (collectCounterDirectory interfaceByName kindMatcher paths fs device ifname parent port MetricSourceCounters
      (collectCounterDirectory interfaceByName kindMatcher paths fs device ifname parent port MetricSourceHWCounters snap))).
  - intros x y [Hx|Hx] Hy; revert x y Hx Hy; solve_apart.
  - intros x [Hx|Hx]; solve_sample.
  - solve_sample.
  - eapply (adds_trans _ _ P1); [| |by intros; right|apply collectCounterDirectory_adds|apply collectCounterDirectory_adds]; [solve_apart|by left].
  - apply interfaceSamples_adds; [done|]. intros n v Hn. solve_sample.
Qed.

Lemma collectHostDevice_adds pci pf roots dev snap :
  adds (deviceSample MetricScopeHost hostWl (de_name dev)) snap
    (collectHostDevice interfaceByName kindMatcher paths fs pci pf (roots, snap) dev).2.
Proof.
  unfold collectHostDevice. set (d := de_name dev).
  assert (∃ ifname snap', match getIfNameForInfinibandDevice paths fs d pci with
    | inl err => ("", AddWarning snap (scrapeWarning MetricScopeHost d "" "" (devicePath paths d ["device"])
        "no matching netdev for infiniband device" (Some err)))
    | inr ifname => (ifname, snap)
    end = (ifname, snap') ∧ SS_Samples snap' = SS_Samples snap) as (ifname & snap' & -> & Hsame).
  { destruct (getIfNameForInfinibandDevice _ _ _ _); by eexists _, _. }
  apply (adds_before _ _ snap'); [done|].
  destruct (decide (ifname ≠ "" ∧ resolveParentIfname paths fs ifname pf ≠ ifname)) as [|_]; [by apply adds_same|].
  destruct (readRDMAPorts paths fs d) as [err|ports] eqn:Hports; [by apply adds_same|]. cbn [snd].
  set (parent := resolveParentIfname paths fs ifname pf).
  match goal with |- adds _ _ (foldl _ ?s2 _) => set (tos := s2) end.
  apply (adds_trans (portSample MetricScopeHost hostWl d MetricSourceDevice "")
    (fun x => ∃ port, port ∈ ports ∧ (deviceSample MetricScopeHost hostWl d x ∧ MS_Port x = port ∧ MS_Source x ≠ MetricSourceDevice))
    _ _ tos).
  - intros x y Hx (port & _ & _ & _ & Hsrc) Heq. unfold portSample, ident in *. destruct_and!. congruence.
  - solve_sample.
  - solve_sample.
  - subst tos. eapply adds_before; [|apply deviceTOS_adds; intros n v Hn; solve_sample]. done.
  - apply (adds_foldl id (fun port x => deviceSample MetricScopeHost hostWl d x ∧ MS_Port x = port ∧ MS_Source x ≠ MetricSourceDevice)).
    + unfold readRDMAPorts in Hports. destruct (ReadDir fs _) eqn:Hd; [done|]. injection Hports as <-. rewrite list_fmap_id. by eapply fs_names.
    + intros b b' Hne x y (_ & Hb & _) (_ & Hb' & _) Heq. unfold ident in Heq. unfold id in Hne. congruence.
    + intros s port _. apply collectPort_adds.
Qed.

(** The interface of a device that is a root. *)
Definition rootOf (pci pf : gmap string string) (dev : dirEntry) : option string :=
  match getIfNameForInfinibandDevice paths fs (de_name dev) pci with
  | inr ifname => if decide (ifname ≠ "" ∧ resolveParentIfname paths fs ifname pf = ifname) then Some ifname else None
  | inl _ => None
  end.

Lemma collectHostDevice_roots pci pf acc dev :
  (collectHostDevice interfaceByName kindMatcher paths fs pci pf acc dev).1 = acc.1 ++ option_list (rootOf pci pf dev).
Proof.
  destruct acc as [roots snap]. unfold collectHostDevice, rootOf.
  destruct (getIfNameForInfinibandDevice _ _ _ _) as [err|ifname].
  - rewrite decide_False by (by intros []). rewrite decide_False by (by intros []).
    rewrite app_nil_r. by destruct (readRDMAPorts _ _ _).
  - destruct (decide (ifname ≠ "" ∧ resolveParentIfname paths fs ifname pf = ifname)) as [Hr|Hr];
      [|rewrite app_nil_r]; case_decide; try done; by destruct (readRDMAPorts _ _ _).
Qed.

Lemma collectHostDevices_roots pci pf devices acc :
  (foldl (collectHostDevice interfaceByName kindMatcher paths fs pci pf) acc devices).1 = acc.1 ++ omap (rootOf pci pf) devices.
Proof.
  revert acc. induction devices as [|dev devices IH]; intros acc; cbn [foldl]; [by rewrite app_nil_r|].
  rewrite IH, collectHostDevice_roots, <-app_assoc. f_equal. unfold omap. cbn [list_omap]. by destruct (rootOf pci pf dev).
Qed.

(** No two devices have the same interface. *)
Definition distinctNetdevs : Prop := ∀ es e e' ifname, ReadDir fs (infinibandClassPath paths) = inr es → e ∈ es → e' ∈ es →
  getIfNameForInfinibandDevice paths fs (de_name e) (buildPciToIfnameMap paths fs) = inr ifname →
  getIfNameForInfinibandDevice paths fs (de_name e') (buildPciToIfnameMap paths fs) = inr ifname → de_name e = de_name e'.

Lemma NoDup_omap_key {B C K} (key : B → K) (f : B → option C) (l : list B) :
  NoDup (key <$> l) → (∀ b b' c, b ∈ l → b' ∈ l → f b = Some c → f b' = Some c → key b = key b') → NoDup (omap f l).
Proof.
  induction l as [|b l IH]; intros Hd Hf; [constructor|]. cbn in Hd. apply NoDup_cons in Hd as [Hb Hd].
  assert (NoDup (omap f l)) as Hl by (apply IH; [done|]; intros; eapply Hf; set_solver).
  unfold omap in *. cbn [list_omap]. destruct (f b) as [c|] eqn:Hc; [|done]. constructor; [|done].
  intros (b' & Hb' & Hc')%list_elem_of_omap. apply Hb. rewrite (Hf b b' c); [by apply list_elem_of_fmap_2|set_solver..].
Qed.

(** The samples of the devices of the host, and its root interfaces. *)
Lemma collectHostSysfs_adds snap : distinctNetdevs → ∀ collection err snap',
  collectHostSysfs interfaceByName kindMatcher paths fs snap = (collection, err, snap') →
  adds (sysfsSample MetricScopeHost hostWl) snap snap' ∧ NoDup (rootIfnames collection).
Proof.
  intros Hdist collection err snap'. unfold collectHostSysfs. destruct (ReadDir fs _) as [e|devices] eqn:Hd.
  { intros [= <- _ <-]. split; [by apply adds_same|constructor]. }
  destruct (foldl _ _ _) as [roots s] eqn:Hf. intros [= <- _ <-]. split.
  - apply (adds_mono (fun x => ∃ dev, dev ∈ devices ∧ deviceSample MetricScopeHost hostWl (de_name dev) x)); [solve_sample|].
    change s with ((roots, s).2). rewrite <-Hf. change snap with ((@nil string, snap).2) at 1.
    apply (adds_foldl_state snd de_name); [by eapply fs_names| |intros [r s'] dev _; apply collectHostDevice_adds].
    intros b b' Hne. solve_apart.
  - cbn [rootIfnames]. change roots with ((roots, s).1). rewrite <-Hf, collectHostDevices_roots. cbn [fst app].
    apply (NoDup_omap_key de_name); [by eapply fs_names|]. intros b b' c Hb Hb' Hc Hc'.
    unfold rootOf in Hc, Hc'. repeat case_match; try done. repeat case_decide; try done. simplify_eq. by eapply Hdist.
Qed.
End host.

Lemma hostEthtool_adds Stats roots snap : NoDup roots →
  adds (ethtoolSample MetricScopeHost hostWl) snap (collectHostEthtool interfaceByName kindMatcher paths Stats roots snap).
Proof.
  intros Hd. unfold collectHostEthtool. case_decide; [by apply adds_same|].
  destruct (Stats _ _) as [results err]. 
  match goal with |- adds _ _ (foldl _ ?s1 _) => apply (adds_before _ _ s1); [by destruct err|] end.
  apply (adds_mono (fun x => ∃ ifname, ifname ∈ roots ∧ interfaceSample MetricScopeHost hostWl ifname x)); [solve_sample|].
  apply (adds_foldl id); [by rewrite list_fmap_id| |].
  - unfold id. intros b b' Hne. solve_apart.
  - intros s ifname _. unfold hostEthtoolInterface. destruct (results !! ifname) as [[stats [e|]]|]; try (by apply adds_same).
    apply prioritySamples_adds; [done|]. intros n v p Hn. solve_sample.
Qed.

(** A switch of the mount namespace that was not entered, or was left again. *)
Lemma withMountNamespace_cases {S} a pid (fn : S → option string * S) s : ns_restore a = None → (∀ s, (fn s).1 = None) →
  (∃ err, withMountNamespace paths a pid fn s = (Some err, s)) ∨ withMountNamespace paths a pid fn s = (None, (fn s).2).
Proof.
  intros Hr Hfn. unfold withMountNamespace. rewrite Hr. specialize (Hfn s).
  destruct (ns_unshare a); [left; by eexists|]. destruct (ns_openOriginal a); [left; by eexists|].
  destruct (ns_openTarget a); [left; by eexists|]. destruct (ns_setns a); [left; by eexists|].
  right. destruct (fn s) as [err s']. cbn in *. by subst.
Qed.

Definition hostWorldOk (w : hostWorld) : Prop :=
  ns_restore (hw_ns w) = None ∧ fsOk paths (hw_target w) ∧ fsOk paths (hw_own w) ∧
  distinctNetdevs (hw_target w) ∧ distinctNetdevs (hw_own w).

Lemma warnCollect_samples err snap : SS_Samples (warnCollect paths err snap) = SS_Samples snap.
Proof. by destruct err. Qed.

(** Everything the host adds. *)
Lemma collectHost_adds w snap : hostWorldOk w →
  adds (ownSample MetricScopeHost hostWl) snap (collectHost interfaceByName kindMatcher paths w snap).2.
Proof.
  intros (Hr & Ht & Hown & Dt & Down). unfold collectHost. destruct (hw_ctx w); [by apply adds_same|].
  assert (∀ fs snap s1, fsOk paths fs → distinctNetdevs fs → SS_Samples s1 = SS_Samples snap →
    ∀ c e s2, collectHostSysfs interfaceByName kindMatcher paths fs s1 = (c, e, s2) →
    adds (ownSample MetricScopeHost hostWl) snap
      (collectHostEthtool interfaceByName kindMatcher paths (hw_stats w) (rootIfnames c) (warnCollect paths e s2))) as Hboth.
  { intros fs snap0 s1 Hfs Hd Hs c e s2 Hc. destruct (collectHostSysfs_adds fs Hfs s1 Hd c e s2 Hc) as [Ha Hnd].
    apply (adds_trans (sysfsSample MetricScopeHost hostWl) (ethtoolSample MetricScopeHost hostWl) _ _ (warnCollect paths e s2)).
    - solve_apart.
    - solve_sample.
    - solve_sample.
    - apply (adds_before _ _ s1); [done|]. eapply adds_after; [done|apply warnCollect_samples].
    - by apply hostEthtool_adds. }
  case_decide.
  - edestruct (withMountNamespace_cases (hw_ns w) (hostMountNSPID paths)
      (fun '(_, _, snap) => (None, collectHostSysfs interfaceByName kindMatcher paths (hw_target w) snap))
      (noCollection, None, snap) Hr) as [[err ->]| ->]; [by intros [[] ?]| |]; cbn iota beta.
    + match goal with |- context [collectHostSysfs _ _ _ _ ?s1] => destruct (collectHostSysfs _ _ _ (hw_own w) s1) as [[c e] s2] eqn:Hc end.
      eapply (Hboth _ snap _ Hown Down); [|exact Hc]; done.
    + cbn [snd]. destruct (collectHostSysfs _ _ _ (hw_target w) snap) as [[c e] s2] eqn:Hc. exact (Hboth _ _ _ Ht Dt eq_refl _ _ _ Hc).
  - destruct (collectHostSysfs _ _ _ (hw_own w) snap) as [[c e] s2] eqn:Hc. exact (Hboth _ _ _ Hown Down eq_refl _ _ _ Hc).
Qed.

(** ** Pods *)
Section pod.
Context (fs : fsView) (Hfs : fsOk paths fs) (wl : WorkloadLabels).

Lemma collectPodPort_adds device ifname parent port snap :
  adds (fun x => portSample MetricScopePod wl device MetricSourceHWCounters port x ∨
      portSample MetricScopePod wl device MetricSourceCounters port x) snap
    (collectPodPort interfaceByName kindMatcher paths fs wl device ifname parent snap port).
Proof.
  apply (adds_trans (portSample MetricScopePod wl device MetricSourceHWCounters port) (portSample MetricScopePod wl device MetricSourceCounters port)
    _ _ (collectPodCounterDirectory interfaceByName kindMatcher paths fs wl device ifname parent port MetricSourceHWCounters snap));
    [solve_apart|by left|by right|..]; (apply (counterDirectory_adds paths fs Hfs); [done|]; intros n v Hn; solve_sample).
Qed.

Lemma collectPodDevice_adds pci pf m dev snap :
  adds (deviceSample MetricScopePod wl (de_name dev)) snap
    (collectPodDevice interfaceByName kindMatcher paths fs wl pci pf (m, snap) dev).2.
Proof.
  unfold collectPodDevice. set (d := de_name dev). destruct (getIfNameForInfinibandDevice _ _ _ _) as [err|ifname]; [by apply adds_same|].
  destruct (readRDMAPorts paths fs d) as [err|ports] eqn:Hports; [by apply adds_same|]. cbn [snd].
  set (parent := resolveParentIfname paths fs ifname pf).
  set (counters := fun x => ∃ port, port ∈ ports ∧ (portSample MetricScopePod wl d MetricSourceHWCounters port x ∨
      portSample MetricScopePod wl d MetricSourceCounters port x)).
  set (Q := fun x => counters x ∨ portSample MetricScopePod wl d MetricSourceInterface "" x).
  set (s1 := foldl (collectPodPort interfaceByName kindMatcher paths fs wl d ifname parent) snap ports).
  set (s2 := collectPodInterfaceSamples interfaceByName kindMatcher paths fs wl d ifname parent s1).
  apply (adds_trans Q (portSample MetricScopePod wl d MetricSourceDevice "") _ _ s2).
  - intros x y [(port & _ & [Hx|Hx])|Hx] Hy; revert x y Hx Hy; solve_apart.
  - intros x [(port & _ & [Hx|Hx])|Hx]; solve_sample.
  - solve_sample.
  - apply (adds_trans counters (portSample MetricScopePod wl d MetricSourceInterface "") _ _ s1);
      [|by left|by right| |apply interfaceSamples_adds; [done|]; intros n v Hn; solve_sample].
    + intros x y (port & _ & [Hx|Hx]) Hy; revert x y Hx Hy; solve_apart.
    + apply (adds_foldl id (fun port x => portSample MetricScopePod wl d MetricSourceHWCounters port x ∨
        portSample MetricScopePod wl d MetricSourceCounters port x)); [| |intros; apply collectPodPort_adds].
      * unfold readRDMAPorts in Hports. destruct (ReadDir fs _) eqn:Hd; [done|]. injection Hports as <-. rewrite list_fmap_id. by eapply fs_names.
      * unfold id. intros b b' Hne x y [Hx|Hx] [Hy|Hy]; revert x y Hx Hy; solve_apart.
  - apply deviceTOS_adds. intros n v Hn. solve_sample.
Qed.

Lemma collectPodSysfs_adds pod pf snap :
  adds (sysfsSample MetricScopePod wl) snap (collectPodSysfs interfaceByName kindMatcher paths fs pod wl pf snap).2.
Proof.
  unfold collectPodSysfs. destruct (ReadDir fs _) as [e|devices] eqn:Hd; [by apply adds_same|].
  destruct (foldl _ _ _) as [m s] eqn:Hf. cbn [snd].
  apply (adds_mono (fun x => ∃ dev, dev ∈ devices ∧ deviceSample MetricScopePod wl (de_name dev) x)); [solve_sample|].
  change s with ((m, s).2). rewrite <-Hf. change snap with ((∅ : gmap string string, snap).2) at 1.
  apply (adds_foldl_state snd de_name); [by eapply fs_names| |intros [r s'] dev _; apply collectPodDevice_adds].
  intros b b' Hne. solve_apart.
Qed.
End pod.

Lemma collectPodEthtool_adds Stats wl id pid m snap :
  adds (ethtoolSample MetricScopePod wl) snap (collectPodEthtool interfaceByName kindMatcher paths Stats wl id pid m snap).
Proof.
  unfold collectPodEthtool. destruct (Stats _ _) as [results err].
  match goal with |- adds _ _ (foldl _ ?s1 _) => apply (adds_before _ _ s1); [by destruct err|] end.
  apply (adds_mono (fun x => ∃ b, b ∈ range m ∧ interfaceSample MetricScopePod wl b.1 x)); [solve_sample|].
  apply (adds_foldl fst); [apply NoDup_range_keys| |].
  - intros b b' Hne. solve_apart.
  - intros s [ifname device] _. unfold podEthtoolInterface. destruct (results !! ifname) as [[stats [e|]]|]; try (by apply adds_same).
    apply prioritySamples_adds; [done|]. intros n v p Hn. solve_sample.
Qed.
End scrape.

(** ** Patterns of interface names *)

(** What each byte of a pattern becomes in the regular expression, and what it matches. *)
Definition quotedByte (b : Z) : list Z :=
  if decide (b = 42) then [46; 42] else if decide (b = 63) then [46] else if decide (b ∈ metaBytes) then [92; b] else [b].
Definition strictWildcard (b : Z) : wildcard :=
  if decide (b = 42) then AnyRunes else if decide (b = 63) then AnyRune else Rune b.

Lemma replacePair_skip a b new x y l : ~ (x = a ∧ y = b) → replacePair a b new (x :: y :: l) = x :: replacePair a b new (y :: l).
Proof. intros H. cbn [replacePair]. by rewrite decide_False. Qed.

Lemma replacePair_hit a b new l : replacePair a b new (a :: b :: l) = new ++ replacePair a b new l.
Proof. cbn [replacePair]. by rewrite decide_True. Qed.

(** A byte before a text that does not begin with [b] is kept. *)
Lemma replacePair_step a b new x l : (x ≠ a ∨ head l ≠ Some b) → replacePair a b new (x :: l) = x :: replacePair a b new l.
Proof. intros H. destruct l as [|y l]; [done|]. apply replacePair_skip. intros [-> ->]. by destruct H. Qed.

Definition starByte (b : Z) : list Z :=
  if decide (b = 42) then [46; 42] else if decide (b ∈ metaBytes) then [92; b] else [b].

Lemma head_bind (f : Z → list Z) b s : (∀ x, f x ≠ [] ∧ head (f x) ≠ Some b) → head (s ≫= f) ≠ Some b.
Proof. intros Hf. destruct s as [|x s]; [done|]. cbn. destruct (Hf x) as [Hne Hh]. by destruct (f x). Qed.

Lemma meta_wildcards : 42 ∈ metaBytes ∧ 63 ∈ metaBytes ∧ 46 ∈ metaBytes ∧ 92 ∈ metaBytes.
Proof. by apply (bool_decide_unpack (_ ∧ _ ∧ _ ∧ _)). Qed.

Lemma QuoteMeta_head s : head (QuoteMeta s) ≠ Some 42.
Proof.
  apply head_bind. intros x. case_decide as Hx; (split; [done|]); cbn; [done|]. intros [= ->]. apply Hx, meta_wildcards.
Qed.

(** The stars first ... *)
Lemma replace_stars s : replacePair 92 42 (bytes ".*") (QuoteMeta s) = s ≫= starByte.
Proof.
  induction s as [|b s IH]; [done|]. unfold QuoteMeta. cbn [mbind list_bind]. fold (QuoteMeta s). unfold starByte at 1.
  destruct (decide (b = 42)) as [->|Hne].
  { rewrite decide_True by apply meta_wildcards. cbn [app]. rewrite replacePair_hit, IH. done. }
  case_decide; cbn [app].
  - rewrite replacePair_step by (right; cbn; congruence). rewrite replacePair_step by (right; apply QuoteMeta_head). by rewrite IH.
  - rewrite replacePair_step by (right; apply QuoteMeta_head). by rewrite IH.
Qed.

Lemma starByte_head s : head (s ≫= starByte) ≠ Some 63.
Proof.
  apply head_bind. intros x. unfold starByte. case_decide; [done|]. case_decide as Hx; (split; [done|]); cbn; [done|].
  intros [= ->]. apply Hx, meta_wildcards.
Qed.

(** ... and then the question marks. *)
Lemma replace_marks s : replacePair 92 63 (bytes ".") (s ≫= starByte) = s ≫= quotedByte.
Proof.
  induction s as [|b s IH]; [done|]. cbn [mbind list_bind]. unfold starByte at 1, quotedByte at 1.
  destruct (decide (b = 42)) as [->|Hne].
  { cbn [app]. rewrite replacePair_step by (by left). rewrite replacePair_step by (by left). by rewrite IH. }
  destruct (decide (b = 63)) as [->|Hne'].
  { rewrite decide_True by apply meta_wildcards. cbn [app]. by rewrite replacePair_hit, IH. }
  case_decide; cbn [app].
  - rewrite replacePair_step by (right; cbn; congruence). rewrite replacePair_step by (right; apply starByte_head). by rewrite IH.
  - rewrite replacePair_step by (right; apply starByte_head). by rewrite IH.
Qed.

Lemma quotedByte_head s : head (s ≫= quotedByte) ≠ Some 42.
Proof.
  apply head_bind. intros x. unfold quotedByte. case_decide; [done|]. case_decide; [done|]. case_decide as Hx; (split; [done|]); cbn; congruence.
Qed.

(** The expression denotes the wildcards, and every other character itself. *)
Lemma compile_quoted s : compileRegexp (s ≫= quotedByte) = Some (strictWildcard <$> s).
Proof.
  induction s as [|b s IH]; [done|]. cbn [mbind list_bind fmap list_fmap]. unfold quotedByte at 1, strictWildcard at 1.
  pose proof (quotedByte_head s) as Hh. destruct (decide (b = 42)) as [->|Hne]; [cbn; by rewrite IH|].
  destruct (decide (b = 63)) as [->|Hne'].
  { cbn [app]. destruct (s ≫= quotedByte) as [|y l] eqn:Hs; [cbn in IH |- *; by injection IH as <-|].
    cbn [compileRegexp]. assert (y ≠ 42) by (cbn in Hh; congruence).
    transitivity ((AnyRune ::.) <$> compileRegexp (y :: l)); [|by rewrite IH].
    destruct y as [|y|y]; try done. do 6 (destruct y as [y|y|]; try done). }
  case_decide as Hx; cbn [app].
  - change (compileRegexp (92 :: b :: (s ≫= quotedByte))) with
      (if decide (b ∈ metaBytes) then (Rune b ::.) <$> compileRegexp (s ≫= quotedByte) else None).
    rewrite decide_True by done. by rewrite IH.
  - transitivity (if decide (b ∈ metaBytes) then None else (Rune b ::.) <$> compileRegexp (s ≫= quotedByte)).
    + assert (b ≠ 92 ∧ b ≠ 46) as [H1 H2] by (split; intros ->; apply Hx, meta_wildcards).
      destruct b as [|b|b]; try done. do 7 (destruct b as [b|b|]; try done).
    + rewrite decide_False by done. by rewrite IH.
Qed.

Lemma runes_ascii l : Forall (fun b => b < 128) l → runes l = (fun b => (b, 1%nat)) <$> l.
Proof.
  unfold runes. induction l as [|b l IH]; intros Hl; [done|]. apply Forall_cons in Hl as [Hb Hl]. cbn [length runes_fuel decode_rune].
  rewrite decide_True by done. change (drop 1 (b :: l)) with l. by rewrite IH.
Qed.

Lemma utf8_ascii s : Forall (fun b => b < 128) (bytes s) → utf8_valid s = true.
Proof.
  intros Hs. unfold utf8_valid. rewrite runes_ascii by done. apply forallb_forall. intros [r n] Hin.
  apply list_elem_of_In, list_elem_of_fmap in Hin as (b & [= -> ->] & Hb). rewrite Forall_forall in Hs. specialize (Hs b Hb).
  apply negb_true_iff, bool_decide_eq_false. unfold rune_error. lia.
Qed.

Lemma runesOf_ascii s : Forall (fun b => b < 128) (bytes s) → runesOf s = bytes s.
Proof. intros Hs. unfold runesOf. rewrite runes_ascii by done. rewrite <-list_fmap_compose. apply list_fmap_id. Qed.

Lemma quotedByte_range b : 0 ≤ b < 128 → Forall (fun x => 0 ≤ x < 128) (quotedByte b).
Proof. intros Hb. unfold quotedByte. repeat case_decide; repeat constructor; lia. Qed.

(** The pattern, when it is ASCII, matches what its wildcards mean. *)
Lemma matchInterfacePattern_ascii ifname p : Forall (fun b => b < 128) (bytes p) →
  matchInterfacePattern ifname p = matchPieces (strictWildcard <$> bytes p) (runesOf ifname).
Proof.
  intros Hp. unfold matchInterfacePattern. rewrite replace_stars, replace_marks.
  assert (Forall (fun b => 0 ≤ b < 128) (bytes p ≫= quotedByte)) as Hq.
  { apply Forall_bind. apply Forall_forall. intros b Hb. apply quotedByte_range. rewrite Forall_forall in Hp. specialize (Hp b Hb).
    pose proof (bytes_valid p) as Hv. unfold valid_bytes in Hv. rewrite Forall_forall in Hv. specialize (Hv b Hb). cbn in *. lia. }
  assert (bytes (of_bytes (bytes p ≫= quotedByte)) = bytes p ≫= quotedByte) as Hb.
  { apply bytes_of_bytes. eapply Forall_impl; [exact Hq|]. cbn. lia. }
  assert (Forall (fun b => b < 128) (bytes (of_bytes (bytes p ≫= quotedByte)))) as Hq'.
  { rewrite Hb. eapply Forall_impl; [exact Hq|]. cbn. lia. }
  rewrite utf8_ascii, runesOf_ascii, Hb, compile_quoted by done. done.
Qed.

(** Names, stars and question marks, in ASCII. *)
Definition plainPattern (p : string) : Prop := Forall (fun b => b < 128 ∧ (b ∉ specialRunes) ∧ b ≠ 46) (bytes p).

Lemma matchPositive_plain matchRegexp ifname p : plainPattern p → matchPositive matchRegexp ifname p = matchInterfacePattern ifname p.
Proof.
  intros Hp. assert (Forall (fun b => b < 128) (bytes p)) as Ha by (eapply Forall_impl; [exact Hp|by intros b (? & _)]).
  unfold matchPositive. rewrite matchInterfacePattern_ascii, utf8_ascii, runesOf_ascii by done. cbn [negb]. rewrite decide_False.
  - f_equal. apply list_fmap_ext. intros i b Hb. apply list_elem_of_lookup_2 in Hb. unfold plainPattern in Hp. rewrite Forall_forall in Hp. destruct (Hp b Hb) as (_ & _ & Hd).
    unfold wildcardOf, strictWildcard. case_decide; [done|]. destruct (decide (b = 63)) as [->|H63]; [by rewrite decide_True by (by left)|].
    by rewrite decide_False by (by intros [?|?]).
  - intros (b & Hb & Hs)%Exists_exists. unfold plainPattern in Hp. rewrite Forall_forall in Hp. by destruct (Hp b Hb) as (_ & ? & _).
Qed.

Lemma matchWildcard_positive matchRegexp s p : isExclusion p = false → matchWildcardPattern matchRegexp s p = matchPositive matchRegexp s p.
Proof.
  unfold isExclusion. destruct p as [|c p]; [done|]. intros Hp. destruct c as [[] [] [] [] [] [] [] []]; try done.
Qed.
