(* ===== verification/RdmaProperties.v ===== *)
(** * Properties of scraping

    What src/pkg/agent/rdmascraper exports: every series once, counters without rounding, and the
    same interfaces as src/pkg/agent/fabricnode selects. *)
From stdpp Require Import base gmap list numbers strings.
From Stdlib Require Import ZArith Ascii.
From S2P Require Import Prelude GoStrings GoNumbers GoFloat GoBytes GoText GoNet GoPath Api Config Lldp InterfaceSelector FabricNode RdmaScraper RdmaEthtool RdmaCollect RdmaFacts.
Local Open Scope Z_scope.

Section scrape.
Context `{o : RangeOrder}.
Context (interfaceByName : string → option (option (list netAddr))).
Context (kindMatcher : interfaceKindMatcher) (paths : scraperPaths).

(** ** Containers and Pods *)
Definition containerOk (w : containerWorld) : Prop := ns_restore (cw_ns w) = None ∧ fsOk paths (cw_target w).

(** The loop goes on only when a container added nothing. *)
Lemma collectContainer_adds w pod wl host id snap : containerOk w →
  ∀ goesOn snap', collectContainer interfaceByName kindMatcher paths w pod wl host id snap = (goesOn, snap') →
  adds (ownSample MetricScopePod wl) snap snap' ∧ (goesOn = true → SS_Samples snap' = SS_Samples snap).
Proof.
  intros [Hr Hfs] goesOn snap'. unfold collectContainer. destruct (containerInitPID _ _ _) as [err|pid].
  { intros [= <- <-]. split; [by apply adds_same|done]. }
  edestruct (withMountNamespace_cases paths (cw_ns w) pid
    (fun '(_, _, snap) => (None, collectPodSysfs interfaceByName kindMatcher paths (cw_target w) pod wl (pciToPfIfname host) snap))
    (∅, None, snap) Hr) as [[err ->]| ->]; [by intros [[] ?]| |]; cbn iota beta.
  { intros [= <- <-]. split; [by apply adds_same|done]. }
  cbn [snd]. pose proof (collectPodSysfs_adds interfaceByName kindMatcher paths (cw_target w) Hfs wl pod (pciToPfIfname host) snap) as Ha.
  destruct (collectPodSysfs _ _ _ _ _ _ _ _) as [[m e] s1]. cbn [snd] in Ha.
  set (s2 := warnPodCollect paths e s1). assert (SS_Samples s2 = SS_Samples s1) as Hs2 by (subst s2; by destruct e).
  set (s3 := if decide (m = ∅) then s2 else collectPodEthtool interfaceByName kindMatcher paths (cw_stats w) wl id pid m s2).
  assert (adds (ownSample MetricScopePod wl) snap s3) as Hs3.
  { apply (adds_trans (sysfsSample MetricScopePod wl) (ethtoolSample MetricScopePod wl) _ _ s2); [solve_apart|solve_sample|solve_sample| |].
    - by eapply adds_after.
    - subst s3. case_decide; [by apply adds_same|]. apply collectPodEthtool_adds. }
  intros [= <- <-]. split; [done|]. destruct Hs3 as (new & Hnew & _). intros Hb%negb_true_iff%bool_decide_eq_false.
  destruct new as [|x new]; [by rewrite app_nil_r in Hnew|]. exfalso. apply Hb. left. rewrite Hnew, length_app. cbn. lia.
Qed.

Lemma collectContainers_adds worlds pod wl host ids snap : (∀ i, containerOk (worlds i)) →
  adds (ownSample MetricScopePod wl) snap (collectContainers interfaceByName kindMatcher paths worlds pod wl host ids snap).
Proof.
  revert worlds snap. induction ids as [|id ids IH]; intros worlds snap Hw; [by apply adds_same|]. cbn [collectContainers].
  destruct (collectContainer _ _ _ _ _ _ _ _ _) as [goesOn s] eqn:Hc.
  destruct (collectContainer_adds _ _ _ _ _ _ (Hw 0%nat) _ _ Hc) as [Ha Hsame]. destruct goesOn; [|done].
  apply (adds_before _ _ s); [by apply Hsame|]. apply IH. intros i. apply Hw.
Qed.

(** The part of an identity that is kept when a sample of the host is attributed to a Pod. *)
Definition core (x : MetricSample) : string * MetricSource * (string * string * string * string) :=
  (MS_Name x, MS_Source x, (MS_Device x, MS_Ifname x, MS_Port x, MS_Priority x)).

Definition hostSet (l : list MetricSample) : Prop := NoDup (core <$> l) ∧ Forall (fun x => cleanName (MS_Name x)) l.

Lemma hostSet_of new : NoDup (ident <$> new) → Forall (ownSample MetricScopeHost noWorkload) new → hostSet new.
Proof.
  intros Hd Hn. split; [|eapply Forall_impl; [exact Hn|by intros x (_ & _ & ?)]].
  induction new as [|x new IH]; [constructor|]. cbn in Hd |- *. apply NoDup_cons in Hd as [Hx Hd].
  apply Forall_cons in Hn as [Hox Hn]. constructor; [|by apply IH].
  intros (y & Hxy & Hy)%list_elem_of_fmap. apply Hx. apply list_elem_of_fmap. exists y. split; [|done].
  rewrite Forall_forall in Hn. destruct (Hn y Hy) as (S1 & W1 & _), Hox as (S2 & W2 & _).
  unfold core, ident in *. injection Hxy as -> -> -> -> -> ->. by rewrite S1, S2, W1, W2.
Qed.

Lemma collectHostRDMAPod_adds hostSamples wl snap : hostSet hostSamples →
  adds (ownSample MetricScopePod wl) snap (collectHostRDMAPod hostSamples wl snap).
Proof.
  intros [Hd Hc]. unfold collectHostRDMAPod.
  apply (adds_mono (fun x => ∃ b, b ∈ hostSamples ∧ x = with_pod wl b)).
  { intros x (b & Hb & ->). rewrite Forall_forall in Hc. specialize (Hc b Hb). done. }
  apply (adds_foldl core (fun b x => x = with_pod wl b)); [done| |].
  - intros b b' Hne x y -> -> Heq. apply Hne. unfold core. unfold ident in Heq. cbn in Heq. congruence.
  - intros s b _. case_decide; [by apply adds_same|]. by apply adds_one.
Qed.

Definition podWorldOk (w : podWorld) : Prop := ∀ i, containerOk (pw_containers w i).
Definition podName (pod : RdmaPod) : string * string := (RP_Name pod, RP_Namespace pod).

Lemma collectPods_adds worlds pods hostSamples host snap :
  (∀ i, podWorldOk (worlds i)) → hostSet hostSamples → NoDup (podName <$> pods) →
  adds (fun x => ∃ pod, pod ∈ pods ∧ ownSample MetricScopePod (workloadLabelsForPod pod) x) snap
    (collectPods interfaceByName kindMatcher paths worlds pods hostSamples host snap).
Proof.
  revert worlds snap. induction pods as [|pod pods IH]; intros worlds snap Hw Hh Hd; [by apply adds_same|]. cbn [collectPods].
  destruct (pw_ctx _); [by apply adds_same|]. cbn in Hd. apply NoDup_cons in Hd as [Hp Hd].
  match goal with |- adds _ _ (collectPods _ _ _ _ _ _ _ ?s1) => set (s := s1) end.
  apply (adds_trans (ownSample MetricScopePod (workloadLabelsForPod pod))
    (fun x => ∃ pod', pod' ∈ pods ∧ ownSample MetricScopePod (workloadLabelsForPod pod') x) _ _ s).
  - intros x y (_ & Hx & _) (pod' & Hp' & _ & Hy & _) Heq. unfold ident in Heq. rewrite Hx, Hy in Heq. cbn in Heq.
    injection Heq as _ _ _ _ _ _ _ Hn Hns. apply Hp. apply list_elem_of_fmap. exists pod'. split; [|done].
    unfold podName. congruence.
  - intros x Hx. exists pod. split; [apply list_elem_of_here|done].
  - intros x (pod' & Hp' & Hx). exists pod'. split; [by apply list_elem_of_further|done].
  - subst s. destruct (HostRDMA pod); [by apply collectHostRDMAPod_adds|]. unfold collectNamespacedPod.
    case_decide; [by apply adds_same|]. apply collectContainers_adds. apply Hw.
  - apply IH; [intros i; apply Hw|done..].
Qed.

(** ** A scrape *)
Lemma scrape_adds name pods w worlds snap :
  hostWorldOk paths w → (∀ i, podWorldOk (worlds i)) → NoDup (podName <$> pods) →
  Scrape interfaceByName kindMatcher paths None (Some (name, pods)) w worlds = inr snap →
  NoDup (ident <$> SS_Samples snap) ∧ Forall (fun x => cleanName (MS_Name x)) (SS_Samples snap).
Proof.
  intros Hw Hws Hd. unfold Scrape.
  pose proof (collectHost_adds interfaceByName kindMatcher paths w (emptySnapshot name) Hw) as (new & Hnew & Dn & Fn).
  destruct (collectHost _ _ _ _ _) as [host s]. cbn [snd emptySnapshot SS_Samples app] in Hnew. intros [= <-].
  pose proof (collectPods_adds worlds pods (SS_Samples s) host s Hws) as Hp.
  destruct Hp as (new' & Hnew' & Dn' & Fn'); [by rewrite Hnew; apply hostSet_of|done|]. rewrite Hnew', Hnew. split.
  - eapply NoDup_ident_app; [|exact Fn|exact Fn'|done|done]. intros x y (Hx & _) (pod & _ & Hy & _) Heq. unfold ident in Heq. congruence.
  - apply Forall_app. split; (eapply Forall_impl; [eassumption|]); [by intros x (_ & _ & ?)|by intros x (pod & _ & _ & _ & ?)].
Qed.
End scrape.

(** ** What is emitted *)

(** The name and the labels by which Prometheus identifies a metric. *)
Definition series (m : Metric) : string * list string := (d_name (m_desc m), m_labels m).
Definition sampleSeries (node : string) (x : MetricSample) : string * list string :=
  (metricName NewPrometheusEmitter (MS_Name x), sampleLabelValues node x).

Lemma bytes_inj s t : bytes s = bytes t → s = t.
Proof. intros H. apply (f_equal of_bytes) in H. by rewrite !of_bytes_bytes in H. Qed.

Definition knownLabels (l : list string) : Prop := l = rdmaSampleLabelNames ∨ l = [nodeInfoLabelName].

Lemma descKey_inj n n' l l' : knownLabels l → knownLabels l' → descKey n l = descKey n' l' → n = n' ∧ l = l'.
Proof.
  intros Hl Hl' H. apply (f_equal bytes) in H. unfold descKey in H. rewrite !bytes_app in H.
  destruct (decide (l = l')) as [->|Hne].
  { split; [|done]. rewrite <-!app_assoc in H || idtac. apply app_inj_2 in H as [H _]; [|done]. by apply bytes_inj. }
  exfalso. apply (f_equal (fun s => take 3 (reverse s))) in H. rewrite !reverse_app, <-!app_assoc in H.
  rewrite !take_app_le in H by (destruct Hl as [->| ->], Hl' as [->| ->]; vm_compute; lia).
  destruct Hl as [->| ->], Hl' as [->| ->]; (by destruct Hne) || (vm_compute in H; discriminate H).
Qed.

(** The cache of descriptions is right. *)
Definition emitterOk (e : PrometheusEmitter) : Prop :=
  pe_namespace e = defaultMetricNamespace ∧
  ∀ key d, pe_descs e !! key = Some d → key = descKey (d_name d) (d_labels d) ∧ knownLabels (d_labels d).

Lemma desc_ok e name help l : emitterOk e → knownLabels l →
  ∃ d e', desc e name help l = (d, e') ∧ d_name d = name ∧ d_labels d = l ∧ emitterOk e'.
Proof.
  intros [Hns He] Hl. unfold desc. destruct (pe_descs e !! descKey name l) as [d|] eqn:Hd.
  - destruct (He _ _ Hd) as [Hk Hl']. destruct (descKey_inj _ _ _ _ Hl Hl' Hk) as [-> ->]. by exists d, e.
  - eexists _, _. split; [done|]. split; [done|]. split; [done|]. split; [done|]. cbn.
    intros key d. rewrite lookup_insert_Some. intros [[<- <-]|[_ Hk]]; [done|by apply He].
Qed.

(** Prometheus accepts the name, and the labels are UTF-8. *)
Definition emittable (validName : string → bool) (node : string) (x : MetricSample) : Prop :=
  validName (sampleSeries node x).1 = true ∧ forallb utf8_valid (sampleLabelValues node x) = true.

Lemma metricName_default e n : emitterOk e → metricName e n = metricName NewPrometheusEmitter n.
Proof. intros [Hns _]. unfold metricName. by rewrite Hns. Qed.

Lemma emitSample_ok validName node x e : emitterOk e → emittable validName node x →
  ∃ m e', emitSample validName node x e = Ret (m, e') ∧ series m = sampleSeries node x ∧ emitterOk e'.
Proof.
  intros He [Hv Hu].
  destruct (desc_ok e (metricName e (MS_Name x)) "" rdmaSampleLabelNames He) as (d & e' & Hd & Hn & Hl & He'); [by left|].
  exists (MkMetric d (MS_Value x) (sampleLabelValues node x)), e'. unfold emitSample, MustNewConstMetric.
  rewrite Hd. unfold series. cbn [m_desc m_labels]. unfold sampleSeries in *. cbn [fst] in Hv.
  rewrite (metricName_default e _ He) in Hn. rewrite Hn, Hl, Hv, Hu. done.
Qed.

Lemma emit_samples validName node samples : ∀ ms e, emitterOk e → Forall (emittable validName node) samples →
  ∃ new e', go_foldl (fun '(ms, e) x => '(m, e) ← emitSample validName node x e; Ret (ms ++ [m], e)) (ms, e) samples
      = Ret (E := Empty_set) (ms ++ new, e') ∧
    series <$> new = sampleSeries node <$> samples ∧ emitterOk e'.
Proof.
  induction samples as [|x samples IH]; intros ms e He Hx.
  { exists [], e. by rewrite app_nil_r. }
  apply Forall_cons in Hx as [Hx Hxs]. destruct (emitSample_ok validName node x e He Hx) as (m & e' & Hm & Hs & He').
  destruct (IH (ms ++ [m]) e' He' Hxs) as (new & e'' & Hr & Hn & He'').
  exists (m :: new), e''. cbn [go_foldl]. rewrite Hm. cbn [mbind go_bind]. rewrite Hr, <-app_assoc. split; [done|].
  split; [|done]. cbn. by rewrite Hs, Hn.
Qed.

Lemma sampleSeries_ident node x y : cleanName (MS_Name x) → cleanName (MS_Name y) →
  sampleSeries node x = sampleSeries node y → ident x = ident y.
Proof.
  intros Hx Hy. unfold sampleSeries, metricName. change (pe_namespace NewPrometheusEmitter +:+ "_") with "unifabric_".
  rewrite Hx, Hy. intros H. apply (f_equal fst) in H as Hn. apply (f_equal snd) in H as Hl. cbn [fst snd] in Hn, Hl.
  apply str_app_inj_l, str_app_inj_l in Hn. unfold sampleLabelValues in Hl. injection Hl as Hd Hi Hp Hport Hprio Hpod Hpns _ _ _ _ _ _ _ Hscope Hsrc.
  unfold ident. rewrite Hn, Hd, Hi, Hport, Hprio, Hpod, Hpns.
  assert (MS_Scope x = MS_Scope y) as -> by (by destruct (MS_Scope x), (MS_Scope y)).
  assert (MS_Source x = MS_Source y) as -> by (by destruct (MS_Source x), (MS_Source y)). done.
Qed.

Lemma NoDup_fmap_via {A B C} (f : A → B) (g : A → C) (l : list A) :
  (∀ x y, x ∈ l → y ∈ l → g x = g y → f x = f y) → NoDup (f <$> l) → NoDup (g <$> l).
Proof.
  induction l as [|x l IH]; intros Hfg Hd; [constructor|]. cbn in Hd |- *. apply NoDup_cons in Hd as [Hx Hd].
  constructor; [|apply IH; [intros; apply Hfg; by apply list_elem_of_further || done|done]].
  intros (y & Hy & Hyl)%list_elem_of_fmap. apply Hx. rewrite (Hfg x y); [by apply list_elem_of_fmap_2|apply list_elem_of_here|by apply list_elem_of_further|done].
Qed.

(** C30. What the collector of Prometheus emits for a scrape that succeeds names no series twice: metric
    names and label values are different for all samples of the node and its Pods, every sample is
    emitted, and the emitter can be used again.  It holds when threads get back from the mount
    namespaces they enter, in every file system the collector looks at the entries of a directory
    have different names and no counter has a name with the exporter's prefix, no two RDMA devices of
    the host share an interface, Pods have different names, Prometheus accepts the metric names and
    the node name and all labels are UTF-8, and the emitter is a new one or one that emitted before.
    Without the first and the third condition series do come twice:
    [restore_failure_duplicates] and [shared_netdev_duplicates]. *)
Theorem scrape_series_unique `{RangeOrder} interfaceByName kindMatcher paths validName name pods w worlds snap e :
  hostWorldOk paths w → (∀ i, podWorldOk paths (worlds i)) → NoDup (podName <$> pods) →
  Scrape interfaceByName kindMatcher paths None (Some (name, pods)) w worlds = inr snap →
  emitterOk e → validName nodeInfoMetricName = true → utf8_valid (SS_NodeName snap) = true →
  Forall (emittable validName (SS_NodeName snap)) (SS_Samples snap) →
  ∃ ms e', Collect validName (Some (inr snap)) e = Ret (ms, e') ∧ emitterOk e' ∧
    length ms = S (length (SS_Samples snap)) ∧ NoDup (series <$> ms).
Proof.
  intros Hw Hws Hd Hs He Hni Hnu Hem. destruct (scrape_adds _ _ _ _ _ _ _ _ Hw Hws Hd Hs) as [Hid Hcl].
  destruct (desc_ok e nodeInfoMetricName "Unifabric node information" [nodeInfoLabelName] He) as (d & e1 & Hdesc & Hn & Hl & He1); [by right|].
  set (info := MkMetric d (of_int 1) [SS_NodeName snap]).
  destruct (emit_samples validName (SS_NodeName snap) (SS_Samples snap) [info] e1 He1 Hem) as (new & e2 & Hr & Hsr & He2).
  exists (info :: new), e2. split; [|split; [done|split]].
  - unfold Collect, Emit, emitNodeInfo, MustNewConstMetric. rewrite Hdesc, Hn, Hl, Hni. cbn [forallb]. rewrite Hnu.
    cbn [length bool_decide andb mbind go_bind]. rewrite bool_decide_eq_true_2 by done. cbn [andb mbind go_bind]. exact Hr.
  - apply (f_equal length) in Hsr. rewrite !length_fmap in Hsr. cbn. by rewrite Hsr.
  - cbn [fmap list_fmap]. rewrite Hsr. constructor.
    + intros (x & Hx & _)%list_elem_of_fmap. apply (f_equal (fun s => length s.2)) in Hx. discriminate Hx.
    + apply (NoDup_fmap_via ident); [|done]. intros x y Hx Hy. rewrite Forall_forall in Hcl. apply sampleSeries_ident; by apply Hcl.
Qed.

(** ** Examples of file systems *)

(** A file system of listed directories, files and links; a path that is not listed does not exist. *)
Definition listFs (dirs : list (string * list dirEntry)) (files links : list (string * string)) : fsView :=
  let missing := MkIoError IsNotExist "no such file or directory" in
  let find {A} (l : list (string * A)) p := match filter (fun e => e.1 = p) l with (_, a) :: _ => inr a | [] => inl missing end in
  let exists_ p := if decide (p ∈ dirs.*1 ++ files.*1 ++ links.*1) then None else Some missing in
  MkFs (find dirs) (find files) (find links) exists_ exists_.

Lemma listFs_ok paths dirs files links :
  Forall (fun d => NoDup (de_name <$> d.2) ∧ Forall (fun e => cleanName (de_name e)) d.2) dirs → fsOk paths (listFs dirs files links).
Proof.
  intros Hd. assert (∀ p es, ReadDir (listFs dirs files links) p = inr es → NoDup (de_name <$> es) ∧ Forall (fun e => cleanName (de_name e)) es) as Hf.
  { intros p es. cbn. destruct (filter _ dirs) as [|[q es'] l] eqn:Hfl; [done|]. intros [= <-].
    assert ((q, es') ∈ filter (fun e => e.1 = p) dirs) as Hin by (rewrite Hfl; apply list_elem_of_here).
    apply list_elem_of_filter in Hin as [_ Hin]. rewrite Forall_forall in Hd. exact (Hd _ Hin). }
  split; [by intros p es H; apply Hf in H as [? _]|].
  intros d port src es e H He. apply Hf in H as [_ H]. rewrite Forall_forall in H. by apply H.
Qed.

Lemma emittable_check validName node l :
  forallb (fun x => validName (sampleSeries node x).1 && forallb utf8_valid (sampleLabelValues node x)) l = true →
  Forall (emittable validName node) l.
Proof.
  intros Hl. apply Forall_forall. intros x Hx. rewrite forallb_forall in Hl. apply list_elem_of_In in Hx.
  specialize (Hl x Hx). apply andb_true_iff in Hl as [? ?]. by split.
Qed.

Module ScrapeExample.
#[local] Existing Instance canonical_order.

Definition listing (names : list string) : list dirEntry := (fun n => MkEntry n true) <$> names.

(** A node with a device on eth1, seen from the host. *)
Definition hostFs : fsView := listFs
  [("/sys/class/infiniband", listing ["mlx5_0"]); ("/sys/class/net", listing ["lo"; "eth1"]);
   ("/sys/class/infiniband/mlx5_0/ports", listing ["1"]);
   ("/sys/class/infiniband/mlx5_0/ports/1/counters", listing ["port_rcv_data"; "port_xmit_data"]);
   ("/sys/class/infiniband/mlx5_0/ports/1/hw_counters", listing ["out_of_sequence"])]
  [("/sys/class/infiniband/mlx5_0/ports/1/counters/port_xmit_data", of_bytes [49; 48; 48; 10]);
   ("/sys/class/infiniband/mlx5_0/ports/1/hw_counters/out_of_sequence", "7");
   ("/sys/class/net/eth1/mtu", "4200"); ("/sys/class/net/eth1/operstate", "up")]
  [("/sys/class/net/eth1/device", "/sys/devices/pci1"); ("/sys/class/infiniband/mlx5_0/device", "/sys/devices/pci1")].

(** A second device, of software, on the same interface. *)
Definition sharedFs : fsView := listFs
  [("/sys/class/infiniband", listing ["mlx5_0"; "rxe_eth1"]); ("/sys/class/net", listing ["eth1"]);
   ("/sys/class/infiniband/mlx5_0/ports", listing ["1"]); ("/sys/class/infiniband/rxe_eth1/ports", listing ["1"]);
   ("/sys/class/infiniband/mlx5_0/ports/1/gid_attrs/ndevs", listing ["0"]);
   ("/sys/class/infiniband/rxe_eth1/ports/1/gid_attrs/ndevs", listing ["0"]); ("/sys/class/net/eth1", [])]
  [("/sys/class/infiniband/mlx5_0/ports/1/gid_attrs/ndevs/0", "eth1"); ("/sys/class/infiniband/rxe_eth1/ports/1/gid_attrs/ndevs/0", "eth1")] [].

(** The files of the agent, and those of a container with a virtual function. *)
Definition agentFs : fsView := listFs [] [("/host/run/containerd/io.containerd.runtime.v2.task/k8s.io/c1/init.pid", "42")] [].
Definition podFs : fsView := listFs
  [("/sys/class/infiniband", listing ["mlx5_2"]); ("/sys/class/infiniband/mlx5_2/ports", listing ["1"]);
   ("/sys/class/infiniband/mlx5_2/ports/1/counters", listing ["port_xmit_data"]);
   ("/sys/class/infiniband/mlx5_2/ports/1/gid_attrs/ndevs", listing ["0"]); ("/sys/class/net/eth0", [])]
  [("/sys/class/infiniband/mlx5_2/ports/1/counters/port_xmit_data", "25"); ("/sys/class/infiniband/mlx5_2/ports/1/gid_attrs/ndevs/0", "eth0")]
  [("/sys/class/net/eth0/device/physfn", "/sys/devices/pci1")].

Definition switches (restore : option string) : nsAnswers := MkNsAnswers None None None None restore.
Definition pauses : statsCall := fun _ ifnames =>
  (list_to_map ((fun i => (i, MkStats {[ "rx_prio3_pause" := 5; "rx_prio0_pause" := 1 ]} None)) <$> ifnames), None).
Definition hostOf (fs : fsView) (restore : option string) : hostWorld := MkHostWorld None (switches restore) fs fs pauses.
Definition podsWorld (_ : nat) : podWorld := MkPodWorld None (fun _ => MkContainerWorld agentFs (switches None) podFs pauses).
Definition examplePods : list RdmaPod :=
  [MkRdmaPod "ml" "train-0" [] true None; MkRdmaPod "ml" "train-1" ["docker://x"; "containerd://c1"] false (Some (MkOwnerRef "v1" "Job" "ml" "train"))].

Definition unset : interfaceKindMatcher := MkMatcher (MkSelector "" "") (MkSelector "" "") (MkSelector "" "").
Definition scraped (pods : list RdmaPod) (w : hostWorld) : ScrapeSnapshot :=
  match Scrape (fun _ => None) unset defaultScraperPaths None (Some ("node-1", pods)) w podsWorld with
  | inr snap => snap
  | inl _ => emptySnapshot ""
  end.

Lemma scrape_series_unique_witness :
  length (SS_Samples (scraped examplePods (hostOf hostFs None))) = 17%nat ∧
  ∃ ms e', Collect (fun _ => true) (Some (inr (scraped examplePods (hostOf hostFs None)))) NewPrometheusEmitter = Ret (ms, e') ∧
    emitterOk e' ∧ length ms = S (length (SS_Samples (scraped examplePods (hostOf hostFs None)))) ∧ NoDup (series <$> ms).
Proof.
  split; [vm_compute; reflexivity|].
  apply (scrape_series_unique (fun _ => None) unset defaultScraperPaths (fun _ => true) "node-1" examplePods (hostOf hostFs None) podsWorld).
  - split; [reflexivity|].
    assert (fsOk defaultScraperPaths hostFs) as Hok by (apply listFs_ok, (bool_decide_unpack (Forall _ _)); vm_compute; exact I).
    assert (distinctNetdevs defaultScraperPaths hostFs) as Hdist.
    { intros es e e' ifname Hes. injection Hes as <-. intros He He' _ _.
      apply list_elem_of_singleton in He, He'. by subst. }
    split; [exact Hok|]. split; [exact Hok|]. split; exact Hdist.
  - intros i j. split; [reflexivity|]. apply listFs_ok, (bool_decide_unpack (Forall _ _)); vm_compute; exact I.
  - by apply (bool_decide_unpack (NoDup _)); vm_compute.
  - vm_compute. reflexivity.
  - split; [reflexivity|]. intros key d Hd. vm_compute in Hd. discriminate Hd.
  - reflexivity.
  - vm_compute. reflexivity.
  - apply emittable_check. vm_compute. reflexivity.
Defined.

(** When the thread does not get back from the namespace of the host, the samples that were
    collected there are collected again. *)
Lemma restore_failure_duplicates :
  ~ NoDup (sampleSeries "node-1" <$> SS_Samples (scraped [] (hostOf hostFs (Some "operation not permitted")))).
Proof. intros Hd. apply (bool_decide_pack _) in Hd. vm_compute in Hd. exact Hd. Qed.

(** Two devices on one interface make its statistics appear twice. *)
Lemma shared_netdev_duplicates : ~ NoDup (sampleSeries "node-1" <$> SS_Samples (scraped [] (hostOf sharedFs None))).
Proof. intros Hd. apply (bool_decide_pack _) in Hd. vm_compute in Hd. exact Hd. Qed.
End ScrapeExample.

(** ** Interface selectors *)

(** A list of plain patterns, none of which is negated twice. *)
Definition plainPatterns (patternList : string) : Prop :=
  Forall (fun p => plainPattern (trimBang p) ∧ isExclusion (trimBang p) = false) (patternsOf patternList).

Lemma trimBang_inclusion p : isExclusion p = false → trimBang p = p.
Proof. destruct p as [|c p]; [done|]. destruct c as [[] [] [] [] [] [] [] []]; done. Qed.

Lemma existsb_ext_in {A} (f g : A → bool) l : (∀ x, x ∈ l → f x = g x) → existsb f l = existsb g l.
Proof. induction l as [|x l IH]; intros H; [done|]. cbn. rewrite (H x), IH; set_solver. Qed.

Lemma existsb_fmap {A B} (f : B → bool) (g : A → B) l : existsb f (g <$> l) = existsb (fun x => f (g x)) l.
Proof. induction l as [|x l IH]; [done|]. cbn. by rewrite IH. Qed.

Lemma matchers_agree matchRegexp ifname patternList : plainPatterns patternList →
  matchMultipleInterfacePatterns ifname patternList = matchMultiplePatterns matchRegexp ifname patternList.
Proof.
  intros Hp. unfold matchMultipleInterfacePatterns, matchMultiplePatterns. case_decide; [done|].
  set (l := patternsOf patternList) in *. set (exclusions := filter (fun p => isExclusion p = true) l). set (inclusions := filter (fun p => isExclusion p = false) l).
  assert (∀ p, p ∈ l → matchWildcardPattern matchRegexp ifname (trimBang p) = matchInterfacePattern ifname (trimBang p)) as Hm.
  { intros p Hl. unfold plainPatterns in Hp. rewrite Forall_forall in Hp. destruct (Hp p Hl) as [H1 H2].
    by rewrite matchWildcard_positive, matchPositive_plain. }
  assert (existsb (fun p => matchWildcardPattern matchRegexp ifname (trimBang p)) exclusions = existsb (matchInterfacePattern ifname) (trimBang <$> exclusions)) as He.
  { rewrite existsb_fmap. apply existsb_ext_in. intros p [_ Hl]%list_elem_of_filter. by apply Hm. }
  assert (existsb (matchWildcardPattern matchRegexp ifname) inclusions = existsb (matchInterfacePattern ifname) inclusions) as Hi.
  { apply existsb_ext_in. intros p [Hpi Hl]%list_elem_of_filter. rewrite <-(trimBang_inclusion p Hpi). by apply Hm. }
  rewrite He. destruct inclusions as [|p1 [|p2 inc]] eqn:Einc, exclusions as [|q1 [|q2 exc]] eqn:Eexc; cbn [fmap list_fmap existsb] in *;
    rewrite ?Hi, ?orb_false_r in *; try done; rewrite ?He; try (by destruct (matchInterfacePattern ifname (trimBang q1))).
Qed.

(** C32. The scraper and the agent that publishes the FabricNode select the same interfaces: for
    plain patterns, and for a block of addresses, a selector matches an interface in one exactly when
    it does in the other. *)
Theorem selectors_agree matchRegexp interfaceByName nic addrs method value :
  (method = "interface" → plainPatterns value) →
  interfaceByName (v1beta1.Nic_Name nic) = Some (Some ((fun a => IPNetAddr (addr_IP a)) <$> addrs)) →
  selectorMatch interfaceByName (MkSelector method value) (v1beta1.Nic_Name nic) =
    matchInterface matchRegexp nic (MkMethod method value) addrs.
Proof.
  intros Hp Ha. unfold selectorMatch, matchInterface, isSet. cbn [sel_method sel_value Method MethodValue].
  destruct (decide (method = "interface")) as [->|Hni].
  { rewrite <-matchers_agree by (by apply Hp). destruct (decide (value = "")) as [->|Hv]; [done|].
    by rewrite bool_decide_eq_true_2. }
  destruct (decide (method = "cidr")) as [->|Hnc]; [|by destruct (negb _)].
  unfold matchInterfaceCIDR. rewrite Ha. destruct (decide (value = "")) as [->|Hv]; [done|].
  rewrite bool_decide_eq_true_2 by done. cbn [negb]. destruct (ParseCIDR value); [|done]. by rewrite existsb_fmap.
Qed.

Definition exampleNic : v1beta1.NicInfo := v1beta1.MkNicInfo "ens1" "mlx5_0" true "" "" "up" (v1beta1.MkLLDPNeighbor "" "" "" "" "").

Lemma selectors_agree_witness :
  selectorMatch (fun _ => Some (Some [IPNetAddr [10; 1; 0; 7]])) (MkSelector "interface" "ens*, !ens2") "ens1" = true ∧
  matchInterface (fun _ _ => false) exampleNic (MkMethod "interface" "ens*, !ens2") [MkAddr [10; 1; 0; 7] 16] = true.
Proof.
  split; [vm_compute; reflexivity|].
  rewrite <-(selectors_agree (fun _ _ => false) (fun _ => Some (Some [IPNetAddr [10; 1; 0; 7]])) exampleNic
    [MkAddr [10; 1; 0; 7] 16] "interface" "ens*, !ens2"); [vm_compute; reflexivity| |reflexivity].
  intros _. unfold plainPatterns, plainPattern. apply (bool_decide_unpack (Forall _ _)). vm_compute. exact I.
Defined.

(** A dot is a character for the scraper, and any character for the agent. *)
Lemma dots_differ :
  matchMultipleInterfacePatterns "eth0x100" "eth0.100" = false ∧ matchMultiplePatterns (fun _ _ => false) "eth0x100" "eth0.100" = true.
Proof. by vm_compute. Qed.

(** ** Counters *)
Definition newline : string := of_bytes [10].

Lemma strip_one_digit encodings b t : encodings = space_encodings ∨ encodings = reverse <$> space_encodings → 48 ≤ b ≤ 57 →
  strip_one encodings (b :: t) = None.
Proof.
  intros He Hb. assert (b ∈ seqZ 48 10) as Hin by (apply elem_of_seqZ; lia). vm_compute seqZ in Hin. clear Hb.
  rewrite !elem_of_cons, elem_of_nil in Hin. destruct He as [->| ->]; repeat destruct Hin as [->|Hin]; try done; by vm_compute.
Qed.

Lemma trim_left_digit encodings n b t : encodings = space_encodings ∨ encodings = reverse <$> space_encodings → 48 ≤ b ≤ 57 →
  trim_left encodings n (b :: t) = b :: t.
Proof. intros He Hb. destruct n; [done|]. cbn [trim_left]. by rewrite strip_one_digit. Qed.

Lemma digits_bytes s b : all_digits s = true → b ∈ bytes s → 48 ≤ b ≤ 57.
Proof.
  induction s as [|c s IH]; [by intros _ ?%not_elem_of_nil|]. intros Hs. cbn in Hs. apply andb_true_iff in Hs as [Hc Hs]. rewrite bytes_cons, elem_of_cons.
  intros [->|Hb]; [|by apply IH]. unfold is_digit in Hc. by apply bool_decide_eq_true in Hc.
Qed.

(** The line a kernel file holds is trimmed to the number. *)
Lemma trim_line s : all_digits s = true → s ≠ "" → TrimSpace (s +:+ newline) = s.
Proof.
  intros Hs Hne. unfold TrimSpace, trim_bytes. rewrite bytes_app. change (bytes newline) with [10].
  assert (∃ b t, bytes s = b :: t ∧ 48 ≤ b ≤ 57) as (b & t & Hb & Hr).
  { destruct s as [|c s]; [done|]. exists (byte_of c), (bytes s). rewrite bytes_cons. split; [done|].
    apply (digits_bytes (String c s)); [done|]. rewrite bytes_cons. apply list_elem_of_here. }
  assert (∃ b' t', reverse (bytes s) = b' :: t' ∧ 48 ≤ b' ≤ 57) as (b' & t' & Hb' & Hr').
  { destruct (reverse (bytes s)) as [|b' t'] eqn:E; [apply (f_equal reverse) in E; rewrite reverse_involutive, Hb in E; done|].
    exists b', t'. split; [done|]. apply (digits_bytes s); [done|]. rewrite <-(reverse_involutive (bytes s)), E.
    apply elem_of_reverse, list_elem_of_here. }
  rewrite Hb. cbn [app]. rewrite trim_left_digit by (by (left || done)). change (b :: t ++ [10]) with ((b :: t) ++ [10]). rewrite <-Hb.
  rewrite reverse_app, Hb', length_app, Nat.add_comm. change (reverse [10]) with [10]. cbn [length Nat.add app trim_left].
  change (strip_one (reverse <$> space_encodings) (10 :: b' :: t')) with (Some (b' :: t')). cbn iota.
  rewrite trim_left_digit by (by (right || done)). rewrite <-Hb', reverse_involutive. apply of_bytes_bytes.
Qed.

Lemma digits_no_marker s : all_digits s = true → contains s "N/A (no PMA)" = false.
Proof.
  induction s as [|c s IH]; intros Hs; [done|]. cbn in Hs. apply andb_true_iff in Hs as [Hc Hs]. cbn [contains]. rewrite IH by done.
  rewrite orb_false_r. destruct (has_prefix (String c s) "N/A (no PMA)") eqn:H; [|done]. apply has_prefix_spec in H as [r Hr].
  injection Hr as -> _. discriminate Hc.
Qed.

(** Counters of data, which the kernel gives in words of four bytes. *)
Definition dataCounter (path : string) : Prop := Base path = "port_xmit_data" ∨ Base path = "port_rcv_data".

(** A counter below 2^53 is exported without rounding, and a counter of data as four times its
    value, the number of bytes. *)
Theorem counters_exact (fs : fsView) path n : ReadFile fs path = inr (itoa_N n +:+ newline) → Z.of_N n < 2 ^ 53 →
  ∃ v, readCounterValue fs path = Some v ∧ (dataCounter path → denotes v (4 * Z.of_N n)) ∧ (~ dataCounter path → denotes v (Z.of_N n)).
Proof.
  intros Hr Hn. pose proof (itoa_N_digits n) as Hd. destruct (itoa_N_cons n) as (c & r & Hcr & _).
  unfold readCounterValue. rewrite Hr, trim_line, digits_no_marker, ParseFloat_exact by (done || by rewrite Hcr).
  cbn [mbind option_bind]. eexists. split; [done|]. unfold dataCounter. split; intros Hp.
  - rewrite decide_True by done. apply times_four_exact. unfold prec64. lia.
  - rewrite decide_False by done. apply of_int_exact. unfold prec64. lia.
Qed.

Lemma counters_exact_witness : ∃ v,
  readCounterValue ScrapeExample.hostFs "/sys/class/infiniband/mlx5_0/ports/1/counters/port_xmit_data" = Some v ∧ denotes v 400.
Proof.
  destruct (counters_exact ScrapeExample.hostFs "/sys/class/infiniband/mlx5_0/ports/1/counters/port_xmit_data" 100)
    as (v & Hv & Hd & _); [vm_compute; reflexivity|lia|].
  exists v. split; [exact Hv|]. apply Hd. left. vm_compute. reflexivity.
Defined.
