(* ===== verification/EbpfResolve.v ===== *)
(** * Pods behind RDMA flows

    src/pkg/agent/ebpfflow/owners.go and resolve.go: the top-level owner of a Pod, the indexes
    of the Pods of the cluster by UID, address and hardware address, and the resolution of a
    process to the Pod it runs in.  Then the BPF maps and ring-buffer records of component.go. *)
From Stdlib Require Import ZArith Ascii.
From stdpp Require Import base gmap list numbers strings.
From S2P Require Import Prelude GoStrings GoNumbers GoText GoJson GoNet GoPath InterfaceSelector GoBytes.
Local Open Scope Z_scope.

(** ** Owners *)
Record ownerInfo := MkOwnerInfo {
  Owner_Kind : string;
  Owner_Namespace : string;
  Owner_Name : string
}.

Record OwnerReference := MkOwnerReference {
  Ref_APIVersion : string;
  Ref_Kind : string;
  Ref_Name : string;
  Ref_UID : string;
  Ref_Controller : option bool;
  Ref_BlockOwnerDeletion : option bool
}.

#[export] Instance ownerInfo_eq_dec : EqDecision ownerInfo.
Proof. solve_decision. Defined.

Definition knownOwnerResources : gmap string (gmap string string) :=
  {[ "apps/v1" := {[ "Deployment" := "deployments"; "ReplicaSet" := "replicasets"; "StatefulSet" := "statefulsets";
                     "DaemonSet" := "daemonsets" ]};
     "batch/v1" := {[ "Job" := "jobs"; "CronJob" := "cronjobs" ]};
     "kubeflow.org/v1" := {[ "PyTorchJob" := "pytorchjobs"; "TFJob" := "tfjobs"; "MPIJob" := "mpijobs";
                             "XGBoostJob" := "xgboostjobs"; "PaddleJob" := "paddlejobs"; "JAXJob" := "jaxjobs" ]};
     "kubeflow.org/v2beta1" := {[ "MPIJob" := "mpijobs" ]};
     "trainer.kubeflow.org/v1alpha1" := {[ "TrainJob" := "trainjobs" ]};
     "jobset.x-k8s.io/v1alpha2" := {[ "JobSet" := "jobsets" ]};
     "leaderworkerset.x-k8s.io/v1" := {[ "LeaderWorkerSet" := "leaderworkersets" ]};
     "ray.io/v1" := {[ "RayCluster" := "rayclusters"; "RayJob" := "rayjobs"; "RayService" := "rayservices" ]};
     "batch.volcano.sh/v1alpha1" := {[ "Job" := "jobs" ]} ]}.

Definition clusterScopedOwnerKinds (kind : string) : bool := bool_decide (kind = "Node").

Definition maxOwnerDepth : nat := 8.

(** [hasReader] is false when the reader is nil. *)
Record ownerResolver := MkOwnerResolver {
  hasReader : bool;
  objects : gmap string (list OwnerReference)
}.

Definition newOwnerResolver (reader : bool) : ownerResolver := MkOwnerResolver reader ∅.

Definition controllerRef (refs : list OwnerReference) : option OwnerReference :=
  match refs with
  | [] => None
  | first :: _ => Some (default first (head (filter (fun ref => Ref_Controller ref = Some true) refs)))
  end.

Section owners.
(** The owner references of the object with an API version, kind, namespace and name, as
    the API server answers; [None] is an error. *)
Context (Get : string → string → string → string → option (list OwnerReference)).

Definition fetch (o : ownerResolver) (ref : OwnerReference) (namespace : string)
    : option (list OwnerReference) * ownerResolver :=
  match objects o !! Ref_UID ref with
  | Some refs => (Some refs, o)
  | None =>
    match Get (Ref_APIVersion ref) (Ref_Kind ref) namespace (Ref_Name ref) with
    | None => (None, o)
    | Some refs => (Some refs, MkOwnerResolver (hasReader o) (<[Ref_UID ref := refs]> (objects o)))
    end
  end.

(** The loop of [topOwner]. *)
Fixpoint walkOwners (depth : nat) (o : option ownerResolver) (namespace : string) (current : ownerInfo)
    (refs : list OwnerReference) : ownerInfo * option ownerResolver :=
  match depth with
  | O => (current, o)
  | S depth =>
    match controllerRef refs with
    | None => (current, o)
    | Some ref =>
      let current := MkOwnerInfo (Ref_Kind ref) namespace (Ref_Name ref) in
      if clusterScopedOwnerKinds (Ref_Kind ref) then (MkOwnerInfo (Ref_Kind ref) "" (Ref_Name ref), o)
      else
        match knownOwnerResources !! Ref_APIVersion ref ≫= lookup (Ref_Kind ref) with
        | None => (current, o)
        | Some _ =>
          match o with
          | None => (current, None)
          | Some r =>
            if negb (hasReader r) then (current, Some r)
            else
              match fetch r ref namespace with
              | (None, r) => (current, Some r)
              | (Some next, r) => walkOwners depth (Some r) namespace current next
              end
          end
        end
    end
  end.

Definition topOwner (o : option ownerResolver) (namespace name : string) (refs : list OwnerReference)
    : ownerInfo * option ownerResolver :=
  walkOwners maxOwnerDepth o namespace (MkOwnerInfo "Pod" namespace name) refs.
End owners.

(** ** Ends of a flow *)
Record peer := MkPeer {
  Peer_Namespace : string;
  Peer_Name : string;
  Peer_Owner : ownerInfo;
  label : string;
  hostNetwork : bool
}.

#[export] Instance peer_eq_dec : EqDecision peer.
Proof. solve_decision. Defined.

Definition zeroPeer : peer := MkPeer "" "" (MkOwnerInfo "" "" "") "" false.

(** [peer{label: l}] *)
Definition labelled (l : string) : peer := MkPeer "" "" (MkOwnerInfo "" "" "") l false.

Definition isPod (p : peer) : bool := bool_decide (Peer_Name p ≠ "").

Definition peer_String (p : peer) : string :=
  if isPod p then Peer_Namespace p +:+ "/" +:+ Peer_Name p
  else if decide (label p = "") then "unknown"
  else label p.

(** ** Addresses in the annotations of a Pod *)
Definition networkStatusAnnotation : string := "k8s.v1.cni.cncf.io/network-status".
Definition calicoPodIPAnnotation : string := "cni.projectcalico.org/podIP".
Definition calicoPodIPsAnnotation : string := "cni.projectcalico.org/podIPs".

Definition normalizeIP (value : string) : string :=
  let value := TrimSpace value in
  match ParseIP value with
  | Some ip => IP_String ip
  | None =>
    match ParseCIDR value with
    | Some cidr => IP_String (Net_IP cidr)
    | None => ""
    end
  end.

Definition normalizeMAC (value : string) : string :=
  match ParseMAC (TrimSpace value) with
  | Some mac => MAC_String mac
  | None => ""
  end.

(** The loops that keep each normalised value once, in order; [seen] holds what was
    appended. *)
Definition keepNew (normalize : string → string) (out : list string) (value : string) : list string :=
  let v := normalize value in
  if decide (v = "" ∨ v ∈ out) then out else out ++ [v].

Record networkStatus := MkNetworkStatus {
  ns_IPs : list string;
  ns_MAC : string
}.

Definition d_networkStatus : decoder networkStatus :=
  d_struct (field_of
    [("ips", via ns_IPs (fun x s => MkNetworkStatus x (ns_MAC s)) (d_slice "" d_string));
     ("mac", via ns_MAC (fun x s => MkNetworkStatus (ns_IPs s) x) d_string)]).

Definition unmarshal {A} (zero : A) (d : decoder A) (raw : string) : option A := v ← json_parse raw; d zero v.

Definition parseNetworkStatus (raw : string) : list networkStatus :=
  if decide (TrimSpace raw = "") then []
  else
    match unmarshal [] (d_slice (MkNetworkStatus [] "") d_networkStatus) raw with
    | Some statuses => statuses
    | None =>
      match unmarshal (MkNetworkStatus [] "") d_networkStatus raw with
      | Some status => [status]
      | None => []
      end
    end.

Definition networkStatusIPs (raw : string) : list string :=
  foldl (keepNew normalizeIP) [] (parseNetworkStatus raw ≫= ns_IPs).

(** A comma is the byte 44. *)
Definition annotationIPs (raw : string) : list string :=
  let raw := TrimSpace raw in
  if decide (raw = "") then []
  else
    let values :=
      match unmarshal [] (d_slice "" d_string) raw with
      | Some values => values
      | None =>
        match unmarshal "" d_string raw with
        | Some value => [value]
        | None => of_bytes <$> words ([44] :: space_encodings) (String.length raw) [] (bytes raw)
        end
      end in
    foldl (keepNew normalizeIP) [] values.

Definition annotation (annotations : gmap string string) (key : string) : string := default "" (annotations !! key).

Definition podAnnotationIPs (annotations : gmap string string) : list string :=
  foldl (keepNew normalizeIP) []
    (networkStatusIPs (annotation annotations networkStatusAnnotation) ++
     annotationIPs (annotation annotations calicoPodIPAnnotation) ++
     annotationIPs (annotation annotations calicoPodIPsAnnotation)).

Definition podAnnotationMACs (annotations : gmap string string) : list string :=
  foldl (keepNew normalizeMAC) [] (ns_MAC <$> parseNetworkStatus (annotation annotations networkStatusAnnotation)).

(** ** The resolver *)

(** A Pod of an RDMAEndpoint as an address lookup sees it; [qpns] gives the device of each
    queue pair number. *)
Record reportedPod := MkReported {
  rp_uid : string;
  rp_node : string;
  devices : list string;
  qpns : gmap Z string
}.

Record resolver := MkResolver {
  hasClient : bool;
  hasPodReader : bool;
  owners : option ownerResolver;
  byUID : gmap string peer;
  byIP : gmap string peer;
  byMAC : gmap string peer;
  uidByTgid : gmap Z string;
  gidPods : gmap string (list reportedPod);
  gidNodes : gmap string (list string);
  localPorts : gmap string string
}.

Definition newResolver (client podReader apiReader : bool) : resolver :=
  MkResolver client podReader (if client then Some (newOwnerResolver apiReader) else None) ∅ ∅ ∅ ∅ ∅ ∅ ∅.

Record Pod := MkPod {
  Pod_UID : string;
  Pod_Namespace : string;
  Pod_Name : string;
  Pod_OwnerReferences : list OwnerReference;
  Pod_HostNetwork : bool;
  PodIP : string;
  PodIPs : list string;
  Pod_Annotations : gmap string string
}.

Definition addPodIP (p : peer) (byIP : gmap string peer) (ip : string) : gmap string peer :=
  let normalized := normalizeIP ip in
  if decide (normalized = "") then byIP else <[normalized := p]> byIP.

(** The three maps [refresh] fills, and the owner cache it uses. *)
Record podIndex := MkPodIndex {
  ix_owners : option ownerResolver;
  ix_byUID : gmap string peer;
  ix_byIP : gmap string peer;
  ix_byMAC : gmap string peer
}.

Section resolver.
Context (Get : string → string → string → string → option (list OwnerReference)).

Definition indexPod (ix : podIndex) (item : Pod) : podIndex :=
  let '(owner, o) := topOwner Get (ix_owners ix) (Pod_Namespace item) (Pod_Name item) (Pod_OwnerReferences item) in
  let p := MkPeer (Pod_Namespace item) (Pod_Name item) owner "" (Pod_HostNetwork item) in
  let uids := <[ToLower (Pod_UID item) := p]> (ix_byUID ix) in
  if Pod_HostNetwork item then MkPodIndex o uids (ix_byIP ix) (ix_byMAC ix)
  else
    MkPodIndex o uids
      (foldl (addPodIP p) (ix_byIP ix) (PodIP item :: PodIPs item ++ podAnnotationIPs (Pod_Annotations item)))
      (foldl (fun m mac => <[mac := p]> m) (ix_byMAC ix) (podAnnotationMACs (Pod_Annotations item))).

Definition indexPods (o : option ownerResolver) (pods : list Pod) : podIndex := foldl indexPod (MkPodIndex o ∅ ∅ ∅) pods.

(** [refresh] before its last call; [None] is an error of the list, and the answer tells
    whether [refreshEndpoints] is called. *)
Definition refreshPods (pods : option (list Pod)) (r : resolver) : resolver * bool :=
  if negb (hasClient r) || negb (hasPodReader r) then (r, false)
  else
    match pods with
    | None => (r, false)
    | Some pods =>
      let ix := indexPods (owners r) pods in
      (MkResolver (hasClient r) (hasPodReader r) (ix_owners ix) (ix_byUID ix) (ix_byIP ix) (ix_byMAC ix)
         (uidByTgid r) (gidPods r) (gidNodes r) (localPorts r), true)
    end.
End resolver.

(** ** Processes *)

(** [[0-9a-f]] and [[-_]] of the pattern. *)
Definition is_hex_lower (b : Z) : bool := bool_decide (48 ≤ b ≤ 57) || bool_decide (97 ≤ b ≤ 102).
Definition is_uid_sep (b : Z) : bool := bool_decide (b = 45) || bool_decide (b = 95).

(** The shape of a UID: true for a hexadecimal digit, false for a separator. *)
Definition uid_shape : list bool :=
  replicate 8 true ++ [false] ++ replicate 4 true ++ [false] ++ replicate 4 true ++ [false] ++ replicate 4 true ++ [false] ++ replicate 12 true.

Fixpoint matches_shape (shape : list bool) (s : list Z) : bool :=
  match shape, s with
  | [], _ => true
  | hex :: shape, b :: s => (if hex : bool then is_hex_lower b else is_uid_sep b) && matches_shape shape s
  | _, [] => false
  end.

(** [podUIDPattern.FindSubmatch]: the leftmost match, its group. *)
Fixpoint find_uid (s : list Z) : option (list Z) :=
  match strip_list [112; 111; 100] s with
  | Some r => if matches_shape uid_shape r then Some (take 36 r) else match s with _ :: s => find_uid s | [] => None end
  | None => match s with _ :: s => find_uid s | [] => None end
  end.

(** [strings.ReplaceAll(s, "_", "-")] *)
Definition dashed (s : list Z) : list Z := (fun b => if decide (b = 95) then 45 else b) <$> s.

(** The UID in the text of /proc/<tgid>/cgroup, [None] when it cannot be read. *)
Definition cgroupPodUID (data : option string) : string :=
  match data with
  | None => ""
  | Some data =>
    match find_uid (bytes data) with
    | Some uid => ToLower (of_bytes (dashed uid))
    | None => ""
    end
  end.

Section processes.
(** The text of /proc/<tgid>/cgroup. *)
Context (cgroup : Z → option string).

Definition with_uid (tgid : Z) (uid : string) (r : resolver) : resolver :=
  MkResolver (hasClient r) (hasPodReader r) (owners r) (byUID r) (byIP r) (byMAC r) (<[tgid := uid]> (uidByTgid r))
    (gidPods r) (gidNodes r) (localPorts r).

Definition podUIDForTgid (tgid : Z) (r : resolver) : string * resolver :=
  match uidByTgid r !! tgid with
  | Some uid => (uid, r)
  | None =>
    let uid := cgroupPodUID (cgroup tgid) in
    (uid, if decide (uid = "") then r else with_uid tgid uid r)
  end.

Definition podForTgid (tgid : Z) (comm : string) (r : resolver) : peer * resolver :=
  let '(uid, r) := podUIDForTgid tgid r in
  let pid := "pid:" +:+ Itoa tgid in
  if decide (uid = "") then (labelled (if decide (comm = "") then pid else pid +:+ "(" +:+ comm +:+ ")"), r)
  else
    (match byUID r !! uid with
     | Some p => p
     | None => labelled ("pod-uid:" +:+ uid)
     end, r).
End processes.

(** ** Hardware addresses in link-local addresses *)
Definition eui64MAC (value : string) : string :=
  match ParseIP value with
  | None => ""
  | Some ip =>
    match To16 ip with
    | None => ""
    | Some ip16 =>
      if decide (is_Some (To4 ip) ∨ IsLinkLocalUnicast ip16 = false) then ""
      else if decide (nth 11 ip16 0 ≠ 255 ∨ nth 12 ip16 0 ≠ 254) then ""
      else MAC_String [Z.lxor (nth 8 ip16 0) 2; nth 9 ip16 0; nth 10 ip16 0; nth 13 ip16 0; nth 14 ip16 0; nth 15 ip16 0]
    end
  end.

Example resolve_examples :
  eui64MAC "fe80::a1b:2cff:fe3d:4e5f" = "08:1b:2c:3d:4e:5f" ∧ eui64MAC "fe80::1" = "" ∧ eui64MAC "10.0.0.1" = "" ∧
  cgroupPodUID (Some "0::/kubepods/pod0a1b2c3d-0000-1111-2222-0123456789ab/x") = "0a1b2c3d-0000-1111-2222-0123456789ab" ∧
  cgroupPodUID (Some "/kubepods-podpod0a1b2c3d_0000_1111_2222_0123456789ab.slice") = "0a1b2c3d-0000-1111-2222-0123456789ab" ∧
  annotationIPs "10.0.0.1/32, 10.0.0.2 10.0.0.1" = ["10.0.0.1"; "10.0.0.2"] ∧
  (topOwner (fun _ kind _ _ => if decide (kind = "ReplicaSet") then Some [MkOwnerReference "apps/v1" "Deployment" "d" "u2" None None] else Some [])
     (Some (newOwnerResolver true)) "ns" "p" [MkOwnerReference "apps/v1" "ReplicaSet" "r" "u1" (Some true) None]).1
    = MkOwnerInfo "Deployment" "ns" "d".
Proof. vm_compute. done. Qed.

Record qpKey := MkQpKey {
  Tgid : Z;
  QPN : Z
}.

#[export] Instance qpKey_eq_dec : EqDecision qpKey.
Proof. solve_decision. Defined.
#[export] Instance qpKey_countable : Countable qpKey.
Proof. refine (inj_countable' (fun k => (Tgid k, QPN k)) (fun '(t, q) => MkQpKey t q) _). by intros []. Defined.

(** Arrays of bytes are lists of their length. *)
Record qpInfo := MkQpInfo {
  DGID : list Z;
  Comm : list Z;
  DestQPN : Z;
  DLID : Z;
  IsGlobal : Z;
  PortNum : Z;
  Device : list Z
}.

Definition zeroQpInfo : qpInfo := MkQpInfo (replicate 16 0) (replicate 16 0) 0 0 0 0 (replicate 64 0).

Record qpStat := MkQpStat {
  Bytes : Z;
  WRs : Z
}.

Definition zeroQpStat : qpStat := MkQpStat 0 0.

(** The bytes before the first NUL. *)
Fixpoint before_nul (b : list Z) : list Z :=
  match b with
  | [] => []
  | c :: b => if decide (c = 0) then [] else c :: before_nul b
  end.

Definition cString (b : list Z) : string := of_bytes (before_nul b).
Definition comm (b : list Z) : string := cString b.
Definition info_device (info : qpInfo) : string := cString (Device info).

Definition lidAddressed (info : qpInfo) : bool := bool_decide (IsGlobal info = 0) && bool_decide (DLID info ≠ 0).

Definition gidToIP (gid : list Z) : string :=
  if decide (gid = replicate 16 0) then ""
  else if decide (take 10 gid = replicate 10 0 ∧ nth 10 gid 0 = 255 ∧ nth 11 gid 0 = 255) then IP_String (take 4 (drop 12 gid))
  else IP_String gid.

(** ** Queue pair infos by key and by number *)
Record qpInfoIndex := MkInfoIndex {
  exact : gmap qpKey qpInfo;
  byQPN : gmap Z qpInfo;
  ambiguous : gset Z
}.

Definition newQPInfoIndex : qpInfoIndex := MkInfoIndex ∅ ∅ ∅.

Definition index_add (ix : qpInfoIndex) (key : qpKey) (info : qpInfo) : qpInfoIndex :=
  let exact' := <[key := info]> (exact ix) in
  match byQPN ix !! QPN key with
  | Some _ => MkInfoIndex exact' (byQPN ix) ({[ QPN key ]} ∪ ambiguous ix)
  | None => MkInfoIndex exact' (<[QPN key := info]> (byQPN ix)) (ambiguous ix)
  end.

Definition index_lookup (ix : qpInfoIndex) (key : qpKey) : option qpInfo :=
  match exact ix !! key with
  | Some info => Some info
  | None => if decide (QPN key ∈ ambiguous ix) then None else byQPN ix !! QPN key
  end.

(** ** Events of the callback ring buffer *)
Record callbackEvent := MkCallback {
  CB_Tgid : Z;
  CB_Kind : Z;
  CB_Address : Z
}.

#[export] Instance callbackEvent_eq_dec : EqDecision callbackEvent.
Proof. solve_decision. Defined.
#[export] Instance callbackEvent_countable : Countable callbackEvent.
Proof.
  refine (inj_countable' (fun e => (CB_Tgid e, CB_Kind e, CB_Address e)) (fun '(t, k, a) => MkCallback t k a) _). by intros [].
Defined.

(** [None] is the error of short data. *)
Definition decodeCallbackEvent (data : list Z) : outcome (option callbackEvent) :=
  if decide (len data < 16) then Ret None
  else
    tgid ← uint32_le data 0;
    kind ← uint32_le data 4;
    address ← uint64_le data 8;
    Ret (Some (MkCallback tgid kind address)).

Example maps_examples :
  cString [109; 108; 120; 53; 0; 7] = "mlx5" ∧ gidToIP (v4InV6Prefix ++ [10; 0; 0; 1]) = "10.0.0.1" ∧ gidToIP (replicate 16 0) = "" ∧
  gidToIP ([254; 128] ++ replicate 13 0 ++ [1]) = "fe80::1" ∧
  decodeCallbackEvent ([1; 0; 0; 0] ++ [6; 0; 0; 0] ++ [0; 1; 0; 0; 0; 0; 0; 0]) = Ret (Some (MkCallback 1 6 256)).
Proof. vm_compute. done. Qed.
