(* ===== verification/EbpfEndpoint.v ===== *)
(** * RDMA endpoints

    src/pkg/agent/ebpfflow/endpoint.go: the devices and ports of a node as sysfs shows them, the
    Pods that hold them, the RDMAEndpoint object of each, and the index over the objects of all
    nodes that resolves an address and a queue pair number to a Pod.  Files are read through a
    view of the file system; what a view shows depends on the network namespace. *)
From Stdlib Require Import ZArith Ascii.
From stdpp Require Import base gmap list numbers strings sorting.
From S2P Require Import Prelude GoStrings GoNumbers GoText GoNet GoPath EbpfResolve.
Local Open Scope Z_scope.

(** ** The objects, src/pkg/api/v1beta1/rdmaendpoint_types.go *)
Definition LinkLayerInfiniBand : string := "InfiniBand".
Definition LinkLayerEthernet : string := "Ethernet".
Definition RDMAEndpointLabelNode : string := "unifabric.io/node".

Record RDMAGid := MkGid {
  Gid_Index : Z;
  Gid : string
}.

Record RDMAQueuePair := MkQueuePair {
  Qpn : Z;
  Pid : Z
}.

Record RDMAPort := MkPort {
  Port : Z;
  LinkLayer : string;
  Lid : Z;
  SubnetPrefix : string;
  Gids : list RDMAGid;
  QueuePairs : list RDMAQueuePair
}.

Record RDMAInterface := MkInterface {
  Iface_Name : string;
  RdmaDevice : string;
  Ports : list RDMAPort
}.

Record RDMAEndpointStatus := MkEndpointStatus {
  NodeName : string;
  HostNetwork : bool;
  LastUpdateTime : Z;
  Interfaces : list RDMAInterface
}.

Record RDMAEndpoint := MkEndpoint {
  EP_Namespace : string;
  EP_Name : string;
  EP_Labels : gmap string string;
  EP_OwnerReferences : list OwnerReference;
  EP_Status : RDMAEndpointStatus
}.

(** ** Sorting

    [sort.Slice] by an integer key: some sorted permutation, since the sort is not stable. *)
Class SliceSort := {
  slice_sort : ∀ {A : Type}, (A → Z) → list A → list A;
  slice_sort_perm : ∀ (A : Type) (key : A → Z) l, slice_sort key l ≡ₚ l;
  slice_sort_sorted : ∀ (A : Type) (key : A → Z) l, Sorted (fun x y => key x ≤ key y) (slice_sort key l)
}.

(** ** Files *)
Record osView := MkView {
  ReadDir : string → option (list string);
  Readdirnames : string → option (list string);
  ReadFile : string → option string;
  Readlink : string → option string
}.

Record portInfo := MkPortInfo {
  num : Z;
  linkLayer : string;
  lid : Z;
  subnetPrefix : string;
  gids : list RDMAGid
}.

Record deviceInfo := MkDeviceInfo {
  netdev : string;
  ports : list portInfo
}.

Definition zeroDeviceInfo : deviceInfo := MkDeviceInfo "" [].

(** ** Addresses *)
Definition lidKey (subnetPrefix : string) (lid : Z) : string :=
  if decide (lid = 0 ∨ subnetPrefix = "") then "" else subnetPrefix +:+ "/" +:+ Itoa lid.

Definition zero8 : list Z := replicate 8 0.

Definition gidSubnetPrefix (value : string) : string :=
  match ParseIP value ≫= To16 with
  | None => ""
  | Some ip16 =>
    if decide (take 8 ip16 = zero8) then ""
    else foldr (fun b s => hex_byte_text b +:+ s) "" (take 8 ip16)
  end.

Definition parseSysfsGID (value : string) : string :=
  match ParseIP value ≫= To16 with
  | None => ""
  | Some ip16 => if decide (drop 8 ip16 = zero8) then "" else gidToIP ip16
  end.

Definition isNumeric (s : string) : bool := bool_decide (s ≠ "") && all_digits s.

Section files.
Context `{SliceSort} (v : osView).

Definition readLinkLayer (path : string) : string :=
  match ReadFile v path with
  | None => LinkLayerEthernet
  | Some raw => if decide (TrimSpace raw = LinkLayerInfiniBand) then LinkLayerInfiniBand else LinkLayerEthernet
  end.

Definition readSysfsLID (path : string) : Z :=
  match ReadFile v path with
  | None => 0
  | Some raw => default 0 (ParseUint (trim_prefix (TrimSpace raw) "0x") 16 16)
  end.

Definition deviceNetdev (deviceDir : string) : string :=
  match ReadDir v (Join [deviceDir; "device/net"]) with
  | None => ""
  | Some entries => default "" (head (sort_strings entries))
  end.

(** One file of the gids directory. *)
Definition addGidFile (gidDir : string) (pi : portInfo) (file : string) : portInfo :=
  match Atoi file with
  | None => pi
  | Some index =>
    match ReadFile v (Join [gidDir; file]) with
    | None => pi
    | Some raw =>
      let text := TrimSpace raw in
      let prefix := if decide (index = 0) then gidSubnetPrefix text else subnetPrefix pi in
      MkPortInfo (num pi) (linkLayer pi) (lid pi) prefix
        (if decide (parseSysfsGID text = "") then gids pi else gids pi ++ [MkGid index text])
    end
  end.

(** One directory of a device's ports. *)
Definition readPort (portsDir port : string) : option portInfo :=
  portNum ← Atoi port;
  let portDir := Join [portsDir; port] in
  let pi := MkPortInfo portNum (readLinkLayer (Join [portDir; "link_layer"])) (readSysfsLID (Join [portDir; "lid"])) "" [] in
  let gidDir := Join [portDir; "gids"] in
  match ReadDir v gidDir with
  | None => Some pi
  | Some files =>
    let pi := foldl (addGidFile gidDir) pi files in
    Some (MkPortInfo (num pi) (linkLayer pi) (lid pi) (subnetPrefix pi) (slice_sort Gid_Index (gids pi)))
  end.

Definition readDevice (root name : string) : deviceInfo :=
  let deviceDir := Join [root; name] in
  let portsDir := Join [deviceDir; "ports"] in
  match ReadDir v portsDir with
  | None => MkDeviceInfo (deviceNetdev deviceDir) []
  | Some names => MkDeviceInfo (deviceNetdev deviceDir) (slice_sort num (omap (readPort portsDir) names))
  end.

Definition deviceTable (sysfs : string) : gmap string deviceInfo :=
  let root := Join [sysfs; "class/infiniband"] in
  match ReadDir v root with
  | None => ∅
  | Some entries => foldl (fun m name => <[name := readDevice root name]> m) ∅ entries
  end.

Definition uverbsDevice (sysfs uverbs : string) : string :=
  match ReadFile v (Join [sysfs; "class/infiniband_verbs"; uverbs; "ibdev"]) with
  | None => ""
  | Some raw => TrimSpace raw
  end.

Definition openUverbs (pid : string) : list string :=
  let fdDir := Join ["/proc"; pid; "fd"] in
  match Readdirnames v fdDir with
  | None => []
  | Some names =>
    foldl (fun found name =>
      match Readlink v (Join [fdDir; name]) with
      | None => found
      | Some target =>
        if has_prefix target "/dev/infiniband/uverbs" then
          let uverbs := trim_prefix target "/dev/infiniband/" in
          if decide (uverbs ∈ found) then found else found ++ [uverbs]
        else found
      end) [] names
  end.
End files.

(** ** Holders of devices *)
Record podHolder := MkHolder {
  holder_pid : string;
  holder_devices : gset string
}.

Definition hostNetnsPath : string := "/proc/1/ns/net".
Definition hostSysfsPath : string := "/proc/1/root/sys".

(** The view of the agent, and the views after switching to a network namespace; [None] is
    a failed switch. *)
Record node := MkNode {
  own : osView;
  inNetns : string → option osView
}.

(** The text of /proc/<tgid>/cgroup. *)
Definition cgroup (n : node) (tgid : Z) : option string := ReadFile (own n) ("/proc/" +:+ Itoa tgid +:+ "/cgroup").

Section holders.
Context `{RangeOrder} `{SliceSort} (n : node).

(** [hostView]. *)
Definition hostView {A} (fn : osView → A) : A := fn (default (own n) (inNetns n hostNetnsPath)).

Definition podDeviceTable (pid : string) : gmap string deviceInfo :=
  match inNetns n (Join ["/proc"; pid; "ns/net"]) with
  | Some v => deviceTable v (Join ["/proc"; pid; "root/sys"])
  | None => ∅
  end.

(** The device of an open uverbs file: as the process sees it, else as the host does. *)
Definition heldDevice (pid uverbs : string) : string :=
  let device := uverbsDevice (own n) (Join ["/proc"; pid; "root/sys"]) uverbs in
  if decide (device = "") then uverbsDevice (own n) hostSysfsPath uverbs else device.

Definition addProcess (result : gmap string podHolder) (pid : string) : gmap string podHolder :=
  if negb (isNumeric pid) then result
  else
    match ParseUint pid 10 32 with
    | None => result
    | Some tgid =>
      let uid := cgroupPodUID (cgroup n tgid) in
      let uverbsList := openUverbs (own n) pid in
      if decide (uid = "" ∨ uverbsList = []) then result
      else
        let holder := default (MkHolder pid ∅) (result !! uid) in
        <[uid := MkHolder (holder_pid holder)
                  (list_to_set (filter (fun d => d ≠ "") (heldDevice pid <$> uverbsList)) ∪ holder_devices holder)]> result
    end.

Definition podDeviceHolders : gmap string podHolder :=
  match ReadDir (own n) "/proc" with
  | None => ∅
  | Some entries => foldl addProcess ∅ entries
  end.

(** ** Building the objects *)
Record qpRecord := MkQpRecord {
  qr_qpn : Z;
  qr_pid : Z;
  qr_port : Z
}.

(** The loop of [podQPs] over the entries the iterator yields. *)
Definition addQP (st : gmap string (gmap string (list qpRecord)) * resolver) (entry : qpKey * qpInfo)
    : gmap string (gmap string (list qpRecord)) * resolver :=
  let '(result, res) := st in
  let '(key, info) := entry in
  let device := info_device info in
  if decide (device = "") then st
  else
    let '(uid, res) := podUIDForTgid (cgroup n) (Tgid key) res in
    if decide (uid = "") then (result, res)
    else
      let byDevice := default ∅ (result !! uid) in
      let records := default [] (byDevice !! device) ++ [MkQpRecord (QPN key) (Tgid key) (PortNum info)] in
      (<[uid := <[device := records]> byDevice]> result, res).

(** [None] is a nil map. *)
Definition podQPs (res : resolver) (infos : option (list (qpKey * qpInfo)))
    : gmap string (gmap string (list qpRecord)) * resolver :=
  match infos with
  | None => (∅, res)
  | Some entries => foldl addQP (∅, res) entries
  end.

Definition firstPortNum (ports : list portInfo) : Z := default 0 (num <$> head ports).

Definition addByPort (byPort : gmap Z (list RDMAQueuePair)) (qp : qpRecord) : gmap Z (list RDMAQueuePair) :=
  <[qr_port qp := default [] (byPort !! qr_port qp) ++ [MkQueuePair (qr_qpn qp) (qr_pid qp)]]> byPort.

(** The port numbers of a device are distinct, so that sorting one list in place does not
    touch another. *)
Definition buildInterface (device : string) (info : deviceInfo) (qps : list qpRecord) : RDMAInterface :=
  let byPort := foldl addByPort ∅ qps in
  let pairs k := default [] (byPort !! k) in
  let built := (fun port =>
    let queuePairs := pairs (num port) ++ (if decide (num port = firstPortNum (ports info)) then pairs 0 else []) in
    MkPort (num port) (linkLayer port) (lid port) (subnetPrefix port) (gids port) (slice_sort Qpn queuePairs)) <$> ports info in
  let fallback :=
    if decide (ports info = [] ∧ qps ≠ []) then
      [MkPort 1 LinkLayerEthernet 0 "" [] (slice_sort Qpn (range byPort ≫= snd))]
    else [] in
  MkInterface (netdev info) device (built ++ fallback).

(** A holder for every Pod with queue pairs, with their devices. *)
Definition addHolder (holders : gmap string podHolder) (entry : string * gmap string (list qpRecord)) : gmap string podHolder :=
  let '(uid, byDevice) := entry in
  let holder := default (MkHolder "" ∅) (holders !! uid) in
  <[uid := MkHolder (holder_pid holder) (dom byDevice ∪ holder_devices holder)]> holders.

Definition sortedKeys (set : gset string) : list string := sort_strings (elements set).

(** The object of one Pod, [None] when the Pod is left out. *)
Definition endpointOf (now : Z) (nodeName : string) (res : resolver) (hostDevices : gmap string deviceInfo)
    (qps : gmap string (gmap string (list qpRecord))) (allPods : bool) (entry : string * podHolder) : option RDMAEndpoint :=
  let '(uid, holder) := entry in
  let p := byUID res !! uid in
  if match p with Some p => negb allPods && negb (hostNetwork p) | None => false end then None
  else
    let podDevices :=
      if bool_decide (holder_pid holder ≠ "") && from_option (fun p => negb (hostNetwork p)) true p then podDeviceTable (holder_pid holder)
      else ∅ in
    let interface device :=
      let info := match podDevices !! device with Some info => info | None => default zeroDeviceInfo (hostDevices !! device) end in
      buildInterface device info (default [] (default ∅ (qps !! uid) !! device)) in
    let ref := MkOwnerReference "v1" "Pod" (from_option Peer_Name "" p) uid (Some true) (Some true) in
    Some (MkEndpoint (from_option Peer_Namespace "" p) (from_option Peer_Name "" p)
      {[ "app.kubernetes.io/managed-by" := "unifabric-agent"; RDMAEndpointLabelNode := nodeName ]} [ref]
      (MkEndpointStatus nodeName (from_option hostNetwork false p) now (interface <$> sortedKeys (holder_devices holder)))).

Definition podUIDOf (object : RDMAEndpoint) : string :=
  from_option Ref_UID "" (head (filter (fun ref => Ref_Kind ref = "Pod") (EP_OwnerReferences object))).

Definition uid_le (a b : RDMAEndpoint) : Prop := String.le (podUIDOf a) (podUIDOf b).
#[global] Instance uid_le_dec a b : Decision (uid_le a b).
Proof. unfold uid_le. apply _. Defined.

Definition collectEndpoints (now : Z) (sysfs nodeName : string) (res : resolver)
    (qps : gmap string (gmap string (list qpRecord))) (allPods : bool) : list RDMAEndpoint :=
  let hostDevices := hostView (fun v => deviceTable v sysfs) in
  let holders := foldl addHolder podDeviceHolders (range qps) in
  merge_sort uid_le (omap (endpointOf now nodeName res hostDevices qps allPods) (range holders)).

(** ** The subnets of the local ports *)
Definition portEntries (entry : string * deviceInfo) : list (string * string) :=
  let '(device, info) := entry in
  (fun port => (device +:+ "/" +:+ Itoa (num port), subnetPrefix port)) <$> filter (fun port => subnetPrefix port ≠ "") (ports info).

Definition localPortTable (sysfs : string) : gmap string string :=
  hostView (fun v => foldl (fun m '(k, prefix) => <[k := prefix]> m) ∅ (range (deviceTable v sysfs) ≫= portEntries)).
End holders.

(** [endpointStale]: 15 minutes. *)
Definition endpointStale : Z := 15 * 60 * 10 ^ 9.

Definition hasQPN (p : reportedPod) (destQPN : Z) : bool := bool_decide (destQPN ≠ 0) && bool_decide (is_Some (qpns p !! destQPN)).

Definition deviceFor (p : reportedPod) (destQPN : Z) : string :=
  if hasQPN p destQPN then default "" (qpns p !! destQPN)
  else match devices p with [device] => device | _ => "" end.

Record endpointIndex := MkIndex {
  pods : gmap string (list reportedPod);
  nodes : gmap string (list string);
  stale : nat
}.

Definition portAddresses (port : RDMAPort) : list string :=
  let addresses := foldl (keepNew parseSysfsGID) [] (Gid <$> Gids port) in
  let key := lidKey (SubnetPrefix port) (Lid port) in
  if decide (key = "") then addresses else addresses ++ [key].

(** The body of the loop over the addresses of a port: [nodeSeen] holds the nodes listed
    for an address. *)
Definition addAddress (uid nodeName device : string) (port : RDMAPort)
    (st : gmap string (list string) * gmap string reportedPod) (address : string)
    : gmap string (list string) * gmap string reportedPod :=
  let '(nodes, byAddress) := st in
  let entry := default (MkReported uid nodeName [] ∅) (byAddress !! address) in
  let entry := MkReported uid nodeName (devices entry ++ [device])
                 (foldl (fun m qp => <[Qpn qp := device]> m) (qpns entry) (QueuePairs port)) in
  let listed := default [] (nodes !! address) in
  (if decide (nodeName ∈ listed) then nodes else <[address := listed ++ [nodeName]]> nodes,
   <[address := entry]> byAddress).

Definition addInterface (uid nodeName : string) (st : gmap string (list string) * gmap string reportedPod) (iface : RDMAInterface)
    : gmap string (list string) * gmap string reportedPod :=
  foldl (fun st port => foldl (addAddress uid nodeName (RdmaDevice iface) port) st (portAddresses port)) st (Ports iface).

Section index.
Context `{RangeOrder}.

Definition appendPod (pods : gmap string (list reportedPod)) (entry : string * reportedPod) : gmap string (list reportedPod) :=
  <[entry.1 := default [] (pods !! entry.1) ++ [entry.2]]> pods.

Definition addObject (now : Z) (index : endpointIndex) (object : RDMAEndpoint) : endpointIndex :=
  if decide (endpointStale < now - LastUpdateTime (EP_Status object)) then MkIndex (pods index) (nodes index) (S (stale index))
  else
    let uid := podUIDOf object in
    if decide (uid = "") then index
    else
      let '(nodes', byAddress) := foldl (addInterface uid (NodeName (EP_Status object))) (nodes index, ∅) (Interfaces (EP_Status object)) in
      MkIndex (foldl appendPod (pods index) (range byAddress)) nodes' (stale index).

Definition buildEndpointIndex (objects : list RDMAEndpoint) (now : Z) : endpointIndex := foldl (addObject now) (MkIndex ∅ ∅ 0) objects.

Context `{SliceSort} (n : node).

Definition with_index (ix : endpointIndex) (ports : gmap string string) (r : resolver) : resolver :=
  MkResolver (hasClient r) (hasPodReader r) (owners r) (byUID r) (byIP r) (byMAC r) (uidByTgid r) (pods ix) (nodes ix) ports.

(** [None] is an error of the list. *)
Definition refreshEndpoints (now : Z) (objects : option (list RDMAEndpoint)) (r : resolver) : resolver :=
  if negb (hasClient r) then r
  else match objects with
  | None => r
  | Some objects => with_index (buildEndpointIndex objects now) (localPortTable n hostSysfsPath) r
  end.

Definition refresh (Get : string → string → string → string → option (list OwnerReference)) (now : Z) (pods : option (list Pod))
    (objects : option (list RDMAEndpoint)) (r : resolver) : resolver :=
  match refreshPods Get pods r with
  | (r, true) => refreshEndpoints now objects r
  | (r, false) => r
  end.
End index.

(** ** Lookups *)
Definition lidKeyFor (r : resolver) (device : string) (port dlid : Z) : string :=
  if decide (device = "" ∨ port = 0 ∨ dlid = 0) then ""
  else
    match localPorts r !! (device +:+ "/" +:+ Itoa port) with
    | None => ""
    | Some prefix => lidKey prefix dlid
    end.

(** [None] when the address is not reported at all. *)
Definition podForReportedAddress (r : resolver) (address : string) (destQPN : Z) : option (peer * string) :=
  let pods := default [] (gidPods r !! address) in
  let nodes := default [] (gidNodes r !! address) in
  let matched := filter (fun pod => hasQPN pod destQPN = true) pods in
  let chosen :=
    match matched with
    | [pod] => Some pod
    | _ => match pods with [pod] => Some pod | _ => None end
    end in
  match chosen with
  | Some pod =>
    let device := deviceFor pod destQPN in
    Some (match byUID r !! rp_uid pod with Some p => p | None => labelled ("pod-uid:" +:+ rp_uid pod) end, device)
  | None =>
    if decide (pods = [] ∧ nodes = []) then None
    else Some (labelled ("node:" +:+ join "," nodes), "")
  end.

Definition podForLID (r : resolver) (device : string) (port dlid destQPN : Z) : peer * string :=
  let key := lidKeyFor r device port dlid in
  if decide (key = "") then (labelled ("lid:" +:+ Itoa dlid), "")
  else
    match podForReportedAddress r key destQPN with
    | Some answer => answer
    | None => (labelled ("lid:" +:+ Itoa dlid), "")
    end.

Definition podForPeer (r : resolver) (ip : string) (destQPN : Z) : peer * string :=
  match byIP r !! ip with
  | Some p => (p, "")
  | None =>
    let mac := eui64MAC ip in
    match (if decide (mac = "") then None else byMAC r !! mac) with
    | Some p => (p, "")
    | None =>
      match podForReportedAddress r ip destQPN with
      | Some answer => answer
      | None => (labelled ip, "")
      end
    end
  end.
