(* ===== verification/EbpfPublisher.v ===== *)
(** * Publishing RDMA endpoints

    src/pkg/agent/ebpfflow/endpoint.go, the writer side: an agent applies the objects of its
    node, rewrites those that changed or are due, and deletes those whose Pod is gone.  Calls
    to the API server are listed with their outcome, taken from a list of outcomes. *)
From Stdlib Require Import ZArith.
From stdpp Require Import base gmap list numbers strings sorting.
From S2P Require Import Prelude GoStrings GoNumbers GoText GoNet GoPath EbpfResolve EbpfEndpoint.
Local Open Scope Z_scope.

(** [endpointResend]: 5 minutes. *)
Definition endpointResend : Z := 5 * 60 * 10 ^ 9.

(** [sentAt] is [None] for the zero time. *)
Record publishedObject := MkPublished {
  pub_namespace : string;
  pub_name : string;
  fingerprint : string;
  sentAt : option Z
}.

(** [lastRun] is [None] for the zero time. *)
Record endpointPublisher := MkPublisher {
  pub_node : string;
  pub_sysfs : string;
  minInterval : Z;
  allPods : bool;
  published : gmap string publishedObject;
  lastRun : option Z;
  synced : bool
}.

(** [nil] when there is no client or no node name. *)
Definition newEndpointPublisher (res : resolver) (nodeName : string) (minInterval : Z) (allPods : bool) : option endpointPublisher :=
  if negb (hasClient res) then None
  else if decide (nodeName = "") then None
  else Some (MkPublisher nodeName hostSysfsPath minInterval allPods ∅ None false).

Definition delayUntilAllowed (now : Z) (n : option endpointPublisher) : Z :=
  match n with
  | None => 0
  | Some n =>
    match lastRun n with
    | None => 0
    | Some last =>
      let remaining := minInterval n - (now - last) in
      if decide (remaining ≤ 0) then 0 else remaining
    end
  end.

(** ** Calls *)
Inductive call :=
| ApplyMetadata (object : RDMAEndpoint)
| ApplyStatus (object : RDMAEndpoint)
| Delete (namespace name : string).

(** What a call answers: deleting a missing object is an error of its own. *)
Inductive answer := Ok | IsNotFound | Failed.

#[export] Instance answer_eq_dec : EqDecision answer.
Proof. solve_decision. Defined.

(** The calls made so far with their answers, and the answers still to come. *)
Record api := MkApi {
  made : list (call * answer);
  answers : list answer
}.

Definition make (c : call) (a : api) : answer * api :=
  let x := default Ok (head (answers a)) in
  (x, MkApi (made a ++ [(c, x)]) (tail (answers a))).

(** [apply]: true when both requests succeed. *)
Definition apply (object : RDMAEndpoint) (a : api) : bool * api :=
  let '(x, a) := make (ApplyMetadata object) a in
  if decide (x ≠ Ok) then (false, a)
  else
    let '(x, a) := make (ApplyStatus object) a in
    (bool_decide (x = Ok), a).

(** [delete]. *)
Definition delete_object (namespace name : string) (a : api) : bool * api :=
  let '(x, a) := make (Delete namespace name) a in
  (bool_decide (x ≠ Failed), a).

Section publisher.
Context `{RangeOrder}.
(** [json.Marshal]. *)
Context (Marshal : RDMAEndpoint → string).

Definition endpointFingerprint (object : RDMAEndpoint) : string :=
  let s := EP_Status object in
  Marshal (MkEndpoint (EP_Namespace object) (EP_Name object) (EP_Labels object) (EP_OwnerReferences object)
    (MkEndpointStatus (NodeName s) (HostNetwork s) 0 (Interfaces s))).

Definition with_published v (n : endpointPublisher) : endpointPublisher :=
  MkPublisher (pub_node n) (pub_sysfs n) (minInterval n) (allPods n) v (lastRun n) (synced n).
Definition with_lastRun v (n : endpointPublisher) : endpointPublisher :=
  MkPublisher (pub_node n) (pub_sysfs n) (minInterval n) (allPods n) (published n) v (synced n).

(** [items] are the objects of the node, [None] when they cannot be listed. *)
Definition adoptExisting (items : option (list RDMAEndpoint)) (n : endpointPublisher) : endpointPublisher :=
  match items with
  | None => n
  | Some items =>
    MkPublisher (pub_node n) (pub_sysfs n) (minInterval n) (allPods n)
      (foldl (fun m item =>
         let uid := podUIDOf item in
         if decide (uid = "" ∨ is_Some (m !! uid)) then m
         else <[uid := MkPublished (EP_Namespace item) (EP_Name item) "" None]> m) (published n) items)
      (lastRun n) true
  end.

(** Less than [endpointResend] since the last write; the zero time is long ago. *)
Definition recent (now : Z) (previous : publishedObject) : bool :=
  match sentAt previous with
  | None => false
  | Some t => bool_decide (now - t < endpointResend)
  end.

(** The loop over the collected objects. *)
Definition publishObject (now : Z) (st : gmap string publishedObject * api) (object : RDMAEndpoint)
    : gmap string publishedObject * api :=
  let '(published, a) := st in
  let uid := podUIDOf object in
  if decide (EP_Namespace object = "" ∨ EP_Name object = "") then st
  else
    let print := endpointFingerprint object in
    let unchanged := match published !! uid with Some previous => bool_decide (fingerprint previous = print) | None => false end in
    if unchanged && from_option (recent now) false (published !! uid) then st
    else
      let '(ok, a) := apply object a in
      if (ok : bool) then (<[uid := MkPublished (EP_Namespace object) (EP_Name object) print (Some now)]> published, a)
      else (published, a).

(** The loop over the published objects. *)
Definition dropObject (live : list string) (st : gmap string publishedObject * api) (entry : string * publishedObject)
    : gmap string publishedObject * api :=
  let '(published, a) := st in
  let '(uid, previous) := entry in
  if decide (uid ∈ live) then st
  else
    let '(ok, a) := delete_object (pub_namespace previous) (pub_name previous) a in
    if (ok : bool) then (delete uid published, a) else (published, a).

(** [run] after the objects have been collected. *)
Definition publish (now : Z) (objects : list RDMAEndpoint) (n : endpointPublisher) (a : api) : endpointPublisher * api :=
  let '(pub, a) := foldl (publishObject now) (published n, a) objects in
  let '(pub, a) := foldl (dropObject (podUIDOf <$> objects)) (pub, a) (range pub) in
  (with_published pub n, a).

Context `{SliceSort} (host : node).

Definition run (now : Z) (items : option (list RDMAEndpoint)) (infos : option (list (qpKey * qpInfo)))
    (n : option endpointPublisher) (res : resolver) (a : api) : option endpointPublisher * resolver * api :=
  match n with
  | None => (None, res, a)
  | Some n =>
    let n := with_lastRun (Some now) n in
    let n := if synced n then n else adoptExisting items n in
    let '(qps, res) := podQPs host res infos in
    let objects := collectEndpoints host now (pub_sysfs n) (pub_node n) res qps (allPods n) in
    let '(n, a) := publish now objects n a in
    (Some n, res, a)
  end.
End publisher.
