(* ===== verification/EbpfReport.v ===== *)
(** * Reporting flows

    src/pkg/agent/ebpfflow/component.go ([report], [cleanupDeadQPs]) and metrics.go: every round
    joins the byte totals of the queue pairs with their destinations, adds what is new to the
    counters of the flows, publishes the attribution of each queue pair and removes the entries
    of processes that are gone.  Counters are sums of what is added to them; Prometheus keeps
    them as floating-point numbers, which are exact up to 2^53. *)
From Stdlib Require Import ZArith.
From stdpp Require Import base gmap list numbers strings sorting.
From S2P Require Import Prelude GoStrings GoNumbers GoText GoNet GoPath EbpfResolve EbpfEndpoint.
Local Open Scope Z_scope.

(** ** Flow metrics *)
Record flowEnds := MkEnds {
  srcDevice : string;
  dstDevice : string
}.

Definition peerLabels (p : peer) : list string :=
  [Peer_Namespace p; Peer_Name p; Owner_Kind (Peer_Owner p); Owner_Namespace (Peer_Owner p); Owner_Name (Peer_Owner p)].

Definition flowLabelNames : list string :=
  ["src_pod_namespace"; "src_pod_name"; "src_pod_top_owner_kind"; "src_pod_top_owner_namespace"; "src_pod_top_owner_name";
   "dst_pod_namespace"; "dst_pod_name"; "dst_pod_top_owner_kind"; "dst_pod_top_owner_namespace"; "dst_pod_top_owner_name";
   "src_device"; "dst_device"].

Definition flowLabels (src dst : peer) (ends : flowEnds) : list string :=
  peerLabels src ++ peerLabels dst ++ [srcDevice ends; dstDevice ends].

Record reportSummary := MkSummary {
  sum_infos : Z;
  sum_stats : Z;
  sum_matched : Z;
  sum_unmatched : Z;
  sum_unresolved : Z;
  sum_flows : Z
}.

(** A vector of counters or gauges by label values. *)
Abbreviation vec := (gmap (list string) Z).

Record flowMetrics := MkMetrics {
  m_bytes : vec;
  m_wrs : vec;
  m_qps : vec;
  m_sends : vec;
  m_sendSizes : gmap (list string) (list Z);
  m_summary : reportSummary;
  m_last : gmap qpKey qpStat
}.

Definition newFlowMetrics : flowMetrics := MkMetrics ∅ ∅ ∅ ∅ ∅ (MkSummary 0 0 0 0 0 0) ∅.

(** [WithLabelValues(labels...).Add(x)] *)
Definition vec_add (labels : list string) (x : Z) (v : vec) : vec := <[labels := default 0 (v !! labels) + x]> v.

Definition observeSend (src dst : peer) (ends : flowEnds) (bytes : Z) (m : flowMetrics) : flowMetrics :=
  let labels := flowLabels src dst ends in
  MkMetrics (m_bytes m) (m_wrs m) (m_qps m) (vec_add labels 1 (m_sends m))
    (<[labels := default [] (m_sendSizes m !! labels) ++ [bytes]]> (m_sendSizes m)) (m_summary m) (m_last m).

Definition beginReport (m : flowMetrics) : flowMetrics :=
  MkMetrics (m_bytes m) (m_wrs m) ∅ (m_sends m) (m_sendSizes m) (m_summary m) (m_last m).

(** What a queue pair adds since its baseline. *)
Definition delta (prev st : qpStat) : Z * Z :=
  if decide (Bytes prev ≤ Bytes st ∧ WRs prev ≤ WRs st) then (Bytes st - Bytes prev, WRs st - WRs prev) else (Bytes st, WRs st).

Definition observe (key : qpKey) (st : qpStat) (src dst : peer) (ends : flowEnds) (m : flowMetrics) : flowMetrics * bool :=
  if negb (isPod src) || negb (isPod dst) then (m, false)
  else
    let labels := flowLabels src dst ends in
    let '(deltaBytes, deltaWRs) := delta (default zeroQpStat (m_last m !! key)) st in
    (MkMetrics (if decide (0 < deltaBytes) then vec_add labels deltaBytes (m_bytes m) else m_bytes m)
       (if decide (0 < deltaWRs) then vec_add labels deltaWRs (m_wrs m) else m_wrs m)
       (vec_add labels 1 (m_qps m)) (m_sends m) (m_sendSizes m) (m_summary m) (<[key := st]> (m_last m)), true).

Definition endReport (seen : gset qpKey) (s : reportSummary) (m : flowMetrics) : flowMetrics :=
  MkMetrics (m_bytes m) (m_wrs m) (m_qps m) (m_sends m) (m_sendSizes m) s (filter (fun e => e.1 ∈ seen) (m_last m)).

(** ** BPF maps

    What an iterator over a map yields, and whether it ended with an error. *)
Record iteration (V : Type) := MkIteration {
  entries : list (qpKey * V);
  aborted : bool
}.
Arguments MkIteration {V}.
Arguments entries {V}.
Arguments aborted {V}.

Section cleanup.
(** Whether /proc/<tgid> exists. *)
Context (tgidAlive : Z → bool).

Definition liveQPNs (stats : list (qpKey * qpStat)) : list Z :=
  QPN ∘ fst <$> filter (fun e => tgidAlive (Tgid e.1) = true) stats.

Definition deadStats (stats : list (qpKey * qpStat)) : list qpKey := fst <$> filter (fun e => tgidAlive (Tgid e.1) = false) stats.

Definition deadInfos (stats : list (qpKey * qpStat)) (infos : list (qpKey * qpInfo)) : list qpKey :=
  fst <$> filter (fun e => tgidAlive (Tgid e.1) = false ∧ QPN e.1 ∉ liveQPNs stats) infos.

(** The keys deleted from the two maps, and whether an info was removed. *)
Definition cleanupDeadQPs (stats : iteration qpStat) (infos : iteration qpInfo) : list qpKey * list qpKey * bool :=
  if aborted stats then ([], [], false)
  else
    let infoKeys := deadInfos (entries stats) (entries infos) in
    (deadStats (entries stats), infoKeys, bool_decide (infoKeys ≠ [])).
End cleanup.

(** ** A round *)
Record qpAttribution := MkQpAttribution {
  at_src : peer;
  at_dst : peer;
  at_ends : flowEnds
}.

Definition zeroAttribution : qpAttribution := MkQpAttribution zeroPeer zeroPeer (MkEnds "" "").

(** The destination of a queue pair and its device. *)
Definition destination (res : resolver) (info : qpInfo) : peer * string :=
  if lidAddressed info then podForLID res (info_device info) (PortNum info) (DLID info) (DestQPN info)
  else
    let dgid := gidToIP (DGID info) in
    if decide (dgid ≠ "") then podForPeer res dgid (DestQPN info) else (zeroPeer, "").

Record reportState := MkReport {
  rs_res : resolver;
  rs_metrics : flowMetrics;
  rs_attribution : gmap qpKey qpAttribution;
  rs_seen : gset qpKey;
  rs_flows : gset (string * string);
  rs_summary : reportSummary
}.

Section report.
Context `{RangeOrder} (cgroup : Z → option string).

(** The loop over the statistics. *)
Definition reportStat (ix : qpInfoIndex) (rs : reportState) (entry : qpKey * qpStat) : reportState :=
  let '(key, st) := entry in
  let info := index_lookup ix key in
  let '(dst, dstDev) := from_option (destination (rs_res rs)) (zeroPeer, "") info in
  let ends := MkEnds (from_option info_device "" info) dstDev in
  let '(src, res) := podForTgid cgroup (Tgid key) (from_option (fun i => comm (Comm i)) "" info) (rs_res rs) in
  let '(metrics, recorded) := observe key st src dst ends (rs_metrics rs) in
  let s := rs_summary rs in
  let found := match info with Some _ => 1 | None => 0 end in
  MkReport res metrics (<[key := MkQpAttribution src dst ends]> (rs_attribution rs)) ({[ key ]} ∪ rs_seen rs)
    ({[ (peer_String src, peer_String dst) ]} ∪ rs_flows rs)
    (MkSummary (sum_infos s) (sum_stats s + 1) (sum_matched s + found) (sum_unmatched s + (1 - found))
       (sum_unresolved s + if recorded then 0 else 1) (sum_flows s)).

(** The loop over the infos of queue pairs that have not posted yet. *)
Definition attributeInfo (st : resolver * gmap qpKey qpAttribution) (entry : qpKey * qpInfo) : resolver * gmap qpKey qpAttribution :=
  let '(res, attribution) := st in
  let '(key, info) := entry in
  match attribution !! key with
  | Some _ => st
  | None =>
    let '(dst, dstDev) := destination res info in
    let '(src, res) := podForTgid cgroup (Tgid key) (comm (Comm info)) res in
    (res, <[key := MkQpAttribution src dst (MkEnds (info_device info) dstDev)]> attribution)
  end.

Definition infoIndex (infos : list (qpKey * qpInfo)) : qpInfoIndex := foldl (fun ix e => index_add ix e.1 e.2) newQPInfoIndex infos.

(** [report] up to the cleanup: the resolver, the metrics and the attribution that is
    published. *)
Definition reportRound (stats : iteration qpStat) (infos : iteration qpInfo) (res : resolver) (metrics : flowMetrics)
    : resolver * flowMetrics * gmap qpKey qpAttribution :=
  let ix := infoIndex (entries infos) in
  let rs := foldl (reportStat ix)
    (MkReport res (beginReport metrics) ∅ ∅ ∅ (MkSummary (Z.of_nat (length (entries infos))) 0 0 0 0 0)) (entries stats) in
  let '(res, attribution) := foldl attributeInfo (rs_res rs, rs_attribution rs) (range (exact ix)) in
  let s := rs_summary rs in
  let summary := MkSummary (sum_infos s) (sum_stats s) (sum_matched s) (sum_unmatched s) (sum_unresolved s) (Z.of_nat (size (rs_flows rs))) in
  (res, endReport (rs_seen rs) summary (rs_metrics rs), attribution).

(** The maps are iterated again for the cleanup. *)
Definition report (tgidAlive : Z → bool) (stats : iteration qpStat) (infos : iteration qpInfo)
    (stats' : iteration qpStat) (infos' : iteration qpInfo) (res : resolver) (metrics : flowMetrics)
    : resolver * flowMetrics * gmap qpKey qpAttribution * (list qpKey * list qpKey * bool) :=
  (reportRound stats infos res metrics, cleanupDeadQPs tgidAlive stats' infos').
End report.
