(* ===== verification/EbpfSends.v ===== *)
(** * The send pipeline

    src/pkg/agent/ebpfflow/sends.go and the rows of otel.go: a consumer reads send events from a
    ring buffer, counts each in the metrics, and turns one in every [sample] into a row, merged
    with equal ones of an aggregation window; every sink has a bounded queue and a goroutine that
    writes batches.  The goroutines are a step function; times are nanoseconds since 1970. *)
From Stdlib Require Import ZArith.
From stdpp Require Import base gmap list numbers strings.
From S2P Require Import Prelude GoStrings GoNumbers GoBytes GoText GoNet GoPath EbpfResolve EbpfEndpoint EbpfReport.
Local Open Scope Z_scope.

(** ** Events *)
Record sendEvent := MkSendEvent {
  TsNs : Z;
  SE_Tgid : Z;
  SE_QPN : Z;
  SE_Bytes : Z;
  SE_WRs : Z;
  SE_Kind : Z
}.

Definition sendEventSize : Z := 32.

(** [None] is the error of short data. *)
Definition decodeSendEvent (data : list Z) : outcome (option sendEvent) :=
  if decide (len data < sendEventSize) then Ret None
  else
    ts ← uint64_le data 0;
    tgid ← uint32_le data 8;
    qpn ← uint32_le data 12;
    bytes ← uint64_le data 16;
    wrs ← uint32_le data 24;
    kind ← uint32_le data 28;
    Ret (Some (MkSendEvent ts tgid qpn bytes wrs kind)).

(** ** Rows *)
Record sendRow := MkSendRow {
  row_ts : Z;
  row_node : string;
  row_tgid : Z;
  row_qpn : Z;
  row_bytes : Z;
  row_wrs : Z;
  row_count : Z;
  row_kind : Z;
  row_srcDevice : string;
  row_dstDevice : string;
  row_src : peer;
  row_dst : peer
}.

Record aggregateKey := MkAggregateKey {
  ak_tgid : Z;
  ak_qpn : Z;
  ak_kind : Z;
  ak_bytes : Z;
  ak_wrs : Z
}.

#[export] Instance aggregateKey_eq_dec : EqDecision aggregateKey.
Proof. solve_decision. Defined.
#[export] Instance aggregateKey_countable : Countable aggregateKey.
Proof.
  refine (inj_countable' (fun k => (ak_tgid k, ak_qpn k, ak_kind k, ak_bytes k, ak_wrs k))
    (fun '(t, q, k, b, w) => MkAggregateKey t q k b w) _). by intros [].
Defined.

Record sendOptions := MkSendOptions {
  opt_queue : Z;
  opt_batch : Z;
  flushIn : Z;
  sample : Z;
  opt_aggregate : Z
}.

(** ** Sinks *)
Definition sinkRetry : Z := 30 * 10 ^ 9.

(** A queue and its goroutine: [connected] is whether it holds an open sink, [lastAttempt] is
    [None] for the zero time, and [batches] are the inserts with their outcome. *)
Record sinkWorker := MkSink {
  sk_rows : list sendRow;
  sk_closed : bool;
  sk_dropped : Z;
  connected : bool;
  lastAttempt : option Z;
  sk_pending : list sendRow;
  batches : list (list sendRow * bool);
  sk_started : bool;
  sk_done : bool
}.

Definition newSinkWorker : sinkWorker := MkSink [] false 0 false None [] [] false false.

Definition add64 (a b : Z) : Z := (a + b) mod 2 ^ 64.
Definition nrows (l : list sendRow) : Z := Z.of_nat (length l).

Definition with_rows v (w : sinkWorker) : sinkWorker :=
  MkSink v (sk_closed w) (sk_dropped w) (connected w) (lastAttempt w) (sk_pending w) (batches w) (sk_started w) (sk_done w).
Definition with_closed v (w : sinkWorker) : sinkWorker :=
  MkSink (sk_rows w) v (sk_dropped w) (connected w) (lastAttempt w) (sk_pending w) (batches w) (sk_started w) (sk_done w).
Definition with_dropped v (w : sinkWorker) : sinkWorker :=
  MkSink (sk_rows w) (sk_closed w) v (connected w) (lastAttempt w) (sk_pending w) (batches w) (sk_started w) (sk_done w).
Definition with_pending v (w : sinkWorker) : sinkWorker :=
  MkSink (sk_rows w) (sk_closed w) (sk_dropped w) (connected w) (lastAttempt w) v (batches w) (sk_started w) (sk_done w).
Definition with_connection c t (w : sinkWorker) : sinkWorker :=
  MkSink (sk_rows w) (sk_closed w) (sk_dropped w) c t (sk_pending w) (batches w) (sk_started w) (sk_done w).
Definition with_batches v (w : sinkWorker) : sinkWorker :=
  MkSink (sk_rows w) (sk_closed w) (sk_dropped w) (connected w) (lastAttempt w) (sk_pending w) v (sk_started w) (sk_done w).
Definition with_phase s d (w : sinkWorker) : sinkWorker :=
  MkSink (sk_rows w) (sk_closed w) (sk_dropped w) (connected w) (lastAttempt w) (sk_pending w) (batches w) s d.

(** What a sink meets when its goroutine calls out: the time, and whether opening and
    inserting succeed. *)
Record encounter := MkEncounter {
  at_now : Z;
  opens : bool;
  inserts : bool
}.

Section sink.
Context (opts : sendOptions).

(** [enqueue] of a sink.  A send to a closed channel panics: [sendStep] closes the channels only
    after the consumer has returned, as [Run] does. *)
Definition sinkEnqueue (row : sendRow) (w : sinkWorker) : sinkWorker :=
  if decide (nrows (sk_rows w) < opt_queue opts) then with_rows (sk_rows w ++ [row]) w
  else with_dropped (add64 (sk_dropped w) 1) w.

Definition connect (e : encounter) (w : sinkWorker) : sinkWorker :=
  if connected w || from_option (fun t => bool_decide (at_now e - t < sinkRetry)) false (lastAttempt w) then w
  else with_connection (opens e) (Some (at_now e)) w.

Definition sinkFlush (e : encounter) (w : sinkWorker) : sinkWorker :=
  if decide (nrows (sk_pending w) = 0) then w
  else
    let w := if connected w then w else connect e w in
    if connected w then
      let w := with_batches (batches w ++ [(sk_pending w, inserts e)]) w in
      with_pending [] (if inserts e then w else with_connection false (lastAttempt w) w)
    else with_pending [] (with_dropped (add64 (sk_dropped w) (nrows (sk_pending w))) w).

Inductive sinkAction :=
| SinkStart (e : encounter)
| SinkReceive (e : encounter)
| SinkClosed (e : encounter)
| SinkTick (e : encounter).

(** One step of [run]. *)
Definition sinkStep (a : sinkAction) (w : sinkWorker) : option sinkWorker :=
  if sk_done w then None
  else match a, sk_started w with
  | SinkStart e, false => Some (with_phase true false (connect e w))
  | SinkReceive e, true =>
    match sk_rows w with
    | row :: rest =>
      let w := with_pending (sk_pending w ++ [row]) (with_rows rest w) in
      Some (if decide (opt_batch opts ≤ nrows (sk_pending w)) then sinkFlush e w else w)
    | [] => None
    end
  | SinkClosed e, true =>
    if decide (sk_rows w = [] ∧ sk_closed w = true) then Some (with_phase true true (sinkFlush e w)) else None
  | SinkTick e, true => Some (sinkFlush e w)
  | _, _ => None
  end.
End sink.

(** [run] of a sink creates a ticker, which panics when the interval is not positive. *)
Definition sinkRunStarts (opts : sendOptions) : go unit unit := if decide (flushIn opts ≤ 0) then Panic else Ret ().

(** ** The consumer *)

(** [windowEnd] is [None] for the zero time; [consuming] is whether [consume] has not
    returned. *)
Record sendPipeline := MkPipeline {
  p_node : string;
  p_metrics : flowMetrics;
  bootNs : Z;
  p_attribution : gmap qpKey qpAttribution;
  sinks : list sinkWorker;
  window : gmap aggregateKey sendRow;
  windowEnd : option Z;
  received : Z;
  sampled : Z;
  consuming : bool
}.

(** A channel of negative size panics. *)
Definition newSendPipeline (nodeName : string) (metrics : flowMetrics) (boot : Z) (factories : nat) (opts : sendOptions)
    : go unit (sendOptions * sendPipeline) :=
  if decide (factories ≠ O ∧ opt_queue opts < 0) then Panic
  else
    let opts := MkSendOptions (opt_queue opts) (opt_batch opts) (flushIn opts) (if decide (sample opts < 1) then 1 else sample opts) (opt_aggregate opts) in
    Ret (opts, MkPipeline nodeName metrics boot ∅ (replicate factories newSinkWorker) ∅ None 0 0 true).

Definition storing (p : sendPipeline) : bool := bool_decide (sinks p ≠ []).

Definition with_sinks v (p : sendPipeline) : sendPipeline :=
  MkPipeline (p_node p) (p_metrics p) (bootNs p) (p_attribution p) v (window p) (windowEnd p) (received p) (sampled p) (consuming p).
Definition with_window v e (p : sendPipeline) : sendPipeline :=
  MkPipeline (p_node p) (p_metrics p) (bootNs p) (p_attribution p) (sinks p) v e (received p) (sampled p) (consuming p).
Definition with_received v m (p : sendPipeline) : sendPipeline :=
  MkPipeline (p_node p) m (bootNs p) (p_attribution p) (sinks p) (window p) (windowEnd p) v (sampled p) (consuming p).
Definition with_sampled v (p : sendPipeline) : sendPipeline :=
  MkPipeline (p_node p) (p_metrics p) (bootNs p) (p_attribution p) (sinks p) (window p) (windowEnd p) (received p) v (consuming p).

Definition with_consuming v (p : sendPipeline) : sendPipeline :=
  MkPipeline (p_node p) (p_metrics p) (bootNs p) (p_attribution p) (sinks p) (window p) (windowEnd p) (received p) (sampled p) v.

(** [publish]. *)
Definition publish (byKey : gmap qpKey qpAttribution) (p : sendPipeline) : sendPipeline :=
  MkPipeline (p_node p) (p_metrics p) (bootNs p) byKey (sinks p) (window p) (windowEnd p) (received p) (sampled p) (consuming p).

Section pipeline.
Context `{RangeOrder} (opts : sendOptions).

(** [enqueue] of the pipeline. *)
Definition enqueue (row : sendRow) (p : sendPipeline) : sendPipeline := with_sinks (sinkEnqueue opts row <$> sinks p) p.

(** A step of a sink; one that is not possible does nothing. *)
Definition sinkAt (p : sendPipeline) (step : nat * sinkAction) : sendPipeline :=
  match w ← sinks p !! step.1; sinkStep opts step.2 w with
  | Some w => with_sinks (<[step.1 := w]> (sinks p)) p
  | None => p
  end.

(** The loop of [flushWindow].  The sinks go on while it runs: [meanwhile] lists the steps they make
    before each row. *)
Fixpoint offerRows (meanwhile : list (list (nat * sinkAction))) (rows : list sendRow) (p : sendPipeline) : sendPipeline :=
  match rows with
  | [] => p
  | row :: rows => offerRows (tail meanwhile) rows (enqueue row (foldl sinkAt p (default [] (head meanwhile))))
  end.

(** [flushWindow]: the rows it offers, and the pipeline. *)
Definition flushWindow (meanwhile : list (list (nat * sinkAction))) (p : sendPipeline) : list sendRow * sendPipeline :=
  let rows := snd <$> range (window p) in
  (rows, with_window ∅ (windowEnd p) (offerRows meanwhile rows p)).

(** [time.Time] counts from the year 1. *)
Definition unixEpoch : Z := 62135596800 * 10 ^ 9.

(** [ts.Truncate(d)] *)
Definition Truncate (ts d : Z) : Z := if decide (d ≤ 0) then ts else ts - (ts + unixEpoch) mod d.

Definition add32 (a b : Z) : Z := (a + b) mod 2 ^ 32.

Definition rowOf (p : sendPipeline) (ts count : Z) (event : sendEvent) (attr : qpAttribution) : sendRow :=
  MkSendRow ts (p_node p) (SE_Tgid event) (SE_QPN event) (SE_Bytes event) (SE_WRs event) count (SE_Kind event)
    (srcDevice (at_ends attr)) (dstDevice (at_ends attr)) (at_src attr) (at_dst attr).

Definition count_up (row : sendRow) : sendRow :=
  MkSendRow (row_ts row) (row_node row) (row_tgid row) (row_qpn row) (row_bytes row) (row_wrs row) (add32 (row_count row) 1) (row_kind row)
    (row_srcDevice row) (row_dstDevice row) (row_src row) (row_dst row).

Definition aggregate (meanwhile : list (list (nat * sinkAction))) (ts : Z) (event : sendEvent) (attr : qpAttribution) (p : sendPipeline)
    : list sendRow * sendPipeline :=
  let past := from_option (fun e => negb (bool_decide (ts < e))) true (windowEnd p) in
  let '(rows, p) := if past then flushWindow meanwhile p else ([], p) in
  let endTime := if past then Truncate ts (opt_aggregate opts) + opt_aggregate opts else default 0 (windowEnd p) in
  let key := MkAggregateKey (SE_Tgid event) (SE_QPN event) (SE_Kind event) (SE_Bytes event) (SE_WRs event) in
  let row := default (rowOf p (endTime - opt_aggregate opts) 0 event attr) (window p !! key) in
  (rows, with_window (<[key := count_up row]> (window p)) (Some endTime) p).

(** The body of [consume] for one record of the ring buffer. *)
Definition consumeRecord (meanwhile : list (list (nat * sinkAction))) (raw : list Z) (p : sendPipeline) : outcome (list sendRow * sendPipeline) :=
  decoded ← decodeSendEvent raw;
  match decoded with
  | None => Ret ([], p)
  | Some event =>
    let n := add64 (received p) 1 in
    let attr := default zeroAttribution (p_attribution p !! MkQpKey (SE_Tgid event) (SE_QPN event)) in
    let p := with_received n (observeSend (at_src attr) (at_dst attr) (at_ends attr) (SE_Bytes event) (p_metrics p)) p in
    if negb (storing p) then Ret ([], p)
    else if decide (n mod sample opts ≠ 0) then Ret ([], p)
    else
      let p := with_sampled (add64 (sampled p) 1) p in
      let ts := (bootNs p + TsNs event + 2 ^ 63) mod 2 ^ 64 - 2 ^ 63 in
      if decide (0 < opt_aggregate opts) then Ret (aggregate meanwhile ts event attr p)
      else let row := rowOf p ts 1 event attr in Ret ([row], enqueue row p)
  end.

(** [close]. *)
Definition close_sinks (p : sendPipeline) : sendPipeline := with_sinks (with_closed true <$> sinks p) p.

(** ** All goroutines *)
Inductive sendAction :=
| Read (raw : list Z) (meanwhile : list (list (nat * sinkAction)))
| Attribute (byKey : gmap qpKey qpAttribution)
| ReaderClosed (meanwhile : list (list (nat * sinkAction)))
| ReadFailed
| Close
| Sink (i : nat) (a : sinkAction).

(** A step and the rows it offers to the sinks.  All ways out of [Run] wait for [consume] before
    they close the channels. *)
Definition sendStep (a : sendAction) (p : sendPipeline) : option (list sendRow * sendPipeline) :=
  match a with
  | Read raw meanwhile => if consuming p then match consumeRecord meanwhile raw p with Ret r => Some r | _ => None end else None
  | Attribute byKey => Some ([], publish byKey p)
  | ReaderClosed meanwhile => if consuming p then let '(rows, p) := flushWindow meanwhile p in Some (rows, with_consuming false p) else None
  | ReadFailed => if consuming p then Some ([], with_consuming false p) else None
  | Close => if decide (consuming p = false ∧ Forall (fun w => sk_closed w = false) (sinks p)) then Some ([], close_sinks p) else None
  | Sink i a =>
    w ← sinks p !! i;
    w ← sinkStep opts a w;
    Some ([], with_sinks (<[i := w]> (sinks p)) p)
  end.

Fixpoint sendRun (acts : list sendAction) (p : sendPipeline) : option (list sendRow * sendPipeline) :=
  match acts with
  | [] => Some ([], p)
  | a :: acts => '(rows, p) ← sendStep a p; '(rows', p) ← sendRun acts p; Some (rows ++ rows', p)
  end.
End pipeline.

(** ** Clocks and gauges *)

(** The time of the start of the machine: [monotonic] is the answer of the clock, seconds and
    nanoseconds. *)
Definition bootTimeNs (now : Z) (monotonic : option (Z * Z)) : Z :=
  match monotonic with
  | None => now
  | Some (sec, nsec) => now - (sec * 10 ^ 9 + nsec)
  end.

(** The gauges a report writes: the counters of the pipeline, and for each sink what it dropped and
    what waits. *)
Record sendGauges := MkGauges {
  g_received : Z;
  g_sampled : Z;
  g_sinks : list (Z * Z)
}.

Definition syncGauges (p : sendPipeline) : sendGauges :=
  MkGauges (received p) (sampled p) ((fun w => (sk_dropped w, nrows (sk_rows w))) <$> sinks p).

(** The bounds of the histogram of sizes; powers of two, exact in [float64]. *)
Fixpoint bucketsFrom (fuel : nat) (size : Z) : list Z :=
  match fuel with
  | O => []
  | S fuel => if decide (size ≤ 2 ^ 30) then size :: bucketsFrom fuel (size * 2) else []
  end.

Definition sendBuckets : list Z := bucketsFrom 31 64.
