(* ===== verification/EbpfOffsets.v ===== *)
(** * Library files

    src/pkg/agent/ebpfflow/offsets.go, symbols.go and the file operations of pin.go: the cache of
    callback offsets and its file, the identity of a library, and the choice of a symbol.  The
    cache file is modelled by its decoded content, and [debug/elf] by what it reads from a
    file. *)
From Stdlib Require Import ZArith.
From stdpp Require Import base gmap list numbers strings.
From S2P Require Import Prelude GoStrings GoNumbers GoBytes GoText GoPath.
Local Open Scope Z_scope.

Definition callbackPostSend : Z := 1.
Definition callbackSetSGE : Z := 2.
Definition callbackSetSGEList : Z := 3.
Definition callbackSetInlineData : Z := 4.
Definition callbackSetInlineList : Z := 5.

(** ** The offset cache *)
Definition callbackKindKeys : gmap Z string :=
  {[ callbackPostSend := "post_send"; callbackSetSGE := "wr_set_sge"; callbackSetSGEList := "wr_set_sge_list";
     callbackSetInlineData := "wr_set_inline_data"; callbackSetInlineList := "wr_set_inline_data_list" ]}.

Record offsetCache := MkOffsetCache {
  oc_path : string;
  oc_entries : gmap string (gmap string Z)
}.

(** The [Libraries] of [offsetCacheFile]; [persistLocked] always writes version 1. *)
Definition offsetCacheFile : Type := gmap string (gmap string Z).

(** What reading the file gives: no file, another error, something that is not the JSON of a
    cache, or the content. *)
Inductive cacheRead :=
| FileMissing
| ReadFails
| Malformed
| FileContent (file : offsetCacheFile).

(** Whether the calls of [persistLocked] succeed. *)
Record persistence := MkPersistence {
  mkdirOk : bool;
  writeOk : bool;
  renameOk : bool
}.

Section cache.
Context `{RangeOrder}.

Definition callbackKindByName (name : string) : option Z :=
  fst <$> head (filter (fun e => e.2 = name) (range callbackKindKeys)).

(** The inner loop of [newOffsetCache]. *)
Definition loadOffset (library : string) (entries : gmap string (gmap string Z)) (e : string * Z) : gmap string (gmap string Z) :=
  match callbackKindByName e.1 with
  | None => entries
  | Some _ => <[library := <[e.1 := e.2]> (default ∅ (entries !! library))]> entries
  end.

(** The cache, and whether there is an error. *)
Definition newOffsetCache (path : string) (r : cacheRead) : offsetCache * bool :=
  match r with
  | FileMissing => (MkOffsetCache path ∅, false)
  | ReadFails | Malformed => (MkOffsetCache path ∅, true)
  | FileContent file =>
    (MkOffsetCache path (foldl (fun entries e => foldl (loadOffset e.1) entries (range e.2)) ∅ (range file)), false)
  end.

Definition libraryCount (c : offsetCache) : Z := Z.of_nat (size (oc_entries c)).

Definition offset_lookup (c : offsetCache) (library : string) : gmap Z Z :=
  foldl (fun result e => match callbackKindByName e.1 with Some kind => <[kind := e.2]> result | None => result end)
    ∅ (range (default ∅ (oc_entries c !! library))).
End cache.

(** Whether there is an error, and the files. *)
Definition persistLocked (o : persistence) (c : offsetCache) (files : gmap string offsetCacheFile) : bool * gmap string offsetCacheFile :=
  let temp := oc_path c +:+ ".tmp" in
  if negb (mkdirOk o) then (true, files)
  else if negb (writeOk o) then (true, base.delete temp files)
  else
    let files := <[temp := oc_entries c]> files in
    if negb (renameOk o) then (true, files) else (false, <[oc_path c := oc_entries c]> (base.delete temp files)).

(** Whether the entry changed and whether there is an error. *)
Definition store (o : persistence) (library : string) (kind offset : Z) (c : offsetCache) (files : gmap string offsetCacheFile)
    : bool * bool * offsetCache * gmap string offsetCacheFile :=
  match callbackKindKeys !! kind with
  | None => (false, true, c, files)
  | Some name =>
    if decide (oc_entries c !! library ≫= (fun m => m !! name) = Some offset) then (false, false, c, files)
    else
      let c := MkOffsetCache (oc_path c) (<[library := <[name := offset]> (default ∅ (oc_entries c !! library))]> (oc_entries c)) in
      let '(err, files) := persistLocked o c files in
      (true, err, c, files)
  end.

(** ** Library identities *)
Definition alignUp4 (value : Z) : Z := Z.ldiff ((value + 3) mod 2 ^ 64) 3.

Definition noteTypeGNUBuildID : Z := 3.

(** [hex.EncodeToString] *)
Definition EncodeToString (b : list Z) : string := join "" (hex_byte_text <$> b).

Definition gnu_name : list Z := [71; 78; 85; 0].

(** The loop takes at least twelve bytes each time. *)
Fixpoint parseNotes (fuel : nat) (data : list Z) : outcome string :=
  match fuel with
  | O => OutOfFuel
  | S fuel =>
    if decide (len data < 12) then Ret ""
    else
      nameSize ← uint32_le data 0;
      descSize ← uint32_le data 4;
      noteType ← uint32_le data 8;
      let nameEnd := 12 + alignUp4 nameSize in
      let descEnd := nameEnd + alignUp4 descSize in
      if decide (len data < descEnd ∨ len data < nameEnd) then Ret ""
      else
        name ← (if decide (noteType = noteTypeGNUBuildID ∧ 0 < descSize ∧ nameSize = 4) then slice data 12 16 else Ret []);
        if decide (name = gnu_name) then desc ← slice data nameEnd (nameEnd + descSize); Ret (EncodeToString desc)
        else rest ← slice data descEnd (len data); parseNotes fuel rest
  end.

Definition parseGNUBuildID (data : list Z) : outcome string := parseNotes (S (length data)) data.

(** What can be read from a library: its ELF notes ([None] is an error of [elf.Open] or of
    [Data], [Some None] a file without the section) and its hash. *)
Record libraryFile := MkLibrary {
  buildIDNote : option (option (list Z));
  fileSHA256 : option string
}.

Definition gnuBuildID (f : libraryFile) : outcome (option string) :=
  match buildIDNote f with
  | None => Ret None
  | Some None => Ret (Some "")
  | Some (Some data) => id ← parseGNUBuildID data; Ret (Some id)
  end.

Definition libraryContentID (f : libraryFile) : outcome (option string) :=
  buildID ← gnuBuildID f;
  if decide (default "" buildID ≠ "") then Ret (Some ("gnu:" +:+ default "" buildID))
  else Ret ((fun hash => "sha256:" +:+ hash) <$> fileSHA256 f).

(** ** Symbols *)
Record Symbol := MkSymbol {
  Sym_Name : string;
  Info : Z;
  Value : Z;
  HasVersion : bool;
  VersionHidden : bool;
  Version : string
}.

Record Prog := MkProg {
  Prog_Type : Z;
  Flags : Z;
  Off : Z;
  Vaddr : Z;
  Memsz : Z
}.

Record resolvedSymbol := MkResolved {
  offset : Z;
  version : string
}.

Definition STT_FUNC : Z := 2.
Definition PT_LOAD : Z := 1.
Definition PF_X : Z := 1.

Definition symbolHidden (s : Symbol) : bool := HasVersion s && VersionHidden s.
Definition symbolVersion (s : Symbol) : string :=
  if negb (HasVersion s) || bool_decide (Version s = "") then "unversioned" else Version s.

Definition pickStep (name : string) (chosen : option Symbol) (s : Symbol) : option Symbol :=
  if decide (Sym_Name s ≠ name ∨ Z.land (Info s) 15 ≠ STT_FUNC ∨ Value s = 0) then chosen
  else match chosen with
  | None => Some s
  | Some c => if symbolHidden c && negb (symbolHidden s) then Some s else Some c
  end.

Definition pickDefaultSymbol (symbols : list Symbol) (name : string) : option Symbol := foldl (pickStep name) None symbols.

(** The executable segment of an address. *)
Definition executable_at (value : Z) (prog : Prog) : Prop :=
  Prog_Type prog = PT_LOAD ∧ Z.land (Flags prog) PF_X ≠ 0 ∧ Vaddr prog ≤ value < (Vaddr prog + Memsz prog) mod 2 ^ 64.
#[export] Instance executable_at_dec value prog : Decision (executable_at value prog).
Proof. unfold executable_at. apply _. Defined.

(** The file is [None] when it cannot be opened or has no dynamic symbols. *)
Definition defaultSymbolOffset (file : option (list Symbol * list Prog)) (name : string) : option resolvedSymbol :=
  '(symbols, progs) ← file;
  chosen ← pickDefaultSymbol symbols name;
  prog ← head (filter (executable_at (Value chosen)) progs);
  Some (MkResolved ((Value chosen - Vaddr prog + Off prog) mod 2 ^ 64) (symbolVersion chosen)).

Example offsets_examples :
  parseGNUBuildID ([4; 0; 0; 0; 2; 0; 0; 0; 3; 0; 0; 0] ++ gnu_name ++ [171; 1; 0; 0]) = Ret "ab01" ∧ alignUp4 5 = 8 ∧ alignUp4 4 = 4 ∧
  @callbackKindByName canonical_order "wr_set_sge" = Some 2 ∧ @callbackKindByName canonical_order "x" = None.
Proof. vm_compute. done. Qed.
