(* ===== verification/EbpfAttach.v ===== *)
(** * Attaching the probes

    src/pkg/agent/ebpfflow/attach.go and the dispatch of callback events in component.go: the
    probes on libibverbs and on the provider callbacks, the events that wait for their process
    maps, and the scans.  [machine] is what the kernel answers while one operation runs; every
    operation is one transition of the [attacher] and of the files of the offset cache. *)
From Stdlib Require Import ZArith.
From stdpp Require Import base gmap list numbers strings.
From S2P Require Import Prelude GoStrings GoNumbers GoBytes GoText GoNet GoPath EbpfResolve EbpfEndpoint EbpfOffsets.
Local Open Scope Z_scope.

Definition discoveryProcessExec : Z := 0.
Definition eventQPRTR : Z := 6.

#[export] Instance callbackEvent_countable : Countable callbackEvent.
Proof.
  refine (inj_countable' (fun e => (CB_Tgid e, CB_Kind e, CB_Address e)) (fun '(t, k, a) => MkCallback t k a) _). by intros [].
Defined.

(** ** Process maps *)
Record procMapping := MkMapping {
  start : Z;
  end_ : Z;
  pm_offset : Z;
  perms : string;
  pm_dev : string;
  inode : string;
  pm_path : string
}.

Definition executable (m : procMapping) : bool := contains (perms m) "x".
Definition readable (m : procMapping) : bool := contains (perms m) "r".
Definition writable (m : procMapping) : bool := contains (perms m) "w".
Definition identity (m : procMapping) : string := pm_dev m +:+ ":" +:+ inode m.

Definition fileOffset (m : procMapping) (address : Z) : option Z :=
  if decide (address < start m ∨ end_ m ≤ address) then None else Some ((address - start m + pm_offset m) mod 2 ^ 64).

(** [strings.SplitN(s, "-", 2)] when it has two parts. *)
Definition cut_dash (s : string) : option (string * string) :=
  match split_on 45 (bytes s) with
  | [] | [_] => None
  | first :: rest => Some (of_bytes first, join "-" (of_bytes <$> rest))
  end.

Definition parseProcMapping (line : string) : option procMapping :=
  match Fields line with
  | range :: perms :: offset :: dev :: inode :: path =>
    '(first, last) ← cut_dash range;
    start ← ParseUint first 16 64;
    end_ ← ParseUint last 16 64;
    offset ← ParseUint offset 16 64;
    Some (MkMapping start end_ offset perms dev inode (join " " path))
  | _ => None
  end.

Definition deleted_mark : string := " (deleted)".

Definition isLibibverbs (path : string) : bool := contains (Base (trim_suffix path deleted_mark)) "libibverbs.so".

Definition providerPrefixes : list string :=
  ["libibverbs"; "libbnxt_re"; "libcxgb4"; "libefa"; "liberdma"; "libhfi1verbs"; "libhns"; "libipathverbs"; "libirdma"; "libionic";
   "libmana"; "libmlx4"; "libmlx5"; "libmthca"; "libocrdma"; "libqedr"; "librxe"; "libsiw"; "libvmw_pvrdma"].

Definition isRDMAProviderLibrary (path : string) : bool :=
  let cleanPath := ToLower (trim_suffix path deleted_mark) in
  contains cleanPath "/libibverbs/" || existsb (has_prefix (Base cleanPath)) providerPrefixes.

Definition callbackProgram (kind : Z) : option string :=
  if decide (kind = callbackPostSend) then Some "handle_post_send"
  else if decide (kind = callbackSetSGE) then Some "handle_wr_set_sge"
  else if decide (kind = callbackSetSGEList) then Some "handle_wr_set_sge_list"
  else if decide (kind = callbackSetInlineData) then Some "handle_wr_set_inline_data"
  else if decide (kind = callbackSetInlineList) then Some "handle_wr_set_inline_data_list"
  else None.

Definition callbackKindName (kind : Z) : string :=
  if decide (kind = callbackPostSend) then "post_send"
  else if decide (kind = callbackSetSGE) then "wr_set_sge"
  else if decide (kind = callbackSetSGEList) then "wr_set_sge_list"
  else if decide (kind = callbackSetInlineData) then "wr_set_inline_data"
  else if decide (kind = callbackSetInlineList) then "wr_set_inline_data_list"
  else "unknown_type_" +:+ Itoa kind.

(** ** The machine *)
Inductive statResult :=
| StatInfo (dev ino : Z)
| StatMissing
| StatError.

(** A probe on a function of a file, at its entry or its return. *)
Record uprobe := MkUprobe {
  up_file : string;
  up_program : string;
  up_address : Z;
  up_ret : bool
}.

Record machine := MkMachine {
  proc : option (list string);
  mapsOf : string → option string;
  Stat : string → statResult;
  Glob : string → list string;
  elfOf : string → option (list Symbol * list Prog);
  libraryOf : string → libraryFile;
  OpenExecutable : string → bool;
  Uprobe : uprobe → bool;
  tgidAlive : Z → bool;
  persists : persistence
}.

Section machine.
Context (m : machine).

Definition exists_at (path : string) : bool := match Stat m path with StatInfo _ _ => true | _ => false end.

Definition fileIdentity (path : string) : option string :=
  match Stat m path with StatInfo dev ino => Some (FormatHex dev +:+ ":" +:+ FormatHex ino) | _ => None end.

Definition readProcMappings (pid : string) : option (list procMapping) :=
  data ← mapsOf m (Join ["/proc"; pid; "maps"]);
  Some (omap parseProcMapping (of_bytes <$> split_on 10 (bytes data))).

Definition mappingTarget (pid : string) (mapping : procMapping) : option string :=
  let deleted := has_suffix (pm_path mapping) deleted_mark in
  let path := trim_suffix (pm_path mapping) deleted_mark in
  let target := Join ["/proc"; pid; "root"; path] in
  if negb deleted && IsAbs path && exists_at target then Some target
  else
    let mapFile := Join ["/proc"; pid; "map_files"; FormatHex (start mapping) +:+ "-" +:+ FormatHex (end_ mapping)] in
    if exists_at mapFile then Some mapFile else None.
End machine.

Example mapping_examples :
  parseProcMapping "7f00-7f10 r-xp 00001000 08:01 42   /usr/lib/libmlx5.so.1 (deleted)" =
    Some (MkMapping 32512 32528 4096 "r-xp" "08:01" "42" "/usr/lib/libmlx5.so.1 (deleted)") ∧
  parseProcMapping "7f00 r-xp 0 08:01 42" = None ∧ isLibibverbs "/usr/lib/libibverbs.so.1 (deleted)" = true ∧
  isRDMAProviderLibrary "/usr/lib/x86_64/libmlx5-rdmav34.so" = true ∧ isRDMAProviderLibrary "/usr/lib/libc.so.6" = false ∧
  fileOffset (MkMapping 32512 32528 4096 "r-xp" "" "" "") 32520 = Some 4104 ∧ cut_dash "a-b-c" = Some ("a", "b-c").
Proof. vm_compute. done. Qed.

(** ** State *)
Record attacher := MkAttacher {
  progs : gset string;
  offsets : offsetCache;
  bootstrapLinks : gmap string (list uprobe);
  bootstrapUnsupported : gset string;
  scannedRoots : gset string;
  contentIDs : gmap string string;
  dataLinks : gmap string uprobe;
  pending : gmap callbackEvent Z;
  files : gmap string offsetCacheFile
}.

Definition newAttacher (progs : gset string) (offsets : offsetCache) (files : gmap string offsetCacheFile) : attacher :=
  MkAttacher progs offsets ∅ ∅ ∅ ∅ ∅ ∅ files.

Definition with_offsets v f (a : attacher) : attacher :=
  MkAttacher (progs a) v (bootstrapLinks a) (bootstrapUnsupported a) (scannedRoots a) (contentIDs a) (dataLinks a) (pending a) f.
Definition with_bootstrap l u (a : attacher) : attacher :=
  MkAttacher (progs a) (offsets a) l u (scannedRoots a) (contentIDs a) (dataLinks a) (pending a) (files a).
Definition with_roots v (a : attacher) : attacher :=
  MkAttacher (progs a) (offsets a) (bootstrapLinks a) (bootstrapUnsupported a) v (contentIDs a) (dataLinks a) (pending a) (files a).
Definition with_contentIDs v (a : attacher) : attacher :=
  MkAttacher (progs a) (offsets a) (bootstrapLinks a) (bootstrapUnsupported a) (scannedRoots a) v (dataLinks a) (pending a) (files a).
Definition with_dataLinks v (a : attacher) : attacher :=
  MkAttacher (progs a) (offsets a) (bootstrapLinks a) (bootstrapUnsupported a) (scannedRoots a) (contentIDs a) v (pending a) (files a).
Definition with_pending v (a : attacher) : attacher :=
  MkAttacher (progs a) (offsets a) (bootstrapLinks a) (bootstrapUnsupported a) (scannedRoots a) (contentIDs a) (dataLinks a) v (files a).

(** The four counters of [state]. *)
Definition state (a : attacher) : nat * nat * nat * nat :=
  (size (bootstrapLinks a), size (bootstrapUnsupported a), size (dataLinks a), size (pending a)).

(** The probes left after [close]. *)
Definition close_attacher (a : attacher) : attacher := with_dataLinks ∅ (with_bootstrap ∅ (bootstrapUnsupported a) a).

Definition bootstrapKnown (id : string) (a : attacher) : bool :=
  bool_decide (is_Some (bootstrapLinks a !! id)) || bool_decide (id ∈ bootstrapUnsupported a).
Definition markBootstrapUnsupported (id : string) (a : attacher) : attacher :=
  with_bootstrap (bootstrapLinks a) ({[ id ]} ∪ bootstrapUnsupported a) a.
Definition storeBootstrap (id : string) (links : list uprobe) (a : attacher) : attacher :=
  with_bootstrap (<[id := links]> (bootstrapLinks a)) (bootstrapUnsupported a) a.
Definition markRootScanned (id : string) (a : attacher) : bool * attacher :=
  if decide (id ∈ scannedRoots a) then (false, a) else (true, with_roots ({[ id ]} ∪ scannedRoots a) a).

(** ** Data callbacks *)
Section attach.
Context (m : machine).

(** A build-id that cannot be read is no panic: [EbpfAttachProperties] shows that
    [libraryContentID] returns. *)
Definition libraryContentIDFor (ident target : string) (a : attacher) : option string * attacher :=
  match contentIDs a !! ident with
  | Some contentID => (Some contentID, a)
  | None =>
    match libraryContentID (libraryOf m target) with
    | Ret (Some contentID) => (Some contentID, with_contentIDs (<[ident := contentID]> (contentIDs a)) a)
    | _ => (None, a)
    end
  end.

Definition linkKey (ident : string) (fileOffset kind : Z) : string := ident +:+ ":" +:+ FormatHex fileOffset +:+ ":" +:+ Itoa kind.

(** [None] is an error; otherwise whether a probe was created. *)
Definition attachOffset (target ident : string) (kind fileOffset : Z) (a : attacher) : option bool * attacher :=
  match callbackProgram kind with
  | None => (None, a)
  | Some programName =>
    if decide (programName ∉ progs a) then (None, a)
    else
      let key := linkKey ident fileOffset kind in
      if decide (is_Some (dataLinks a !! key)) then (Some false, a)
      else
        let probe := MkUprobe target programName fileOffset false in
        if OpenExecutable m target && Uprobe m probe then (Some true, with_dataLinks (<[key := probe]> (dataLinks a)) a)
        else (None, a)
  end.

Definition rememberOffset (ident target : string) (kind fileOffset : Z) (a : attacher) : attacher :=
  let '(contentID, a) := libraryContentIDFor ident target a in
  match contentID with
  | None => a
  | Some contentID =>
    let '(_, _, cache, files) := store (persists m) contentID kind fileOffset (offsets a) (files a) in
    with_offsets cache files a
  end.

(** The mapping of an address and its offset in the file. *)
Definition findMapping (address : Z) (mappings : list procMapping) : option (procMapping * Z) :=
  head (omap (fun mapping => if negb (executable mapping) || bool_decide (inode mapping = "0") then None
                             else (fun off => (mapping, off)) <$> fileOffset mapping address) mappings).

(** Whether there is an error. *)
Definition attachCallback (event : callbackEvent) (a : attacher) : bool * attacher :=
  let pid := Itoa (CB_Tgid event) in
  match readProcMappings m pid with
  | None => (true, a)
  | Some mappings =>
    match findMapping (CB_Address event) mappings with
    | None => (true, a)
    | Some (provider, off) =>
      match mappingTarget m pid provider with
      | None => (true, a)
      | Some target =>
        match attachOffset target (identity provider) (CB_Kind event) off a with
        | (None, a) => (true, a)
        | (Some _, a) =>
          (false, rememberOffset (identity provider) target (CB_Kind event) off (with_pending (base.delete event (pending a)) a))
        end
      end
    end
  end.

Definition handleCallback (event : callbackEvent) (a : attacher) : attacher :=
  if decide (CB_Tgid event = 0 ∨ CB_Address event = 0) then a
  else
    let '(err, a) := attachCallback event a in
    if negb err then a
    else if negb (tgidAlive m (CB_Tgid event)) then with_pending (base.delete event (pending a)) a
    else with_pending (<[event := default 0 (pending a !! event) + 1]> (pending a)) a.
End attach.

(** ** Scans *)
Record bootstrapProbe := MkBootstrapProbe {
  bp_symbol : string;
  bp_program : string;
  bp_ret : bool
}.

Definition bootstrapProbes : list bootstrapProbe :=
  [MkBootstrapProbe "ibv_open_device" "handle_context_return" true;
   MkBootstrapProbe "ibv_import_device" "handle_context_return" true;
   MkBootstrapProbe "ibv_create_qp" "handle_qp_return" true;
   MkBootstrapProbe "ibv_modify_qp" "handle_modify_qp" false;
   MkBootstrapProbe "ibv_qp_to_qp_ex" "handle_qp_ex_return" true].

Definition libibverbsGlobs : list string :=
  ["lib*/libibverbs.so*"; "lib/*/libibverbs.so*"; "usr/lib*/libibverbs.so*"; "usr/lib/*/libibverbs.so*";
   "usr/local/lib*/libibverbs.so*"; "usr/local/lib/*/libibverbs.so*"; "opt/*/lib*/libibverbs.so*"; "opt/*/lib/*/libibverbs.so*"].

Inductive bootstrapError :=
| BootstrapTargetGone
| BootstrapFailed.

Definition retryLimit : Z := 20.

Section scans.
Context `{RangeOrder} (m : machine).

(** One probe of [attachBootstrap]; [None] is a failure. *)
Definition bootstrapLink (path : string) (a : attacher) (probe : bootstrapProbe) : option uprobe :=
  if decide (bp_program probe ∉ progs a) then None
  else
    resolved ← defaultSymbolOffset (elfOf m path) (bp_symbol probe);
    let link := MkUprobe path (bp_program probe) (offset resolved) (bp_ret probe) in
    if Uprobe m link then Some link else None.

(** The probes of a file; those of a file that is gone are closed again. *)
Definition attachBootstrap (path : string) (a : attacher) : bootstrapError + list uprobe :=
  if negb (OpenExecutable m path) then inl BootstrapFailed
  else
    let attached := omap (bootstrapLink path a) bootstrapProbes in
    let failures := bool_decide (length attached < length bootstrapProbes)%nat in
    if failures && match Stat m path with StatMissing => true | _ => false end then inl BootstrapTargetGone
    else if decide (attached = []) then inl BootstrapFailed
    else inr attached.

Definition attachBootstrapOnce (target : string) (sa : gset string * attacher) : gset string * attacher :=
  let '(seenLibraries, a) := sa in
  match fileIdentity m target with
  | None => sa
  | Some id =>
    if bool_decide (id ∈ seenLibraries) || bootstrapKnown id a then sa
    else
      let seenLibraries := {[ id ]} ∪ seenLibraries in
      match attachBootstrap target a with
      | inl BootstrapTargetGone => (seenLibraries, a)
      | inl BootstrapFailed => (seenLibraries, markBootstrapUnsupported id a)
      | inr links => (seenLibraries, storeBootstrap id links a)
      end
  end.

Definition replayCachedCallbacks (pid : string) (mapping : procMapping) (a : attacher) : attacher :=
  match mappingTarget m pid mapping with
  | None => a
  | Some target =>
    match libraryContentIDFor m (identity mapping) target a with
    | (None, a) => a
    | (Some contentID, a) =>
      foldl (fun a e => (attachOffset m target (identity mapping) e.1 e.2 a).2) a (range (offset_lookup (offsets a) contentID))
    end
  end.

Definition scanProcessRoot (pid : string) (sa : gset string * attacher) : gset string * attacher :=
  match fileIdentity m (Join ["/proc"; pid; "ns/mnt"]) with
  | None => sa
  | Some mountNamespaceID =>
    let '(fresh, a) := markRootScanned mountNamespaceID sa.2 in
    if negb fresh then (sa.1, a)
    else
      let root := Join ["/proc"; pid; "root"] in
      foldl (fun sa pattern => foldl (fun sa target => attachBootstrapOnce target sa) sa (Glob m (Join [root; pattern])))
        (sa.1, a) libibverbsGlobs
  end.

(** The body of the loop over the mappings. *)
Definition scanMapping (pid : string) (sa : gset string * attacher) (mapping : procMapping) : gset string * attacher :=
  if negb (executable mapping) || bool_decide (inode mapping = "0") then sa
  else
    let replay sa := if isRDMAProviderLibrary (pm_path mapping) then (sa.1, replayCachedCallbacks pid mapping sa.2) else sa in
    if isLibibverbs (pm_path mapping) then
      match mappingTarget m pid mapping with
      | None => sa
      | Some target => replay (attachBootstrapOnce target sa)
      end
    else replay sa.

Definition scanProcess (pid : string) (sa : gset string * attacher) : gset string * attacher :=
  let sa := scanProcessRoot pid sa in
  match readProcMappings m pid with
  | None => sa
  | Some mappings => foldl (scanMapping pid) sa mappings
  end.

(** The events to retry are collected before any of them is handled. *)
Definition retryable (e : callbackEvent * Z) : bool := tgidAlive m (CB_Tgid e.1) && bool_decide (e.2 < retryLimit).

(** The part of [retryPending] under the lock: what is left to retry. *)
Definition takeRetryable (a : attacher) : list callbackEvent * attacher :=
  (fst <$> filter (fun e => retryable e = true) (range (pending a)), with_pending (filter (fun e => retryable e = true) (pending a)) a).

Definition retryPending (a : attacher) : attacher :=
  let '(events, a) := takeRetryable a in
  foldl (fun a event => handleCallback m event a) a events.

(** A scan by itself.  The goroutine of the callbacks can run between its parts, since [scanMu] only
    keeps scans apart: [EbpfAttachProperties.attachStep] has the parts as steps of their own. *)
Definition scan (a : attacher) : attacher :=
  match proc m with
  | None => a
  | Some entries => retryPending (foldl (fun sa pid => if isNumeric pid then scanProcess pid sa else sa) (∅, a) entries).2
  end.

Definition scanTgid (tgid : Z) (a : attacher) : attacher :=
  if decide (tgid = 0) then a else (scanProcess (Itoa tgid) (∅, a)).2.

(** The body of [consumeCallbackEvents] for one record: the attacher, and whether the queue
    pairs have changed. *)
Definition dispatchCallback (raw : list Z) (a : attacher) : outcome (bool * attacher) :=
  decoded ← decodeCallbackEvent raw;
  match decoded with
  | None => Ret (false, a)
  | Some event =>
    if decide (CB_Kind event = discoveryProcessExec) then Ret (false, scanTgid (CB_Tgid event) a)
    else if decide (CB_Kind event = eventQPRTR) then Ret (true, a)
    else Ret (false, handleCallback m event a)
  end.
End scans.
