(* ===== verification/EbpfComponent.v ===== *)
(** * The eBPF flow component

    The settings and the main loop of src/pkg/agent/ebpfflow/component.go, which joins the attacher,
    the resolver, the publisher, the metrics and the attribution of the send pipeline.  Each case
    of the [select] is a step; [surroundings] is what the machine, the BPF maps and the API server
    answer during the step.  Times are nanoseconds. *)
From Stdlib Require Import ZArith.
From stdpp Require Import base gmap list numbers strings.
From S2P Require Import Prelude GoStrings GoNumbers GoBytes GoText GoNet GoPath Config EbpfResolve EbpfEndpoint EbpfPublisher EbpfReport EbpfSends EbpfOffsets EbpfAttach.
Local Open Scope Z_scope.

(** ** Settings *)
Record otelConfig := MkOtelConfig {
  otel_endpoint : string;
  otel_insecure : bool;
  otel_timeout : Z;
  otel_node : string
}.

Record options := MkOptions {
  pinDir : string;
  offsetCachePath : string;
  discoveryInterval : Z;
  reportInterval : Z;
  endpointEnabled : bool;
  endpointInterval : Z;
  endpointMinInterval : Z;
  endpointAllPods : bool;
  sendsEnabled : bool;
  sendsOptions : sendOptions;
  otlp : otelConfig
}.

(** The setting that is refused. *)
Definition parsed (field value : string) : go string Z :=
  match ParseDuration value with Some d => Ret d | None => Err field end.

Definition optionsFromConfig (cfg : EBPFFlowConfig) (nodeName : string) : go string options :=
  discovery ← parsed "discoveryInterval" (DiscoveryInterval cfg);
  report ← parsed "reportInterval" (ReportInterval cfg);
  if decide (discovery ≤ 0 ∨ report ≤ 0) then Err "discoveryInterval and reportInterval"
  else
    let enabled := default false (EP_Enabled (EB_Endpoint cfg)) in
    interval ← parsed "endpoint.interval" (EP_Interval (EB_Endpoint cfg));
    minInterval ← parsed "endpoint.minInterval" (EP_MinInterval (EB_Endpoint cfg));
    if decide (enabled = true ∧ interval ≤ 0) then Err "endpoint.interval"
    else
      let events := EB_FlowEvents cfg in
      flush ← parsed "flowEvents.flush" (FE_Flush events);
      aggregate ← parsed "flowEvents.aggregate" (FE_Aggregate events);
      timeout ← parsed "otlp.timeout" (OTLP_Timeout (EB_OTLP cfg));
      Ret (MkOptions (PinDir cfg) (OffsetCache cfg) discovery report enabled interval minInterval (EP_AllPods (EB_Endpoint cfg))
             (default false (FE_Enabled events))
             (MkSendOptions (FE_Queue events) (FE_Batch events) flush (FE_Sample events) aggregate)
             (MkOtelConfig (OTLP_Endpoint (EB_OTLP cfg)) (default true (OTLP_Insecure (EB_OTLP cfg))) timeout nodeName)).

(** [New]: the options of the component. *)
Definition New (cfg : EBPFFlowConfig) (nodeName : string) : go string options :=
  opts ← optionsFromConfig cfg nodeName;
  if decide (nodeName = "") then Err "node name" else Ret opts.

(** The part of [Start] that makes the pipeline and starts its goroutines: none when the events
    are off, one sink when there is an OTLP endpoint. *)
Definition startSends (opts : options) (nodeName : string) (metrics : flowMetrics) (boot : Z) : go unit (option (sendOptions * sendPipeline)) :=
  if negb (sendsEnabled opts) then Ret None
  else
    let factories := if decide (otel_endpoint (otlp opts) ≠ "") then 1%nat else 0%nat in
    started ← newSendPipeline nodeName metrics boot factories (sendsOptions opts);
    _ ← (if decide (factories = 0%nat) then Ret () else sinkRunStarts started.1);
    Ret (Some started).

(** ** The OTLP sink (otel.go)

    A row becomes a log record.  The SDK answers for the exporter, the probe and the flush; [None] is
    success. *)
Inductive attributeValue := Int64 (z : Z) | Str (s : string).

(** [int64(x)] of an unsigned integer. *)
Definition signed64 (x : Z) : Z := (x + 2 ^ 63) mod 2 ^ 64 - 2 ^ 63.

Record otelRecord := MkOtelRecord {
  r_timestamp : Z;
  r_observed : Z;
  r_severity : string;
  r_eventName : string;
  r_body : string;
  r_attributes : list (string * attributeValue)
}.

Definition peerAttributes (side : string) (p : peer) : list (string * attributeValue) :=
  [(side +:+ "_pod_namespace", Str (Peer_Namespace p)); (side +:+ "_pod_name", Str (Peer_Name p));
   (side +:+ "_pod_top_owner_kind", Str (Owner_Kind (Peer_Owner p)));
   (side +:+ "_pod_top_owner_namespace", Str (Owner_Namespace (Peer_Owner p)));
   (side +:+ "_pod_top_owner_name", Str (Owner_Name (Peer_Owner p)))].

Definition sendRecord (now : Z) (row : sendRow) : otelRecord :=
  MkOtelRecord (row_ts row) now "INFO" "rdma.send" "rdma.send"
    ([("node", Str (row_node row)); ("tgid", Int64 (signed64 (row_tgid row))); ("qpn", Int64 (signed64 (row_qpn row)));
      ("bytes", Int64 (signed64 (row_bytes row))); ("wrs", Int64 (signed64 (row_wrs row))); ("count", Int64 (signed64 (row_count row)));
      ("kind", Str (callbackKindName (row_kind row))); ("src_device", Str (row_srcDevice row)); ("dst_device", Str (row_dstDevice row))] ++
     peerAttributes "src" (row_src row) ++ peerAttributes "dst" (row_dst row)).

Inductive exporterOption := WithEndpoint (endpoint : string) | WithTimeout (timeout : Z) | WithInsecure.

(** What the provider of a sink is made of. *)
Record otelSink := MkOtelSink {
  os_exporter : list exporterOption;
  os_resource : list (string * string);
  os_maxQueueSize : Z;
  os_exportMaxBatchSize : Z;
  os_exportInterval : Z;
  os_exportTimeout : Z
}.

Definition exporterOptions (cfg : otelConfig) : list exporterOption :=
  [WithEndpoint (otel_endpoint cfg); WithTimeout (otel_timeout cfg)] ++ if otel_insecure cfg then [WithInsecure] else [].

(** A sink, or an error; an exporter that fails the probe is shut down. *)
Definition newOtelSink (exporterErr probeErr : option string) (cfg : otelConfig) (opts : sendOptions) : string + otelSink :=
  match exporterErr with
  | Some err => inl err
  | None =>
    match probeErr with
    | Some err => inl ("probe " +:+ otel_endpoint cfg +:+ ": " +:+ err)
    | None => inr (MkOtelSink (exporterOptions cfg) [("service.name", "unifabric-agent"); ("k8s.node.name", otel_node cfg)]
        (opt_queue opts) (opt_batch opts) (flushIn opts) (otel_timeout cfg))
    end
  end.

(** The records emitted for a batch, and the error of the flush. *)
Definition insertRows (now : Z) (flushErr : option string) (rows : list sendRow) : list otelRecord * option string :=
  (sendRecord now <$> rows, flushErr).

(** ** Log lines that repeat

    Whether a line is written, and the last line of each topic. *)
Definition logDedup (topic fingerprint : string) (last : gmap string string) : bool * gmap string string :=
  if decide (default "" (last !! topic) = fingerprint) then (false, last) else (true, <[topic := fingerprint]> last).

(** ** Switching send events on in the BPF programs: the value written to [flow_config], or an error *)
Definition setBPFSendEvents (configMap : bool) (update : option string) (enabled : bool) : string + Z :=
  if negb configMap then inl "flow_config map is missing"
  else match update with
  | Some err => inl err
  | None => inr (if enabled then 1 else 0)
  end.

(** ** The main loop *)
Record loopState := MkLoop {
  l_attacher : attacher;
  l_resolver : resolver;
  l_metrics : flowMetrics;
  l_attribution : gmap qpKey qpAttribution;
  l_publisher : option endpointPublisher;
  endpointDue : option Z;
  l_api : api
}.

(** The answers of the API server to [List] of Pods, of RDMAEndpoints, of this node's
    RDMAEndpoints and to the owners' [Get]; what the two iterations over each BPF map yield. *)
Record surroundings := MkSurroundings {
  s_now : Z;
  s_machine : machine;
  s_pods : option (list Pod);
  s_objects : option (list RDMAEndpoint);
  s_own : option (list RDMAEndpoint);
  s_get : string → string → string → string → option (list OwnerReference);
  s_infos : iteration qpInfo;
  s_stats : iteration qpStat;
  s_infos' : iteration qpInfo;
  s_stats' : iteration qpStat
}.

Inductive loopEvent :=
| DiscoveryTick
| QPChange
| EndpointDue
| EndpointTick
| ReportTick.

Section loop.
(** [json.Marshal]. *)
Context `{RangeOrder} `{SliceSort} (Marshal : RDMAEndpoint → string) (host : node).

Definition runPublisher (s : surroundings) (l : loopState) : loopState :=
  let '(n, res, a) := run Marshal host (s_now s) (s_own s) (Some (entries (s_infos s))) (l_publisher l) (l_resolver l) (l_api l) in
  MkLoop (l_attacher l) res (l_metrics l) (l_attribution l) n (endpointDue l) a.

Definition with_due d (l : loopState) : loopState :=
  MkLoop (l_attacher l) (l_resolver l) (l_metrics l) (l_attribution l) (l_publisher l) d (l_api l).

Definition requestEndpointUpdate (s : surroundings) (l : loopState) : loopState :=
  match l_publisher l, endpointDue l with
  | None, _ | _, Some _ => l
  | Some _, None =>
    let wait := delayUntilAllowed (s_now s) (l_publisher l) in
    if decide (wait = 0) then runPublisher s l else with_due (Some (s_now s + wait)) l
  end.

(** [res.refresh] and [report]; the attribution is what [sends.publish] stores. *)
Definition reportTick (s : surroundings) (l : loopState) : bool * loopState :=
  let res := refresh host (s_get s) (s_now s) (s_pods s) (s_objects s) (l_resolver l) in
  let '(res, metrics, attribution, (_, _, removed)) :=
    report (cgroup host) (tgidAlive (s_machine s)) (s_stats s) (s_infos s) (s_stats' s) (s_infos' s) res (l_metrics l) in
  (removed, MkLoop (l_attacher l) res metrics attribution (l_publisher l) (endpointDue l) (l_api l)).

(** A timer fires when it is set and its time has come. *)
Definition loopStep (e : loopEvent) (s : surroundings) (l : loopState) : option loopState :=
  match e with
  | DiscoveryTick =>
    Some (MkLoop (scan (s_machine s) (l_attacher l)) (l_resolver l) (l_metrics l) (l_attribution l) (l_publisher l) (endpointDue l) (l_api l))
  | QPChange => Some (requestEndpointUpdate s l)
  | EndpointDue =>
    match endpointDue l with
    | Some due => if decide (due ≤ s_now s) then Some (runPublisher s (with_due None l)) else None
    | None => None
    end
  | EndpointTick => match l_publisher l with Some _ => Some (runPublisher s l) | None => None end
  | ReportTick =>
    let '(removed, l) := reportTick s l in
    Some (if removed then requestEndpointUpdate s l else l)
  end.

(** [Start] before its loop. *)
Definition startLoop (opts : options) (nodeName : string) (client podReader apiReader : bool) (progs : gset string) (r : cacheRead)
    (files : gmap string offsetCacheFile) (metrics : flowMetrics) (a : api) (s : surroundings) : loopState :=
  let res := newResolver client podReader apiReader in
  let publisher := if endpointEnabled opts then newEndpointPublisher res nodeName (endpointMinInterval opts) (endpointAllPods opts) else None in
  let att := newAttacher progs (newOffsetCache (offsetCachePath opts) r).1 files in
  let res := refresh host (s_get s) (s_now s) (s_pods s) (s_objects s) res in
  let l := runPublisher s (MkLoop (scan (s_machine s) att) res metrics ∅ publisher None a) in
  let '(res, metrics, attribution, _) :=
    report (cgroup host) (tgidAlive (s_machine s)) (s_stats s) (s_infos s) (s_stats' s) (s_infos' s) (l_resolver l) (l_metrics l) in
  MkLoop (l_attacher l) res metrics attribution (l_publisher l) None (l_api l).

Fixpoint loopRun (steps : list (loopEvent * surroundings)) (l : loopState) : option loopState :=
  match steps with
  | [] => Some l
  | (e, s) :: steps => l ← loopStep e s l; loopRun steps l
  end.
End loop.

(** ** The callback events

    [consumeCallbackEvents] reads records until the reader is closed or fails.  [qpChanges] is a
    channel of one slot the main loop empties: the machine and whether the slot was emptied are given
    with each record.  The answer is the error, the attacher and the slot. *)
Inductive readEnd := ReaderClosed | ReaderFailed (err : string).

Section callbacks.
Context `{RangeOrder}.

Fixpoint consumeCallbackEvents (records : list (machine * bool * list Z)) (ending : readEnd) (a : attacher) (qpChanges : bool)
  : outcome (option string * attacher * bool) :=
  match records with
  | [] => Ret (match ending with ReaderClosed => None | ReaderFailed err => Some err end, a, qpChanges)
  | (m, emptied, raw) :: records =>
    '(nudge, a) ← dispatchCallback m raw a;
    consumeCallbackEvents records ending a ((qpChanges && negb emptied) || nudge)
  end.
End callbacks.
