(* ===== verification/EbpfPins.v ===== *)
(** * Pinned maps and the end of the eBPF flow component

    src/pkg/agent/ebpfflow/pin.go, bpffs_linux.go, and [loadCollection] and the exits of [Start] in
    component.go: the directory of pinned maps is prepared, maps of the agent that ran before are
    reused, and pins of another layout are dropped.  Loading a collection is code of the eBPF
    library and a parameter; the files of the directory of pins are a set of paths. *)
From stdpp Require Import base gmap sets list strings sorting.
From Stdlib Require Import ZArith.
From S2P Require Import Prelude GoStrings GoNumbers GoText GoJson GoNet GoPath.
Local Open Scope Z_scope.

(** ** The directory *)
Definition bpfFSMagic : Z := 0xcafe4a11.

(** What the system answers: [Statfs] before and after mounting (an error, or the type of the file
    system), [Mount] and [MkdirAll] with their errors. *)
Record pinWorld := MkPinWorld {
  pw_statfs : string → string + Z;
  pw_mount : string → option string;
  pw_statfs' : string → string + Z;
  pw_mkdir : string → option string
}.

Definition isBPFFS (statfs : string → string + Z) (path : string) : string + bool :=
  match statfs path with
  | inl err => inl err
  | inr type => inr (bool_decide (type = bpfFSMagic))
  end.

Definition quoted (s : string) : string := Quote s.

(** The directory on bpffs, or an error. *)
Definition mkdirPins (w : pinWorld) (dir : string) : string + string :=
  match pw_mkdir w dir with
  | Some err => inl ("failed to create pin directory " +:+ quoted dir +:+ ": " +:+ err)
  | None => inr dir
  end.

Definition preparePinDir (w : pinWorld) (dir : string) : string + string :=
  if decide (dir = "") then inr ""
  else
    let dir := Clean dir in
    let mountPoint := Dir dir in
    match isBPFFS (pw_statfs w) mountPoint with
    | inl err => inl ("failed to check bpffs mount point " +:+ quoted mountPoint +:+ ": " +:+ err)
    | inr true => mkdirPins w dir
    | inr false =>
      match pw_mount w mountPoint with
      | Some err => inl ("failed to mount bpffs at " +:+ quoted mountPoint +:+ ": " +:+ err)
      | None =>
        match isBPFFS (pw_statfs' w) mountPoint with
        | inl err => inl ("failed to recheck bpffs mount point " +:+ quoted mountPoint +:+ ": " +:+ err)
        | inr false => inl (quoted mountPoint +:+ " is still not bpffs after mounting")
        | inr true => mkdirPins w dir
        end
      end
    end.

(** ** Pins *)
Inductive PinType := PinNone | PinByName | PinReplace.
#[export] Instance PinType_eq_dec : EqDecision PinType.
Proof. solve_decision. Defined.

Section collections.
(** The rest of the description of a map, and loaded collections. *)
Context {Layout Collection : Type} `{o : RangeOrder}.

Record MapSpec := MkMapSpec {
  Pinning : PinType;
  Layout_of : Layout
}.

(** The maps of [ebpf.CollectionSpec], by name. *)
Abbreviation CollectionSpec := (gmap string MapSpec).

Definition pinnedMapNames (spec : CollectionSpec) : list string :=
  sort_strings (fst <$> filter (fun kv => Pinning kv.2 = PinByName) (range spec)).

Definition unpin (m : MapSpec) : MapSpec := MkMapSpec PinNone (Layout_of m).

(** The specification without pins, and the maps that were changed. *)
Definition disableMapPinning (spec : CollectionSpec) : list string * CollectionSpec :=
  let names := pinnedMapNames spec in
  (names, foldl (fun spec name => alter unpin name spec) spec names).

Definition existingPins (files : gset string) (spec : CollectionSpec) (pinDir : string) : list string :=
  filter (fun name => Join [pinDir; name] ∈ files) (pinnedMapNames spec).

(** [os.Remove] of each pin, where [fault] says for which paths it fails otherwise than because the file
    is missing: the names removed, an error, and the files. *)
Fixpoint removeNames (fault : string → option string) (pinDir : string) (names : list string) (removed : list string) (files : gset string)
  : list string * option string * gset string :=
  match names with
  | [] => (removed, None, files)
  | name :: names =>
    let path := Join [pinDir; name] in
    if decide (path ∈ files) then
      match fault path with
      | Some err => (removed, Some ("failed to remove stale pin " +:+ quoted name +:+ ": " +:+ err), files)
      | None => removeNames fault pinDir names (removed ++ [name]) (files ∖ {[ path ]})
      end
    else removeNames fault pinDir names removed files
  end.

Definition removePins (fault : string → option string) (spec : CollectionSpec) (pinDir : string) (files : gset string)
  : list string * option string * gset string := removeNames fault pinDir (pinnedMapNames spec) [] files.

(** ** Loading *)
Inductive loadError := ErrMapIncompatible (text : string) | OtherLoadError (text : string).

(** [ebpf.LoadCollectionSpec], and [ebpf.NewCollectionWithOptions] of a specification and a directory
    of pins: an error or a collection, and the files it leaves. *)
Context (LoadCollectionSpec : string → string + CollectionSpec).
Context (NewCollection : CollectionSpec → string → gset string → (loadError + Collection) * gset string).

Definition loadCollection (fault : string → option string) (path pinDir : string) (files : gset string)
  : (loadError + Collection) * gset string :=
  match LoadCollectionSpec path with
  | inl err => (inl (OtherLoadError err), files)
  | inr spec =>
    if decide (pinDir = "") then NewCollection (disableMapPinning spec).2 pinDir files
    else
      let '(r, files) := NewCollection spec pinDir files in
      match r with
      | inr coll => (inr coll, files)
      | inl (OtherLoadError err) => (inl (OtherLoadError err), files)
      | inl (ErrMapIncompatible reason) =>
        let '(_, rmErr, files) := removePins fault spec pinDir files in
        match rmErr with
        | Some err => (inl (OtherLoadError ("pinned maps are incompatible and cleanup failed: " +:+ err +:+ " (reason=" +:+ reason +:+ ")")), files)
        | None =>
          match LoadCollectionSpec path with
          | inl err => (inl (OtherLoadError err), files)
          | inr spec => NewCollection spec pinDir files
          end
        end
      end
  end.

(** The start of [Start]: without a directory the maps are not pinned. *)
Definition loadForStart (w : pinWorld) (fault : string → option string) (path pinDir : string) (files : gset string)
  : (loadError + Collection) * gset string :=
  loadCollection fault path match preparePinDir w pinDir with inr dir => dir | inl _ => "" end files.

(** ** Lemmas *)
Lemma elem_of_pinned spec name : name ∈ pinnedMapNames spec ↔ ∃ m, spec !! name = Some m ∧ Pinning m = PinByName.
Proof.
  unfold pinnedMapNames. rewrite elem_of_sort_strings, list_elem_of_fmap. split.
  - intros ([k m] & -> & [Hp Hin]%list_elem_of_filter). exists m. by apply elem_of_range in Hin.
  - intros (m & Hm & Hp). exists (name, m). split; [done|]. apply list_elem_of_filter. split; [done|]. by apply elem_of_range.
Qed.

Lemma foldl_unpin names (spec : CollectionSpec) name m : foldl (fun spec name => alter unpin name spec) spec names !! name = Some m →
  ∃ m0, spec !! name = Some m0 ∧ Layout_of m = Layout_of m0 ∧ (name ∉ names → m = m0) ∧ (name ∈ names → Pinning m = PinNone).
Proof.
  revert spec m. induction names as [|n names IH] using rev_ind; intros spec m; [intros Hm; exists m; set_solver|].
  rewrite foldl_app. cbn [foldl]. rewrite lookup_alter_Some. intros [(-> & m1 & Hm1 & ->)|[Hne Hm]].
  - destruct (IH spec m1 Hm1) as (m0 & H0 & Hl & _). exists m0. split; [done|]. split; [done|]. split; set_solver.
  - destruct (IH spec m Hm) as (m0 & H0 & Hl & H1 & H2). exists m0. split; [done|]. split; [done|]. split; set_solver.
Qed.

(** No map is pinned by name afterwards; nothing else changed. *)
Lemma disableMapPinning_none spec name m : (disableMapPinning spec).2 !! name = Some m →
  Pinning m ≠ PinByName ∧ ∃ m0, spec !! name = Some m0 ∧ Layout_of m = Layout_of m0.
Proof.
  intros Hm. destruct (foldl_unpin _ _ _ _ Hm) as (m0 & H0 & Hl & H1 & H2). split; [|by exists m0].
  destruct (decide (name ∈ pinnedMapNames spec)) as [Hin|Hout]; [by rewrite H2|]. rewrite (H1 Hout).
  intros Hp. apply Hout, elem_of_pinned. by exists m0.
Qed.

(** Only the pins of the names are removed, and without an error all of them are. *)
Lemma removeNames_spec fault pinDir names : ∀ removed files removed' err files',
  removeNames fault pinDir names removed files = (removed', err, files') →
  files' ⊆ files ∧ (∀ p, p ∈ files → p ∉ files' → ∃ n, n ∈ names ∧ p = Join [pinDir; n]) ∧
  (err = None → ∀ n, n ∈ names → Join [pinDir; n] ∉ files').
Proof.
  induction names as [|n names IH]; intros removed files removed' err files'; cbn [removeNames]; [intros [= <- <- <-]; set_solver|].
  destruct (decide (Join [pinDir; n] ∈ files)) as [Hin|Hout].
  - destruct (fault _) as [e|]; [intros [= <- <- <-]; set_solver|]. intros (H1 & H2 & H3)%IH. split; [set_solver|]. split.
    + intros p Hp Hp'. destruct (decide (p = Join [pinDir; n])) as [->|Hne]; [exists n; set_solver|].
      destruct (H2 p) as (n' & ? & ?); [set_solver..|]. exists n'. set_solver.
    + intros He n' [->|Hn']%elem_of_cons; [set_solver|by apply H3].
  - intros (H1 & H2 & H3)%IH. split; [done|]. split.
    + intros p Hp Hp'. destruct (H2 p Hp Hp') as (n' & ? & ?). exists n'. set_solver.
    + intros He n' [->|Hn']%elem_of_cons; [set_solver|by apply H3].
Qed.

(** A layout of another version never keeps the agent from starting: the collection is loaded again
    without the old pins.  The library reports an
    incompatible map only when one of the pinned maps has a file. *)
Theorem load_never_incompatible fault path pinDir files :
  (∀ spec dir files reason, (NewCollection spec dir files).1 = inl (ErrMapIncompatible reason) → ∃ name, name ∈ pinnedMapNames spec ∧ Join [dir; name] ∈ files) →
  ∀ reason, (loadCollection fault path pinDir files).1 ≠ inl (ErrMapIncompatible reason).
Proof.
  intros Hlib reason. unfold loadCollection. destruct (LoadCollectionSpec path) as [err|spec] eqn:Hspec; [done|].
  destruct (decide (pinDir = "")) as [->|Hdir].
  { intros (name & Hn & _)%Hlib. apply elem_of_pinned in Hn as (m & Hm & Hp). by apply disableMapPinning_none in Hm as [? _]. }
  destruct (NewCollection spec pinDir files) as [[[|err]|coll] files1]; [|done..].
  destruct (removePins fault spec pinDir files1) as [[removed [err|]] files2] eqn:Hr; [done|].
  intros (name & Hn & Hf)%Hlib. apply removeNames_spec in Hr as (_ & _ & Hgone). by apply (Hgone eq_refl name).
Qed.
End collections.

(** The library reuses a pin of the same layout; the example has one map. *)
Definition exampleNew (spec : gmap string (MapSpec (Layout := Z))) (dir : string) (files : gset string) : (loadError + unit) * gset string :=
  if decide (Exists (fun kv => Pinning kv.2 = PinByName ∧ Join [dir; kv.1] ∈ files ∧ Layout_of kv.2 = 2) (map_to_list spec))
  then (inl (ErrMapIncompatible "max entries"), files) else (inr (), files ∪ {[ Join [dir; "qp_infos"] ]}).

Lemma load_never_incompatible_example :
  (loadCollection (o := canonical_order) (fun _ => inr {[ "qp_infos" := MkMapSpec PinByName 2 ]}) exampleNew (fun _ => None) "flow.o" "/sys/fs/bpf/unifabric"
    {[ "/sys/fs/bpf/unifabric/qp_infos"; "/sys/fs/bpf/unifabric/other" ]}).1 = inr ().
Proof. vm_compute. reflexivity. Qed.

(** ** The exits of [Start] *)

(** What the goroutines of the component do: the readers of the two ring buffers, the consumers that
    end when their reader is closed, and the sinks that end when their queues are closed. *)
Record goroutines := MkGoroutines {
  g_callbackReader : bool;
  g_callbacks : bool;
  g_sendReader : bool;
  g_consumer : bool;
  g_queues : bool;
  g_sinks : bool
}.

Inductive stopAction := CloseCallbackReader | AwaitCallbacks | CloseSendReader | AwaitConsumer | CloseQueues | AwaitSinks.

(** Waiting for a goroutine that nothing ends blocks for ever, and closing the queues under a consumer
    makes it panic. *)
Definition stopStep (a : stopAction) (g : goroutines) : option goroutines :=
  match a with
  | CloseCallbackReader => Some (MkGoroutines false (g_callbacks g) (g_sendReader g) (g_consumer g) (g_queues g) (g_sinks g))
  | AwaitCallbacks => if g_callbackReader g then None
    else Some (MkGoroutines (g_callbackReader g) false (g_sendReader g) (g_consumer g) (g_queues g) (g_sinks g))
  | CloseSendReader => Some (MkGoroutines (g_callbackReader g) (g_callbacks g) false (g_consumer g) (g_queues g) (g_sinks g))
  | AwaitConsumer => if g_sendReader g then None
    else Some (MkGoroutines (g_callbackReader g) (g_callbacks g) (g_sendReader g) false (g_queues g) (g_sinks g))
  | CloseQueues => if g_consumer g then None
    else Some (MkGoroutines (g_callbackReader g) (g_callbacks g) (g_sendReader g) (g_consumer g) false (g_sinks g))
  | AwaitSinks => if g_queues g then None
    else Some (MkGoroutines (g_callbackReader g) (g_callbacks g) (g_sendReader g) (g_consumer g) (g_queues g) false)
  end.

(** The cases of the [select] that leave the loop; a consumer ends with an error or without one. *)
Inductive exitCase := ContextDone | CallbacksEnded (err : option string) | SendsEnded (err : option string).

(** The actions of an exit, and the error that is returned; [sends] when send events are enabled. *)
Definition exitStart (sends : bool) (c : exitCase) : list stopAction * option string :=
  match c with
  | ContextDone =>
    (CloseCallbackReader :: (if sends then [CloseSendReader] else []) ++ AwaitCallbacks ::
      (if sends then [AwaitConsumer; CloseQueues; AwaitSinks] else []), None)
  | CallbacksEnded err =>
    (if sends then [CloseSendReader; AwaitConsumer; CloseQueues; AwaitSinks] else [],
     Some match err with Some err => "read callback event: " +:+ err | None => "callback event reader stopped" end)
  | SendsEnded err =>
    ([CloseCallbackReader; AwaitCallbacks; CloseQueues; AwaitSinks],
     Some match err with Some err => "read send event: " +:+ err | None => "send event reader stopped" end)
  end.

(** The goroutines when the case is taken; a [nil] channel of a pipeline that is off never fires. *)
Definition atExit (sends : bool) (c : exitCase) : option goroutines :=
  match c with
  | ContextDone => Some (MkGoroutines true true sends sends sends sends)
  | CallbacksEnded _ => Some (MkGoroutines true false sends sends sends sends)
  | SendsEnded _ => if sends then Some (MkGoroutines true true true false true true) else None
  end.

(** On every exit all goroutines have ended when [Start] returns, no wait blocks, and the queues are
    closed only after their consumer has ended. *)
Theorem exits_clean sends c g : atExit sends c = Some g →
  ∃ g', foldl (fun g a => g ← g; stopStep a g) (Some g) (exitStart sends c).1 = Some g' ∧
    g_callbacks g' = false ∧ g_consumer g' = false ∧ g_sinks g' = false.
Proof. destruct sends, c as [|err|err]; intros [= <-]; eexists; (split; [reflexivity|done]). Qed.
