(* ===== verification/EbpfEndpointFacts.v ===== *)
(** * Lemmas on endpoints

    What the index over the published objects holds for an address, and what the agent collects
    for a Pod (src/pkg/agent/ebpfflow/endpoint.go). *)
From Stdlib Require Import ZArith.
From stdpp Require Import base gmap list numbers strings sorting.
From S2P Require Import Prelude GoStrings GoNumbers GoText GoNet GoPath EbpfResolve EbpfEndpoint.
Local Open Scope Z_scope.

(** ** Values kept once *)
Lemma elem_of_keepNew f out l x :
  x ∈ foldl (keepNew f) out l ↔ x ∈ out ∨ x ≠ "" ∧ ∃ v, v ∈ l ∧ f v = x.
Proof.
  revert out. induction l as [|v l IH]; intros out; cbn [foldl]; [set_solver|]. rewrite IH. unfold keepNew.
  case_decide as Hd; set_solver.
Qed.

(** ** Where a Pod answers to an address *)

(** An address of a port of a device. *)
Record occurrence := MkOccurrence {
  oc_address : string;
  oc_device : string;
  oc_port : RDMAPort
}.

Definition occurrences (object : RDMAEndpoint) : list occurrence :=
  Interfaces (EP_Status object) ≫= fun iface => Ports iface ≫= fun port =>
    (fun address => MkOccurrence address (RdmaDevice iface) port) <$> portAddresses port.

Definition occurs_at (address : string) (object : RDMAEndpoint) : list occurrence :=
  filter (fun o => oc_address o = address) (occurrences object).

(** The queue pairs of the ports, the last one of a number deciding its device. *)
Definition port_qpns (m : gmap Z string) (o : occurrence) : gmap Z string :=
  foldl (fun m qp => <[Qpn qp := oc_device o]> m) m (QueuePairs (oc_port o)).

Definition reported_at (address : string) (object : RDMAEndpoint) : reportedPod :=
  MkReported (podUIDOf object) (NodeName (EP_Status object)) (oc_device <$> occurs_at address object)
    (foldl port_qpns ∅ (occurs_at address object)).

(** An object the index takes in. *)
Definition fresh (now : Z) (object : RDMAEndpoint) : Prop :=
  now - LastUpdateTime (EP_Status object) ≤ endpointStale ∧ podUIDOf object ≠ "".

Definition holds_at (now : Z) (address : string) (object : RDMAEndpoint) : Prop := fresh now object ∧ occurs_at address object ≠ [].

#[export] Instance fresh_dec now object : Decision (fresh now object).
Proof. unfold fresh. apply _. Defined.
#[export] Instance occurrence_list_dec (l : list occurrence) : Decision (l ≠ []).
Proof. destruct l; [right|left]; congruence. Defined.
#[export] Instance holds_at_dec now address object : Decision (holds_at now address object).
Proof. unfold holds_at. apply _. Defined.

Definition addOccurrence (uid nodeName : string) (st : gmap string (list string) * gmap string reportedPod) (o : occurrence) :=
  addAddress uid nodeName (oc_device o) (oc_port o) st (oc_address o).

Lemma foldl_bind {A B C} (f : C → B → C) (g : A → list B) (c : C) (l : list A) :
  foldl f c (l ≫= g) = foldl (fun c x => foldl f c (g x)) c l.
Proof. revert c. induction l as [|x l IH]; intros c; [done|]. cbn. by rewrite foldl_app, IH. Qed.

Lemma foldl_fmap' {A B C} (f : C → B → C) (g : A → B) (c : C) (l : list A) :
  foldl f c (g <$> l) = foldl (fun c x => f c (g x)) c l.
Proof. revert c. induction l as [|x l IH]; intros c; [done|]. apply IH. Qed.

Lemma addInterface_occurrences uid nodeName st object :
  foldl (addInterface uid nodeName) st (Interfaces (EP_Status object)) = foldl (addOccurrence uid nodeName) st (occurrences object).
Proof.
  unfold occurrences. rewrite foldl_bind. revert st. induction (Interfaces (EP_Status object)) as [|iface l IH]; intros st; [done|].
  cbn [foldl]. rewrite IH. f_equal. unfold addInterface. rewrite foldl_bind. clear IH. revert st.
  induction (Ports iface) as [|port ps IH]; intros st; [done|]. cbn [foldl]. rewrite IH. f_equal. by rewrite foldl_fmap'.
Qed.

Lemma byAddress_lookup uid nodeName nodes l address :
  (foldl (addOccurrence uid nodeName) (nodes, ∅) l).2 !! address =
  match filter (fun o => oc_address o = address) l with
  | [] => None
  | at_ => Some (MkReported uid nodeName (oc_device <$> at_) (foldl port_qpns ∅ at_))
  end.
Proof.
  induction l as [|o l IH] using rev_ind; [done|]. rewrite foldl_app, filter_app. cbn [foldl].
  destruct (foldl _ _ l) as [ns by_] eqn:Hst. cbn [snd] in IH. unfold addOccurrence, addAddress. cbn [snd].
  rewrite filter_cons, filter_nil. case_decide as Ha.
  - rewrite <-Ha in *. rewrite lookup_insert, decide_True by done. rewrite IH.
    destruct (filter _ l) as [|o' l'] eqn:Hf; cbn [default app fmap list_fmap foldl devices qpns]; [done|].
    rewrite fmap_app, foldl_app. cbn. done.
  - rewrite lookup_insert_ne by done. by rewrite app_nil_r.
Qed.

(** The nodes of an address are those of its occurrences, each once and in order. *)
Lemma nodes_lookup uid nodeName nodes by_ l address :
  default [] ((foldl (addOccurrence uid nodeName) (nodes, by_) l).1 !! address) =
  default [] (nodes !! address) ++
    (if decide (filter (fun o => oc_address o = address) l ≠ [] ∧ nodeName ∉ default [] (nodes !! address)) then [nodeName] else []).
Proof.
  revert nodes by_. induction l as [|o l IH]; intros nodes by_; cbn [foldl].
  { rewrite decide_False, app_nil_r by naive_solver. done. }
  destruct (addOccurrence uid nodeName (nodes, by_) o) as [ns b] eqn:Ho. unfold addOccurrence, addAddress in Ho.
  injection Ho as <- _. rewrite IH, filter_cons. clear IH.
  destruct (decide (oc_address o = address)) as [<-|Ha].
  - destruct (decide (nodeName ∈ default [] (nodes !! oc_address o))) as [Hin|Hin].
    + by rewrite !decide_False by naive_solver.
    + rewrite lookup_insert, decide_True by done. cbn [default]. rewrite decide_False by set_solver.
      rewrite decide_True by naive_solver. by rewrite app_nil_r.
  - assert (default [] ((if decide (nodeName ∈ default [] (nodes !! oc_address o)) then nodes
      else <[oc_address o := default [] (nodes !! oc_address o) ++ [nodeName]]> nodes) !! address) = default [] (nodes !! address)) as ->.
    { case_decide; [done|]. by rewrite lookup_insert_ne. }
    done.
Qed.

Section index.
Context `{RangeOrder}.

Lemma appendPod_lookup pods l address :
  NoDup l.*1 →
  foldl appendPod pods l !! address =
    match (list_to_map l : gmap string reportedPod) !! address with
    | Some entry => Some (default [] (pods !! address) ++ [entry])
    | None => pods !! address
    end.
Proof.
  revert pods. induction l as [|[a e] l IH]; intros pods Hnd; [done|]. cbn in Hnd. apply NoDup_cons in Hnd as [Hni Hnd].
  cbn [foldl]. rewrite IH by done. cbn [list_to_map foldr fst snd]. unfold appendPod. cbn [fst snd].
  destruct (decide (a = address)) as [->|Ha].
  - apply not_elem_of_list_to_map_1 in Hni. unfold uncurry. cbn. rewrite Hni. by rewrite !lookup_insert, !decide_True by done.
  - by rewrite !lookup_insert_ne by done.
Qed.

Lemma range_to_map (m : gmap string reportedPod) : (list_to_map (range m) : gmap string reportedPod) = m.
Proof.
  etrans; [|apply (list_to_map_to_list m)]. apply list_to_map_proper; [apply NoDup_range_keys|apply range_perm].
Qed.

Definition nodes_at (now : Z) (address : string) (objects : list RDMAEndpoint) : list string :=
  foldl (fun ns o => ns ++ if decide (NodeName (EP_Status o) ∈ ns) then [] else [NodeName (EP_Status o)]) []
    (filter (holds_at now address) objects).

(** The index lists, for an address, the objects that hold it. *)
Lemma buildEndpointIndex_spec objects now address :
  default [] (pods (buildEndpointIndex objects now) !! address) = reported_at address <$> filter (holds_at now address) objects ∧
  default [] (nodes (buildEndpointIndex objects now) !! address) = nodes_at now address objects.
Proof.
  unfold buildEndpointIndex, nodes_at. induction objects as [|object objects [IHp IHn]] using rev_ind; [done|].
  rewrite foldl_app, filter_app. cbn [foldl]. set (index := foldl (addObject now) _ objects) in *.
  unfold addObject. rewrite filter_cons, filter_nil.
  destruct (decide (endpointStale < now - LastUpdateTime (EP_Status object))) as [Hs|Hs].
  { rewrite decide_False, app_nil_r by (unfold holds_at, fresh; intros [[? _] _]; lia). done. }
  case_decide as Hu.
  { rewrite decide_False, app_nil_r by (unfold holds_at, fresh; naive_solver). done. }
  rewrite addInterface_occurrences.
  pose proof (byAddress_lookup (podUIDOf object) (NodeName (EP_Status object)) (nodes index) (occurrences object) address) as Hby.
  pose proof (nodes_lookup (podUIDOf object) (NodeName (EP_Status object)) (nodes index) ∅ (occurrences object) address) as Hnode.
  destruct (foldl (addOccurrence _ _) _ _) as [ns by_]. cbn [fst snd pods nodes] in *.
  rewrite appendPod_lookup by apply NoDup_range_keys. rewrite range_to_map, Hby, Hnode, IHn.
  destruct (decide (holds_at now address object)) as [Hh|Hh].
  - destruct (filter _ (occurrences object)) as [|o l] eqn:Hf; [by destruct Hh|]. cbn [default].
    rewrite IHp, fmap_app, foldl_app. split.
    + f_equal. cbn. unfold reported_at, occurs_at. by rewrite Hf.
    + cbn [foldl]. f_equal. destruct (decide (NodeName _ ∈ _)); [rewrite decide_False by naive_solver|rewrite decide_True by naive_solver]; done.
  - assert (filter (fun o => oc_address o = address) (occurrences object) = []) as ->.
    { destruct (filter _ (occurrences object)) eqn:Hf; [done|]. destruct Hh. split; [split; [lia|done]|].
      unfold occurs_at. by rewrite Hf. }
    rewrite decide_False by naive_solver. by rewrite !app_nil_r.
Qed.

(** A node is listed for an address exactly when a Pod is. *)
Lemma nodes_at_nil now address objects : nodes_at now address objects = [] ↔ filter (holds_at now address) objects = [].
Proof.
  unfold nodes_at. destruct (filter (holds_at now address) objects) as [|o l]; [done|]. cbn.
  rewrite decide_False by set_solver. split; [|done]. intros Hnil. exfalso. revert Hnil.
  assert (∀ l ns, ns ≠ [] → foldl (fun ns o => ns ++ if decide (NodeName (EP_Status o) ∈ ns) then [] else [NodeName (EP_Status o)]) ns l ≠ []) as Hne.
  { clear. induction l as [|o l IH]; intros ns Hns; cbn; [done|]. apply IH. by destruct ns. }
  by apply Hne.
Qed.

Lemma qpns_lookup at_ m q : is_Some (foldl port_qpns m at_ !! q) ↔
  is_Some (m !! q) ∨ ∃ o, o ∈ at_ ∧ q ∈ Qpn <$> QueuePairs (oc_port o).
Proof.
  revert m. induction at_ as [|o l IH]; intros m; cbn [foldl]; [set_solver|]. rewrite IH.
  assert (is_Some (port_qpns m o !! q) ↔ is_Some (m !! q) ∨ q ∈ Qpn <$> QueuePairs (oc_port o)) as ->; [|set_solver].
  unfold port_qpns. generalize (QueuePairs (oc_port o)) as qs. intros qs. revert m.
  induction qs as [|x qs IHq]; intros m; cbn [foldl]; [set_solver|]. rewrite IHq. clear.
  destruct (decide (Qpn x = q)) as [<-|Hq]; [rewrite lookup_insert, decide_True by done|rewrite lookup_insert_ne by done]; set_solver.
Qed.
End index.

Section facts.
Context `{RangeOrder} `{SliceSort} (n : node).

(** ** Processes and their Pods *)

(** The UID a process resolves to: cached or read. *)
Definition uid_of (res : resolver) (tgid : Z) : string :=
  default (cgroupPodUID (cgroup n tgid)) (uidByTgid res !! tgid).

(** Two resolvers that answer alike. *)
Definition same_pods (r1 r2 : resolver) : Prop := byUID r1 = byUID r2 ∧ ∀ tgid, uid_of r1 tgid = uid_of r2 tgid.

Lemma podUIDForTgid_spec tgid res :
  (podUIDForTgid (cgroup n) tgid res).1 = uid_of res tgid ∧ same_pods (podUIDForTgid (cgroup n) tgid res).2 res.
Proof.
  unfold podUIDForTgid. unfold same_pods, uid_of. destruct (uidByTgid res !! tgid) as [uid|] eqn:Hc; cbn; [done|].
  split; [done|]. case_decide; [done|]. split; [done|]. intros t. cbn.
  destruct (decide (tgid = t)) as [<-|Hne]; [|by rewrite lookup_insert_ne].
  rewrite lookup_insert_eq. by rewrite Hc.
Qed.

(** ** Queue pairs of a Pod *)
Definition records (qps : gmap string (gmap string (list qpRecord))) (uid device : string) : list qpRecord :=
  default [] (default ∅ (qps !! uid) !! device).

Definition record_of (entry : qpKey * qpInfo) : qpRecord := MkQpRecord (QPN entry.1) (Tgid entry.1) (PortNum entry.2).

Definition belongs (res : resolver) (uid device : string) (entry : qpKey * qpInfo) : Prop :=
  device ≠ "" ∧ uid ≠ "" ∧ info_device entry.2 = device ∧ uid_of res (Tgid entry.1) = uid.

#[export] Instance belongs_dec res uid device entry : Decision (belongs res uid device entry).
Proof. unfold belongs. apply _. Defined.

Lemma addQP_records qps res entry uid device :
  records (addQP n (qps, res) entry).1 uid device =
    records qps uid device ++ (if decide (belongs res uid device entry) then [record_of entry] else []) ∧
  same_pods (addQP n (qps, res) entry).2 res.
Proof.
  destruct entry as [key info]. unfold addQP, belongs. cbn [fst snd].
  destruct (decide (info_device info = "")) as [Hd|Hd].
  { rewrite decide_False, app_nil_r by naive_solver. by split. }
  destruct (podUIDForTgid_spec (Tgid key) res) as [Huid Hsame].
  destruct (podUIDForTgid (cgroup n) (Tgid key) res) as [u res']. cbn [fst snd] in *. subst u.
  destruct (decide (uid_of res (Tgid key) = "")) as [Hu|Hu].
  { rewrite decide_False, app_nil_r by naive_solver. by split. }
  cbn [fst snd]. split; [|done]. unfold records.
  destruct (decide (uid_of res (Tgid key) = uid)) as [<-|Hne].
  - rewrite lookup_insert_eq. cbn [from_option id].
    destruct (decide (info_device info = device)) as [<-|Hnd].
    + rewrite lookup_insert_eq, decide_True by done. done.
    + rewrite lookup_insert_ne by done. rewrite decide_False, app_nil_r by naive_solver. done.
  - rewrite lookup_insert_ne by done. rewrite decide_False, app_nil_r by naive_solver. done.
Qed.

Lemma belongs_same r1 r2 uid device entry : same_pods r1 r2 → belongs r1 uid device entry ↔ belongs r2 uid device entry.
Proof. intros [_ Hs]. unfold belongs. by rewrite Hs. Qed.

(** The queue pairs of a Pod on a device are those the iterator yielded, in its order. *)
Lemma podQPs_records res entries uid device :
  records (podQPs n res (Some entries)).1 uid device = record_of <$> filter (belongs res uid device) entries ∧
  same_pods (podQPs n res (Some entries)).2 res.
Proof.
  cbn [podQPs]. induction entries as [|e l [IHr IHs]] using rev_ind.
  { cbn. split; [|done]. unfold records. by rewrite lookup_empty. }
  rewrite foldl_app, filter_app. cbn [foldl]. destruct (foldl (addQP n) (∅, res) l) as [qps res'] eqn:Hst. cbn [fst snd] in *.
  destruct (addQP_records qps res' e uid device) as [Hr Hs]. split.
  - rewrite Hr, IHr, fmap_app. f_equal. rewrite filter_cons, filter_nil.
    rewrite (decide_ext (belongs res' uid device e) (belongs res uid device e)) by (by apply belongs_same).
    by destruct (decide (belongs res uid device e)).
  - destruct Hs as [Hb Hu], IHs as [Hb' Hu']. split; [congruence|]. intros t. by rewrite Hu, Hu'.
Qed.

(** ** The ports of a device *)
Lemma byPort_lookup qps byPort k :
  default [] (foldl addByPort byPort qps !! k) =
    default [] (byPort !! k) ++ ((fun qp => MkQueuePair (qr_qpn qp) (qr_pid qp)) <$> filter (fun qp => qr_port qp = k) qps).
Proof.
  revert byPort. induction qps as [|qp qps IH]; intros byPort; cbn [foldl]; [by rewrite app_nil_r|].
  rewrite IH, filter_cons. unfold addByPort. destruct (decide (qr_port qp = k)) as [<-|Hk].
  - rewrite lookup_insert_eq. cbn. by rewrite <-app_assoc.
  - by rewrite lookup_insert_ne.
Qed.

(** The port a queue pair is published at. *)
Definition port_for (info : deviceInfo) (k : Z) (port : portInfo) : Prop :=
  port ∈ ports info ∧ (num port = k ∨ k = 0 ∧ num port = firstPortNum (ports info)).

Lemma buildInterface_port device info qps port qp :
  qp ∈ qps → port_for info (qr_port qp) port →
  ∃ built, built ∈ Ports (buildInterface device info qps) ∧ Port built = num port ∧ Gids built = gids port ∧
    Lid built = lid port ∧ SubnetPrefix built = subnetPrefix port ∧ qr_qpn qp ∈ Qpn <$> QueuePairs built.
Proof.
  intros Hqp [Hport Hnum]. unfold buildInterface. cbn [Ports].
  eexists. split.
  { apply elem_of_app. left. apply list_elem_of_fmap. exists port. split; [reflexivity|done]. }
  cbn [Port Gids Lid SubnetPrefix QueuePairs]. split_and!; [done..|].
  rewrite slice_sort_perm. apply list_elem_of_fmap. exists (MkQueuePair (qr_qpn qp) (qr_pid qp)). split; [done|].
  apply elem_of_app. destruct Hnum as [Hk|[Hzero Hfirst]].
  - left. rewrite byPort_lookup. apply elem_of_app. right. apply list_elem_of_fmap. exists qp. split; [done|].
    by apply list_elem_of_filter.
  - right. rewrite decide_True by done. rewrite byPort_lookup. apply elem_of_app. right. apply list_elem_of_fmap. exists qp.
    split; [done|]. by apply list_elem_of_filter.
Qed.

(** ** The object of a Pod *)
Lemma addHolder_devices holders l uid device :
  (∃ byDevice, (uid, byDevice) ∈ l ∧ device ∈ dom byDevice) →
  ∃ holder, foldl addHolder holders l !! uid = Some holder ∧ device ∈ holder_devices holder.
Proof.
  intros (byDevice & Hin & Hd). apply list_elem_of_split in Hin as (l1 & l2 & ->). rewrite foldl_app. cbn [foldl].
  set (h1 := foldl addHolder holders l1). clearbody h1.
  assert (∃ holder, addHolder h1 (uid, byDevice) !! uid = Some holder ∧ device ∈ holder_devices holder) as Hstart.
  { cbn. rewrite lookup_insert_eq. eexists. split; [done|]. cbn. set_solver. }
  revert Hstart. generalize (addHolder h1 (uid, byDevice)) as h. clear h1. induction l2 as [|[u b] l2 IH]; intros h Hh; [done|].
  cbn [foldl]. apply IH. destruct Hh as (holder & Hh & Hdev). cbn. destruct (decide (u = uid)) as [->|Hne].
  - rewrite lookup_insert_eq. eexists. split; [done|]. rewrite Hh. cbn. set_solver.
  - rewrite lookup_insert_ne by done. eauto.
Qed.

Lemma podUIDOf_endpoint now nodeName res hostDevices qps all uid holder object :
  endpointOf n now nodeName res hostDevices qps all (uid, holder) = Some object →
  podUIDOf object = uid ∧ LastUpdateTime (EP_Status object) = now ∧ NodeName (EP_Status object) = nodeName.
Proof. unfold endpointOf. cbn zeta. case_match; [done|]. intros [= <-]. done. Qed.

(** The object of a host-network Pod lists every queue pair of the Pod whose device and
    port are known. *)
Lemma collectEndpoints_host now sysfs nodeName res qps all uid device p qp info port :
  byUID res !! uid = Some p → hostNetwork p = true → qp ∈ records qps uid device →
  hostView n (fun v => deviceTable v sysfs) !! device = Some info → port_for info (qr_port qp) port →
  ∃ object, object ∈ collectEndpoints n now sysfs nodeName res qps all ∧
    EP_Namespace object = Peer_Namespace p ∧ EP_Name object = Peer_Name p ∧
    podUIDOf object = uid ∧ LastUpdateTime (EP_Status object) = now ∧ NodeName (EP_Status object) = nodeName ∧
    ∃ iface built, iface ∈ Interfaces (EP_Status object) ∧ RdmaDevice iface = device ∧ built ∈ Ports iface ∧ Port built = num port ∧
      Gids built = gids port ∧ Lid built = lid port ∧ SubnetPrefix built = subnetPrefix port ∧ qr_qpn qp ∈ Qpn <$> QueuePairs built.
Proof.
  intros Hp Hhost Hqp Hinfo Hport. unfold records in Hqp.
  destruct (qps !! uid) as [byDevice|] eqn:Hby; cbn [from_option id] in Hqp; [|by rewrite lookup_empty in Hqp; apply elem_of_nil in Hqp].
  destruct (byDevice !! device) as [recs|] eqn:Hrecs; cbn [from_option id] in Hqp; [|by apply elem_of_nil in Hqp].
  destruct (addHolder_devices (podDeviceHolders n) (range qps) uid device) as (holder & Hholder & Hdev).
  { exists byDevice. split; [by apply elem_of_range|]. apply elem_of_dom. eauto. }
  set (holders := foldl addHolder (podDeviceHolders n) (range qps)) in *.
  destruct (buildInterface_port device info recs port qp Hqp Hport) as (built & Hbuilt & Hnum & Hg & Hl & Hs & Hq).
  assert (∃ object, endpointOf n now nodeName res (hostView n (fun v => deviceTable v sysfs)) qps all (uid, holder) = Some object ∧
    EP_Namespace object = Peer_Namespace p ∧ EP_Name object = Peer_Name p ∧
    buildInterface device info recs ∈ Interfaces (EP_Status object)) as (object & Ho & Hns & Hname & Hif).
  { unfold endpointOf. cbn zeta. rewrite Hp, Hhost, andb_false_r. cbn [from_option]. eexists. split; [reflexivity|].
    cbn [EP_Namespace EP_Name EP_Status Interfaces]. split_and!; [done..|]. apply list_elem_of_fmap. exists device. split.
    - rewrite Hhost. cbn [negb]. rewrite andb_false_r, lookup_empty, Hinfo, Hby. cbn [from_option id]. by rewrite Hrecs.
    - unfold sortedKeys. rewrite elem_of_sort_strings. by apply elem_of_elements. }
  exists object. destruct (podUIDOf_endpoint _ _ _ _ _ _ _ _ _ Ho) as (Hu & Ht & Hn). split_and!; [|done..|].
  - unfold collectEndpoints. rewrite merge_sort_Permutation. apply list_elem_of_omap. exists (uid, holder). split; [|done].
    by apply elem_of_range.
  - exists (buildInterface device info recs), built. by split_and!.
Qed.
End facts.
