(* ===== verification/EbpfProperties.v ===== *)
(** * Properties of destination resolution

    The claims about src/pkg/agent/ebpfflow/endpoint.go and resolve.go: what the lookups over the
    published objects answer, and that what one agent publishes another one finds. *)
From Stdlib Require Import ZArith.
From stdpp Require Import base gmap list numbers strings sorting.
From S2P Require Import Prelude GoStrings GoNumbers GoText GoNet GoPath EbpfResolve EbpfEndpoint EbpfEndpointFacts.
Local Open Scope Z_scope.

(** ** Lookups *)

(** The object lists the queue pair at a port that answers to the address. *)
Definition claims_qpn (address : string) (q : Z) (object : RDMAEndpoint) : Prop :=
  q ≠ 0 ∧ Exists (fun o => q ∈ Qpn <$> QueuePairs (oc_port o)) (occurs_at address object).

#[export] Instance claims_qpn_dec address q object : Decision (claims_qpn address q object).
Proof. unfold claims_qpn. apply _. Defined.

(** The peer an object stands for. *)
Definition peer_of (r : resolver) (object : RDMAEndpoint) : peer :=
  default (labelled ("pod-uid:" +:+ podUIDOf object)) (byUID r !! podUIDOf object).

Lemma hasQPN_reported address q object : hasQPN (reported_at address object) q = true ↔ claims_qpn address q object.
Proof.
  unfold hasQPN, claims_qpn. rewrite andb_true_iff, !bool_decide_eq_true. unfold reported_at. cbn [qpns].
  rewrite qpns_lookup, Exists_exists, lookup_empty. split; [|naive_solver]. intros [? [[? ?]|?]]; [done|naive_solver].
Qed.

Lemma filter_hasQPN address q (l : list RDMAEndpoint) :
  filter (fun pod => hasQPN pod q = true) (reported_at address <$> l) = reported_at address <$> filter (claims_qpn address q) l.
Proof.
  induction l as [|o l IH]; [done|]. cbn [fmap list_fmap]. rewrite !filter_cons.
  rewrite (decide_ext _ (claims_qpn address q o)) by apply hasQPN_reported. destruct (decide (claims_qpn address q o)); cbn; [by f_equal|done].
Qed.

Lemma qpns_device at_ m q d : foldl port_qpns m at_ !! q = Some d →
  m !! q = Some d ∨ ∃ o, o ∈ at_ ∧ oc_device o = d ∧ q ∈ Qpn <$> QueuePairs (oc_port o).
Proof.
  revert m. induction at_ as [|o l IH]; intros m; cbn [foldl]; [auto|]. intros Hl. destruct (IH _ Hl) as [Hp|Hp]; [|set_solver].
  assert (m !! q = Some d ∨ oc_device o = d ∧ q ∈ Qpn <$> QueuePairs (oc_port o)) as Hc; [|set_solver].
  clear IH Hl. revert Hp. unfold port_qpns. generalize (QueuePairs (oc_port o)) as qs. intros qs. revert m.
  induction qs as [|x qs IHq]; intros m; cbn [foldl]; [auto|]. intros Hp. destruct (IHq _ Hp) as [Hi|[? ?]]; [|set_solver].
  destruct (decide (Qpn x = q)) as [<-|Hq]; [rewrite lookup_insert_eq in Hi|rewrite lookup_insert_ne in Hi by done; auto].
  injection Hi as ->. right. set_solver.
Qed.

(** The device named for a queue pair carries the address and lists the queue pair. *)
Lemma deviceFor_claims address q object : claims_qpn address q object →
  ∃ o, o ∈ occurs_at address object ∧ oc_device o = deviceFor (reported_at address object) q ∧ q ∈ Qpn <$> QueuePairs (oc_port o).
Proof.
  intros Hc. unfold deviceFor. rewrite (proj2 (hasQPN_reported address q object) Hc).
  destruct (qpns (reported_at address object) !! q) as [d|] eqn:Hd.
  - cbn. unfold reported_at in Hd. cbn [qpns] in Hd. apply qpns_device in Hd as [Hd|(o & Ho & Hdev & Hq)]; [by rewrite lookup_empty in Hd|eauto].
  - destruct Hc as [Hq Hex]. apply Exists_exists in Hex. assert (is_Some (qpns (reported_at address object) !! q)) as [? ?]; [|congruence].
    unfold reported_at. cbn [qpns]. apply qpns_lookup. naive_solver.
Qed.

Section lookups.
Context `{RangeOrder} `{SliceSort} (n : node).

(** The lookup in terms of the objects. *)
Lemma podForReportedAddress_objects r objects now address q :
  hasClient r = true →
  let holders := filter (holds_at now address) objects in
  podForReportedAddress (refreshEndpoints n now (Some objects) r) address q =
    match (match filter (claims_qpn address q) holders with
           | [o] => Some o
           | _ => match holders with [o] => Some o | _ => None end
           end) with
    | Some o => Some (peer_of r o, deviceFor (reported_at address o) q)
    | None => if decide (holders = []) then None else Some (labelled ("node:" +:+ join "," (nodes_at now address objects)), "")
    end.
Proof.
  intros Hc holders. unfold refreshEndpoints. rewrite Hc. cbn [negb].
  destruct (buildEndpointIndex_spec objects now address) as [Hp Hn].
  unfold podForReportedAddress. cbn [with_index gidPods gidNodes byUID]. rewrite Hp, Hn, filter_hasQPN. fold holders.
  assert (∀ o, match byUID r !! rp_uid (reported_at address o) with
    | Some p => p | None => labelled ("pod-uid:" +:+ rp_uid (reported_at address o)) end = peer_of r o) as Hpeer.
  { intros o. unfold peer_of. cbn. by destruct (byUID r !! podUIDOf o). }
  pose proof (nodes_at_nil now address objects) as Hnil. fold holders in Hnil.
  assert ((match reported_at address <$> holders with [pod] => Some pod | _ => None end) =
    reported_at address <$> (match holders with [o] => Some o | _ => None end)) as Hone by (by destruct holders as [|? [|? ?]]).
  assert ((match reported_at address <$> filter (claims_qpn address q) holders with
    | [pod] => Some pod
    | _ => match reported_at address <$> holders with [pod] => Some pod | _ => None end end) =
    reported_at address <$> (match filter (claims_qpn address q) holders with
      | [o] => Some o | _ => match holders with [o] => Some o | _ => None end end)) as Hsel.
  { rewrite Hone. by destruct (filter _ holders) as [|? [|? ?]]. }
  rewrite Hsel. destruct (match filter _ holders with [o] => Some o | _ => _ end) as [o|]; cbn [fmap option_fmap option_map].
  - by rewrite Hpeer.
  - rewrite (decide_ext _ (holders = [])); [done|]. rewrite Hnil. destruct holders; naive_solver.
Qed.

(** The Pod whose object alone lists the queue pair number at the address. *)
Lemma podForReportedAddress_user r objects now address q o :
  hasClient r = true → filter (claims_qpn address q) (filter (holds_at now address) objects) = [o] →
  ∃ c, podForReportedAddress (refreshEndpoints n now (Some objects) r) address q = Some (peer_of r o, oc_device c) ∧
    c ∈ occurs_at address o ∧ q ∈ Qpn <$> QueuePairs (oc_port c).
Proof.
  intros Hc Hu. pose proof (podForReportedAddress_objects r objects now address q Hc) as Hspec. cbn zeta in Hspec. rewrite Hu in Hspec.
  destruct (deviceFor_claims address q o) as (c & Hin & Hd & Hq).
  { assert (o ∈ filter (claims_qpn address q) (filter (holds_at now address) objects)) as Ho by (rewrite Hu; set_solver).
    by apply list_elem_of_filter in Ho as [? _]. }
  exists c. by rewrite Hd.
Qed.

(** C33. Attribution by published objects never guesses: an address with a queue pair number goes
    to the Pod whose fresh object alone lists that number at a port with the address, and names
    a device of such a port; when no object or several list the number, it goes to the Pod that
    alone holds the address, and an address held by several Pods goes to none of them but is
    labelled with its nodes; an address no fresh object holds is unknown. *)
Theorem reported_destination r objects now address q :
  hasClient r = true →
  let r' := refreshEndpoints n now (Some objects) r in
  let holders := filter (holds_at now address) objects in
  let users := filter (claims_qpn address q) holders in
  (∀ o, users = [o] → ∃ c, podForReportedAddress r' address q = Some (peer_of r o, oc_device c) ∧
    c ∈ occurs_at address o ∧ q ∈ Qpn <$> QueuePairs (oc_port c)) ∧
  (∀ o, length users ≠ 1%nat → holders = [o] → ∃ d, podForReportedAddress r' address q = Some (peer_of r o, d) ∧
    (d = "" ∨ oc_device <$> occurs_at address o = [d])) ∧
  (length users ≠ 1%nat → (2 ≤ length holders)%nat → ∃ text, podForReportedAddress r' address q = Some (labelled text, "")) ∧
  (holders = [] → podForReportedAddress r' address q = None).
Proof.
  intros Hc r' holders users. pose proof (podForReportedAddress_objects r objects now address q Hc) as Hspec.
  fold r' holders in Hspec. cbn zeta in Hspec. change (filter (claims_qpn address q) holders) with users in Hspec. rewrite Hspec. split_and!.
  - intros o Hu. rewrite <-Hspec. by apply podForReportedAddress_user.
  - intros o Hlen Hh. assert (users = []) as Hu.
    { unfold users in *. rewrite Hh in *. rewrite filter_cons, filter_nil in *. by destruct (decide _). }
    rewrite Hu, Hh. eexists. split; [done|]. unfold deviceFor.
    assert (hasQPN (reported_at address o) q = false) as ->.
    { apply not_true_is_false. intros Hq%hasQPN_reported. assert (o ∈ users) as Ho; [|rewrite Hu in Ho; by apply elem_of_nil in Ho].
      apply list_elem_of_filter. split; [done|]. rewrite Hh. set_solver. }
    unfold reported_at. cbn [devices]. destruct (oc_device <$> occurs_at address o) as [|d [|? ?]]; auto.
  - intros Hlen Hh. destruct users as [|? [|? ?]]; [|done|]; (destruct holders as [|? [|? ?]]; [cbn in Hh; lia|cbn in Hh; lia|]; eauto).
  - intros Hh. assert (users = []) as -> by (unfold users; by rewrite Hh). by rewrite Hh.
Qed.
End lookups.

(** ** From one agent to another *)
Lemma NoDup_all_equal {A} (l : list A) x : NoDup l → x ∈ l → (∀ y, y ∈ l → y = x) → l = [x].
Proof.
  intros Hnd Hx Hall. destruct l as [|a [|b l]]; [by apply elem_of_nil in Hx|f_equal; apply Hall; set_solver|].
  exfalso. apply NoDup_cons in Hnd as [Hni _]. apply Hni. rewrite (Hall a) by set_solver. rewrite (Hall b) by set_solver. set_solver.
Qed.

Lemma occurrence_of_port address object iface port g :
  iface ∈ Interfaces (EP_Status object) → port ∈ Ports iface → g ∈ Gids port → parseSysfsGID (Gid g) = address → address ≠ "" →
  MkOccurrence address (RdmaDevice iface) port ∈ occurs_at address object.
Proof.
  intros Hi Hp Hg Ha Hne. unfold occurs_at, occurrences. apply list_elem_of_filter. split; [done|].
  apply list_elem_of_bind. exists iface. split; [|done]. apply list_elem_of_bind. exists port. split; [|done].
  apply list_elem_of_fmap. exists address. split; [done|]. unfold portAddresses.
  assert (address ∈ foldl (keepNew parseSysfsGID) [] (Gid <$> Gids port)) as Hk.
  { apply elem_of_keepNew. right. split; [done|]. exists (Gid g). split; [|done]. apply list_elem_of_fmap. eauto. }
  case_decide; [done|]. apply elem_of_app. by left.
Qed.

Section publication.
Context `{RangeOrder} `{SliceSort}.

(** An object as the API server lists it: [metav1.Time] is written with whole seconds. *)
Definition whole_seconds (t : Z) : Z := t - t mod 10 ^ 9.
Definition asListed (o : RDMAEndpoint) : RDMAEndpoint :=
  let s := EP_Status o in
  MkEndpoint (EP_Namespace o) (EP_Name o) (EP_Labels o) (EP_OwnerReferences o)
    (MkEndpointStatus (NodeName s) (HostNetwork s) (whole_seconds (LastUpdateTime s)) (Interfaces s)).

(** C34. What one agent publishes another one finds: take a queue pair the BPF programs of a node
    recorded for a process of a host-network Pod, on a device whose port (the recorded one, or
    the first when none was recorded) shows a GID.  Once the objects the agent collects are among
    those the API server lists, with their time in whole seconds, any agent that resolves the GID
    with the queue pair number within the staleness period of that time gets that Pod, as long as the address is not also one of a Pod network,
    each Pod has one object and no other Pod lists the number at the address; and the device it
    names is one of the Pod's that carries the address and the queue pair. *)
Theorem published_found (writer reader : node) res entries allPods now now' sysfs nodeName key info uid p dev port g address r objects p' :
  (key, info) ∈ entries → uid_of writer res (Tgid key) = uid → uid ≠ "" →
  byUID res !! uid = Some p → hostNetwork p = true →
  info_device info ≠ "" → hostView writer (fun v => deviceTable v sysfs) !! info_device info = Some dev →
  port_for dev (PortNum info) port → g ∈ gids port → parseSysfsGID (Gid g) = address → address ≠ "" → QPN key ≠ 0 →
  asListed <$> collectEndpoints writer now sysfs nodeName (podQPs writer res (Some entries)).2 (podQPs writer res (Some entries)).1 allPods ⊆ objects →
  NoDup objects → now' - whole_seconds now ≤ endpointStale →
  hasClient r = true → byUID r !! uid = Some p' →
  byIP r !! address = None → byMAC r !! eui64MAC address = None →
  (∀ o o', o ∈ objects → o' ∈ objects → podUIDOf o = uid → podUIDOf o' = uid → o = o') →
  (∀ o, o ∈ objects → podUIDOf o ≠ uid → fresh now' o → ~ claims_qpn address (QPN key) o) →
  ∃ o c, podForPeer (refreshEndpoints reader now' (Some objects) r) address (QPN key) = (p', oc_device c) ∧
    o ∈ objects ∧ podUIDOf o = uid ∧ c ∈ occurs_at address o ∧ QPN key ∈ Qpn <$> QueuePairs (oc_port c).
Proof.
  intros Hin Huid Hune Hp Hhost Hdne Hdev Hport Hg Ha Hane Hq.
  pose proof (podQPs_records writer res entries uid (info_device info)) as [Hrec [Hby _]].
  destruct (podQPs writer res (Some entries)) as [qps res'] eqn:Hqps. cbn [fst snd] in *.
  intros Hsub Hnd Hnow Hclient Hp' Hip Hmac Hone Hothers.
  assert (record_of (key, info) ∈ records qps uid (info_device info)) as Hr.
  { rewrite Hrec. apply list_elem_of_fmap. exists (key, info). split; [done|]. apply list_elem_of_filter. by split. }
  destruct (collectEndpoints_host writer now sysfs nodeName res' qps allPods uid (info_device info) p (record_of (key, info)) dev port)
    as (collected & Hobj & _ & _ & Ho & Ht & _ & iface & built & Hif & Hrd & Hb & _ & Hgids & _ & _ & Hqs); [congruence|done..|].
  set (object := asListed collected). assert (object ∈ objects) as Hobj' by (apply Hsub, list_elem_of_fmap; eauto). clear Hobj. change (podUIDOf object = uid) in Ho. pose proof (occurrence_of_port address object iface built g Hif Hb) as Hocc.
  specialize (Hocc ltac:(congruence) Ha Hane).
  assert (claims_qpn address (QPN key) object) as Hclaim.
  { split; [done|]. apply Exists_exists. eexists. split; [exact Hocc|done]. }
  assert (holds_at now' address object) as Hholds.
  { split; [split; [cbn; rewrite Ht; lia|congruence]|]. intros Hnil. rewrite Hnil in Hocc. by apply elem_of_nil in Hocc. }
  assert (filter (claims_qpn address (QPN key)) (filter (holds_at now' address) objects) = [object]) as Husers.
  { apply NoDup_all_equal; [by do 2 apply NoDup_filter|by apply list_elem_of_filter; split; [|apply list_elem_of_filter]|].
    intros o [Hoc [[Hf _] Ho']%list_elem_of_filter]%list_elem_of_filter. destruct (decide (podUIDOf o = uid)) as [He|He]; [by apply Hone|].
    by destruct (Hothers o Ho' He Hf). }
  destruct (podForReportedAddress_user reader r objects now' address (QPN key) object Hclient Husers) as (c & Hres & Hc & Hcq). exists object, c. split_and!; [|done..].
  unfold podForPeer. unfold refreshEndpoints in *. rewrite Hclient in *. cbn [negb with_index byIP byMAC] in *.
  rewrite Hip, Hmac. rewrite Hres. destruct (decide (eui64MAC address = "")); unfold peer_of; rewrite Ho, Hp'; done.
Qed.
End publication.

(** ** A node with one device *)

(** A stable sort by the key is one the library may do. *)
Definition key_le {A} (key : A → Z) (x y : A) : Prop := key x ≤ key y.
#[export] Instance key_le_dec {A} (key : A → Z) x y : Decision (key_le key x y).
Proof. unfold key_le. apply _. Defined.
#[export] Instance key_le_total {A} (key : A → Z) : Total (key_le key).
Proof. intros x y. unfold key_le. lia. Qed.

Definition stable_sort : SliceSort := {|
  slice_sort := fun A key l => merge_sort (key_le key) l;
  slice_sort_perm := fun A key l => merge_sort_Permutation (key_le key) l;
  slice_sort_sorted := fun A key l => Sorted_merge_sort (key_le key) l
|}.

Module Sample.
Definition uid : string := "0a1b2c3d-0000-1111-2222-0123456789ab".
Definition gid : string := "0000:0000:0000:0000:0000:ffff:0a10:0102".

Definition dirs : gmap string (list string) :=
  {[ "/sys/class/infiniband" := ["mlx5_0"]; "/sys/class/infiniband/mlx5_0/ports" := ["1"];
     "/sys/class/infiniband/mlx5_0/ports/1/gids" := ["0"; "3"] ]}.
Definition files : gmap string string :=
  {[ "/sys/class/infiniband/mlx5_0/ports/1/gids/0" := "fe80:0000:0000:0000:0c42:a1ff:fe8f:1234";
     "/sys/class/infiniband/mlx5_0/ports/1/gids/3" := gid;
     "/sys/class/infiniband/mlx5_0/ports/1/link_layer" := "Ethernet";
     "/proc/100/cgroup" := "0::/kubepods/pod" +:+ uid +:+ "/x" ]}.

Definition view : osView := MkView (fun p => dirs !! p) (fun _ => None) (fun p => files !! p) (fun _ => None).
Definition host : node := MkNode view (fun _ => None).
Definition other : node := MkNode (MkView (fun _ => None) (fun _ => None) (fun _ => None) (fun _ => None)) (fun _ => None).

Definition pod : peer := MkPeer "ns" "train-0" (MkOwnerInfo "Job" "ns" "train") "" true.
Definition res : resolver := MkResolver true true None {[ uid := pod ]} ∅ ∅ ∅ ∅ ∅ ∅.
Definition entries : list (qpKey * qpInfo) :=
  [(MkQpKey 100 7, MkQpInfo (replicate 16 0) [] 9 0 1 1 (bytes "mlx5_0" ++ replicate 58 0))].

Definition objects : list RDMAEndpoint :=
  asListed <$> @collectEndpoints canonical_order stable_sort host 0 "/sys" "node1" (podQPs host res (Some entries)).2
    (podQPs host res (Some entries)).1 false.
End Sample.

Lemma reported_destination_witness :
  ∃ o c, podForReportedAddress (@refreshEndpoints canonical_order stable_sort Sample.other 5 (Some Sample.objects) Sample.res) "10.16.1.2" 7 =
    Some (peer_of Sample.res o, oc_device c) ∧ o ∈ Sample.objects ∧ c ∈ occurs_at "10.16.1.2" o ∧ 7 ∈ Qpn <$> QueuePairs (oc_port c).
Proof.
  destruct (@reported_destination canonical_order stable_sort Sample.other Sample.res Sample.objects 5 "10.16.1.2" 7 eq_refl) as [Hfound _].
  cbn zeta in Hfound.
  assert (bool_decide (Forall (fun o => holds_at 5 "10.16.1.2" o ∧ claims_qpn "10.16.1.2" 7 o) Sample.objects) = true) as Hall
    by (vm_compute; reflexivity).
  assert (length Sample.objects = 1%nat) as Hlen by (vm_compute; reflexivity).
  apply bool_decide_eq_true in Hall. destruct Sample.objects as [|o [|? ?]] eqn:Ho; [done| |done].
  apply Forall_cons in Hall as [[Hh Hc'] _]. rewrite !filter_cons, !filter_nil, decide_True in Hfound by done.
  rewrite !filter_cons, !filter_nil, decide_True in Hfound by done.
  destruct (Hfound o eq_refl) as (c & Hres & Hc & Hq). exists o, c. split_and!; [exact Hres|apply list_elem_of_here|exact Hc|exact Hq].
Defined.

Lemma published_found_witness :
  ∃ o c, podForPeer (@refreshEndpoints canonical_order stable_sort Sample.other 5 (Some Sample.objects) Sample.res) "10.16.1.2" 7 =
    (Sample.pod, oc_device c) ∧ o ∈ Sample.objects ∧ podUIDOf o = Sample.uid ∧ c ∈ occurs_at "10.16.1.2" o ∧ 7 ∈ Qpn <$> QueuePairs (oc_port c).
Proof.
  assert (podUIDOf <$> Sample.objects = [Sample.uid]) as Hu by (vm_compute; reflexivity).
  assert (∃ o, Sample.objects = [o]) as (o & Ho) by (destruct Sample.objects as [|? [|? ?]]; naive_solver).
  apply (@published_found canonical_order stable_sort Sample.host Sample.other Sample.res Sample.entries false 0 5 "/sys" "node1"
    (MkQpKey 100 7) (MkQpInfo (replicate 16 0) [] 9 0 1 1 (bytes "mlx5_0" ++ replicate 58 0)) Sample.uid Sample.pod
    (MkDeviceInfo "" [MkPortInfo 1 "Ethernet" 0 "fe80000000000000"
      [MkGid 0 "fe80:0000:0000:0000:0c42:a1ff:fe8f:1234"; MkGid 3 Sample.gid]])
    (MkPortInfo 1 "Ethernet" 0 "fe80000000000000" [MkGid 0 "fe80:0000:0000:0000:0c42:a1ff:fe8f:1234"; MkGid 3 Sample.gid])
    (MkGid 3 Sample.gid) "10.16.1.2" Sample.res Sample.objects Sample.pod).
  - apply list_elem_of_here.
  - vm_compute. reflexivity.
  - done.
  - vm_compute. reflexivity.
  - done.
  - vm_compute. done.
  - vm_compute. reflexivity.
  - split; [apply list_elem_of_here|by left].
  - apply list_elem_of_further, list_elem_of_here.
  - vm_compute. reflexivity.
  - done.
  - done.
  - exact (fun x Hx => Hx).
  - rewrite Ho. apply NoDup_singleton.
  - vm_compute. discriminate.
  - done.
  - vm_compute. reflexivity.
  - vm_compute. reflexivity.
  - vm_compute. reflexivity.
  - rewrite Ho. intros o1 o2 H1 H2 _ _. apply list_elem_of_singleton in H1, H2. congruence.
  - intros o' Ho' Hne. exfalso. apply Hne. rewrite Ho in Ho'. apply list_elem_of_singleton in Ho' as ->.
    rewrite Ho in Hu. by injection Hu.
Defined.
