(* ===== verification/EbpfPublisherProperties.v ===== *)
(** * Properties of the endpoint publisher

    The claim about the writer of src/pkg/agent/ebpfflow/endpoint.go: a run brings the objects of
    the node on the API server in line with what was collected, and leaves nothing to do. *)
From Stdlib Require Import ZArith.
From stdpp Require Import base gmap list numbers strings sorting.
From S2P Require Import Prelude GoStrings GoNumbers GoText GoNet GoPath EbpfResolve EbpfEndpoint EbpfPublisher EbpfProperties.
Local Open Scope Z_scope.

(** ** The API server

    The objects by namespace and name.  Server-side apply creates an object or replaces the
    fields the agent owns; the status has its own request. *)
Abbreviation server := (gmap (string * string) RDMAEndpoint).

Definition emptyStatus : RDMAEndpointStatus := MkEndpointStatus "" false 0 [].

Definition key_of (o : RDMAEndpoint) : string * string := (EP_Namespace o, EP_Name o).

Definition served (s : server) (c : call * answer) : server :=
  match c with
  | (ApplyMetadata o, Ok) =>
    <[key_of o := MkEndpoint (EP_Namespace o) (EP_Name o) (EP_Labels o) (EP_OwnerReferences o)
        (from_option EP_Status emptyStatus (s !! key_of o))]> s
  | (ApplyStatus o, Ok) =>
    alter (fun old => MkEndpoint (EP_Namespace old) (EP_Name old) (EP_Labels old) (EP_OwnerReferences old) (EP_Status o)) (key_of o) s
  | (Delete ns name, Ok) => base.delete (ns, name) s
  | _ => s
  end.

Definition replay (s : server) (calls : list (call * answer)) : server := foldl served s calls.

Definition entry_key (e : publishedObject) : string * string := (pub_namespace e, pub_name e).

Definition named (o : RDMAEndpoint) : Prop := EP_Namespace o ≠ "" ∧ EP_Name o ≠ "".
#[export] Instance named_dec o : Decision (named o).
Proof. unfold named. apply _. Defined.

Lemma applied_twice s o : served (served s (ApplyMetadata o, Ok)) (ApplyStatus o, Ok) = <[key_of o := o]> s.
Proof.
  unfold served. rewrite alter_insert_eq. by destruct o.
Qed.

Section publisher.
Context `{RangeOrder} (Marshal : RDMAEndpoint → string) (now : Z).
Abbreviation print := (endpointFingerprint Marshal).

(** What the agent believes about an object is so. *)
Definition tracks (pub : gmap string publishedObject) (s : server) : Prop :=
  ∀ uid e, pub !! uid = Some e → fingerprint e ≠ "" → ∃ o, s !! entry_key e = Some o ∧ print o = fingerprint e.

(** The names of Pods and the UIDs the agent knows belong together. *)
Definition consistent (pub : gmap string publishedObject) (objects : list RDMAEndpoint) : Prop :=
  ∀ o uid e, o ∈ objects → named o → pub !! uid = Some e → (uid = podUIDOf o ↔ entry_key e = key_of o).

Definition distinct (pub : gmap string publishedObject) : Prop :=
  ∀ uid1 uid2 e1 e2, pub !! uid1 = Some e1 → pub !! uid2 = Some e2 → entry_key e1 = entry_key e2 → uid1 = uid2.

(** An object that is published and up to date. *)
Definition settled (pub : gmap string publishedObject) (s : server) (o : RDMAEndpoint) : Prop :=
  ∃ e o', pub !! podUIDOf o = Some e ∧ entry_key e = key_of o ∧ fingerprint e = print o ∧ recent now e = true ∧
    s !! key_of o = Some o' ∧ print o' = print o.

(** The answers of a healthy API server. *)
Definition healthy (a : api) : Prop := Forall (eq Ok) (answers a).

Lemma make_healthy c a : healthy a → make c a = (Ok, MkApi (made a ++ [(c, Ok)]) (tail (answers a))) ∧ Forall (eq Ok) (tail (answers a)).
Proof. unfold healthy, make. intros Ha. destruct (answers a) as [|x l]; cbn; [done|]. by apply Forall_cons in Ha as [<- ?]. Qed.

Lemma apply_healthy o a : healthy a →
  ∃ rest, apply o a = (true, MkApi (made a ++ [(ApplyMetadata o, Ok); (ApplyStatus o, Ok)]) rest) ∧ Forall (eq Ok) rest.
Proof.
  intros Ha. unfold apply. destruct (make_healthy (ApplyMetadata o) a Ha) as [-> Hr]. rewrite decide_False by naive_solver.
  destruct (make_healthy (ApplyStatus o) (MkApi (made a ++ [(ApplyMetadata o, Ok)]) (tail (answers a))) Hr) as [-> Hr']. cbn.
  eexists. split; [by rewrite <-app_assoc|done].
Qed.

(** ** The loop that applies *)
Lemma publishObject_step pub s a o :
  healthy a → tracks pub s → consistent pub [o] → print o ≠ "" →
  ∃ pub' new rest, publishObject Marshal now (pub, a) o = (pub', MkApi (made a ++ new) rest) ∧ Forall (eq Ok) rest ∧
    tracks pub' (replay s new) ∧ (named o → settled pub' (replay s new) o) ∧
    (∀ uid, (named o → uid ≠ podUIDOf o) → pub' !! uid = pub !! uid) ∧
    (∀ k, (named o → k ≠ key_of o) → replay s new !! k = s !! k) ∧
    (∀ uid e, pub' !! uid = Some e → pub !! uid = Some e ∨ named o ∧ uid = podUIDOf o ∧ entry_key e = key_of o).
Proof.
  intros Ha Ht Hc Hprint. unfold publishObject. destruct (decide (EP_Namespace o = "" ∨ EP_Name o = "")) as [Hn|Hn].
  { exists pub, [], (answers a). rewrite app_nil_r. destruct a. split; [done|]. split; [done|]. cbn.
    split_and!; [done| |done|done|auto]. unfold named. naive_solver. }
  assert (named o) as Hnamed by (unfold named; naive_solver).
  destruct (_ && _) eqn:Hskip.
  - apply andb_true_iff in Hskip as [Hun Hrec]. destruct (pub !! podUIDOf o) as [e|] eqn:He; [|done].
    apply bool_decide_eq_true in Hun. cbn in Hrec. pose proof (proj1 (Hc o _ e ltac:(set_solver) Hnamed He) eq_refl) as Hkey.
    destruct (Ht _ _ He ltac:(congruence)) as (o' & Ho' & Hp').
    exists pub, [], (answers a). rewrite app_nil_r. destruct a. split; [done|]. split; [done|]. cbn.
    split_and!; [done| |done|done|auto]. intros _. exists e, o'. rewrite <-Hkey at 2. split_and!; congruence.
  - destruct (apply_healthy o a Ha) as (rest & -> & Hrest). cbn iota.
    set (e := MkPublished (EP_Namespace o) (EP_Name o) (print o) (Some now)).
    eexists _, _, rest. split; [reflexivity|]. split; [done|]. unfold replay. cbn [foldl]. rewrite applied_twice.
    assert (settled (<[podUIDOf o := e]> pub) (<[key_of o := o]> s) o) as Hset.
    { exists e, o. rewrite !lookup_insert_eq. split_and!; [done..| |done|done]. cbn. apply bool_decide_eq_true. unfold endpointResend. lia. }
    split_and!; [|done| | |].
    + intros uid e' He' Hf. destruct (decide (uid = podUIDOf o)) as [->|Hne].
      * rewrite lookup_insert_eq in He'. injection He' as <-. exists o. split; [by rewrite lookup_insert_eq|done].
      * rewrite lookup_insert_ne in He' by done. destruct (Ht _ _ He' Hf) as (o' & Ho' & Hp'). exists o'. split; [|done].
        rewrite lookup_insert_ne; [done|]. intros Hk. apply Hne. apply (Hc o uid e'); [set_solver|done|done|by rewrite Hk].
    + intros uid Hne. rewrite lookup_insert_ne; [done|]. naive_solver.
    + intros k Hne. rewrite lookup_insert_ne; [done|]. naive_solver.
    + intros uid e' He'. destruct (decide (uid = podUIDOf o)) as [->|Hne].
      * rewrite lookup_insert_eq in He'. injection He' as <-. by right.
      * rewrite lookup_insert_ne in He' by done. by left.
Qed.

Definition named_uids (l : list RDMAEndpoint) : list string := podUIDOf <$> filter named l.
Definition named_keys (l : list RDMAEndpoint) : list (string * string) := key_of <$> filter named l.

Lemma elem_of_named_uids l uid : uid ∈ named_uids l ↔ ∃ o, o ∈ l ∧ named o ∧ uid = podUIDOf o.
Proof. unfold named_uids. rewrite list_elem_of_fmap. setoid_rewrite list_elem_of_filter. naive_solver. Qed.
Lemma elem_of_named_keys l k : k ∈ named_keys l ↔ ∃ o, o ∈ l ∧ named o ∧ k = key_of o.
Proof. unfold named_keys. rewrite list_elem_of_fmap. setoid_rewrite list_elem_of_filter. naive_solver. Qed.

Lemma named_objects_cons o l : named_uids (o :: l) = (if decide (named o) then [podUIDOf o] else []) ++ named_uids l ∧
  named_keys (o :: l) = (if decide (named o) then [key_of o] else []) ++ named_keys l.
Proof. unfold named_uids, named_keys. rewrite filter_cons. by case_decide. Qed.

Lemma publish_loop l pub s a :
  healthy a → tracks pub s → consistent pub l → NoDup (named_uids l) → NoDup (named_keys l) → (∀ o, print o ≠ "") →
  ∃ pub' new rest, foldl (publishObject Marshal now) (pub, a) l = (pub', MkApi (made a ++ new) rest) ∧ Forall (eq Ok) rest ∧
    tracks pub' (replay s new) ∧ (∀ o, o ∈ l → named o → settled pub' (replay s new) o) ∧
    (∀ uid, uid ∉ named_uids l → pub' !! uid = pub !! uid) ∧ (∀ k, k ∉ named_keys l → replay s new !! k = s !! k) ∧
    (∀ uid e, pub' !! uid = Some e → pub !! uid = Some e ∨ ∃ o, o ∈ l ∧ named o ∧ uid = podUIDOf o ∧ entry_key e = key_of o).
Proof.
  revert pub s a. induction l as [|o l IH]; intros pub s a Ha Ht Hc Hu Hk Hprint.
  { exists pub, [], (answers a). cbn. rewrite app_nil_r. destruct a. split_and!; [done..|set_solver|done|done|auto]. }
  destruct (named_objects_cons o l) as [Eu Ek]. rewrite Eu in *. rewrite Ek in *. clear Eu Ek.
  apply NoDup_app in Hu as (_ & Hu1 & Hu2), Hk as (_ & Hk1 & Hk2).
  destruct (publishObject_step pub s a o Ha Ht) as (pub1 & new1 & rest1 & E1 & R1 & T1 & S1 & F1 & K1 & O1); [|done|].
  { intros o' uid e ->%list_elem_of_singleton. apply Hc. set_solver. }
  assert (named o → (podUIDOf o ∉ named_uids l) ∧ (key_of o ∉ named_keys l)) as Hni.
  { intros Hn. split; [apply Hu1|apply Hk1]; rewrite decide_True by done; set_solver. }
  destruct (IH pub1 (replay s new1) (MkApi (made a ++ new1) rest1) R1 T1) as (pub2 & new2 & rest2 & E2 & R2 & T2 & S2 & F2 & K2 & O2); [|done..|].
  { intros o' uid e Ho' Hn' He. destruct (O1 uid e He) as [He'|(Hn & -> & Hke)]; [apply Hc; [set_solver|done..]|].
    destruct (Hni Hn) as [Hn1 Hn2]. rewrite elem_of_named_uids in Hn1. rewrite elem_of_named_keys in Hn2. split.
    - intros Hx. destruct Hn1. eauto.
    - intros Hx. destruct Hn2. exists o'. split_and!; [done..|congruence]. }
  exists pub2, (new1 ++ new2), rest2. cbn [foldl]. rewrite E1, E2. cbn [made]. rewrite app_assoc. unfold replay in *. rewrite foldl_app.
  split_and!; [done..| | | |].
  - intros o' [->|Ho']%elem_of_cons Hn'; [|by apply S2]. destruct (S1 Hn') as (e & o2 & He & Hk' & Hf & Hr & Hs & Hp).
    destruct (Hni Hn') as [Hn1 Hn2]. exists e, o2. rewrite F2, K2 by done. by split_and!.
  - intros uid Huid. rewrite not_elem_of_app in Huid. destruct Huid as [Huid Hul]. rewrite F2 by done. apply F1. intros Hn.
    rewrite decide_True in Huid by done. set_solver.
  - intros k Hkk. rewrite not_elem_of_app in Hkk. destruct Hkk as [Hkk Hkl]. rewrite K2 by done. apply K1. intros Hn.
    rewrite decide_True in Hkk by done. set_solver.
  - intros uid e He. destruct (O2 uid e He) as [He'|(o' & ? & ?)]; [|right; exists o'; set_solver].
    destruct (O1 uid e He') as [|(? & ? & ?)]; [by left|right; exists o; set_solver].
Qed.

(** ** The loop that deletes *)
Definition dead (live : list string) (l : list (string * publishedObject)) : list (string * publishedObject) :=
  filter (fun entry => entry.1 ∉ live) l.

Lemma drop_loop live l pub s a :
  healthy a →
  ∃ new rest, foldl (dropObject live) (pub, a) l = (foldr (fun entry m => base.delete entry.1 m) pub (reverse (dead live l)), MkApi (made a ++ new) rest) ∧
    Forall (eq Ok) rest ∧ replay s new = foldr (fun entry m => base.delete (entry_key entry.2) m) s (reverse (dead live l)).
Proof.
  revert pub s a. induction l as [|[uid e] l IH]; intros pub s a Ha.
  { exists [], (answers a). cbn. rewrite app_nil_r. by destruct a. }
  cbn [foldl]. unfold dead. rewrite filter_cons. cbn [dropObject fst]. destruct (decide (uid ∈ live)) as [Hl|Hl].
  { rewrite decide_False by auto. apply IH, Ha. }
  rewrite decide_True by done. unfold delete_object. destruct (make_healthy (Delete (pub_namespace e) (pub_name e)) a Ha) as [-> Hr].
  rewrite bool_decide_true by done.
  destruct (IH (base.delete uid pub) (base.delete (entry_key e) s)
    (MkApi (made a ++ [(Delete (pub_namespace e) (pub_name e), Ok)]) (tail (answers a))) Hr) as (new & rest & E & R & S).
  unfold dead in E, S. exists ((Delete (pub_namespace e) (pub_name e), Ok) :: new), rest. rewrite E. cbn [made]. rewrite <-app_assoc. rewrite !reverse_cons.
  split_and!; [by rewrite foldr_app|done|]. rewrite foldr_app. cbn [foldr snd]. rewrite <-S. done.
Qed.

Lemma foldr_delete_lookup {K V W} `{Countable K} (f : W → K) (l : list W) (m : gmap K V) k :
  foldr (fun x m => base.delete (f x) m) m l !! k = if decide (k ∈ f <$> l) then None else m !! k.
Proof.
  induction l as [|x l IH]; cbn [foldr fmap list_fmap]; [done|]. destruct (decide (f x = k)) as [<-|Hne].
  - rewrite lookup_delete_eq, decide_True by set_solver. done.
  - rewrite lookup_delete_ne by done. rewrite IH. apply decide_ext. set_solver.
Qed.

(** Deleting keeps the entries of live Pods and removes the objects of the others. *)
Lemma drop_range live pub s a :
  healthy a →
  ∃ pub' new rest, foldl (dropObject live) (pub, a) (range pub) = (pub', MkApi (made a ++ new) rest) ∧
    (∀ uid, pub' !! uid = if decide (uid ∈ live) then pub !! uid else None) ∧
    (∀ uid e, pub !! uid = Some e → uid ∉ live → replay s new !! entry_key e = None) ∧
    (∀ k, (∀ uid e, pub !! uid = Some e → uid ∉ live → entry_key e ≠ k) → replay s new !! k = s !! k).
Proof.
  intros Ha. destruct (drop_loop live (range pub) pub s a Ha) as (new & rest & E & _ & S). set (gone := dead live (range pub)) in *.
  assert (∀ uid e, (uid, e) ∈ reverse gone ↔ pub !! uid = Some e ∧ uid ∉ live) as Hgone.
  { intros uid e. unfold gone, dead. rewrite elem_of_reverse, list_elem_of_filter, elem_of_range. cbn. tauto. }
  assert (∀ k, replay s new !! k = if decide (k ∈ (fun entry : string * publishedObject => entry_key entry.2) <$> reverse gone) then None else s !! k) as Hs.
  { intros k. rewrite S. apply (foldr_delete_lookup (fun entry : string * publishedObject => entry_key entry.2)). }
  eexists _, new, rest. split; [exact E|]. split_and!.
  - intros uid. rewrite (foldr_delete_lookup fst). destruct (decide (uid ∈ live)) as [Hl|Hl].
    + rewrite decide_False; [done|]. rewrite list_elem_of_fmap. intros ([u e] & -> & Hin). by apply Hgone in Hin as [_ []].
    + destruct (pub !! uid) as [e|] eqn:He; [|by case_decide]. rewrite decide_True; [done|]. apply list_elem_of_fmap. exists (uid, e).
      split; [done|]. by apply Hgone.
  - intros uid e He Hl. rewrite Hs, decide_True; [done|]. apply list_elem_of_fmap. exists (uid, e). split; [done|]. by apply Hgone.
  - intros k Hne. rewrite Hs, decide_False; [done|]. rewrite list_elem_of_fmap. intros ([uid e] & Hkey & [He Hl]%Hgone). by apply (Hne uid e).
Qed.

Lemma foldl_fixed {A B} (f : A → B → A) (a : A) (l : list B) : (∀ x, x ∈ l → f a x = a) → foldl f a l = a.
Proof. induction l as [|x l IH]; intros Hf; cbn; [done|]. rewrite Hf by set_solver. apply IH. set_solver. Qed.

Lemma settled_skip pub s a o : settled pub s o → publishObject Marshal now (pub, a) o = (pub, a).
Proof.
  intros (e & o' & He & _ & Hf & Hr & _). unfold publishObject. case_decide; [done|]. rewrite He. cbn [from_option].
  by rewrite bool_decide_true, Hr by done.
Qed.

(** With everything settled and no other entry, a run makes no call. *)
Lemma publish_idle n objects s a :
  (∀ o, o ∈ objects → named o → settled (published n) s o) → (∀ uid e, published n !! uid = Some e → uid ∈ podUIDOf <$> objects) →
  publish Marshal now objects n a = (n, a).
Proof.
  intros Hset Hlive. unfold publish. rewrite (foldl_fixed (publishObject Marshal now)).
  2:{ intros o Ho. destruct (decide (named o)) as [Hn|Hn]; [by eapply settled_skip, Hset|]. unfold publishObject.
      rewrite decide_True; [done|]. unfold named in Hn. destruct (decide (EP_Namespace o = "")), (decide (EP_Name o = "")); naive_solver. }
  rewrite foldl_fixed; [by destruct n|]. intros [uid e] Hin%elem_of_range. cbn. by rewrite decide_True by eauto.
Qed.

(** C35. A run of the publisher settles: every collected object that has a name is on the server with
    its current content and remembered, every remembered object whose Pod is gone is deleted and
    forgotten, no other object is touched, and running again makes no call at all.  It holds when the
    API server answers all calls, collected objects have different UIDs and names, what the agent
    remembers is true of the server and has no object twice, and the names it remembers belong to the
    UIDs it remembers: no Pod was recreated under the name of a Pod whose object is still remembered.
    A recreated Pod does lose its object ([recreated_pod_loses_endpoint]). *)
Theorem publisher_settles n objects s answers :
  Forall (eq Ok) answers → NoDup (named_uids objects) → NoDup (named_keys objects) → (∀ o, print o ≠ "") →
  tracks (published n) s → consistent (published n) objects → distinct (published n) →
  ∃ n' calls rest, publish Marshal now objects n (MkApi [] answers) = (n', MkApi calls rest) ∧
    let s' := replay s calls in
    (∀ o, o ∈ objects → named o → settled (published n') s' o) ∧
    (∀ uid e, published n !! uid = Some e → uid ∉ podUIDOf <$> objects → s' !! entry_key e = None ∧ published n' !! uid = None) ∧
    (∀ k, k ∉ named_keys objects → (∀ uid e, published n !! uid = Some e → entry_key e ≠ k) → s' !! k = s !! k) ∧
    tracks (published n') s' ∧
    ∀ a, publish Marshal now objects n' a = (n', a).
Proof.
  intros Ha Hu Hk Hprint Ht Hc Hd.
  destruct (publish_loop objects (published n) s (MkApi [] answers) Ha Ht Hc Hu Hk Hprint) as (pub1 & new1 & rest1 & E1 & R1 & T1 & S1 & F1 & K1 & O1).
  destruct (drop_range (podUIDOf <$> objects) pub1 (replay s new1) (MkApi new1 rest1) R1) as (pub2 & new2 & rest2 & E2 & Hpub2 & Hdel & Hkeep1).
  assert (∀ uid e, pub1 !! uid = Some e → uid ∉ podUIDOf <$> objects → published n !! uid = Some e) as Hold.
  { intros uid e He Hl. destruct (O1 uid e He) as [|(o & Ho & _ & -> & _)]; [done|]. destruct Hl. apply list_elem_of_fmap. eauto. }
  assert (∀ k, (∀ uid e, published n !! uid = Some e → uid ∉ podUIDOf <$> objects → entry_key e ≠ k) →
    replay (replay s new1) new2 !! k = replay s new1 !! k) as Hkeep by (intros k Hne; apply Hkeep1; eauto).
  assert (∀ o, o ∈ objects → named o → settled pub2 (replay (replay s new1) new2) o) as Hset.
  { intros o Ho Hn. destruct (S1 o Ho Hn) as (e & o' & He & Hke & Hf & Hr & Hso & Hp). exists e, o'.
    assert (podUIDOf o ∈ podUIDOf <$> objects) as Hl by (apply list_elem_of_fmap; eauto).
    rewrite Hpub2, decide_True by done. rewrite Hkeep; [by split_and!|]. intros uid e' He' Hnl Heq. apply Hnl.
    by rewrite (proj2 (Hc o uid e' Ho Hn He') Heq). }
  exists (with_published pub2 n), (new1 ++ new2), rest2. split.
  { unfold publish. rewrite E1. cbn [made] in *. rewrite app_nil_l. by rewrite E2. }
  cbn zeta. replace (replay s (new1 ++ new2)) with (replay (replay s new1) new2) by (unfold replay; by rewrite foldl_app).
  cbn [published with_published]. split_and!.
  - done.
  - intros uid e He Hnl. assert (pub1 !! uid = Some e) as He1.
    { rewrite F1; [done|]. rewrite elem_of_named_uids. intros (o & Ho & _ & ->). apply Hnl. apply list_elem_of_fmap. eauto. }
    split; [by eapply Hdel|]. by rewrite Hpub2, decide_False.
  - intros k Hkn Hke. rewrite Hkeep by eauto. by apply K1.
  - intros uid e He Hf. rewrite Hpub2 in He. case_decide as Hl; [|done]. destruct (T1 uid e He Hf) as (o & Ho & Hp). exists o.
    split; [|done]. rewrite Hkeep; [done|]. intros uid' e' He' Hnl Heq. apply Hnl. destruct (O1 uid e He) as [He0|(o' & Ho' & Hn' & -> & Hk')].
    + by rewrite (Hd uid' uid e' e He' He0 Heq).
    + rewrite (proj2 (Hc o' uid' e' Ho' Hn' He')) by congruence. apply list_elem_of_fmap. eauto.
  - intros a. eapply publish_idle; [exact Hset|]. cbn. intros uid e. rewrite Hpub2. by case_decide.
Qed.
End publisher.

Module PublisherSample.
Definition object (uid name : string) : RDMAEndpoint :=
  MkEndpoint "ns" name ∅ [MkOwnerReference "v1" "Pod" name uid (Some true) (Some true)] (MkEndpointStatus "node1" true 7 []).
Definition Marshal (o : RDMAEndpoint) : string := "{" +:+ EP_Namespace o +:+ "/" +:+ EP_Name o +:+ podUIDOf o +:+ "}".
Definition old : RDMAEndpoint := object "u0" "gone-0".
Definition publisher (e : publishedObject) : endpointPublisher :=
  MkPublisher "node1" hostSysfsPath 0 false {[ "u0" := e ]} None true.
Definition entry (name : string) : publishedObject := MkPublished "ns" name (endpointFingerprint Marshal (object "u0" name)) (Some 0).
End PublisherSample.

Lemma publisher_settles_witness :
  let s : server := {[ ("ns", "gone-0") := PublisherSample.old ]} in
  let n := PublisherSample.publisher (PublisherSample.entry "gone-0") in
  let new := PublisherSample.object "u1" "train-0" in
  ∃ n' calls rest, @publish canonical_order PublisherSample.Marshal 10 [new] n (MkApi [] []) = (n', MkApi calls rest) ∧
    settled PublisherSample.Marshal 10 (published n') (replay s calls) new ∧ replay s calls !! ("ns", "gone-0") = None.
Proof.
  cbn zeta. set (e := PublisherSample.entry "gone-0").
  destruct (@publisher_settles canonical_order PublisherSample.Marshal 10 (PublisherSample.publisher e) [PublisherSample.object "u1" "train-0"]
    {[ ("ns", "gone-0") := PublisherSample.old ]} []) as (n' & calls & rest & Hrun & Hset & Hgone & _).
  - constructor.
  - apply NoDup_singleton.
  - apply NoDup_singleton.
  - intros o. unfold endpointFingerprint, PublisherSample.Marshal. done.
  - intros uid e' He' _. cbn [published PublisherSample.publisher] in He'. apply lookup_singleton_Some in He' as [<- <-]. exists PublisherSample.old. split; [by rewrite lookup_singleton_eq|done].
  - intros o uid e' ->%list_elem_of_singleton _ He'. cbn [published PublisherSample.publisher] in He'. apply lookup_singleton_Some in He' as [<- <-]. done.
  - intros u1 u2 e1 e2 H1 H2 _. cbn [published PublisherSample.publisher] in H1, H2.
    apply lookup_singleton_Some in H1 as [<- _], H2 as [<- _]. done.
  - exists n', calls, rest. split; [exact Hrun|]. split; [by apply Hset; [set_solver|]|].
    apply (Hgone "u0" e); [done|]. intros Hin. apply list_elem_of_singleton in Hin. done.
Defined.

(** A Pod that was recreated under its name (a StatefulSet restarts it) between two runs loses its
    object: the run applies the object of the new Pod and then deletes the object of that name
    because the old UID is gone, and the next run does not apply it again. *)
Lemma recreated_pod_loses_endpoint :
  let new := PublisherSample.object "u1" "train-0" in
  let n := PublisherSample.publisher (PublisherSample.entry "train-0") in
  let '(n', a) := @publish canonical_order PublisherSample.Marshal 10 [new] n (MkApi [] []) in
  made a = [(ApplyMetadata new, Ok); (ApplyStatus new, Ok); (Delete "ns" "train-0", Ok)] ∧
  replay {[ ("ns", "train-0") := PublisherSample.object "u0" "train-0" ]} (made a) !! ("ns", "train-0") = None ∧
  (@publish canonical_order PublisherSample.Marshal 20 [new] n' (MkApi [] [])).2 = MkApi [] [].
Proof. vm_compute. done. Qed.
