(* ===== verification/EbpfReportProperties.v ===== *)
(** * Properties of reporting

    Sums over maps, the effect of a round of src/pkg/agent/ebpfflow/component.go on the
    counters and baselines of metrics.go, and the totals of any number of rounds. *)
From Stdlib Require Import ZArith.
From stdpp Require Import base gmap list numbers strings sorting.
From S2P Require Import Prelude GoStrings GoNumbers GoText GoNet GoPath EbpfResolve EbpfEndpoint EbpfReport.
Local Open Scope Z_scope.

Lemma filter_none {A} (P : A → Prop) `{∀ x, Decision (P x)} l : (∀ x, x ∈ l → ~ P x) → filter P l = [].
Proof. induction l as [|x l IH]; intros Hl; [done|]. rewrite filter_cons, decide_False by (apply Hl; set_solver). apply IH. set_solver. Qed.

(** ** Sums over maps *)
Section sums.
Context {K V : Type} `{Countable K}.
Implicit Types (m : gmap K V) (f g : K → V → Z).

Definition sum_map f m : Z := foldr (fun e acc => f e.1 e.2 + acc) 0 (map_to_list m).

Lemma foldr_sum_perm (h : K * V → Z) l1 l2 : l1 ≡ₚ l2 → foldr (fun e acc => h e + acc) 0 l1 = foldr (fun e acc => h e + acc) 0 l2.
Proof. induction 1; cbn; lia. Qed.

Lemma sum_map_empty f : sum_map f ∅ = 0.
Proof. unfold sum_map. by rewrite map_to_list_empty. Qed.

Lemma sum_map_new f m k x : m !! k = None → sum_map f (<[k := x]> m) = f k x + sum_map f m.
Proof. intros Hk. unfold sum_map. by rewrite (foldr_sum_perm _ _ _ (map_to_list_insert m k x Hk)). Qed.

Lemma sum_map_insert f m k x : sum_map f (<[k := x]> m) = sum_map f m - from_option (f k) 0 (m !! k) + f k x.
Proof.
  destruct (m !! k) as [y|] eqn:Hk; cbn; [|rewrite sum_map_new by done; lia].
  rewrite <-(insert_delete_id m k y Hk) at 2. rewrite <-insert_delete_eq.
  rewrite !sum_map_new by apply lookup_delete_eq. lia.
Qed.

Lemma sum_map_ext f g m : (∀ k x, m !! k = Some x → f k x = g k x) → sum_map f m = sum_map g m.
Proof.
  intros Hfg. unfold sum_map. assert (∀ e, e ∈ map_to_list m → f e.1 e.2 = g e.1 e.2) as Hl.
  { intros [k x] He%elem_of_map_to_list. by apply Hfg. }
  induction (map_to_list m) as [|e l IH]; cbn; [done|]. rewrite Hl by set_solver. rewrite IH; [done|]. set_solver.
Qed.

Lemma sum_map_plus f g m : sum_map (fun k x => f k x + g k x) m = sum_map f m + sum_map g m.
Proof. unfold sum_map. induction (map_to_list m) as [|e l IH]; cbn; [done|]. rewrite IH. lia. Qed.

(** Functions that differ at one key. *)
Lemma sum_map_update f g m k :
  (∀ k' x, k' ≠ k → f k' x = g k' x) → sum_map g m = sum_map f m - from_option (f k) 0 (m !! k) + from_option (g k) 0 (m !! k).
Proof.
  intros Hne. destruct (m !! k) as [y|] eqn:Hk; cbn.
  - rewrite <-(insert_delete_id m k y Hk). rewrite !sum_map_new by apply lookup_delete_eq.
    rewrite (sum_map_ext f g (base.delete k m)); [lia|]. intros k' x Hx. apply Hne. intros ->. by rewrite lookup_delete_eq in Hx.
  - rewrite (sum_map_ext f g m); [lia|]. intros k' x Hx. apply Hne. congruence.
Qed.

Lemma sum_map_filter f (P : K * V → Prop) `{∀ e, Decision (P e)} m :
  sum_map f (filter P m) = sum_map (fun k x => if decide (P (k, x)) then f k x else 0) m.
Proof.
  induction m as [|k x m Hk IH] using map_ind; [by rewrite map_filter_empty, !sum_map_empty|].
  rewrite (sum_map_new _ m) by done. rewrite <-IH. destruct (decide (P (k, x))) as [HP|HP].
  - rewrite map_filter_insert_True by done. apply sum_map_new. apply map_lookup_filter_None. auto.
  - rewrite map_filter_insert_False, delete_id by done. lia.
Qed.
End sums.

(** ** Counters *)
Definition total (v : vec) : Z := sum_map (fun _ x => x) v.

Lemma total_add labels x v : total (vec_add labels x v) = total v + x.
Proof. unfold total, vec_add. rewrite sum_map_insert. destruct (v !! labels); cbn; lia. Qed.

(** The totals are taken of bytes or of work requests. *)
Record measure := MkMeasure {
  weight : qpStat → Z;
  counter : flowMetrics → vec
}.

Definition byte_measure : measure := MkMeasure Bytes m_bytes.
Definition wr_measure : measure := MkMeasure WRs m_wrs.

Definition goes_on (prev st : qpStat) : Prop := Bytes prev ≤ Bytes st ∧ WRs prev ≤ WRs st.
#[export] Instance goes_on_dec prev st : Decision (goes_on prev st).
Proof. unfold goes_on. apply _. Defined.

Definition nonneg (st : qpStat) : Prop := 0 ≤ Bytes st ∧ 0 ≤ WRs st.

Section measured.
Context (w : measure) (Hw : w = byte_measure ∨ w = wr_measure).

(** What was counted for the queue pairs whose totals started again or that are gone. *)
Definition ended_at (last : gmap qpKey qpStat) (k : qpKey) (prev : qpStat) : Z :=
  match last !! k with
  | Some st => if decide (goes_on prev st) then 0 else weight w prev
  | None => weight w prev
  end.

Definition ended (last0 last : gmap qpKey qpStat) : Z := sum_map (ended_at last) last0.

Definition counted (last : gmap qpKey qpStat) : Z := sum_map (fun _ st => weight w st) last.

Lemma observe_total key st src dst ends m :
  nonneg st →
  let '(m', recorded) := observe key st src dst ends m in
  recorded = isPod src && isPod dst ∧
  m_last m' = (if recorded then <[key := st]> (m_last m) else m_last m) ∧
  total (counter w m') = total (counter w m) +
    (if recorded then weight w st - (if decide (goes_on (default zeroQpStat (m_last m !! key)) st) then weight w (default zeroQpStat (m_last m !! key)) else 0)
     else 0).
Proof.
  intros Hst. unfold observe. destruct (isPod src), (isPod dst); cbn [negb orb andb]; try (split_and!; done || lia).
  unfold delta. fold (goes_on (default zeroQpStat (m_last m !! key)) st). set (prev := default zeroQpStat (m_last m !! key)).
  unfold nonneg in Hst. destruct (decide (goes_on prev st)) as [[Hb Hr]|Hno]; (split; [done|]; split; [done|]);
    destruct Hw as [-> | ->]; cbn [counter weight byte_measure wr_measure m_bytes m_wrs]; case_decide; rewrite ?total_add; lia.
Qed.

(** Recording a queue pair that has not been recorded in this round. *)
Lemma ended_insert last0 last key st :
  last !! key = last0 !! key →
  ended last0 (<[key := st]> last) = ended last0 last + from_option (fun prev => if decide (goes_on prev st) then 0 else weight w prev) 0 (last0 !! key).
Proof.
  intros Hsame. unfold ended. rewrite (sum_map_update (ended_at last) (ended_at (<[key := st]> last)) last0 key).
  - destruct (last0 !! key) as [prev|] eqn:Hk; cbn; [|lia]. unfold ended_at. rewrite lookup_insert_eq, Hsame.
    rewrite (decide_True (P := goes_on prev prev)) by (unfold goes_on; lia). lia.
  - intros k' x Hne. unfold ended_at. by rewrite lookup_insert_ne.
Qed.

(** Dropping the baselines of the queue pairs that were not seen. *)
Lemma ended_filter last0 last (seen : gset qpKey) :
  (∀ k, k ∉ seen → last !! k = last0 !! k) →
  counted (filter (fun e => e.1 ∈ seen) last) + ended last0 (filter (fun e => e.1 ∈ seen) last) = counted last + ended last0 last.
Proof.
  intros Hsame. unfold counted, ended. rewrite (sum_map_filter (fun _ st => weight w st)).
  set (out := fun (k : qpKey) (x : qpStat) => if decide (k ∈ seen) then 0 else weight w x).
  assert (sum_map (fun _ st => weight w st) last =
    sum_map (fun k x => if decide (k ∈ seen) then weight w x else 0) last + sum_map out last) as ->.
  { rewrite <-sum_map_plus. apply sum_map_ext. intros k x _. unfold out. case_decide; lia. }
  assert (sum_map (ended_at (filter (fun e => e.1 ∈ seen) last)) last0 = sum_map (ended_at last) last0 + sum_map out last0) as ->.
  { rewrite <-sum_map_plus. apply sum_map_ext. intros k x Hk. unfold ended_at, out. rewrite map_lookup_filter.
    destruct (decide (k ∈ seen)) as [Hs|Hs].
    - destruct (last !! k); cbn; [|lia]. rewrite option_guard_True by done. cbn. lia.
    - rewrite Hsame, Hk by done. cbn. rewrite option_guard_False by done. rewrite decide_True by (unfold goes_on; lia). cbn. lia. }
  assert (sum_map out last = sum_map out last0) as ->; [|cbn; lia].
  assert (∀ m, sum_map out m = sum_map (fun _ st => weight w st) (filter (fun e => e.1 ∉ seen) m)) as Hout.
  { intros m. rewrite sum_map_filter. apply sum_map_ext. intros k x _. unfold out. cbn. repeat case_decide; done. }
  rewrite !Hout. f_equal. apply map_eq. intros k. rewrite !map_lookup_filter. destruct (decide (k ∈ seen)) as [Hs|Hs].
  - destruct (last !! k), (last0 !! k); cbn; rewrite ?option_guard_False by auto; done.
  - by rewrite Hsame.
Qed.
End measured.

(** ** Counters *)
Section rounds.
Context `{RangeOrder} (cgroup : Z → option string) (w : measure) (Hw : w = byte_measure ∨ w = wr_measure).

(** What was counted beyond the baselines and the ended queue pairs. *)
Definition excess (last0 : gmap qpKey qpStat) (m : flowMetrics) : Z :=
  total (counter w m) - counted w (m_last m) - ended w last0 (m_last m).

Lemma reportStat_step ix rs key st last0 :
  nonneg st → m_last (rs_metrics rs) !! key = last0 !! key →
  let rs' := reportStat cgroup ix rs (key, st) in
  excess last0 (rs_metrics rs') = excess last0 (rs_metrics rs) ∧
  rs_seen rs' = {[ key ]} ∪ rs_seen rs ∧
  (∀ k, k ≠ key → m_last (rs_metrics rs') !! k = m_last (rs_metrics rs) !! k ∧ rs_attribution rs' !! k = rs_attribution rs !! k) ∧
  ∃ att, rs_attribution rs' !! key = Some att ∧
    m_last (rs_metrics rs') !! key = (if isPod (at_src att) && isPod (at_dst att) then Some st else last0 !! key).
Proof.
  intros Hst Hlast. cbn zeta. unfold reportStat.
  destruct (from_option _ _ _) as [dst dstDev]. destruct (podForTgid _ _ _ _) as [src res].
  set (ends := MkEnds _ dstDev). pose proof (observe_total w Hw key st src dst ends (rs_metrics rs) Hst) as Hobs.
  destruct (observe key st src dst ends (rs_metrics rs)) as [m' recorded]. destruct Hobs as (-> & Hl & Ht).
  cbn [rs_metrics rs_seen rs_attribution]. rewrite lookup_insert_eq. split_and!.
  - unfold excess, counted. rewrite Ht, Hl. destruct (isPod src && isPod dst); [|lia].
    rewrite sum_map_insert, ended_insert by done. rewrite Hlast. destruct (last0 !! key) as [prev|]; cbn.
    + destruct (decide (goes_on prev st)); lia.
    + rewrite decide_True by (unfold goes_on, nonneg in *; cbn; lia). destruct Hw as [-> | ->]; cbn; lia.
  - done.
  - intros k Hk. rewrite Hl. split; [|by rewrite lookup_insert_ne]. destruct (isPod src && isPod dst); [by rewrite lookup_insert_ne|done].
  - eexists. split; [done|]. cbn [at_src at_dst]. rewrite Hl. destruct (isPod src && isPod dst); [by rewrite lookup_insert_eq|done].
Qed.

Lemma reportStat_loop ix l rs last0 :
  NoDup l.*1 → Forall (fun e => nonneg e.2) l → (∀ k, k ∈ l.*1 → m_last (rs_metrics rs) !! k = last0 !! k) →
  let rs' := foldl (reportStat cgroup ix) rs l in
  excess last0 (rs_metrics rs') = excess last0 (rs_metrics rs) ∧
  rs_seen rs' = list_to_set l.*1 ∪ rs_seen rs ∧
  (∀ k, k ∉ l.*1 → m_last (rs_metrics rs') !! k = m_last (rs_metrics rs) !! k ∧ rs_attribution rs' !! k = rs_attribution rs !! k) ∧
  (∀ key st, (key, st) ∈ l → ∃ att, rs_attribution rs' !! key = Some att ∧
    m_last (rs_metrics rs') !! key = (if isPod (at_src att) && isPod (at_dst att) then Some st else last0 !! key)).
Proof.
  revert rs. induction l as [|[key st] l IH]; intros rs Hnd Hnn Hlast; cbn zeta; cbn [foldl].
  { split_and!; [done|set_solver|done|set_solver]. }
  cbn in Hnd. apply NoDup_cons in Hnd as [Hni Hnd]. apply Forall_cons in Hnn as [Hst Hnn]. cbn [snd] in Hst.
  destruct (reportStat_step ix rs key st last0 Hst) as (E1 & S1 & F1 & att & A1 & L1); [apply Hlast; set_solver|].
  destruct (IH (reportStat cgroup ix rs (key, st)) Hnd Hnn) as (E2 & S2 & F2 & L2).
  { intros k Hk. destruct (F1 k) as [-> _]; [set_solver|]. apply Hlast. set_solver. }
  split_and!.
  - by rewrite E2.
  - rewrite S2, S1. cbn. set_solver.
  - intros k Hk. cbn in Hk. destruct (F2 k) as [-> ->]; [set_solver|]. apply F1. set_solver.
  - intros k s [[= -> ->]|Hin]%elem_of_cons; [|by apply L2]. exists att. destruct (F2 key Hni) as [-> ->]. by split.
Qed.

(** A round whose iteration over the statistics was complete. *)
Lemma reportRound_balance stats infos res m res' m' attribution :
  NoDup (entries stats).*1 → Forall (fun e => nonneg e.2) (entries stats) →
  reportRound cgroup stats infos res m = (res', m', attribution) →
  total (counter w m') - counted w (m_last m') = total (counter w m) - counted w (m_last m) + ended w (m_last m) (m_last m') ∧
  (∀ key st, (key, st) ∈ entries stats → ∃ att, attribution !! key = Some att ∧
    m_last m' !! key = (if isPod (at_src att) && isPod (at_dst att) then Some st else m_last m !! key)).
Proof.
  intros Hnd Hnn Hround. unfold reportRound in Hround. set (ix := infoIndex (entries infos)) in *.
  set (rs0 := MkReport res (beginReport m) ∅ ∅ ∅ _) in *.
  destruct (reportStat_loop ix (entries stats) rs0 (m_last m) Hnd Hnn) as (E & S & F & L); [done|].
  set (rs := foldl (reportStat cgroup ix) rs0 (entries stats)) in *.
  assert (∀ l st, (∀ k at_, st.2 !! k = Some at_ → (foldl (attributeInfo cgroup) st l).2 !! k = Some at_)) as Hkeep.
  { clear. induction l as [|[k i] l IH]; intros [r a] k' at_ Hk; cbn [foldl]; [done|]. apply IH. unfold attributeInfo.
    destruct (a !! k) eqn:Ha; [done|]. destruct (destination r i) as [d dd]. destruct (podForTgid _ _ _ _) as [s r']. cbn in *.
    rewrite lookup_insert_ne by congruence. done. }
  specialize (Hkeep (range (exact ix)) (rs_res rs, rs_attribution rs)).
  destruct (foldl (attributeInfo cgroup) _ _) as [res1 attr1]. injection Hround as <- <- <-. cbn [snd] in Hkeep.
  assert (rs_seen rs = list_to_set (entries stats).*1) as Hseen by (rewrite S; cbn; set_solver).
  assert (∀ k, k ∉ rs_seen rs → m_last (rs_metrics rs) !! k = m_last m !! k) as Hout.
  { intros k Hk. rewrite Hseen in Hk. destruct (F k) as [-> _]; [set_solver|done]. }
  split.
  - pose proof (ended_filter w (m_last m) (m_last (rs_metrics rs)) (rs_seen rs) Hout) as Hf.
    unfold endReport. cbn [m_last]. assert (counter w (MkMetrics (m_bytes (rs_metrics rs)) (m_wrs (rs_metrics rs)) (m_qps (rs_metrics rs))
      (m_sends (rs_metrics rs)) (m_sendSizes (rs_metrics rs)) (MkSummary (sum_infos (rs_summary rs)) (sum_stats (rs_summary rs))
        (sum_matched (rs_summary rs)) (sum_unmatched (rs_summary rs)) (sum_unresolved (rs_summary rs)) (Z.of_nat (size (rs_flows rs))))
      (filter (fun e => e.1 ∈ rs_seen rs) (m_last (rs_metrics rs)))) = counter w (rs_metrics rs)) as -> by (destruct Hw as [-> | ->]; done).
    unfold excess in E. assert (counter w (beginReport m) = counter w m) as Hb by (destruct Hw as [-> | ->]; done).
    cbn [rs_metrics rs0] in E. rewrite Hb in E. cbn [beginReport m_last] in E.
    assert (ended w (m_last m) (m_last m) = 0) as H0.
    { unfold ended. rewrite (sum_map_ext _ (fun _ _ => 0)); [unfold sum_map; by induction (map_to_list (m_last m))|].
      intros k x Hk. unfold ended_at. rewrite Hk, decide_True; [done|unfold goes_on; lia]. }
    lia.
  - intros key st Hin. destruct (L key st Hin) as (att & Ha & Hl). exists att. split; [by apply Hkeep|].
    unfold endReport. cbn [m_last]. rewrite map_lookup_filter. rewrite Hl. destruct (if isPod _ && isPod _ then _ else _) eqn:Hx; cbn; [|done].
    rewrite option_guard_True; [done|]. rewrite Hseen. apply elem_of_list_to_set, list_elem_of_fmap. exists (key, st). by split.
Qed.
End rounds.

Lemma reportRound_unseen `{RangeOrder} cgroup stats infos res m res' m' attribution k :
  reportRound cgroup stats infos res m = (res', m', attribution) → (k ∉ (entries stats).*1) → m_last m' !! k = None.
Proof.
  intros Hround Hk. unfold reportRound in Hround. set (ix := infoIndex (entries infos)) in *. set (rs0 := MkReport res _ ∅ ∅ ∅ _) in *.
  assert (∀ l rs, rs_seen (foldl (reportStat cgroup ix) rs l) = list_to_set l.*1 ∪ rs_seen rs) as Hseen.
  { clear. induction l as [|[key st] l IH]; intros rs; cbn [foldl]; [set_solver|]. rewrite IH. unfold reportStat.
    destruct (from_option _ _ _), (podForTgid _ _ _ _), (observe _ _ _ _ _ _). cbn. set_solver. }
  specialize (Hseen (entries stats) rs0). destruct (foldl (attributeInfo cgroup) _ _) as [res1 attr1]. injection Hround as <- <- <-.
  unfold endReport. cbn [m_last]. apply map_lookup_filter_None. right. intros x _. cbn. rewrite Hseen. cbn. set_solver.
Qed.

(** ** What should be counted

    The totals a queue pair reached: [Some st] is a round that attributed it at totals [st], [None] a round that found it gone.
    A total is reached when the queue pair goes, when its totals start again, and at the end. *)
Fixpoint peaks (cur : option qpStat) (l : list (option qpStat)) : list qpStat :=
  match l with
  | [] => option_list cur
  | None :: l => option_list cur ++ peaks None l
  | Some st :: l =>
    match cur with
    | Some prev => if decide (goes_on prev st) then peaks (Some st) l else prev :: peaks (Some st) l
    | None => peaks (Some st) l
    end
  end.

Definition credit (w : measure) (l : list (option qpStat)) : Z := foldr (fun st acc => weight w st + acc) 0 (peaks None l).

Example credit_ex :
  let st b := Some (MkQpStat b 1) in
  credit byte_measure [st 100; st 500; st 500; None; st 40; st 30; st 70] = 500 + 40 + 70.
Proof. reflexivity. Qed.

(** A round: the entries of the BPF map, and the attribution it published. *)
Definition round : Type := gmap qpKey qpStat * gmap qpKey qpAttribution.

Definition attributed (A : gmap qpKey qpAttribution) (k : qpKey) : bool :=
  from_option (fun att => isPod (at_src att) && isPod (at_dst att)) false (A !! k).

(** The samples of a queue pair; a round that could not attribute it is none. *)
Definition sample (k : qpKey) (r : round) : list (option qpStat) :=
  match r.1 !! k with
  | None => [None]
  | Some st => if attributed r.2 k then [Some st] else []
  end.

Definition samples (k : qpKey) (rounds : list round) : list (option qpStat) := rounds ≫= sample k.

(** An iteration over the map [M]: it yields entries of [M], each key once, and all of them unless it ends with an error. *)
Definition iterates (stats : iteration qpStat) (M : gmap qpKey qpStat) : Prop :=
  NoDup (entries stats).*1 ∧ (∀ k st, (k, st) ∈ entries stats → M !! k = Some st) ∧
  (aborted stats = false → ∀ k, is_Some (M !! k) → k ∈ (entries stats).*1).

(** The reports of an agent. *)
Inductive history `{RangeOrder} : list round → flowMetrics → Prop :=
| history_start : history [] newFlowMetrics
| history_round rounds m cgroup M stats infos res res' m' attribution :
    history rounds m → iterates stats M → aborted stats = false → Forall (fun e => nonneg e.2) (entries stats) →
    reportRound cgroup stats infos res m = (res', m', attribution) →
    history (rounds ++ [(M, attribution)]) m'.

(** ** The totals of a history *)

(** The last sample and the weight of the peaks before it. *)
Definition scan_step (w : measure) (st : option qpStat * Z) (o : option qpStat) : option qpStat * Z :=
  (o, st.2 + from_option (fun prev => match o with Some s => if decide (goes_on prev s) then 0 else weight w prev | None => weight w prev end) 0 st.1).

Definition scan (w : measure) (l : list (option qpStat)) : option qpStat * Z := foldl (scan_step w) (None, 0) l.

Lemma credit_scan w l : credit w l = (scan w l).2 + from_option (weight w) 0 (scan w l).1.
Proof.
  unfold credit, scan.
  assert (∀ cur z, foldr (fun st acc => weight w st + acc) 0 (peaks cur l) + z =
    (foldl (scan_step w) (cur, z) l).2 + from_option (weight w) 0 (foldl (scan_step w) (cur, z) l).1) as Hg; [|by rewrite <-Hg, Z.add_0_r].
  induction l as [|[st|] l IH]; intros cur z; cbn [peaks foldl]; [destruct cur; cbn; lia|..].
  - etrans; [|apply IH]. destruct cur as [prev|]; cbn; [|lia]. case_decide; cbn; lia.
  - etrans; [|apply IH]. destruct cur as [prev|]; cbn; lia.
Qed.

Lemma samples_snoc k rounds r : samples k (rounds ++ [r]) = samples k rounds ++ sample k r.
Proof. unfold samples. rewrite bind_app. cbn. by rewrite app_nil_r. Qed.

(** Sums over a set of keys. *)
Definition sum_keys (keys : gset qpKey) (f : qpKey → Z) : Z := sum_map (fun k (_ : unit) => f k) (gset_to_gmap () keys).

Lemma sum_keys_ext keys f g : (∀ k, k ∈ keys → f k = g k) → sum_keys keys f = sum_keys keys g.
Proof. intros Hfg. apply sum_map_ext. intros k [] Hk%lookup_gset_to_gmap_Some. apply Hfg. tauto. Qed.

Lemma sum_keys_plus keys f g : sum_keys keys (fun k => f k + g k) = sum_keys keys f + sum_keys keys g.
Proof. apply sum_map_plus. Qed.

Lemma sum_map_keys (keys : gset qpKey) (f : qpKey → qpStat → Z) (m : gmap qpKey qpStat) :
  dom m ⊆ keys → sum_map f m = sum_keys keys (fun k => from_option (f k) 0 (m !! k)).
Proof.
  induction m as [|k x m Hk IH] using map_ind; intros Hd.
  - rewrite sum_map_empty. unfold sum_keys. rewrite (sum_map_ext _ (fun _ _ => 0)); [|intros; by rewrite lookup_empty].
    unfold sum_map. by induction (map_to_list _).
  - rewrite sum_map_new, IH by (done || set_solver). unfold sum_keys.
    rewrite (sum_map_update (fun k' (_ : unit) => from_option (f k') 0 (m !! k')) (fun k' (_ : unit) => from_option (f k') 0 (<[k := x]> m !! k')) _ k).
    + rewrite (proj2 (lookup_gset_to_gmap_Some () keys k ())) by (split; [set_solver|done]). cbn. rewrite lookup_insert_eq, Hk. cbn. lia.
    + intros k' u Hne. by rewrite lookup_insert_ne.
Qed.

Section history.
Context `{RangeOrder}.

(** The baselines after a round that saw the whole map. *)
Lemma round_baseline cgroup M stats infos res m res' m' attribution k :
  iterates stats M → aborted stats = false → Forall (fun e => nonneg e.2) (entries stats) →
  reportRound cgroup stats infos res m = (res', m', attribution) →
  m_last m' !! k = match M !! k with None => None | Some st => if attributed attribution k then Some st else m_last m !! k end.
Proof.
  intros (Hnd & HM & Hall) Hab Hnn Hround.
  destruct (reportRound_balance cgroup byte_measure (or_introl eq_refl) _ _ _ _ _ _ _ Hnd Hnn Hround) as [_ Hl].
  destruct (M !! k) as [st|] eqn:Hk.
  - destruct (proj1 (list_elem_of_fmap _ _ _) (Hall Hab k ltac:(eauto))) as ([k' st'] & Heq & Hin). cbn in Heq. subst k'.
    assert (st' = st) as -> by (apply HM in Hin; congruence). destruct (Hl k st Hin) as (att & Ha & ->). unfold attributed. by rewrite Ha.
  - eapply reportRound_unseen; [exact Hround|]. intros ([k' st] & -> & Hin)%list_elem_of_fmap. apply HM in Hin. cbn in *. congruence.
Qed.

Lemma history_last rounds m k : history rounds m → ∀ w, (scan w (samples k rounds)).1 = m_last m !! k.
Proof.
  induction 1 as [|rounds m cgroup M stats infos res res' m' attribution _ IH Hit Hab Hnn Hround]; intros w; [by cbn; rewrite lookup_empty|].
  rewrite samples_snoc, (round_baseline _ _ _ _ _ _ _ _ _ k Hit Hab Hnn Hround). unfold scan, sample. cbn [fst snd]. rewrite foldl_app.
  destruct (M !! k) as [st|]; [|done]. destruct (attributed attribution k); [done|]. cbn. apply IH.
Qed.

Lemma history_dom rounds m (keys : gset qpKey) :
  history rounds m → (∀ r, r ∈ rounds → dom r.1 ⊆ keys) → dom (m_last m) ⊆ keys.
Proof.
  destruct 1 as [|rounds m cgroup M stats infos res res' m' attribution _ Hit Hab Hnn Hround]; [set_solver|]. intros Hd k Hk.
  apply elem_of_dom in Hk. rewrite (round_baseline _ _ _ _ _ _ _ _ _ k Hit Hab Hnn Hround) in Hk.
  destruct (M !! k) as [st|] eqn:HM; [|by destruct Hk]. apply (Hd (M, attribution)); [set_solver|]. apply elem_of_dom. eauto.
Qed.

(** Over a round the peaks that are past grow by what [ended] says. *)
Lemma scan_ended w rounds m cgroup M stats infos res res' m' attribution (keys : gset qpKey) :
  history rounds m → (∀ r, r ∈ rounds → dom r.1 ⊆ keys) → iterates stats M → aborted stats = false →
  Forall (fun e => nonneg e.2) (entries stats) → reportRound cgroup stats infos res m = (res', m', attribution) →
  sum_keys keys (fun k => (scan w (samples k (rounds ++ [(M, attribution)]))).2) =
  sum_keys keys (fun k => (scan w (samples k rounds)).2) + ended w (m_last m) (m_last m').
Proof.
  intros Hh Hd Hit Hab Hnn Hround. unfold ended. rewrite (sum_map_keys keys) by (by eapply history_dom).
  rewrite <-sum_keys_plus. apply sum_keys_ext. intros k _. rewrite samples_snoc. unfold scan. rewrite foldl_app. fold (scan w (samples k rounds)).
  pose proof (history_last rounds m k Hh w) as Hlast. destruct (scan w (samples k rounds)) as [cur z]. cbn in Hlast. subst cur. cbn [snd].
  pose proof (round_baseline _ _ _ _ _ _ _ _ _ k Hit Hab Hnn Hround) as Hb. unfold sample. cbn [fst snd]. unfold ended_at. rewrite Hb.
  destruct (M !! k) as [st|]; [destruct (attributed attribution k)|]; destruct (m_last m !! k) as [prev|]; cbn; try lia.
  rewrite decide_True by (unfold goes_on; lia). lia.
Qed.

Lemma history_total w rounds m (keys : gset qpKey) :
  w = byte_measure ∨ w = wr_measure → history rounds m → (∀ r, r ∈ rounds → dom r.1 ⊆ keys) →
  total (counter w m) = sum_keys keys (fun k => (scan w (samples k rounds)).2) + counted w (m_last m).
Proof.
  intros Hw. induction 1 as [|rounds m cgroup M stats infos res res' m' attribution Hh IH Hit Hab Hnn Hround]; intros Hd.
  - unfold sum_keys. rewrite (sum_map_ext _ (fun _ _ => 0)) by done. assert (total (counter w newFlowMetrics) = 0) as -> by (by destruct Hw as [-> | ->]).
    unfold counted. cbn [newFlowMetrics m_last]. rewrite sum_map_empty. unfold sum_map. by induction (map_to_list _).
  - assert (∀ r, r ∈ rounds → dom r.1 ⊆ keys) as Hd' by (intros r Hr; apply Hd; set_solver).
    rewrite (scan_ended w rounds m cgroup M stats infos res res' m' attribution keys) by done.
    pose proof Hit as (Hnd & _). destruct (reportRound_balance cgroup w Hw _ _ _ _ _ _ _ Hnd Hnn Hround) as [Hbal _].
    specialize (IH Hd'). lia.
Qed.
End history.

(** C36. Every queue pair is credited once: over any sequence of rounds whose iterations over the BPF map were complete,
    however long a queue pair stays unresolved, whatever flow it is attributed to in each round and whenever its totals start
    again, the bytes and the work requests of all flow counters together are the sum, over the queue pairs that were ever in
    the map, of the totals each had reached in the attributed rounds before it went, before its totals started again, and
    by the last round.  Every round attributes each queue pair it reads and moves its baseline to its current totals when
    both ends are Pods, and leaves it for a later round otherwise. *)
Theorem flow_totals `{RangeOrder} rounds m (keys : gset qpKey) :
  history rounds m → (∀ r, r ∈ rounds → dom r.1 ⊆ keys) →
  total (m_bytes m) = sum_keys keys (fun k => credit byte_measure (samples k rounds)) ∧
  total (m_wrs m) = sum_keys keys (fun k => credit wr_measure (samples k rounds)) ∧
  ∀ cgroup stats infos res res' m' attribution, NoDup (entries stats).*1 → Forall (fun e => nonneg e.2) (entries stats) →
    reportRound cgroup stats infos res m = (res', m', attribution) →
    ∀ key st, (key, st) ∈ entries stats → ∃ att, attribution !! key = Some att ∧
      m_last m' !! key = (if isPod (at_src att) && isPod (at_dst att) then Some st else m_last m !! key).
Proof.
  intros Hh Hd.
  assert (∀ w, w = byte_measure ∨ w = wr_measure → total (counter w m) = sum_keys keys (fun k => credit w (samples k rounds))) as Htotal.
  { intros w Hw. rewrite (history_total w rounds m keys Hw Hh Hd). unfold counted. rewrite (sum_map_keys keys) by (by eapply history_dom).
    rewrite <-sum_keys_plus. apply sum_keys_ext. intros k _. by rewrite credit_scan, (history_last rounds m k Hh w). }
  split; [apply (Htotal byte_measure); auto|]. split; [apply (Htotal wr_measure); auto|].
  intros cgroup stats infos res res' m' attribution Hnd Hnn Hround.
  apply (reportRound_balance cgroup byte_measure (or_introl eq_refl) _ _ _ _ _ _ _ Hnd Hnn Hround).
Qed.

Module ReportSample.
Definition pod (name : string) : peer := MkPeer "ns" name (MkOwnerInfo "Pod" "ns" name) "" false.
Definition uid : string := "0a1b2c3d-0000-1111-2222-0123456789ab".
Definition cgroup (_ : Z) : option string := Some ("0::/kubepods/pod" +:+ uid +:+ "/x").
Definition res : resolver := MkResolver true true None {[ uid := pod "a" ]} {[ "10.0.0.2" := pod "b" ]} ∅ ∅ ∅ ∅ ∅.
Definition info : qpInfo := MkQpInfo (v4InV6Prefix ++ [10; 0; 0; 2]) [] 9 0 1 1 (bytes "mlx5_0").
Definition key : qpKey := MkQpKey 100 7.
Definition infos : iteration qpInfo := MkIteration [(key, info)] false.
Definition stats (n : Z) : iteration qpStat := MkIteration [(key, MkQpStat n 1)] false.
Definition round (stats : iteration qpStat) (r : resolver) (m : flowMetrics) := @reportRound canonical_order cgroup stats infos r m.
End ReportSample.

Lemma flow_totals_witness :
  let M : gmap qpKey qpStat := {[ ReportSample.key := MkQpStat 500 1 ]} in
  let '(_, m, attribution) := ReportSample.round (ReportSample.stats 500) ReportSample.res newFlowMetrics in
  total (m_bytes m) = sum_keys {[ ReportSample.key ]} (fun k => credit byte_measure (samples k [(M, attribution)])) ∧ total (m_bytes m) = 500.
Proof.
  cbn zeta. destruct (ReportSample.round (ReportSample.stats 500) ReportSample.res newFlowMetrics) as [[r m] attr] eqn:Hr.
  split; [|vm_compute in Hr; injection Hr as _ <- _; vm_compute; reflexivity].
  apply (@flow_totals canonical_order [({[ ReportSample.key := MkQpStat 500 1 ]}, attr)] m {[ ReportSample.key ]}).
  - apply (history_round [] newFlowMetrics ReportSample.cgroup {[ ReportSample.key := MkQpStat 500 1 ]} (ReportSample.stats 500)
      ReportSample.infos ReportSample.res r m attr).
    + apply history_start.
    + split_and!; [apply NoDup_singleton| |].
      * intros k st [= -> ->]%list_elem_of_singleton. apply lookup_singleton_eq.
      * intros _ k [st [<- _]%lookup_singleton_Some]. apply list_elem_of_singleton. reflexivity.
    + reflexivity.
    + apply Forall_singleton. unfold nonneg. cbn. lia.
    + exact Hr.
  - intros x ->%list_elem_of_singleton. cbn [fst]. rewrite dom_singleton. reflexivity.
Defined.

(** When the iteration over the statistics ends with an error before it reaches a queue pair, the
    round drops its baseline, and the next one adds its whole total again: 500 bytes are counted
    as 1000. *)
Lemma aborted_iteration_counts_twice :
  let '(r1, m1, _) := ReportSample.round (ReportSample.stats 500) ReportSample.res newFlowMetrics in
  let '(r2, m2, _) := ReportSample.round (MkIteration [] true) r1 m1 in
  let '(_, m3, _) := ReportSample.round (ReportSample.stats 500) r2 m2 in
  total (m_bytes m1) = 500 ∧ total (m_bytes m3) = 1000.
Proof. vm_compute. done. Qed.

(** A process that gets the number of an exited one is attributed to the Pod of the old process:
    the UID of a process is never read again. *)
Lemma reused_pid_keeps_pod :
  let other := "11111111-0000-1111-2222-0123456789ab" in
  let '(p1, r1) := podForTgid ReportSample.cgroup 100 "" ReportSample.res in
  let '(p2, _) := podForTgid (fun _ => Some ("0::/kubepods/pod" +:+ other +:+ "/x")) 100 "" r1 in
  p1 = ReportSample.pod "a" ∧ p2 = ReportSample.pod "a".
Proof. vm_compute. done. Qed.

(** ** Joining statistics with destinations *)
Definition same_qpn (q : Z) (l : list (qpKey * qpInfo)) : list (qpKey * qpInfo) := filter (fun e => QPN e.1 = q) l.

Lemma infoIndex_spec l :
  let ix := infoIndex l in
  (∀ q, byQPN ix !! q = snd <$> head (same_qpn q l)) ∧ (∀ q, q ∈ ambiguous ix ↔ (2 ≤ length (same_qpn q l))%nat) ∧
  (∀ k, exact ix !! k = snd <$> list.last (filter (fun e => e.1 = k) l)).
Proof.
  unfold infoIndex. induction l as [|[k i] l IH] using rev_ind; [cbn; split_and!; [done|intros q; split; [set_solver|lia]|done]|].
  rewrite foldl_app. cbn [foldl fst snd]. set (ix := foldl _ _ l) in *. destruct IH as (Hq & Ha & He). cbn zeta. unfold index_add.
  assert (∀ q, same_qpn q (l ++ [(k, i)]) = same_qpn q l ++ (if decide (QPN k = q) then [(k, i)] else [])) as Happ.
  { intros q. unfold same_qpn. by rewrite filter_app, filter_cons, filter_nil. }
  assert (∀ k', filter (fun e : qpKey * qpInfo => e.1 = k') (l ++ [(k, i)]) = filter (fun e => e.1 = k') l ++ (if decide (k = k') then [(k, i)] else [])) as Happk.
  { intros k'. by rewrite filter_app, filter_cons, filter_nil. }
  assert (∀ k', <[k := i]> (exact ix) !! k' = snd <$> list.last (filter (fun e => e.1 = k') (l ++ [(k, i)]))) as Hexact.
  { intros k'. rewrite Happk. destruct (decide (k = k')) as [<-|Hne]; [by rewrite lookup_insert_eq, last_snoc|].
    by rewrite lookup_insert_ne, app_nil_r. }
  pose proof (Hq (QPN k)) as Hk. destruct (byQPN ix !! QPN k) as [i0|] eqn:Hby; cbn [byQPN ambiguous exact]; (split_and!; [| |done]); intros q;
    rewrite Happ; destruct (decide (QPN k = q)) as [<-|Hne]; rewrite ?app_nil_r.
  - destruct (same_qpn (QPN k) l); [done|]. cbn. by rewrite Hby.
  - apply Hq.
  - rewrite length_app. cbn. destruct (same_qpn (QPN k) l); [done|]. cbn. split; [lia|set_solver].
  - rewrite <-Ha. set_solver.
  - rewrite lookup_insert_eq. by destruct (same_qpn (QPN k) l).
  - by rewrite lookup_insert_ne.
  - rewrite Ha. destruct (same_qpn (QPN k) l); [cbn; lia|done].
  - apply Ha.
Qed.

Lemma index_lookup_spec l key :
  index_lookup (infoIndex l) key =
    match list.last (filter (fun e => e.1 = key) (same_qpn (QPN key) l)) with
    | Some e => Some e.2
    | None => match same_qpn (QPN key) l with [e] => Some e.2 | _ => None end
    end.
Proof.
  destruct (infoIndex_spec l) as (Hq & Ha & He). unfold index_lookup. rewrite He.
  assert (filter (fun e => e.1 = key) l = filter (fun e => e.1 = key) (same_qpn (QPN key) l)) as ->.
  { unfold same_qpn. rewrite list_filter_filter. apply list_filter_iff. naive_solver. }
  destruct (list.last _); cbn; [done|]. rewrite Hq. pose proof (Ha (QPN key)) as Hlen.
  destruct (same_qpn (QPN key) l) as [|e [|e' l']]; cbn in *; case_decide as Hin; try done; destruct Hlen as [Hl1 Hl2];
    [specialize (Hl1 Hin); lia|destruct Hin; apply Hl2; lia].
Qed.

(** The join and the cleanup fit together: statistics of a queue pair get the destination
    recorded under their own key, else the only one recorded under their queue pair number (a
    queue pair created by a parent process), and none when several processes recorded that
    number.  The cleanup removes exactly the statistics of exited processes, and only infos of
    exited processes; and the statistics of every live process find the same destination after
    the cleanup as before. *)
Theorem join_survives_cleanup tgidAlive stats infos :
  NoDup (entries infos).*1 → aborted stats = false →
  let l := entries infos in
  (∀ key info, (key, info) ∈ l → index_lookup (infoIndex l) key = Some info) ∧
  (∀ key, key ∉ l.*1 → index_lookup (infoIndex l) key = match same_qpn (QPN key) l with [e] => Some e.2 | _ => None end) ∧
  let '(goneStats, goneInfos, removed) := cleanupDeadQPs tgidAlive stats infos in
  (∀ key, key ∈ goneStats ↔ key ∈ (entries stats).*1 ∧ tgidAlive (Tgid key) = false) ∧
  (∀ key, key ∈ goneInfos → tgidAlive (Tgid key) = false) ∧ (removed = true ↔ goneInfos ≠ []) ∧
  ∀ key st, (key, st) ∈ entries stats → tgidAlive (Tgid key) = true →
    index_lookup (infoIndex (filter (fun e => e.1 ∉ goneInfos) l)) key = index_lookup (infoIndex l) key.
Proof.
  intros Hnd Hab l. split_and!.
  - intros key info Hin. rewrite index_lookup_spec.
    assert (filter (fun e => e.1 = key) (same_qpn (QPN key) l) = [(key, info)]) as ->; [|done].
    unfold same_qpn. rewrite list_filter_filter. revert Hnd Hin. unfold l. generalize (entries infos) as es. induction es as [|[k i] es IH]; [set_solver|].
    cbn [fmap list_fmap fst]. rewrite NoDup_cons. intros [Hni Hnd] Hin. rewrite filter_cons. cbn [fst].
    destruct (decide (k = key ∧ QPN k = QPN key)) as [[-> _]|Hne].
    + apply elem_of_cons in Hin as [[= ->]|Hin].
      * f_equal. apply filter_none. intros e He [Hk _]. apply Hni. rewrite <-Hk. apply list_elem_of_fmap. eauto.
      * destruct Hni. apply list_elem_of_fmap. exists (key, info). by split.
    + apply elem_of_cons in Hin as [[= <- <-]|Hin]; [naive_solver|auto].
  - intros key Hni. rewrite index_lookup_spec.
    assert (filter (fun e => e.1 = key) (same_qpn (QPN key) l) = []) as ->; [|done]. apply filter_none.
    intros e [_ He]%list_elem_of_filter Hk. apply Hni. rewrite <-Hk. apply list_elem_of_fmap. eauto.
  - unfold cleanupDeadQPs. rewrite Hab. split_and!.
    + intros key. unfold deadStats. rewrite !list_elem_of_fmap. setoid_rewrite list_elem_of_filter. naive_solver.
    + intros key. unfold deadInfos. rewrite list_elem_of_fmap. setoid_rewrite list_elem_of_filter. naive_solver.
    + apply bool_decide_eq_true.
    + intros key st Hin Hlive. rewrite !index_lookup_spec.
      assert (same_qpn (QPN key) (filter (fun e => e.1 ∉ deadInfos tgidAlive (entries stats) (entries infos)) l) = same_qpn (QPN key) l) as ->; [|done].
      unfold same_qpn. rewrite list_filter_filter. apply list_filter_iff. intros e. split; [naive_solver|]. intros Hq. split; [done|].
      unfold deadInfos. rewrite list_elem_of_fmap. setoid_rewrite list_elem_of_filter. intros (e' & He & [_ Hnl] & _). apply Hnl.
      unfold liveQPNs. apply list_elem_of_fmap. exists (key, st). split; [cbn; congruence|]. by apply list_elem_of_filter.
Qed.

Lemma join_survives_cleanup_witness :
  index_lookup (infoIndex (entries ReportSample.infos)) ReportSample.key = Some ReportSample.info.
Proof.
  destruct (join_survives_cleanup (fun _ => true) (ReportSample.stats 1) ReportSample.infos) as [Hfound _].
  - apply NoDup_singleton.
  - reflexivity.
  - apply Hfound. apply list_elem_of_here.
Defined.
