(* ===== verification/EbpfAttachFacts.v ===== *)
(** * Lemmas on attaching

    The offset cache as a map, the file it is kept in and the notes of a library (offsets.go);
    what each operation of attach.go leaves alone, what handling a callback does to the waiting
    events, and that probes are never lost. *)
From Stdlib Require Import ZArith.
From stdpp Require Import base gmap list numbers strings.
From S2P Require Import Prelude GoStrings GoNumbers GoText GoBytes GoNet GoPath EbpfResolve EbpfEndpoint EbpfOffsets EbpfAttach.
Local Open Scope Z_scope.

(** ** The cache *)
Lemma kind_names kind name : callbackKindKeys !! kind = Some name ↔
  (kind, name) ∈ [(1, "post_send"); (2, "wr_set_sge"); (3, "wr_set_sge_list"); (4, "wr_set_inline_data"); (5, "wr_set_inline_data_list")].
Proof.
  rewrite <-elem_of_map_to_list. assert (map_to_list callbackKindKeys ≡ₚ
    [(1, "post_send"); (2, "wr_set_sge"); (3, "wr_set_sge_list"); (4, "wr_set_inline_data"); (5, "wr_set_inline_data_list")]) as ->; [|done].
  unfold callbackKindKeys. rewrite !map_to_list_insert by done. by rewrite map_to_list_singleton.
Qed.

Lemma kind_names_inj k1 k2 name : callbackKindKeys !! k1 = Some name → callbackKindKeys !! k2 = Some name → k1 = k2.
Proof. rewrite !kind_names, !elem_of_cons, !elem_of_nil. naive_solver. Qed.

Section cache.
Context `{RangeOrder}.

Lemma callbackKindByName_spec name kind : callbackKindByName name = Some kind ↔ callbackKindKeys !! kind = Some name.
Proof.
  unfold callbackKindByName. set (l := filter _ _).
  assert (∀ k n, (k, n) ∈ l ↔ callbackKindKeys !! k = Some n ∧ n = name) as Hl.
  { intros k n. unfold l. rewrite list_elem_of_filter, elem_of_range. cbn. naive_solver. }
  destruct l as [|[k n] l]; cbn.
  - split; [done|]. intros Hk. destruct (not_elem_of_nil (kind, name)). by apply Hl.
  - destruct (proj1 (Hl k n)) as [Hk ->]; [set_solver|]. split; [intros [= <-]; done|]. intros Hk'. f_equal. by eapply kind_names_inj.
Qed.

(** The offset of a callback of a library. *)
Definition cached (entries : gmap string (gmap string Z)) (library : string) (kind : Z) : option Z :=
  m ← entries !! library; name ← callbackKindKeys !! kind; m !! name.

(** The offset of a callback in a library's part of the file. *)
Definition named (l : list (string * Z)) (kind : Z) : option Z := name ← callbackKindKeys !! kind; (list_to_map l : gmap string Z) !! name.

Lemma named_range m kind : named (range m) kind = (name ← callbackKindKeys !! kind; m !! name).
Proof.
  unfold named. assert (list_to_map (range m) = m) as ->; [|done].
  rewrite <-(list_to_map_to_list m) at 2. apply list_to_map_proper; [apply NoDup_range_keys|apply range_perm].
Qed.

(** An entry is stored under the kind it names, or skipped. *)
Lemma named_cons name x l kind :
  named ((name, x) :: l) kind = if decide (callbackKindByName name = Some kind) then Some x else named l kind.
Proof.
  unfold named. case_decide as Hk; [apply callbackKindByName_spec in Hk; rewrite Hk; cbn; by rewrite lookup_insert_eq|].
  rewrite callbackKindByName_spec in Hk. destruct (callbackKindKeys !! kind) as [n|] eqn:Hn; [|done]. cbn. rewrite lookup_insert_ne; [done|congruence].
Qed.

Lemma lookup_fold l (acc : gmap Z Z) kind : NoDup l.*1 →
  foldl (fun result e => match callbackKindByName e.1 with Some kind => <[kind := e.2]> result | None => result end) acc l !! kind =
  match named l kind with Some x => Some x | None => acc !! kind end.
Proof.
  revert acc. induction l as [|[name x] l IH]; intros acc Hnd; cbn [foldl fst snd].
  { unfold named. by destruct (callbackKindKeys !! kind). }
  apply NoDup_cons in Hnd as [Hni Hnd]. rewrite IH by done. rewrite named_cons.
  destruct (callbackKindByName name) as [k|] eqn:Hk; [|done]. destruct (decide (k = kind)) as [->|Hne].
  - rewrite decide_True by done. assert (named l kind = None) as ->; [|by rewrite lookup_insert_eq].
    unfold named. apply callbackKindByName_spec in Hk. rewrite Hk. cbn. by apply not_elem_of_list_to_map_1.
  - rewrite decide_False by congruence. by rewrite lookup_insert_ne.
Qed.

Lemma offset_lookup_spec c library kind : offset_lookup c library !! kind = cached (oc_entries c) library kind.
Proof.
  unfold offset_lookup. rewrite lookup_fold by apply NoDup_range_keys. rewrite named_range, lookup_empty. unfold cached.
  destruct (oc_entries c !! library) as [m|]; cbn [default from_option mbind option_bind].
  - destruct (callbackKindKeys !! kind); [|done]. cbn. by destruct (m !! _).
  - destruct (callbackKindKeys !! kind); [|done]. cbn. by rewrite lookup_empty.
Qed.

(** ** The file *)
Lemma load_library library l entries lib kind : NoDup l.*1 →
  cached (foldl (loadOffset library) entries l) lib kind =
  if decide (lib = library) then match named l kind with Some x => Some x | None => cached entries lib kind end else cached entries lib kind.
Proof.
  revert entries. induction l as [|[name x] l IH]; intros entries Hnd; cbn [foldl fst snd].
  { case_decide; [|done]. unfold named. by destruct (callbackKindKeys !! kind). }
  apply NoDup_cons in Hnd as [Hni Hnd]. rewrite IH by done. rewrite named_cons. unfold loadOffset. cbn [fst snd].
  destruct (callbackKindByName name) as [k|] eqn:Hk; [|done]. pose proof Hk as Hkey. apply callbackKindByName_spec in Hkey.
  case_decide as Hl; [subst lib|unfold cached; by rewrite lookup_insert_ne]. destruct (decide (k = kind)) as [->|Hne].
  - rewrite decide_True by done. assert (named l kind = None) as -> by (unfold named; rewrite Hkey; cbn [mbind option_bind default from_option]; by apply not_elem_of_list_to_map_1).
    unfold cached. rewrite lookup_insert_eq, Hkey. cbn [mbind option_bind default from_option]. by rewrite lookup_insert_eq.
  - rewrite decide_False by congruence. destruct (named l kind); [done|]. unfold cached. rewrite lookup_insert_eq.
    cbn [mbind option_bind default from_option]. destruct (callbackKindKeys !! kind) as [n|] eqn:Hn.
    + cbn [mbind option_bind default from_option]. rewrite lookup_insert_ne by (intros ->; by pose proof (kind_names_inj _ _ _ Hkey Hn)).
      destruct (entries !! library); cbn [mbind option_bind default from_option]; [done|by rewrite lookup_empty].
    + destruct (entries !! library); done.
Qed.

Lemma load_file (l : list (string * gmap string Z)) entries lib kind :
  NoDup l.*1 → (lib ∈ l.*1 → cached entries lib kind = None) →
  cached (foldl (fun entries e => foldl (loadOffset e.1) entries (range e.2)) entries l) lib kind =
  match (list_to_map l : gmap string (gmap string Z)) !! lib with
  | Some m => name ← callbackKindKeys !! kind; m !! name
  | None => cached entries lib kind
  end.
Proof.
  revert entries. induction l as [|[library m] l IH]; intros entries Hnd Hnone; cbn [foldl fst snd]; [done|].
  apply NoDup_cons in Hnd as [Hni Hnd]. rewrite list_to_map_cons. destruct (decide (lib = library)) as [->|Hne].
  - rewrite lookup_insert_eq. rewrite IH; [|done|done]. rewrite (not_elem_of_list_to_map_1 l library) by done.
    rewrite load_library by apply NoDup_range_keys. rewrite decide_True, named_range, Hnone by (done || set_solver). by destruct (_ ≫= _).
  - rewrite lookup_insert_ne by done. rewrite IH.
    + destruct (list_to_map l !! lib); [done|]. rewrite load_library by apply NoDup_range_keys. by rewrite decide_False.
    + done.
    + intros Hin. rewrite load_library by apply NoDup_range_keys. rewrite decide_False by done. apply Hnone. set_solver.
Qed.

(** A cache that is loaded from a file holds the offsets of the file. *)
Lemma newOffsetCache_cached path file lib kind :
  cached (oc_entries (newOffsetCache path (FileContent file)).1) lib kind = cached file lib kind.
Proof.
  cbn [newOffsetCache fst oc_entries]. rewrite load_file; [|apply NoDup_range_keys|by intros _].
  assert ((list_to_map (range file) : gmap string (gmap string Z)) = file) as ->.
  { rewrite <-(list_to_map_to_list file) at 2. apply list_to_map_proper; [apply NoDup_range_keys|apply range_perm]. }
  unfold cached. by destruct (file !! lib).
Qed.
End cache.

(** ** Updates *)
Lemma store_cached o lib kind off c files name : callbackKindKeys !! kind = Some name →
  let '(_, _, c', _) := store o lib kind off c files in
  oc_path c' = oc_path c ∧ cached (oc_entries c') lib kind = Some off ∧
  ∀ lib' kind', (lib', kind') ≠ (lib, kind) → cached (oc_entries c') lib' kind' = cached (oc_entries c) lib' kind'.
Proof.
  intros Hk. unfold store. rewrite Hk. case_decide as He.
  - split_and!; [done| |done]. unfold cached. rewrite Hk. destruct (oc_entries c !! lib); [|done]. exact He.
  - set (c' := MkOffsetCache _ _). destruct (persistLocked o c' files) as [err files']. split_and!; [done| |].
    + unfold cached, c'. cbn [oc_entries mbind option_bind default from_option]. rewrite lookup_insert_eq, Hk. cbn [mbind option_bind default from_option]. by rewrite lookup_insert_eq.
    + intros lib' kind' Hne. unfold cached, c'. cbn [oc_entries mbind option_bind default from_option]. destruct (decide (lib' = lib)) as [->|Hl]; [|by rewrite lookup_insert_ne].
      rewrite lookup_insert_eq. cbn [mbind option_bind default from_option]. destruct (callbackKindKeys !! kind') as [n|] eqn:Hn; [|by destruct (oc_entries c !! lib); cbn [mbind option_bind default from_option]].
      cbn [mbind option_bind default from_option]. rewrite lookup_insert_ne by (intros ->; destruct Hne; f_equal; by eapply kind_names_inj).
      destruct (oc_entries c !! lib); cbn [mbind option_bind default from_option]; [done|by rewrite lookup_empty].
Qed.

(** The file holds what the cache holds. *)
Definition synced (c : offsetCache) (files : gmap string offsetCacheFile) : Prop := default ∅ (files !! oc_path c) = oc_entries c.

Definition all_well : persistence := MkPersistence true true true.

Lemma tmp_path path : path +:+ ".tmp" ≠ path.
Proof. intros He. apply (f_equal String.length) in He. rewrite str_length_app in He. cbn in He. lia. Qed.

(** A store leaves cache and file in step when they were, and also when it has something new to
    write: the whole cache is written. *)
Lemma store_synced lib kind off c files : is_Some (callbackKindKeys !! kind) → synced c files ∨ cached (oc_entries c) lib kind ≠ Some off →
  let '(_, _, c', files') := store all_well lib kind off c files in synced c' files'.
Proof.
  intros [name Hk] Hs. unfold store. rewrite Hk. case_decide as He; [|cbn].
  { destruct Hs as [Hs|Hs]; [done|]. destruct Hs. unfold cached. rewrite Hk. by destruct (oc_entries c !! lib). }
  unfold synced. cbn. by rewrite lookup_insert_eq.
Qed.

(** ** Notes *)
Lemma alignUp4_spec v : 0 ≤ v < 2 ^ 64 - 3 → alignUp4 v = 4 * ((v + 3) / 4).
Proof.
  intros Hv. unfold alignUp4. rewrite Z.mod_small by lia. change 3 with (Z.ones 2) at 2. rewrite Z.ldiff_ones_r by lia.
  rewrite Z.shiftr_div_pow2, Z.shiftl_mul_pow2 by lia. change (2 ^ 2) with 4. lia.
Qed.

Lemma le_value_range b : valid_bytes b → 0 ≤ le_value b < 256 ^ len b.
Proof.
  unfold len. induction 1 as [|x b Hx Hb IH]; [cbn; lia|]. cbn [le_value foldr length]. rewrite Nat2Z.inj_succ, Z.pow_succ_r by lia.
  unfold le_value in IH. lia.
Qed.

Lemma valid_slice b lo hi s : valid_bytes b → slice b lo hi = Ret s → valid_bytes s ∧ len s = hi - lo.
Proof.
  intros Hb. unfold slice. case_decide as Hr; [|done]. intros [= <-]. split; [by apply Forall_take, Forall_drop|].
  unfold len. rewrite length_take, length_drop. lia.
Qed.

Lemma uint32_range b lo : valid_bytes b → 0 ≤ lo → lo + 4 ≤ len b → ∃ x, uint32_le b lo = Ret x ∧ 0 ≤ x < 2 ^ 32.
Proof.
  intros Hb Hlo Hhi. unfold uint32_le. destruct (slice b lo (lo + 4)) as [s| | |] eqn:Hs; try (by rewrite slice_ok in Hs by lia).
  destruct (valid_slice _ _ _ _ Hb Hs) as [Hv Hl]. eexists. split; [done|]. pose proof (le_value_range s Hv) as Hr. rewrite Hl in Hr.
  replace (lo + 4 - lo) with 4 in Hr by lia. exact Hr.
Qed.

(** Whatever the section holds, the parser stays within it and ends. *)
Lemma parseNotes_total fuel data : valid_bytes data → (length data < fuel)%nat → ∃ id, parseNotes fuel data = Ret id.
Proof.
  revert data. induction fuel as [|fuel IH]; intros data Hv Hf; [lia|]. cbn [parseNotes]. case_decide as Hl; [eauto|].
  destruct (uint32_range data 0) as (nameSize & Hn & Hnr); [done|lia|lia|]. destruct (uint32_range data 4) as (descSize & Hd & Hdr); [done|lia|lia|].
  destruct (uint32_range data 8) as (noteType & Ht & _); [done|lia|lia|]. rewrite Hn, Hd, Ht. cbn [mbind go_bind].
  rewrite !alignUp4_spec by lia. case_decide as Hend; [eauto|]. assert (0 ≤ (nameSize + 3) / 4 ∧ 0 ≤ (descSize + 3) / 4) as [Hn4 Hd4] by (split; apply Z.div_pos; lia).
  set (name := if decide (_ ∧ _) then _ else _).
  assert (∃ n, name = Ret n ∧ (n = gnu_name → nameSize = 4 ∧ 0 < descSize)) as (n & -> & Hg).
  { unfold name. case_decide as Hc; [|by eexists]. destruct Hc as (_ & Hds & ->). change ((4 + 3) / 4) with 1 in *.
    rewrite slice_ok by lia. eexists. by split. }
  cbn [mbind go_bind]. case_decide as Hgnu.
  - rewrite slice_ok by (pose proof (Z.div_mod (descSize + 3) 4); pose proof (Z.mod_pos_bound (descSize + 3) 4); lia). cbn. eauto.
  - destruct (slice data _ (len data)) as [rest| | |] eqn:Hr; try (by rewrite slice_ok in Hr by lia). cbn [mbind go_bind].
    destruct (valid_slice _ _ _ _ Hv Hr) as [Hvr Hlr]. apply IH; [done|]. clear - Hf Hlr Hn4 Hd4. unfold len in *. lia.
Qed.

(** An ELF note as a linker writes it. *)
Record note := MkNote {
  note_name : list Z;
  note_type : Z;
  note_desc : list Z
}.

Definition pad4 (b : list Z) : list Z := b ++ replicate (Z.to_nat (4 * ((len b + 3) / 4) - len b)) 0.

Definition note_bytes (n : note) : list Z :=
  le_bytes 4 (len (note_name n)) ++ le_bytes 4 (len (note_desc n)) ++ le_bytes 4 (note_type n) ++ pad4 (note_name n) ++ pad4 (note_desc n).

Definition note_fits (n : note) : Prop := len (note_name n) < 2 ^ 32 ∧ len (note_desc n) < 2 ^ 32 ∧ 0 ≤ note_type n < 2 ^ 32.

Definition is_build_id (n : note) : Prop := note_type n = noteTypeGNUBuildID ∧ note_name n = gnu_name ∧ note_desc n ≠ [].
#[export] Instance is_build_id_dec n : Decision (is_build_id n).
Proof. unfold is_build_id. apply _. Defined.

Lemma len_pad4 b : len (pad4 b) = 4 * ((len b + 3) / 4).
Proof.
  unfold pad4. rewrite len_app. unfold len at 2. rewrite length_replicate.
  pose proof (Z.div_mod (len b + 3) 4). pose proof (Z.mod_pos_bound (len b + 3) 4). lia.
Qed.

Lemma pad4_slice pre b post lo : lo = len pre → slice (pre ++ pad4 b ++ post) lo (lo + len b) = Ret b.
Proof. intros Hlo. unfold pad4. rewrite <-(assoc_L (++) b). by apply slice_app. Qed.

(** The head of a note. *)
Lemma note_head n rest :
  let data := note_bytes n ++ rest in
  note_fits n →
  uint32_le data 0 = Ret (len (note_name n)) ∧ uint32_le data 4 = Ret (len (note_desc n)) ∧ uint32_le data 8 = Ret (note_type n) ∧
  len data = 12 + len (pad4 (note_name n)) + len (pad4 (note_desc n)) + len rest.
Proof.
  intros data (Hn & Hd & Ht). pose proof (len_nonneg (note_name n)). pose proof (len_nonneg (note_desc n)).
  unfold data, note_bytes. split_and!.
  - erewrite (uint32_field _ []); [done|rewrite <-!(assoc_L (++)); reflexivity|done|lia].
  - erewrite (uint32_field _ (le_bytes 4 _)); [done|rewrite <-!(assoc_L (++)); reflexivity|done|lia].
  - erewrite (uint32_field _ (le_bytes 4 (len (note_name n)) ++ le_bytes 4 (len (note_desc n)))); [done|rewrite <-!(assoc_L (++)); reflexivity|done|lia].
  - rewrite !len_app, !len_le_bytes. lia.
Qed.

Lemma note_body n rest :
  let data := note_bytes n ++ rest in
  let nameEnd := 12 + len (pad4 (note_name n)) in
  slice data 12 (12 + len (note_name n)) = Ret (note_name n) ∧
  slice data nameEnd (nameEnd + len (note_desc n)) = Ret (note_desc n) ∧
  slice data (nameEnd + len (pad4 (note_desc n))) (len data) = Ret rest.
Proof.
  intros data nameEnd. unfold data, nameEnd, note_bytes. set (h1 := le_bytes 4 (len (note_name n))). set (h2 := le_bytes 4 (len (note_desc n))).
  set (h3 := le_bytes 4 (note_type n)). assert (len (h1 ++ h2 ++ h3) = 12) as Hh by done. split_and!.
  - transitivity (slice ((h1 ++ h2 ++ h3) ++ pad4 (note_name n) ++ pad4 (note_desc n) ++ rest) 12 (12 + len (note_name n)));
      [by rewrite <-!(assoc_L (++))|by apply pad4_slice].
  - transitivity (slice (((h1 ++ h2 ++ h3) ++ pad4 (note_name n)) ++ pad4 (note_desc n) ++ rest) (12 + len (pad4 (note_name n)))
      (12 + len (pad4 (note_name n)) + len (note_desc n))); [by rewrite <-!(assoc_L (++))|apply pad4_slice; rewrite len_app; lia].
  - apply slice_tail; rewrite !len_app in *; lia.
Qed.

Lemma parseNotes_note fuel n rest : note_fits n →
  parseNotes (S fuel) (note_bytes n ++ rest) = if decide (is_build_id n) then Ret (EncodeToString (note_desc n)) else parseNotes fuel rest.
Proof.
  intros Hfit. destruct (note_head n rest Hfit) as (Hn & Hd & Ht & Hlen). destruct (note_body n rest) as (Hname & Hdesc & Hrest).
  cbn [parseNotes]. pose proof (len_nonneg rest). pose proof (len_nonneg (pad4 (note_name n))). pose proof (len_nonneg (pad4 (note_desc n))).
  rewrite decide_False by lia. rewrite Hn, Hd, Ht. cbn [mbind go_bind]. destruct Hfit as (Hnf & Hdf & _).
  pose proof (len_nonneg (note_name n)). pose proof (len_nonneg (note_desc n)).
  rewrite !alignUp4_spec by lia. rewrite <-!len_pad4. rewrite decide_False by lia.
  assert (0 < len (note_desc n) ↔ note_desc n ≠ []) as Hne by (unfold len; destruct (note_desc n); cbn [length]; naive_solver lia).
  destruct (decide (note_type n = noteTypeGNUBuildID ∧ 0 < len (note_desc n) ∧ len (note_name n) = 4)) as [(Hty & Hpos & Hfour)|Hno].
  - rewrite Hfour in Hname. change (12 + 4) with 16 in Hname. rewrite Hname. cbn [mbind go_bind]. destruct (decide (note_name n = gnu_name)) as [Hg|Hg].
    + rewrite decide_True by (split_and!; [done|done|by apply Hne]). rewrite Hdesc. done.
    + rewrite (decide_False (P := is_build_id n)) by (by intros (_ & ? & _)). rewrite Hrest. done.
  - cbn [mbind go_bind]. rewrite decide_False by done. rewrite (decide_False (P := is_build_id n)).
    + rewrite Hrest. done.
    + intros (Hty & Hg & Hd'). apply Hno. split_and!; [done|by apply Hne|by rewrite Hg].
Qed.

Lemma parseNotes_notes notes tail fuel : Forall note_fits notes → len tail < 12 → (length notes < fuel)%nat →
  parseNotes fuel (mjoin (note_bytes <$> notes) ++ tail) =
  Ret (match filter is_build_id notes with n :: _ => EncodeToString (note_desc n) | [] => "" end).
Proof.
  intros Hfit Htail. revert fuel. induction Hfit as [|n notes Hn _ IH]; intros fuel Hf; (destruct fuel as [|fuel]; [lia|]).
  - cbn. by rewrite decide_True.
  - cbn [fmap list_fmap mjoin list_join]. rewrite <-(assoc_L (++)), parseNotes_note by done. rewrite filter_cons. case_decide; [done|].
    apply IH. cbn in Hf. lia.
Qed.

(** ** Frames *)
Lemma contentID_frame m ident target a :
  let a' := (libraryContentIDFor m ident target a).2 in
  pending a' = pending a ∧ dataLinks a' = dataLinks a ∧ progs a' = progs a ∧ offsets a' = offsets a ∧ files a' = files a.
Proof. unfold libraryContentIDFor. destruct (contentIDs a !! ident); [done|]. by destruct (libraryContentID _) as [[?|]| | |]. Qed.

Lemma attachOffset_frame m target ident kind off a :
  let a' := (attachOffset m target ident kind off a).2 in
  pending a' = pending a ∧ progs a' = progs a ∧ offsets a' = offsets a ∧ files a' = files a ∧ contentIDs a' = contentIDs a ∧ dataLinks a ⊆ dataLinks a'.
Proof.
  unfold attachOffset. destruct (callbackProgram kind); [|done]. case_decide; [done|]. case_decide as Hk; [done|].
  destruct (_ && _); [|done]. split_and!; [done..|]. cbn. apply insert_subseteq. by apply eq_None_not_Some.
Qed.

Lemma rememberOffset_frame m ident target kind off a :
  let a' := rememberOffset m ident target kind off a in pending a' = pending a ∧ dataLinks a' = dataLinks a ∧ progs a' = progs a.
Proof.
  unfold rememberOffset. pose proof (contentID_frame m ident target a) as Hf. destruct (libraryContentIDFor m ident target a) as [[id|] a1]; cbn in Hf |- *.
  - destruct (store _ _ _ _ _ _) as [[[? ?] ?] ?]. cbn. tauto.
  - tauto.
Qed.

(** A successful attempt leaves a probe. *)
Lemma attachOffset_link m target ident kind off a created a' :
  attachOffset m target ident kind off a = (Some created, a') → is_Some (dataLinks a' !! linkKey ident off kind).
Proof.
  unfold attachOffset. destruct (callbackProgram kind); [|done]. case_decide; [done|]. case_decide as Hk; [by intros [= _ <-]|].
  destruct (_ && _); [|done]. intros [= _ <-]. cbn. rewrite lookup_insert_eq. eauto.
Qed.

(** ** Callbacks *)

(** The mapping of the callback and its place in the file. *)
Definition located (m : machine) (event : callbackEvent) (provider : procMapping) (off : Z) (target : string) : Prop :=
  ∃ mappings, readProcMappings m (Itoa (CB_Tgid event)) = Some mappings ∧ findMapping (CB_Address event) mappings = Some (provider, off) ∧
    mappingTarget m (Itoa (CB_Tgid event)) provider = Some target.

Lemma findMapping_spec address mappings provider off : findMapping address mappings = Some (provider, off) →
  provider ∈ mappings ∧ executable provider = true ∧ inode provider ≠ "0" ∧ start provider ≤ address < end_ provider ∧
  off = (address - start provider + pm_offset provider) mod 2 ^ 64.
Proof.
  unfold findMapping. intros Hf. set (g := fun _ => _) in Hf.
  assert ((provider, off) ∈ omap g mappings) as Hin by (destruct (omap g mappings) as [|? ?]; [done|]; injection Hf as ->; apply list_elem_of_here).
  apply list_elem_of_omap in Hin as (mp & Hm & Hg). unfold g in Hg. destruct (executable mp) eqn:He; [|done]. cbn in Hg.
  case_bool_decide as Hi; [done|]. unfold fileOffset in Hg. case_decide as Hr; [done|]. cbn in Hg. injection Hg as <- <-.
  split_and!; [done..|lia|lia|done].
Qed.

Lemma attachCallback_cases m event a :
  let '(err, a') := attachCallback m event a in
  dataLinks a ⊆ dataLinks a' ∧ progs a' = progs a ∧
  if err then pending a' = pending a
  else pending a' = base.delete event (pending a) ∧
    ∃ provider off target, located m event provider off target ∧ is_Some (dataLinks a' !! linkKey (identity provider) off (CB_Kind event)).
Proof.
  unfold attachCallback. destruct (readProcMappings _ _) as [mappings|] eqn:Hm; [|done].
  destruct (findMapping _ _) as [[provider off]|] eqn:Hf; [|done]. destruct (mappingTarget _ _ _) as [target|] eqn:Ht; [|done].
  pose proof (attachOffset_frame m target (identity provider) (CB_Kind event) off a) as (Hp & Hpr & _ & _ & _ & Hd).
  destruct (attachOffset _ _ _ _ _ _) as [[created|] a1] eqn:Ho; cbn [snd] in *; [|done].
  set (a2 := with_pending _ a1). destruct (rememberOffset_frame m (identity provider) target (CB_Kind event) off a2) as (Hrp & Hrd & Hrg).
  rewrite Hrp, Hrd, Hrg. split_and!; [exact Hd|exact Hpr|cbn; by rewrite Hp|].
  exists provider, off, target. split; [by exists mappings|]. exact (attachOffset_link _ _ _ _ _ _ _ _ Ho).
Qed.

(** What happens to a valid event. *)
Lemma handleCallback_cases m event a : CB_Tgid event ≠ 0 → CB_Address event ≠ 0 →
  let a' := handleCallback m event a in
  dataLinks a ⊆ dataLinks a' ∧
  ((pending a' = base.delete event (pending a) ∧
    ∃ provider off target, located m event provider off target ∧ is_Some (dataLinks a' !! linkKey (identity provider) off (CB_Kind event))) ∨
   (pending a' = base.delete event (pending a) ∧ tgidAlive m (CB_Tgid event) = false) ∨
   (pending a' = <[event := default 0 (pending a !! event) + 1]> (pending a) ∧ tgidAlive m (CB_Tgid event) = true)).
Proof.
  intros Ht Ha. unfold handleCallback. rewrite decide_False by tauto. pose proof (attachCallback_cases m event a) as Hc.
  destruct (attachCallback m event a) as [[] a1]; cbn [negb]; destruct Hc as (Hd & _ & Hc).
  - destruct (tgidAlive m (CB_Tgid event)); cbn [negb]; (split; [exact Hd|]); [right; right|right; left]; cbn; by rewrite Hc.
  - destruct Hc as [Hp Hl]. split; [exact Hd|]. by left.
Qed.

Lemma handleCallback_other m event a e : e ≠ event → pending (handleCallback m event a) !! e = pending a !! e.
Proof.
  intros Hne. destruct (decide (CB_Tgid event = 0 ∨ CB_Address event = 0)) as [Hz|Hz]; [unfold handleCallback; by rewrite decide_True|].
  destruct (handleCallback_cases m event a) as (_ & [[-> _]|[[-> _]|[-> _]]]); [tauto|tauto|..].
  - by rewrite lookup_delete_ne.
  - by rewrite lookup_delete_ne.
  - by rewrite lookup_insert_ne.
Qed.

(** Waiting events are valid and have been tried. *)
Definition pending_ok (a : attacher) : Prop := map_Forall (fun e k => CB_Tgid e ≠ 0 ∧ CB_Address e ≠ 0 ∧ 1 ≤ k) (pending a).

Lemma handleCallback_ok m event a : pending_ok a → pending_ok (handleCallback m event a).
Proof.
  intros Hok e k He. destruct (decide (e = event)) as [->|Hne]; [|rewrite handleCallback_other in He by done; by apply Hok].
  destruct (decide (CB_Tgid event = 0 ∨ CB_Address event = 0)) as [Hz|Hz]; [unfold handleCallback in He; rewrite decide_True in He by done; by apply Hok|].
  destruct (handleCallback_cases m event a) as (_ & [[Hp _]|[[Hp _]|[Hp _]]]); [tauto|tauto|..]; rewrite Hp in He.
  - by rewrite lookup_delete_eq in He.
  - by rewrite lookup_delete_eq in He.
  - rewrite lookup_insert_eq in He. injection He as <-. split_and!; [tauto|tauto|]. destruct (pending a !! event) as [k|] eqn:Hk; cbn; [|lia].
    destruct (Hok _ _ Hk) as (_ & _ & ?). lia.
Qed.

(** ** Scans *)

(** A scan may add probes but does not touch the waiting events. *)
Definition extends (a a' : attacher) : Prop := pending a' = pending a ∧ dataLinks a ⊆ dataLinks a'.

#[export] Instance extends_preorder : PreOrder extends.
Proof. split; [done|]. intros a b c [? ?] [? ?]. split; [congruence|by etrans]. Qed.

Lemma extends_foldl {A B} (get : A → attacher) (f : A → B → A) l s : (∀ s x, extends (get s) (get (f s x))) → extends (get s) (get (foldl f s l)).
Proof. intros Hf. revert s. induction l as [|x l IH]; intros s; cbn [foldl]; [done|]. etrans; [apply Hf|apply IH]. Qed.

Section scans.
Context `{RangeOrder} (m : machine).

Lemma attachBootstrapOnce_extends target sa : extends sa.2 (attachBootstrapOnce m target sa).2.
Proof.
  unfold attachBootstrapOnce. destruct sa as [seen a]. destruct (fileIdentity m target); [|done]. destruct (_ || _); [done|].
  by destruct (attachBootstrap m target a) as [[]|].
Qed.

Lemma attachOffset_extends target ident kind off a : extends a (attachOffset m target ident kind off a).2.
Proof. destruct (attachOffset_frame m target ident kind off a) as (? & _ & _ & _ & _ & ?). by split. Qed.

Lemma replayCachedCallbacks_extends pid mapping a : extends a (replayCachedCallbacks m pid mapping a).
Proof.
  unfold replayCachedCallbacks. destruct (mappingTarget m pid mapping) as [target|]; [|done].
  destruct (contentID_frame m (identity mapping) target a) as (Hp & Hd & _). destruct (libraryContentIDFor _ _ _ _) as [[contentID|] a1]; cbn [snd] in *.
  - transitivity a1; [split; [done|by rewrite Hd]|]. apply (extends_foldl id). intros s x. apply attachOffset_extends.
  - split; [done|by rewrite Hd].
Qed.

Lemma scanProcess_extends pid sa : extends sa.2 (scanProcess m pid sa).2.
Proof.
  unfold scanProcess. transitivity (scanProcessRoot m pid sa).2.
  - unfold scanProcessRoot. destruct (fileIdentity _ _) as [ns|]; [|done]. unfold markRootScanned. case_decide; cbn [negb]; [done|].
    etrans; [|apply (extends_foldl snd); intros s x; apply (extends_foldl snd); intros; apply attachBootstrapOnce_extends]. done.
  - destruct (readProcMappings m pid) as [mappings|]; [|done]. apply (extends_foldl snd). intros s mapping. unfold scanMapping.
    assert (∀ s : gset string * attacher, extends s.2 (if isRDMAProviderLibrary (pm_path mapping) then (s.1, replayCachedCallbacks m pid mapping s.2) else s).2) as Hr.
    { intros s'. destruct (isRDMAProviderLibrary _); [apply replayCachedCallbacks_extends|done]. }
    destruct (_ || _); [done|]. destruct (isLibibverbs _); [|apply Hr]. destruct (mappingTarget _ _ _); [|done].
    etrans; [apply attachBootstrapOnce_extends|apply Hr].
Qed.

Lemma retry_loop events a : NoDup events → pending_ok a → (∀ e, e ∈ events → is_Some (pending a !! e)) →
  let a' := foldl (fun a event => handleCallback m event a) a events in
  (∀ e, e ∉ events → pending a' !! e = pending a !! e) ∧
  (∀ e k, e ∈ events → pending a' !! e = Some k → pending a !! e = Some (k - 1) ∧ tgidAlive m (CB_Tgid e) = true) ∧
  dataLinks a ⊆ dataLinks a' ∧ pending_ok a'.
Proof.
  revert a. induction events as [|event events IH]; intros a Hnd Hok Hin; cbn [foldl]; [by split_and!; [..|set_solver|done|done]|].
  apply NoDup_cons in Hnd as [Hni Hnd]. destruct (Hin event) as [k0 Hk0]; [set_solver|]. destruct (Hok _ _ Hk0) as (Ht & Ha & _).
  destruct (handleCallback_cases m event a Ht Ha) as [Hd Hcases].
  destruct (IH (handleCallback m event a)) as (Hout & Hstep & Hd' & Hok'); [done|by apply handleCallback_ok| |].
  { intros e He. rewrite handleCallback_other by (intros ->; done). apply Hin. set_solver. }
  split_and!; [..|by etrans|done].
  - intros e [Hne He]%not_elem_of_cons. rewrite Hout by done. by apply handleCallback_other.
  - intros e k He Hk. destruct (decide (e = event)) as [->|Hne].
    + rewrite Hout in Hk by done. destruct Hcases as [[Hp _]|[[Hp _]|[Hp Halive]]]; rewrite Hp in Hk.
      * by rewrite lookup_delete_eq in Hk.
      * by rewrite lookup_delete_eq in Hk.
      * rewrite lookup_insert_eq, Hk0 in Hk. cbn in Hk. injection Hk as <-. split; [rewrite Hk0; f_equal; lia|done].
    + destruct (Hstep e k) as [Hp Hal]; [set_solver|done|]. rewrite handleCallback_other in Hp by done. done.
Qed.

(** After a retry the waiting events are of live processes and have been tried once more. *)
Lemma retryPending_spec a : pending_ok a →
  (∀ e k, pending (retryPending m a) !! e = Some k → pending a !! e = Some (k - 1) ∧ tgidAlive m (CB_Tgid e) = true ∧ k ≤ retryLimit) ∧
  dataLinks a ⊆ dataLinks (retryPending m a) ∧ pending_ok (retryPending m a).
Proof.
  intros Hok. unfold retryPending, takeRetryable. set (events := fst <$> filter _ _). set (a1 := with_pending _ a).
  assert (∀ e, e ∈ events ↔ is_Some (pending a1 !! e)) as Hev.
  { intros e. unfold events, a1. cbn. rewrite list_elem_of_fmap. split.
    - intros ([e' k] & -> & [Hr He]%list_elem_of_filter). apply elem_of_range in He. exists k. by apply map_lookup_filter_Some.
    - intros [k [He Hr]%map_lookup_filter_Some]. exists (e, k). split; [done|]. apply list_elem_of_filter. split; [done|]. by apply elem_of_range. }
  assert (NoDup events) as Hnd.
  { apply (sublist_NoDup _ (range (pending a)).*1); [apply NoDup_range_keys|]. apply fmap_sublist, sublist_filter. }
  assert (pending_ok a1) as Hok1 by (intros e k [He _]%map_lookup_filter_Some; by apply Hok).
  destruct (retry_loop events a1 Hnd Hok1) as (Hout & Hstep & Hd & Hok'); [intros e; by rewrite Hev|]. split_and!; [|done|done].
  intros e k Hk. destruct (decide (e ∈ events)) as [He|He].
  - destruct (Hstep e k He Hk) as [Hp Hal]. apply map_lookup_filter_Some in Hp as [Hp Hr]. split_and!; [done|done|].
    unfold retryable in Hr. apply andb_true_iff in Hr as [_ Hr%bool_decide_eq_true]. cbn in Hr. lia.
  - rewrite Hout in Hk by done. destruct He. by apply Hev.
Qed.
End scans.
