(* ===== verification/EbpfAttachProperties.v ===== *)
(** * Properties of attaching

    The claims about src/pkg/agent/ebpfflow/attach.go and offsets.go: waiting callbacks are settled,
    learned offsets survive a restart, and libraries are identified by their build-id note. *)
From Stdlib Require Import ZArith.
From stdpp Require Import base gmap list numbers strings.
From S2P Require Import Prelude GoStrings GoNumbers GoBytes GoText GoNet GoPath EbpfResolve EbpfEndpoint EbpfOffsets EbpfAttach EbpfAttachFacts.
Local Open Scope Z_scope.

(** ** Build-ids *)
Lemma notes_length notes : (length notes ≤ length (mjoin (note_bytes <$> notes)))%nat.
Proof.
  induction notes as [|n notes IH]; [done|]. change (mjoin (note_bytes <$> n :: notes)) with (note_bytes n ++ mjoin (note_bytes <$> notes)). rewrite length_app. cbn [length].
  assert (4 ≤ length (note_bytes n))%nat by (unfold note_bytes; rewrite !length_app, !length_le_bytes; lia). lia.
Qed.

(** A library is identified by its build-id: from a section of ELF notes, each padded to four
    bytes and followed by fewer bytes than a note needs, the parser takes the descriptor of the
    first note that is named GNU, has the build-id type and is not empty, and nothing when there
    is none; on any other bytes it ends without an access outside the section. *)
Theorem build_id_of_notes :
  (∀ notes tail, Forall note_fits notes → len tail < 12 →
    parseGNUBuildID (mjoin (note_bytes <$> notes) ++ tail) =
    Ret (match filter is_build_id notes with n :: _ => EncodeToString (note_desc n) | [] => "" end)) ∧
  (∀ data, valid_bytes data → ∃ id, parseGNUBuildID data = Ret id).
Proof.
  split.
  - intros notes tail Hfit Htail. apply parseNotes_notes; [done..|]. rewrite length_app. pose proof (notes_length notes). lia.
  - intros data Hv. apply parseNotes_total; [done|lia].
Qed.

(** ** Waiting callbacks *)

(** What happens to an attacher: whole operations, and the parts of them that hold a lock.  The loop
    of the component scans while another goroutine handles events, so that between two parts of one
    operation come parts of others; such a run is a sequence of parts. *)
Inductive attachOp :=
| OpCallback (m : machine) (event : callbackEvent)
| OpScan (m : machine)
| OpExec (m : machine) (tgid : Z)
| PartRoot (mountNamespaceID : string)
| PartBootstrap (m : machine) (seenLibraries : gset string) (target : string)
| PartContentID (m : machine) (ident target : string)
| PartOffset (m : machine) (target ident : string) (kind fileOffset : Z)
| PartRemember (m : machine) (ident target : string) (kind fileOffset : Z)
| PartSettled (event : callbackEvent)
| PartDeferred (event : callbackEvent)
| PartTake (m : machine).

Definition attachStep `{RangeOrder} (a : attacher) (op : attachOp) : attacher :=
  match op with
  | OpCallback m event => handleCallback m event a
  | OpScan m => scan m a
  | OpExec m tgid => scanTgid m tgid a
  | PartRoot mountNamespaceID => (markRootScanned mountNamespaceID a).2
  | PartBootstrap m seenLibraries target => (attachBootstrapOnce m target (seenLibraries, a)).2
  | PartContentID m ident target => (libraryContentIDFor m ident target a).2
  | PartOffset m target ident kind fileOffset => (attachOffset m target ident kind fileOffset a).2
  | PartRemember m ident target kind fileOffset => rememberOffset m ident target kind fileOffset a
  | PartSettled event => with_pending (base.delete event (pending a)) a
  | PartDeferred event =>
    if decide (CB_Tgid event = 0 ∨ CB_Address event = 0) then a
    else with_pending (<[event := default 0 (pending a !! event) + 1]> (pending a)) a
  | PartTake m => (takeRetryable m a).2
  end.

Section waiting.
Context `{RangeOrder}.

Lemma extends_ok a a' : extends a a' → pending_ok a → pending_ok a'.
Proof. intros [Hp _] Hok. unfold pending_ok. by rewrite Hp. Qed.

(** The parts that do not touch the waiting events. *)
Lemma part_extends a op :
  match op with
  | PartRoot _ | PartBootstrap _ _ _ | PartContentID _ _ _ | PartOffset _ _ _ _ _ | PartRemember _ _ _ _ _ => extends a (attachStep a op)
  | _ => True
  end.
Proof.
  destruct op as [| | |id|m seen target|m ident target|m target ident kind off|m ident target kind off| | |]; cbn [attachStep]; try exact I.
  - unfold markRootScanned. by case_decide.
  - apply (attachBootstrapOnce_extends m target (seen, a)).
  - destruct (contentID_frame m ident target a) as (? & Hd & _). split; [done|by rewrite Hd].
  - apply attachOffset_extends.
  - destruct (rememberOffset_frame m ident target kind off a) as (? & Hd & _). split; [done|by rewrite Hd].
Qed.

Lemma deferred_ok event a : CB_Tgid event ≠ 0 → CB_Address event ≠ 0 → pending_ok a →
  pending_ok (with_pending (<[event := default 0 (pending a !! event) + 1]> (pending a)) a).
Proof.
  intros Ht Ha Hok. apply map_Forall_insert_2; [|done]. split_and!; [done..|].
  destruct (pending a !! event) as [k|] eqn:Hk; [|done]. destruct (Hok _ _ Hk) as (_ & _ & ?). cbn. lia.
Qed.

Lemma scan_spec m a : pending_ok a → is_Some (proc m) →
  (∀ e k, pending (scan m a) !! e = Some k → pending a !! e = Some (k - 1) ∧ tgidAlive m (CB_Tgid e) = true ∧ k ≤ retryLimit) ∧
  dataLinks a ⊆ dataLinks (scan m a) ∧ pending_ok (scan m a).
Proof.
  intros Hok [entries Hproc]. unfold scan. rewrite Hproc. set (sa := foldl _ _ _).
  assert (extends a sa.2) as Hext.
  { apply (extends_foldl snd _ entries (∅, a)). intros s pid. destruct (isNumeric pid); [apply scanProcess_extends|done]. }
  destruct (retryPending_spec m sa.2 (extends_ok _ _ Hext Hok)) as (Hr & Hd & Hok'). destruct Hext as [Hp Hd0].
  split_and!; [|by etrans|done]. intros e k Hk. rewrite <-Hp. by apply Hr.
Qed.

Lemma attachStep_ok a op : pending_ok a → pending_ok (attachStep a op) ∧ dataLinks a ⊆ dataLinks (attachStep a op).
Proof.
  intros Hok. pose proof (part_extends a op) as Hpart.
  destruct op as [m event|m|m tgid| | | | | |event|event|m]; try (split; [by eapply extends_ok|apply Hpart]); clear Hpart; cbn [attachStep].
  - split; [by apply handleCallback_ok|]. destruct (decide (CB_Tgid event = 0 ∨ CB_Address event = 0)) as [Hz|Hz].
    + unfold handleCallback. by rewrite decide_True.
    + apply handleCallback_cases; tauto.
  - destruct (proc m) as [entries|] eqn:Hp; [|unfold scan; by rewrite Hp]. destruct (scan_spec m a Hok) as (_ & ? & ?); [by eexists|done].
  - unfold scanTgid. case_decide; [done|]. pose proof (scanProcess_extends m (Itoa tgid) (∅, a)) as Hext. split; [by eapply extends_ok|apply Hext].
  - split; [|done]. by apply map_Forall_delete.
  - case_decide; [done|]. split; [|done]. apply deferred_ok; tauto.
  - split; [|done]. intros e k [He _]%map_lookup_filter_Some. by apply Hok.
Qed.

Lemma run_ok ops a : pending_ok a → pending_ok (foldl attachStep a ops) ∧ dataLinks a ⊆ dataLinks (foldl attachStep a ops).
Proof.
  revert a. induction ops as [|op ops IH]; intros a Hok; cbn [foldl]; [done|]. destruct (attachStep_ok a op Hok) as [Hok' Hd].
  destruct (IH _ Hok') as [? ?]. split; [done|]. by etrans.
Qed.

(** A run of scans only lets events through that it has tried each time. *)
Lemma scans_attempts machines a : pending_ok a → Forall (fun m => is_Some (proc m)) machines →
  let a' := foldl (fun a m => scan m a) a machines in
  pending_ok a' ∧ ∀ e k, pending a' !! e = Some k → pending a !! e = Some (k - Z.of_nat (length machines)) ∧ (machines ≠ [] → k ≤ retryLimit).
Proof.
  intros Hok Hm. revert a Hok. induction Hm as [|m machines Hm _ IH]; intros a Hok; cbn [foldl].
  { split; [done|]. intros e k Hk. split; [rewrite Hk; cbn; f_equal; lia|done]. }
  destruct (scan_spec m a Hok Hm) as (Hs & _ & Hok'). destruct (IH _ Hok') as [Hok2 H2]. split; [done|].
  intros e k Hk. destruct (H2 e k Hk) as [Hp Hl]. destruct (Hs _ _ Hp) as (Hp' & _ & Hk'). split.
  - rewrite Hp'. f_equal. cbn [length]. lia.
  - intros _. destruct machines as [|m2 ms]; [cbn in Hk'; lia|by apply Hl].
Qed.
End waiting.


(** ** Restarts *)
Lemma callbackProgram_kind kind prog : callbackProgram kind = Some prog → bytes (Itoa kind) = [48 + kind] ∧ is_Some (callbackKindKeys !! kind).
Proof.
  unfold callbackProgram. intros Hp. repeat (case_decide as Hk; [rewrite Hk; split; [reflexivity|eexists; reflexivity]|clear Hk]). done.
Qed.

(** Probes of different kinds have different keys. *)
Lemma linkKey_kind ident off1 off2 k1 k2 p1 p2 :
  callbackProgram k1 = Some p1 → callbackProgram k2 = Some p2 → linkKey ident off1 k1 = linkKey ident off2 k2 → k1 = k2.
Proof.
  intros [H1 _]%callbackProgram_kind [H2 _]%callbackProgram_kind Hk. apply (f_equal bytes) in Hk. unfold linkKey in Hk.
  rewrite <-!str_app_assoc, !bytes_app, H1, H2 in Hk. rewrite <-!(assoc_L (++)) in Hk. rewrite !(assoc_L (++)) in Hk. apply app_inj_tail in Hk as [_ ?]. lia.
Qed.

Section restart.
Context (m : machine) (target ident : string) (kind off : Z) (prog : string).
Context (Hprog : callbackProgram kind = Some prog) (Hopen : OpenExecutable m target = true).
Local Abbreviation probe := (MkUprobe target prog off false).
Context (Hprobe : Uprobe m probe = true).

Lemma attachOffset_other kind' off' a : kind' ≠ kind →
  dataLinks (attachOffset m target ident kind' off' a).2 !! linkKey ident off kind = dataLinks a !! linkKey ident off kind.
Proof.
  intros Hne. unfold attachOffset. destruct (callbackProgram kind') as [prog'|] eqn:Hp; [|done]. case_decide; [done|]. case_decide; [done|].
  destruct (_ && _); [|done]. cbn. apply lookup_insert_ne. intros Hk. by apply (linkKey_kind _ _ _ _ _ _ _ Hp Hprog) in Hk.
Qed.

Lemma attach_loop l a : prog ∈ progs a → dataLinks a !! linkKey ident off kind = None → NoDup l.*1 → (kind, off) ∈ l →
  dataLinks (foldl (fun a e => (attachOffset m target ident e.1 e.2 a).2) a l) !! linkKey ident off kind = Some probe.
Proof.
  revert a. induction l as [|[k o] l IH]; intros a Hin Hnone Hnd Hl; [by apply elem_of_nil in Hl|]. cbn [foldl fst snd].
  apply NoDup_cons in Hnd as [Hni Hnd]. apply elem_of_cons in Hl as [[= <- <-]|Hl].
  - assert (dataLinks (attachOffset m target ident kind off a).2 !! linkKey ident off kind = Some probe) as Ha.
    { unfold attachOffset. rewrite Hprog. rewrite decide_False by tauto. rewrite decide_False by (by rewrite Hnone; intros [? ?]).
      rewrite Hopen, Hprobe. cbn. apply lookup_insert_eq. }
    eapply lookup_weaken; [exact Ha|]. apply (extends_foldl (fun a => a)). intros s x. apply attachOffset_extends.
  - assert (k ≠ kind) as Hne by (intros ->; apply Hni; by apply (list_elem_of_fmap_2 fst _ (kind, off))).
    apply IH; [|by rewrite attachOffset_other|done|done]. destruct (attachOffset_frame m target ident k o a) as (_ & -> & _). done.
Qed.
End restart.

Lemma attachOffset_program m target ident kind off a created a' :
  attachOffset m target ident kind off a = (Some created, a') → ∃ prog, callbackProgram kind = Some prog ∧ prog ∈ progs a.
Proof. unfold attachOffset. destruct (callbackProgram kind) as [prog|]; [|done]. case_decide as Hp; [done|]. intros _. exists prog. by split. Qed.

(** The cache file as the next process finds it. *)
Definition reread (path : string) (files : gmap string offsetCacheFile) : cacheRead :=
  match files !! path with Some file => FileContent file | None => FileMissing end.

(** Handling a callback records its offset, in memory and in the file. *)
Lemma handleCallback_learns m event a provider off target created a1 id :
  CB_Tgid event ≠ 0 → CB_Address event ≠ 0 → located m event provider off target →
  attachOffset m target (identity provider) (CB_Kind event) off a = (Some created, a1) →
  (libraryContentIDFor m (identity provider) target a).1 = Some id → persists m = all_well →
  synced (offsets a) (files a) ∨ cached (oc_entries (offsets a)) id (CB_Kind event) ≠ Some off →
  let a' := handleCallback m event a in
  oc_path (offsets a') = oc_path (offsets a) ∧ synced (offsets a') (files a') ∧ cached (oc_entries (offsets a')) id (CB_Kind event) = Some off.
Proof.
  intros Ht Ha (mappings & Hr & Hf & Hm) Hatt Hid Hper Hsync. unfold handleCallback. rewrite decide_False by tauto.
  unfold attachCallback. rewrite Hr, Hf, Hm, Hatt. cbn [negb].
  destruct (attachOffset_program _ _ _ _ _ _ _ _ Hatt) as (prog & Hprog & _). destruct (callbackProgram_kind _ _ Hprog) as [_ [name Hname]].
  pose proof (attachOffset_frame m target (identity provider) (CB_Kind event) off a) as (_ & _ & Ho & Hfi & Hc & _). rewrite Hatt in *. cbn [snd] in *.
  set (a2 := with_pending _ a1). assert (contentIDs a2 = contentIDs a ∧ offsets a2 = offsets a ∧ files a2 = files a) as (Hc2 & Ho2 & Hf2) by done.
  unfold rememberOffset. pose proof (contentID_frame m (identity provider) target a2) as (_ & _ & _ & Ho3 & Hf3).
  assert ((libraryContentIDFor m (identity provider) target a2).1 = Some id) as Hid2.
  { unfold libraryContentIDFor in *. rewrite Hc2. destruct (contentIDs a !! identity provider); [done|]. by destruct (libraryContentID _) as [[?|]| | |]. }
  destruct (libraryContentIDFor m (identity provider) target a2) as [oid a3]. cbn [fst snd] in *. subst oid. rewrite Ho3, Hf3, Ho2, Hf2, Hper.
  pose proof (store_cached all_well id (CB_Kind event) off (offsets a) (files a) name Hname) as Hst.
  pose proof (store_synced id (CB_Kind event) off (offsets a) (files a) (mk_is_Some _ _ Hname) Hsync) as Hsy.
  destruct (store _ _ _ _ _ _) as [[[changed err] c'] files']. cbn. destruct Hst as (Hpath & Hcd & _). done.
Qed.

(** C40. A restarted agent gets its probes back. Suppose a callback is handled at an offset whose probe
    is in place afterwards, the library's content can be identified, the write of the cache file
    succeeds, and the offset is new to the cache or the file already held what the cache holds. Then
    the file holds all of the cache, the offset included; an agent that starts with that file and
    finds, in any process, a mapping of a library with the same content attaches the same program at
    the same offset of that library, before the process creates another object. The last condition is
    needed: a write that failed is not made up for when the same offset is learned again
    ([failed_persist_not_retried]). *)
Theorem offsets_survive_restart `{RangeOrder} m event a provider off target created a1 id :
  CB_Tgid event ≠ 0 → CB_Address event ≠ 0 → located m event provider off target →
  attachOffset m target (identity provider) (CB_Kind event) off a = (Some created, a1) →
  (libraryContentIDFor m (identity provider) target a).1 = Some id → persists m = all_well →
  synced (offsets a) (files a) ∨ cached (oc_entries (offsets a)) id (CB_Kind event) ≠ Some off →
  let a' := handleCallback m event a in
  let path := oc_path (offsets a) in
  let restarted := newAttacher (progs a) (newOffsetCache path (reread path (files a'))).1 (files a') in
  synced (offsets a') (files a') ∧
  ∃ prog, callbackProgram (CB_Kind event) = Some prog ∧
    ∀ m' pid mapping target', mappingTarget m' pid mapping = Some target' → libraryContentID (libraryOf m' target') = Ret (Some id) →
      let probe := MkUprobe target' prog off false in
      OpenExecutable m' target' = true → Uprobe m' probe = true →
      dataLinks (replayCachedCallbacks m' pid mapping restarted) !! linkKey (identity mapping) off (CB_Kind event) = Some probe.
Proof.
  intros Ht Ha Hloc Hatt Hid Hper Hsync a' path restarted.
  destruct (handleCallback_learns m event a provider off target created a1 id Ht Ha Hloc Hatt Hid Hper Hsync) as (Hpath & Hsy & Hcd).
  destruct (attachOffset_program _ _ _ _ _ _ _ _ Hatt) as (prog & Hprog & Hin). split; [done|]. exists prog. split; [done|].
  intros m' pid mapping target' Htarget Hcontent probe Hopen Hprobe. unfold replayCachedCallbacks. rewrite Htarget.
  unfold libraryContentIDFor. change (contentIDs restarted) with (∅ : gmap string string). rewrite lookup_empty, Hcontent.
  apply attach_loop; [done..|apply NoDup_range_keys|]. apply elem_of_range. rewrite offset_lookup_spec. cbn [offsets with_contentIDs restarted newAttacher].
  fold a' in Hpath, Hsy, Hcd. unfold synced in Hsy. rewrite Hpath in Hsy. fold path in Hsy. unfold reread. destruct (files a' !! path) as [file|].
  - rewrite newOffsetCache_cached. cbn in Hsy. by rewrite Hsy.
  - cbn in Hsy. rewrite <-Hsy in Hcd. unfold cached in Hcd. by rewrite lookup_empty in Hcd.
Qed.

(** When the cache file cannot be written, the offset is only in memory, and learning it again does
    not write the file either: the next agent does not know it. *)
Lemma failed_persist_not_retried o lib kind off name c files :
  callbackKindKeys !! kind = Some name → oc_entries c !! lib = None → writeOk o = false →
  let '(_, err, c', files') := store o lib kind off c files in
  err = true ∧ store all_well lib kind off c' files' = (false, false, c', files') ∧ files' !! oc_path c = files !! oc_path c.
Proof.
  intros Hk Hlib Hw. unfold store. rewrite Hk, Hlib. cbn [mbind option_bind]. rewrite decide_False by done. unfold persistLocked. rewrite Hw. cbn [negb].
  destruct (mkdirOk o); cbn [negb]; cbn [oc_entries oc_path]; rewrite lookup_insert_eq; cbn [mbind option_bind default from_option];
    rewrite lookup_insert_eq; (rewrite decide_True by done); split_and!; try done.
  apply lookup_delete_ne, tmp_path.
Qed.

(** ** A process with a provider library *)
Module Attach.
Definition library : libraryFile := MkLibrary (Some (Some (note_bytes (MkNote gnu_name 3 [171; 205])))) None.
Definition machine_of (pid : string) : machine :=
  MkMachine (Some [pid]) (fun p => if decide (p = "/proc/" +:+ pid +:+ "/maps") then Some "1000-2000 r-xp 00003000 08:01 42 /lib/libmlx5.so" else None)
    (fun p => if decide (p = "/proc/" +:+ pid +:+ "/root/lib/libmlx5.so") then StatInfo 1 42 else StatMissing)
    (fun _ => []) (fun _ => None) (fun _ => library) (fun _ => true) (fun _ => true) (fun _ => true) all_well.
Definition event : callbackEvent := MkCallback 7 1 4112.
Definition mapping : procMapping := MkMapping 4096 8192 12288 "r-xp" "08:01" "42" "/lib/libmlx5.so".
Definition empty : attacher := newAttacher {[ "handle_post_send" ]} (MkOffsetCache "/var/offsets.json" ∅) ∅.
Definition learned : attacher := handleCallback (machine_of "7") event empty.
Definition restarted : attacher :=
  newAttacher (progs empty) (@newOffsetCache canonical_order "/var/offsets.json" (reread "/var/offsets.json" (files learned))).1 (files learned).
End Attach.

Lemma build_id_of_notes_witness :
  parseGNUBuildID (mjoin (note_bytes <$> [MkNote [76; 0] 1 [9]; MkNote gnu_name 3 [171; 205]]) ++ [0]) = Ret "abcd".
Proof. rewrite (proj1 build_id_of_notes); [reflexivity|by repeat constructor|done]. Defined.

Lemma offsets_survive_restart_witness :
  dataLinks (@replayCachedCallbacks canonical_order (Attach.machine_of "9") "9" Attach.mapping Attach.restarted) !! linkKey "08:01:42" 12304 1 =
    Some (MkUprobe "/proc/9/root/lib/libmlx5.so" "handle_post_send" 12304 false).
Proof.
  destruct (@offsets_survive_restart canonical_order (Attach.machine_of "7") Attach.event Attach.empty Attach.mapping 12304
    "/proc/7/root/lib/libmlx5.so" true
    (attachOffset (Attach.machine_of "7") "/proc/7/root/lib/libmlx5.so" "08:01:42" 1 12304 Attach.empty).2 "gnu:abcd") as (_ & prog & Hprog & Hr).
  - done.
  - done.
  - exists [Attach.mapping]. split_and!; vm_compute; reflexivity.
  - vm_compute. reflexivity.
  - vm_compute. reflexivity.
  - reflexivity.
  - left. reflexivity.
  - injection Hprog as <-. apply (Hr (Attach.machine_of "9") "9" Attach.mapping "/proc/9/root/lib/libmlx5.so"); vm_compute; reflexivity.
Defined.
