(* ===== verification/EbpfSendsProperties.v ===== *)
(** * Properties of the send pipeline

    The invariants of src/pkg/agent/ebpfflow/sends.go: what a sink holds and has lost, how the
    consumer turns events into rows, and the accounts of both over all interleavings. *)
From Stdlib Require Import ZArith.
From stdpp Require Import base gmap list numbers strings.
From S2P Require Import Prelude GoStrings GoNumbers GoBytes GoText GoNet GoPath EbpfResolve EbpfEndpoint EbpfReport EbpfReportProperties EbpfSends.
Local Open Scope Z_scope.

Lemma nrows_app l l' : nrows (l ++ l') = nrows l + nrows l'.
Proof. unfold nrows. rewrite length_app. lia. Qed.

Lemma nrows_nonneg l : 0 ≤ nrows l.
Proof. unfold nrows. lia. Qed.

Lemma add64_wraps a x b : a = x mod 2 ^ 64 → add64 a b = (x + b) mod 2 ^ 64.
Proof. intros ->. unfold add64. by rewrite Zplus_mod_idemp_l. Qed.

Lemma nrows_one row : nrows [row] = 1.
Proof. done. Qed.
Lemma nrows_nil : nrows [] = 0.
Proof. done. Qed.
#[local] Hint Rewrite nrows_app nrows_one nrows_nil : nrows.

(** ** One sink *)

(** The rows a sink has handed to its backend, and those it still holds, in order. *)
Definition kept (w : sinkWorker) : list sendRow := mjoin (batches w).*1 ++ sk_pending w ++ sk_rows w.

(** Of the rows offered so far a sink keeps some, in order, and counts the others. *)
Definition balanced (offered : list sendRow) (w : sinkWorker) : Prop :=
  kept w `sublist_of` offered ∧ sk_dropped w = (nrows offered - nrows (kept w)) mod 2 ^ 64.

Section sink.
Context (opts : sendOptions).

Definition limit : Z := Z.max 1 (opt_batch opts).

Definition sized (w : sinkWorker) : Prop :=
  nrows (sk_rows w) ≤ opt_queue opts ∧ nrows (sk_pending w) < limit ∧ Forall (fun b : list sendRow * bool => 0 < nrows b.1 ≤ limit) (batches w).

Definition drained (w : sinkWorker) : Prop := sk_done w = true → sk_closed w = true ∧ sk_rows w = [] ∧ sk_pending w = [].

Lemma balanced_enqueue offered row w : balanced offered w → balanced (offered ++ [row]) (sinkEnqueue opts row w).
Proof.
  intros [Hs Hd]. unfold sinkEnqueue. case_decide; split; unfold kept in *; cbn [batches sk_pending sk_rows sk_dropped with_rows with_dropped].
  - rewrite !(assoc_L (++)). apply sublist_app; [|done]. by rewrite <- (assoc_L (++)).
  - rewrite Hd. f_equal. autorewrite with nrows. lia.
  - by apply sublist_inserts_r.
  - rewrite (add64_wraps _ _ _ Hd). f_equal. autorewrite with nrows. lia.
Qed.

(** The connection is the only thing [connect] touches. *)
Lemma connect_spec e w : ∃ c t, connect e w = with_connection c t w.
Proof. unfold connect. destruct (_ || _); [|eauto]. destruct w. do 2 eexists. reflexivity. Qed.

Lemma flush_cases e w :
  ∃ c t, sinkFlush e w = with_connection c t w ∧ sk_pending w = [] ∨
    sk_pending w ≠ [] ∧
    (sinkFlush e w = with_pending [] (with_batches (batches w ++ [(sk_pending w, inserts e)]) (with_connection c t w)) ∨
     sinkFlush e w = with_pending [] (with_dropped (add64 (sk_dropped w) (nrows (sk_pending w))) (with_connection c t w))).
Proof.
  unfold sinkFlush. case_decide as Hp.
  - exists (connected w), (lastAttempt w). left. split; [by destruct w|]. unfold nrows in Hp. destruct (sk_pending w); [done|cbn in Hp; lia].
  - assert (sk_pending w ≠ []) as Hne by (intros He; by rewrite He in Hp).
    assert (∃ c t, (if connected w then w else connect e w) = with_connection c t w) as (c & t & ->).
    { destruct (connected w); [|apply connect_spec]. exists (connected w), (lastAttempt w). by destruct w. }
    destruct c; cbn [connected with_connection]; [exists (inserts e), t|exists false, t]; right; (split; [done|]); [left|right; reflexivity].
    by destruct (inserts e).
Qed.

Lemma balanced_connection offered c t w : balanced offered w → balanced offered (with_connection c t w).
Proof. done. Qed.

Lemma balanced_flush offered e w : balanced offered w → balanced offered (sinkFlush e w).
Proof.
  intros [Hs Hd]. destruct (flush_cases e w) as (c & t & [[-> _]|(_ & [-> | ->])]); [done| |]; split; unfold kept in *;
    cbn [batches sk_pending sk_rows sk_dropped with_pending with_dropped with_batches with_connection] in *.
  - rewrite fmap_app, join_app. cbn. by rewrite app_nil_r, <- (assoc_L (++)).
  - rewrite fmap_app, join_app. cbn. by rewrite app_nil_r, <- (assoc_L (++)).
  - etrans; [|exact Hs]. apply sublist_app; [done|]. by apply sublist_inserts_l.
  - rewrite (add64_wraps _ _ _ Hd). f_equal. autorewrite with nrows. lia.
Qed.

Lemma sized_flush e w :
  nrows (sk_rows w) ≤ opt_queue opts → nrows (sk_pending w) ≤ limit → Forall (fun b : list sendRow * bool => 0 < nrows b.1 ≤ limit) (batches w) →
  sized (sinkFlush e w) ∧ sk_pending (sinkFlush e w) = [] ∧ sk_rows (sinkFlush e w) = sk_rows w.
Proof.
  intros Hq Hp Hb. pose proof (flush_cases e w) as (c & t & Hf).
  destruct Hf as [[-> He]|(Hne & [-> | ->])]; unfold sized; cbn [batches sk_pending sk_rows with_pending with_dropped with_batches with_connection].
  - rewrite He. split_and!; try done. rewrite nrows_nil. unfold limit. lia.
  - split_and!; [done|rewrite nrows_nil; unfold limit; lia| |done|done]. apply Forall_app. split; [done|]. constructor; [|done]. cbn [fst]. split; [|done].
    unfold nrows. destruct (sk_pending w); [done|cbn; lia].
  - split_and!; try done. rewrite nrows_nil. unfold limit. lia.
Qed.

(** A step keeps the rows in order and within bounds, and the goroutine ends with nothing left. *)
Lemma sinkStep_ok offered a w w' : sinkStep opts a w = Some w' → balanced offered w → sized w →
  balanced offered w' ∧ sized w' ∧ (sk_done w = true ∨ drained w') ∧ sk_closed w' = sk_closed w.
Proof.
  unfold sinkStep. intros Hstep Hb (Hq & Hp & Hbs). destruct (sk_done w) eqn:Hdone; [done|].
  assert (∀ e, let f := sinkFlush e w in balanced offered f ∧ sized f ∧ sk_pending f = [] ∧ sk_rows f = sk_rows w ∧ sk_closed f = sk_closed w ∧ sk_done f = false) as Hflush.
  { intros e f. destruct (sized_flush e w Hq ltac:(lia) Hbs) as (Hs & Hpend & Hrows). split_and!; [by apply balanced_flush|done..| |];
    unfold f; destruct (flush_cases e w) as (? & ? & [[-> _]|(_ & [-> | ->])]); done. }
  destruct a as [e|e|e|e], (sk_started w) eqn:Hst; try done.
  - injection Hstep as <-. destruct (connect_spec e w) as (c & t & ->). split_and!; [exact Hb|done..|by right|done].
  - destruct (sk_rows w) as [|row rest] eqn:Hr; [done|]. injection Hstep as <-.
    set (v := with_pending _ _). assert (balanced offered v) as Hv.
    { destruct Hb as [Hs Hd]. unfold balanced. assert (kept v = kept w) as ->; [|done].
      unfold kept, v. cbn. rewrite Hr. by rewrite <- !(assoc_L (++)). }
    assert (nrows (sk_rows v) ≤ opt_queue opts) as Hqv by (change (nrows rest ≤ opt_queue opts); rewrite ?Hr in Hq; unfold nrows in *; cbn [length] in Hq; lia).
    assert (nrows (sk_pending v) = nrows (sk_pending w) + 1) as Hpv by (unfold v; cbn; by autorewrite with nrows).
    case_decide as Hfull.
    + destruct (sized_flush e v) as (Hs & _ & _); [done|lia|done|]. split_and!; [by apply balanced_flush|done| |];
        [right; intros Hd|]; destruct (flush_cases e v) as (? & ? & [[Heq _]|(_ & [Heq|Heq])]); rewrite Heq in *; try done; cbn in Hd; congruence.
    + split_and!; [done| |right; intros Hd; unfold v in Hd; cbn in Hd; congruence|done]. split_and!; [done| |done]. rewrite nrows_app, nrows_one in Hfull. unfold limit in *. lia.
  - case_decide as Hc; [|done]. destruct Hc as [Hr Hcl]. injection Hstep as <-. destruct (Hflush e) as (Hb' & Hs' & Hpe & Hre & Hce & _).
    split_and!; [exact Hb'|exact Hs'|right; intros _|cbn; exact Hce]. split_and!; cbn; [by rewrite Hce|by rewrite Hre|exact Hpe].
  - injection Hstep as <-. destruct (Hflush e) as (Hb' & Hs' & Hpe & Hre & Hce & Hde). split_and!; [done|done| |done].
    right. intros Hd. congruence.
Qed.

(** A closed sink needs one step per row and one more to end. *)
Fixpoint sinkRun (acts : list sinkAction) (w : sinkWorker) : option sinkWorker :=
  match acts with
  | [] => Some w
  | a :: acts => w ← sinkStep opts a w; sinkRun acts w
  end.

Lemma sink_drains es e w :
  sk_started w = true → sk_done w = false → sk_closed w = true → length es = length (sk_rows w) →
  ∃ w', sinkRun ((SinkReceive <$> es) ++ [SinkClosed e]) w = Some w' ∧ sk_done w' = true ∧ sk_rows w' = [] ∧ sk_pending w' = [].
Proof.
  assert (∀ e w, sk_rows (sinkFlush e w) = sk_rows w ∧ sk_started (sinkFlush e w) = sk_started w ∧ sk_done (sinkFlush e w) = sk_done w ∧
    sk_closed (sinkFlush e w) = sk_closed w ∧ sk_pending (sinkFlush e w) = []) as Hf.
  { intros e' w'. destruct (flush_cases e' w') as (? & ? & [[-> ?]|(_ & [-> | ->])]); done. }
  revert w. induction es as [|e' es IH]; intros w Hs Hd Hc Hl; destruct (sk_rows w) as [|row rest] eqn:Hr; try done.
  - cbn [fmap list_fmap app sinkRun]. unfold sinkStep. rewrite Hd, Hs, decide_True by done. cbn [mbind option_bind].
    eexists. split; [done|]. destruct (Hf e w) as (Hrw & _ & _ & _ & Hp). by cbn; rewrite Hrw, Hp.
  - cbn [fmap list_fmap app sinkRun]. unfold sinkStep at 1. rewrite Hd, Hs, Hr. cbn [mbind option_bind]. set (v := with_pending _ _).
    apply IH; destruct (Hf e' v) as (Hrv & Hsv & Hdv & Hcv & _); case_decide; rewrite ?Hrv, ?Hsv, ?Hdv, ?Hcv; try done; by injection Hl.
Qed.
End sink.

(** ** Events and rows *)

(** What makes submissions collapse into one row. *)
Definition event_shape (e : sendEvent) : aggregateKey := MkAggregateKey (SE_Tgid e) (SE_QPN e) (SE_Kind e) (SE_Bytes e) (SE_WRs e).
Definition row_shape (r : sendRow) : aggregateKey := MkAggregateKey (row_tgid r) (row_qpn r) (row_kind r) (row_bytes r) (row_wrs r).

(** The submissions of a shape that rows stand for. *)
Definition row_weight (key : aggregateKey) (r : sendRow) : Z := if decide (row_shape r = key) then row_count r else 0.
Definition rows_count (key : aggregateKey) (rows : list sendRow) : Z := foldr (fun r acc => row_weight key r + acc) 0 rows.
Definition window_count (key : aggregateKey) (p : sendPipeline) : Z := sum_map (fun _ r => row_weight key r) (window p).

(** Every row of the window is stored under its shape and its counter has not wrapped around. *)
Definition keyed (p : sendPipeline) : Prop :=
  ∀ k r, window p !! k = Some r → row_shape r = k ∧ 0 ≤ row_count r ≤ sampled p.

Lemma rows_count_app key l l' : rows_count key (l ++ l') = rows_count key l + rows_count key l'.
Proof. unfold rows_count. induction l as [|r l IH]; cbn [app foldr]; [lia|]. rewrite IH. lia. Qed.

Section consumer.
Context `{RangeOrder} (opts : sendOptions).

Definition sink_inv (offered : list sendRow) (on : bool) (w : sinkWorker) : Prop :=
  balanced offered w ∧ sized opts w ∧ drained w ∧ (sk_closed w = true → on = false).

Lemma sinkEnqueue_inv offered row w : sink_inv offered true w → sink_inv (offered ++ [row]) true (sinkEnqueue opts row w).
Proof.
  intros (Hb & (Hq & Hp & Hbs) & Hd & Hc). split_and!; [by apply balanced_enqueue| | |].
  - unfold sinkEnqueue. case_decide; [|done]. split_and!; [|done..]. cbn [sk_rows with_rows]. rewrite nrows_app, nrows_one. lia.
  - assert (sk_done w = false) as Hn; [|unfold drained, sinkEnqueue; case_decide; cbn; congruence].
    destruct (sk_done w) eqn:He; [|done]. destruct (Hd He) as [Hcl _]. by specialize (Hc Hcl).
  - unfold sinkEnqueue. by case_decide.
Qed.

Lemma sinkStep_inv offered on a w w' : sinkStep opts a w = Some w' → sink_inv offered on w → sink_inv offered on w'.
Proof.
  intros Hs (Hb & Hsz & Hd & Hcl).
  destruct (sinkStep_ok opts offered a w w' Hs Hb Hsz) as (Hb' & Hs' & [Hdone|Hd'] & Hc'); [unfold sinkStep in Hs; by rewrite Hdone in Hs|].
  split_and!; [done..|]. by rewrite Hc'.
Qed.

(** The sinks have been offered some rows, and made steps of their own. *)
Definition offers (rows : list sendRow) (before after : list sinkWorker) : Prop :=
  length after = length before ∧ ∀ offered, Forall (sink_inv offered true) before → Forall (sink_inv (offered ++ rows) true) after.

Lemma offers_nil ws : offers [] ws ws.
Proof. split; [done|]. intros offered. by rewrite app_nil_r. Qed.

Lemma offers_trans r1 r2 w1 w2 w3 : offers r1 w1 w2 → offers r2 w2 w3 → offers (r1 ++ r2) w1 w3.
Proof. intros [L1 H1] [L2 H2]. split; [congruence|]. intros offered Hw. rewrite app_assoc. by apply H2, H1. Qed.

Lemma offers_row row ws : offers [row] ws (sinkEnqueue opts row <$> ws).
Proof. split; [apply length_fmap|]. intros offered Hw. apply Forall_fmap. eapply Forall_impl; [exact Hw|]. intros w. apply sinkEnqueue_inv. Qed.

Lemma sinkAt_spec steps p : ∃ ws, foldl (sinkAt opts) p steps = with_sinks ws p ∧ offers [] (sinks p) ws.
Proof.
  revert p. induction steps as [|[i a] steps IH]; intros p; cbn [foldl]; [exists (sinks p); split; [by destruct p|apply offers_nil]|].
  assert (∃ ws, sinkAt opts p (i, a) = with_sinks ws p ∧ offers [] (sinks p) ws) as (w1 & -> & H1).
  { unfold sinkAt. cbn [fst snd]. destruct (sinks p !! i) as [w|] eqn:Hw; cbn [mbind option_bind]; [|exists (sinks p); split; [by destruct p|apply offers_nil]].
    destruct (sinkStep opts a w) as [w'|] eqn:Hs; [|exists (sinks p); split; [by destruct p|apply offers_nil]].
    eexists. split; [reflexivity|]. split; [apply length_insert|]. intros offered Hi. rewrite app_nil_r. apply Forall_insert; [done|].
    rewrite Forall_lookup in Hi. eapply sinkStep_inv; [done|]. by eapply Hi. }
  destruct (IH (with_sinks w1 p)) as (ws & -> & H2). exists ws. split; [done|]. by eapply (offers_trans [] []).
Qed.

Lemma offerRows_spec meanwhile rows p : ∃ ws, offerRows opts meanwhile rows p = with_sinks ws p ∧ offers rows (sinks p) ws.
Proof.
  revert meanwhile p. induction rows as [|row rows IH]; intros meanwhile p; cbn [offerRows]; [exists (sinks p); split; [by destruct p|apply offers_nil]|].
  destruct (sinkAt_spec (default [] (head meanwhile)) p) as (w1 & -> & H1). unfold enqueue. cbn [sinks with_sinks].
  destruct (IH (tail meanwhile) (with_sinks (sinkEnqueue opts row <$> w1) (with_sinks w1 p))) as (ws & -> & H2). exists ws. split; [done|].
  eapply (offers_trans [] _); [exact H1|]. eapply (offers_trans [row]); [apply offers_row|exact H2].
Qed.

Lemma flushWindow_spec meanwhile p : ∃ ws,
  flushWindow opts meanwhile p = (snd <$> range (window p), with_window ∅ (windowEnd p) (with_sinks ws p)) ∧
  offers (snd <$> range (window p)) (sinks p) ws.
Proof. unfold flushWindow. destruct (offerRows_spec meanwhile (snd <$> range (window p)) p) as (ws & -> & ?). eauto. Qed.

Lemma window_rows key p : rows_count key (snd <$> range (window p)) = window_count key p.
Proof.
  unfold rows_count, window_count, sum_map. rewrite <-(foldr_sum_perm (fun e => row_weight key e.2) _ _ (range_perm (window p))).
  induction (range (window p)) as [|e l IH]; cbn [fmap list_fmap foldr]; [done|]. by rewrite IH.
Qed.

Lemma aggregate_frame meanwhile ts event attr p rows p' : aggregate opts meanwhile ts event attr p = (rows, p') →
  offers rows (sinks p) (sinks p') ∧ consuming p' = consuming p ∧ sampled p' = sampled p ∧ received p' = received p ∧ p_metrics p' = p_metrics p.
Proof.
  unfold aggregate. destruct (flushWindow_spec meanwhile p) as (ws & -> & Hw). destruct (from_option _ _ _); intros [= <- <-]; [done|].
  split_and!; [apply offers_nil|done..].
Qed.

Lemma count_up_spec r : 0 ≤ row_count r < 2 ^ 32 - 1 → row_shape (count_up r) = row_shape r ∧ row_count (count_up r) = row_count r + 1.
Proof. intros Hr. split; [done|]. cbn. unfold add32. rewrite Z.mod_small; lia. Qed.

(** One more submission of a shape in the window. *)
Lemma window_grows key r p end_ k :
  keyed p → window p !! k = Some r ∨ window p !! k = None ∧ row_shape r = k ∧ row_count r = 0 → 0 ≤ sampled p < 2 ^ 32 - 1 →
  let p' := with_sampled (sampled p + 1) (with_window (<[k := count_up r]> (window p)) end_ p) in
  keyed p' ∧ window_count key p' = window_count key p + (if decide (k = key) then 1 else 0).
Proof.
  intros Hk Hr Hn p'. assert (row_shape r = k ∧ 0 ≤ row_count r ≤ sampled p) as [Hs Hc].
  { destruct Hr as [Hr|(_ & ? & Hz)]; [by apply Hk|]. rewrite Hz. split; [done|lia]. }
  destruct (count_up_spec r) as [Hus Huc]; [lia|]. split.
  - intros k' r' Hl. cbn in Hl. cbn [sampled p' with_sampled]. destruct (decide (k' = k)) as [->|Hne].
    + rewrite lookup_insert_eq in Hl. injection Hl as <-. rewrite Hus, Huc. split; [done|lia].
    + rewrite lookup_insert_ne in Hl by done. destruct (Hk _ _ Hl). split; [done|lia].
  - unfold window_count. cbn [window p' with_sampled with_window]. rewrite sum_map_insert. unfold row_weight at 3. rewrite Hus, Huc, Hs.
    destruct Hr as [-> |(-> & _ & Hz)]; cbn [from_option]; [unfold row_weight at 2; rewrite Hs|rewrite Hz]; case_decide; lia.
Qed.

Lemma with_sampled_window v w e p : with_sampled v (with_window w e p) = with_window w e (with_sampled v p).
Proof. done. Qed.

Lemma aggregate_count meanwhile ts event attr p rows p' :
  keyed p → 0 ≤ sampled p < 2 ^ 32 - 1 → aggregate opts meanwhile ts event attr (with_sampled (sampled p + 1) p) = (rows, p') →
  keyed p' ∧ ∀ key, rows_count key rows + window_count key p' = window_count key p + (if decide (event_shape event = key) then 1 else 0).
Proof.
  intros Hk Hn. unfold aggregate. destruct (flushWindow_spec meanwhile (with_sampled (sampled p + 1) p)) as (ws & -> & _). cbn [windowEnd with_sampled window sinks].
  destruct (from_option _ _ _); intros [= <- <-].
  - set (row := rowOf _ _ _ _ _). cbn [window with_window sinks with_sinks]. rewrite lookup_empty. cbn [default from_option].
    set (q := with_window ∅ (windowEnd p) (with_sinks ws p)).
    assert (keyed q) as Hkq by (intros k r; cbn; by rewrite lookup_empty).
    pose proof (fun key => window_grows key row q (Some (Truncate ts (opt_aggregate opts) + opt_aggregate opts)) (event_shape event) Hkq
      ltac:(right; by split_and!) Hn) as Hg.
    split; [exact (proj1 (Hg (event_shape event)))|]. intros key.
    destruct (Hg key) as [_ Hc]. unfold window_count in Hc. change (window q) with (∅ : gmap aggregateKey sendRow) in Hc.
    rewrite sum_map_empty, Z.add_0_l in Hc. exact (f_equal2 Z.add (window_rows key p) Hc).
  - set (row := default _ _).
    assert (window p !! event_shape event = Some row ∨ window p !! event_shape event = None ∧ row_shape row = event_shape event ∧ row_count row = 0) as Hr.
    { unfold row, event_shape. destruct (window p !! _) as [r|]; [by left|by right]. }
    split; [exact (proj1 (window_grows (event_shape event) row p _ _ Hk Hr Hn))|]. intros key.
    exact (proj2 (window_grows key row p _ _ Hk Hr Hn)).
Qed.
End consumer.

(** ** Ring buffers *)

(** [struct send_event] and [struct callback_event] of rdma_flow.bpf.c in memory. *)
Definition send_event_bytes (e : sendEvent) : list Z :=
  le_bytes 8 (TsNs e) ++ le_bytes 4 (SE_Tgid e) ++ le_bytes 4 (SE_QPN e) ++ le_bytes 8 (SE_Bytes e) ++ le_bytes 4 (SE_WRs e) ++ le_bytes 4 (SE_Kind e).
Definition callback_event_bytes (e : callbackEvent) : list Z :=
  le_bytes 4 (CB_Tgid e) ++ le_bytes 4 (CB_Kind e) ++ le_bytes 8 (CB_Address e).

Definition send_event_fits (e : sendEvent) : Prop :=
  0 ≤ TsNs e < 2 ^ 64 ∧ 0 ≤ SE_Tgid e < 2 ^ 32 ∧ 0 ≤ SE_QPN e < 2 ^ 32 ∧ 0 ≤ SE_Bytes e < 2 ^ 64 ∧ 0 ≤ SE_WRs e < 2 ^ 32 ∧ 0 ≤ SE_Kind e < 2 ^ 32.
Definition callback_event_fits (e : callbackEvent) : Prop :=
  0 ≤ CB_Tgid e < 2 ^ 32 ∧ 0 ≤ CB_Kind e < 2 ^ 32 ∧ 0 ≤ CB_Address e < 2 ^ 64.

Lemma decodeSendEvent_total data : len data < sendEventSize ∧ decodeSendEvent data = Ret None ∨
  sendEventSize ≤ len data ∧ ∃ e, decodeSendEvent data = Ret (Some e).
Proof. unfold decodeSendEvent, sendEventSize. case_decide; [by left|right]. split; [lia|]. read_fields. eauto. Qed.

Lemma decodeCallbackEvent_total data : len data < 16 ∧ decodeCallbackEvent data = Ret None ∨
  16 ≤ len data ∧ ∃ e, decodeCallbackEvent data = Ret (Some e).
Proof. unfold decodeCallbackEvent. case_decide; [by left|right]. split; [lia|]. read_fields. eauto. Qed.

Lemma send_event_read e post : send_event_fits e → decodeSendEvent (send_event_bytes e ++ post) = Ret (Some e).
Proof.
  destruct e as [ts tgid qpn n wrs kind]. intros (H1 & H2 & H3 & H4 & H5 & H6). unfold decodeSendEvent, send_event_bytes, sendEventSize.
  cbn [TsNs SE_Tgid SE_QPN SE_Bytes SE_WRs SE_Kind] in *. rewrite decide_False by (unfold len; rewrite !length_app, !length_le_bytes; lia).
  field (@nil Z). field (le_bytes 8 ts). field (le_bytes 8 ts ++ le_bytes 4 tgid).
  field (le_bytes 8 ts ++ le_bytes 4 tgid ++ le_bytes 4 qpn).
  field (le_bytes 8 ts ++ le_bytes 4 tgid ++ le_bytes 4 qpn ++ le_bytes 8 n).
  field (le_bytes 8 ts ++ le_bytes 4 tgid ++ le_bytes 4 qpn ++ le_bytes 8 n ++ le_bytes 4 wrs). done.
Qed.

Lemma callback_event_read e post : callback_event_fits e → decodeCallbackEvent (callback_event_bytes e ++ post) = Ret (Some e).
Proof.
  destruct e as [tgid kind address]. intros (H1 & H2 & H3). unfold decodeCallbackEvent, callback_event_bytes.
  cbn [CB_Tgid CB_Kind CB_Address] in *. rewrite decide_False by (unfold len; rewrite !length_app, !length_le_bytes; lia).
  field (@nil Z). field (le_bytes 4 tgid). field (le_bytes 4 tgid ++ le_bytes 4 kind). done.
Qed.

(** What the BPF programs put into the ring buffers is what the agent reads: an event whose
    fields fit their C types is decoded to itself, whatever padding follows it, and a record of
    any other content is decoded or, when it is too short, reported; decoding never panics. *)
Theorem ring_events_roundtrip :
  (∀ e post, send_event_fits e → decodeSendEvent (send_event_bytes e ++ post) = Ret (Some e)) ∧
  (∀ e post, callback_event_fits e → decodeCallbackEvent (callback_event_bytes e ++ post) = Ret (Some e)) ∧
  (∀ data, len data < sendEventSize ∧ decodeSendEvent data = Ret None ∨ sendEventSize ≤ len data ∧ ∃ e, decodeSendEvent data = Ret (Some e)) ∧
  (∀ data, len data < 16 ∧ decodeCallbackEvent data = Ret None ∨ 16 ≤ len data ∧ ∃ e, decodeCallbackEvent data = Ret (Some e)).
Proof. split_and!; [exact send_event_read|exact callback_event_read|exact decodeSendEvent_total|exact decodeCallbackEvent_total]. Qed.

(** ** The consumer and the sinks *)
Definition event_of (raw : list Z) : option sendEvent := match decodeSendEvent raw with Ret (Some e) => Some e | _ => None end.

(** The submissions a run reads. *)
Definition read_events (acts : list sendAction) : list sendEvent := omap (fun a => match a with Read raw _ => event_of raw | _ => None end) acts.

(** Of the submissions after the first [n], those with a number divisible by [s]. *)
Fixpoint every (s n : Z) (l : list sendEvent) : list sendEvent :=
  match l with
  | [] => []
  | e :: l => (if decide ((n + 1) mod s = 0) then [e] else []) ++ every s (n + 1) l
  end.

Definition shape_count (key : aggregateKey) (l : list sendEvent) : Z :=
  foldr (fun e acc => (if decide (event_shape e = key) then 1 else 0) + acc) 0 l.

Definition nevents (l : list sendEvent) : Z := Z.of_nat (length l).

Section pipeline.
Context `{RangeOrder} (opts : sendOptions).

Definition sinks_inv (offered : list sendRow) (p : sendPipeline) : Prop := Forall (sink_inv opts offered (consuming p)) (sinks p).

Lemma consumeRecord_frame meanwhile raw p rows p' : consumeRecord opts meanwhile raw p = Ret (rows, p') →
  offers opts rows (sinks p) (sinks p') ∧ consuming p' = consuming p.
Proof.
  unfold consumeRecord. destruct (decodeSendEvent_total raw) as [[_ ->]|[_ [e ->]]]; cbn [mbind go_bind]; [intros [= <- <-]; split; [apply offers_nil|done]|].
  destruct (negb _); [intros [= <- <-]; split; [apply offers_nil|done]|]. case_decide; [intros [= <- <-]; split; [apply offers_nil|done]|].
  case_decide; [|intros [= <- <-]; split; [apply offers_row|done]]. intros [= Ha]. apply aggregate_frame in Ha as (Hs & Hc & _). done.
Qed.

Lemma sendStep_sinks a p rows p' offered : sendStep opts a p = Some (rows, p') → sinks_inv offered p → sinks_inv (offered ++ rows) p'.
Proof.
  unfold sinks_inv. intros Hstep Hinv. destruct a as [raw meanwhile|byKey|meanwhile| | |i a]; cbn [sendStep] in Hstep.
  - destruct (consuming p) eqn:Hc; [|done]. destruct (consumeRecord opts meanwhile raw p) as [[rows0 p0]|?| |] eqn:Hr; [|done..]. injection Hstep as <- <-.
    apply consumeRecord_frame in Hr as [[_ Ho] ->]. rewrite Hc. by apply Ho.
  - injection Hstep as <- <-. by rewrite app_nil_r.
  - destruct (consuming p) eqn:Hc; [|done]. destruct (flushWindow_spec opts meanwhile p) as (ws & Hfl & _ & Ho).
    rewrite Hfl in Hstep. injection Hstep as <- <-. cbn. eapply Forall_impl; [by apply Ho|]. intros w (? & ? & ? & ?). by split_and!.
  - destruct (consuming p) eqn:Hc; [|done]. injection Hstep as <- <-. rewrite app_nil_r. cbn.
    eapply Forall_impl; [exact Hinv|]. intros w (? & ? & ? & ?). by split_and!.
  - case_decide as Hc; [|done]. injection Hstep as <- <-. rewrite app_nil_r. destruct Hc as [Hc Hopen]. cbn. rewrite Hc in *.
    apply Forall_fmap. eapply Forall_impl; [exact Hinv|]. intros w (Hb & Hs & Hd & ?). split_and!; [done|done| |done].
    intros Hdone. destruct (Hd Hdone) as (_ & ? & ?). done.
  - destruct (sinks p !! i) as [w|] eqn:Hw; [|done]. cbn [mbind option_bind] in Hstep.
    destruct (sinkStep opts a w) as [w'|] eqn:Hs; [|done]. injection Hstep as <- <-. rewrite app_nil_r. cbn.
    apply Forall_insert; [done|]. rewrite Forall_lookup in Hinv. eapply sinkStep_inv; [done|]. by eapply Hinv.
Qed.

(** No sink comes or goes. *)
Lemma sendStep_length a p rows p' : sendStep opts a p = Some (rows, p') → length (sinks p') = length (sinks p).
Proof.
  destruct a as [raw meanwhile|byKey|meanwhile| | |i a]; cbn [sendStep]; intros Hstep.
  - destruct (consuming p); [|done]. destruct (consumeRecord opts meanwhile raw p) as [[rows0 p0]|?| |] eqn:Hr; [|done..]. injection Hstep as <- <-.
    by apply consumeRecord_frame in Hr as [[Hl _] _].
  - by injection Hstep as <- <-.
  - destruct (consuming p); [|done]. destruct (flushWindow_spec opts meanwhile p) as (ws & Hfl & Hl & _). rewrite Hfl in Hstep. by injection Hstep as <- <-.
  - destruct (consuming p); [|done]. by injection Hstep as <- <-.
  - case_decide; [|done]. injection Hstep as <- <-. apply length_fmap.
  - destruct (sinks p !! i); [|done]. cbn [mbind option_bind] in Hstep. destruct (sinkStep opts a s); [|done]. injection Hstep as <- <-. apply length_insert.
Qed.

Lemma sendRun_length acts p rows p' : sendRun opts acts p = Some (rows, p') → length (sinks p') = length (sinks p).
Proof.
  revert p rows. induction acts as [|a acts IH]; intros p rows; cbn [sendRun]; [by intros [= <- <-]|].
  destruct (sendStep opts a p) as [[r1 p1]|] eqn:Hs; [|done]. cbn [mbind option_bind].
  destruct (sendRun opts acts p1) as [[r2 p2]|] eqn:Hr; [|done]. cbn [mbind option_bind]. intros [= <- <-].
  rewrite (IH _ _ Hr). by eapply sendStep_length.
Qed.

Lemma newSinkWorker_inv : 0 ≤ opt_queue opts → sink_inv opts [] true newSinkWorker.
Proof. intros Hq. split_and!; [split; done|split_and!; [done|change (0 < limit opts); unfold limit; lia|constructor]|done|done]. Qed.

Lemma sendRun_sinks acts p rows p' offered : sendRun opts acts p = Some (rows, p') → sinks_inv offered p → sinks_inv (offered ++ rows) p'.
Proof.
  revert p rows offered. induction acts as [|a acts IH]; intros p rows offered; cbn [sendRun]; [intros [= <- <-]; by rewrite app_nil_r|].
  destruct (sendStep opts a p) as [[r1 p1]|] eqn:Hs; [|done]. cbn [mbind option_bind].
  destruct (sendRun opts acts p1) as [[r2 p2]|] eqn:Hr; [|done]. cbn [mbind option_bind]. intros [= <- <-] Hinv.
  rewrite app_assoc. eapply IH; [done|]. by eapply sendStep_sinks.
Qed.

(** What is counted after [n] submissions. *)
Definition counts (n : Z) (p : sendPipeline) : Prop := keyed p ∧ received p = n ∧ 0 ≤ sampled p ≤ n ∧ sinks p ≠ [].

(** A record that holds a submission adds one of its shape to the rows and the window when its
    number is divisible by the sampling rate. *)
Lemma consumeRecord_counts meanwhile raw p rows p' n :
  consumeRecord opts meanwhile raw p = Ret (rows, p') → counts n p → n < 2 ^ 32 - 1 → 0 < sample opts →
  let new := option_list (event_of raw) in
  let stored := every (sample opts) n new in
  counts (n + nevents new) p' ∧ sampled p' = sampled p + nevents stored ∧
  total (m_sends (p_metrics p')) = total (m_sends (p_metrics p)) + nevents new ∧
  ∀ key, rows_count key rows + window_count key p' = window_count key p + shape_count key stored.
Proof.
  intros Hr (Hk & Hn & Hs & Hne) Hlt Hsample. pose proof Hr as Hframe. apply consumeRecord_frame in Hframe as [[Hsinks _] _].
  assert (sinks p' ≠ []) as Hne' by (intros He; rewrite He in Hsinks; by destruct (sinks p)). clear Hsinks. revert Hr.
  unfold consumeRecord, event_of. destruct (decodeSendEvent_total raw) as [[_ ->]|[_ [e ->]]]; cbn [mbind go_bind].
  { intros [= <- <-]. cbn zeta. change (option_list None) with (@nil sendEvent). cbn [every]. change (nevents []) with 0. rewrite !Z.add_0_r. split_and!; [split_and!; done || lia|done|done|intros key; exact (eq_sym (Z.add_0_r _))]. }
  assert (add64 (received p) 1 = n + 1) as Hadd by (unfold add64; rewrite Hn, Z.mod_small; lia).
  set (attr := default _ _). set (q := with_received _ _ p). cbn zeta. change (option_list (Some e)) with [e]. cbn [every].
  assert (storing q = true) as -> by (unfold storing; rewrite bool_decide_true; done). cbn [negb].
  assert (total (m_sends (p_metrics q)) = total (m_sends (p_metrics p)) + 1) as Ht by apply total_add.
  change (nevents [e]) with 1. rewrite Hadd. destruct (decide ((n + 1) mod sample opts = 0)) as [Hz|Hz].
  2: { rewrite decide_True by done. intros [= <- <-]. cbn [app]. change (nevents []) with 0. rewrite Z.add_0_r.
    split_and!; [|done|exact Ht|intros key; exact (eq_sym (Z.add_0_r _))]. split_and!; [exact Hk|exact Hadd|cbn; lia|cbn; lia|done]. }
  rewrite decide_False by auto. change (sampled q) with (sampled p).
  assert (add64 (sampled p) 1 = sampled q + 1) as -> by (unfold add64; rewrite Z.mod_small; [done|lia]).
  assert (keyed q) as Hkq by exact Hk. cbn [app nevents length shape_count foldr]. case_decide as Hagg; intros [= Hres].
  - destruct (aggregate_count opts meanwhile _ e attr q rows p' Hkq ltac:(cbn; lia) Hres) as [Hk' Hcnt].
    apply aggregate_frame in Hres as (_ & _ & Hsm & Hrc & Hm). cbn in Hsm, Hrc. rewrite Hm.
    split_and!; [split_and!; [done|lia|lia|lia|done]|rewrite Hsm; done|exact Ht|]. intros key. rewrite Hcnt. unfold q, window_count. cbn [window with_received]. lia.
  - subst. cbn [p_metrics sampled enqueue with_sinks with_sampled]. split_and!; [|done|exact Ht|].
    + split_and!; [|exact Hadd|cbn; lia|cbn; lia|done]. intros k r Hl. apply Hkq in Hl as [? ?]. split; [done|]. cbn in *. lia.
    + intros key. unfold rows_count, row_weight. cbn [foldr]. unfold window_count, q. cbn. unfold row_shape, event_shape. cbn. lia.
Qed.

Lemma sendStep_counts a p rows p' n :
  sendStep opts a p = Some (rows, p') → counts n p → n < 2 ^ 32 - 1 → 0 < sample opts →
  let new := read_events [a] in
  let stored := every (sample opts) n new in
  counts (n + nevents new) p' ∧ sampled p' = sampled p + nevents stored ∧
  total (m_sends (p_metrics p')) = total (m_sends (p_metrics p)) + nevents new ∧
  ∀ key, rows_count key rows + window_count key p' = window_count key p + shape_count key stored.
Proof.
  intros Hstep Hc Hlt Hsample. destruct a as [raw meanwhile|byKey|meanwhile| | |i a].
  { cbn [sendStep] in Hstep. destruct (consuming p); [|done]. destruct (consumeRecord opts meanwhile raw p) as [[rows0 p0]|?| |] eqn:Hr; [|done..].
    injection Hstep as <- <-. cbn zeta. assert (read_events [Read raw meanwhile] = option_list (event_of raw)) as ->.
    { unfold read_events. cbn. by destruct (event_of raw). }
    by eapply consumeRecord_counts. }
  all: cbn [read_events omap list_omap every] in *; change (nevents []) with 0; rewrite !Z.add_0_r.
  all: assert (∀ q, window q = window p → sampled q = sampled p → received q = received p → (sinks q ≠ []) → counts n q) as Hsame
    by (intros q Hw Hsm Hrc Hne; destruct Hc as (Hk & ? & ? & _); split_and!; [intros k r; rewrite Hw, Hsm; apply Hk|congruence|rewrite Hsm; lia..|done]).
  all: cbn [sendStep] in Hstep.
  - injection Hstep as <- <-. split_and!; [by apply Hsame; [..|apply Hc]|done|done|intros key; exact (eq_sym (Z.add_0_r _))].
  - destruct (consuming p); [|done]. destruct (flushWindow_spec opts meanwhile p) as (ws & Hfl & Hl & _).
    rewrite Hfl in Hstep. injection Hstep as <- <-. destruct Hc as (Hk & Hn & Hs & Hne). split_and!.
    + split_and!; [intros k r Hkr; cbn in Hkr; by rewrite lookup_empty in Hkr|done|cbn; lia|cbn; lia|cbn; intros ->; by destruct (sinks p)].
    + done.
    + done.
    + intros key. rewrite window_rows. reflexivity.
  - destruct (consuming p); [|done]. injection Hstep as <- <-. split_and!; [by apply Hsame; [..|apply Hc]|done|done|intros key; exact (eq_sym (Z.add_0_r _))].
  - case_decide; [|done]. injection Hstep as <- <-. split_and!; [apply Hsame; [done..|]|done|done|intros key; exact (eq_sym (Z.add_0_r _))]. destruct Hc as (_ & _ & _ & Hne). cbn. by destruct (sinks p).
  - destruct (sinks p !! i) as [w|] eqn:Hw; [|done]. cbn [mbind option_bind] in Hstep.
    destruct (sinkStep opts a w) as [w'|]; [|done]. injection Hstep as <- <-. split_and!; [apply Hsame; [done..|]|done|done|intros key; exact (eq_sym (Z.add_0_r _))].
    cbn. destruct (sinks p), i; done.
Qed.

Lemma every_app s n l l' : every s n (l ++ l') = every s n l ++ every s (n + nevents l) l'.
Proof.
  revert n. induction l as [|e l IH]; intros n; cbn [app every]; [by rewrite Z.add_0_r|]. rewrite IH, (assoc_L (++)). do 2 f_equal.
  unfold nevents. cbn [length]. lia.
Qed.

Lemma shape_count_app key l l' : shape_count key (l ++ l') = shape_count key l + shape_count key l'.
Proof. unfold shape_count. induction l as [|e l IH]; cbn [app foldr]; [lia|]. rewrite IH. lia. Qed.

Lemma nevents_app l l' : nevents (l ++ l') = nevents l + nevents l'.
Proof. unfold nevents. rewrite length_app. lia. Qed.

Lemma sendRun_counts acts p rows p' n :
  sendRun opts acts p = Some (rows, p') → counts n p → n + nevents (read_events acts) < 2 ^ 32 - 1 → 0 < sample opts →
  let new := read_events acts in
  let stored := every (sample opts) n new in
  counts (n + nevents new) p' ∧ sampled p' = sampled p + nevents stored ∧
  total (m_sends (p_metrics p')) = total (m_sends (p_metrics p)) + nevents new ∧
  ∀ key, rows_count key rows + window_count key p' = window_count key p + shape_count key stored.
Proof.
  revert p rows n. induction acts as [|a acts IH]; intros p rows n; cbn [sendRun].
  { intros [= <- <-] Hc _ _. cbn [read_events omap list_omap every]. change (nevents []) with 0. rewrite !Z.add_0_r.
    split_and!; [done..|]. intros key. exact (eq_sym (Z.add_0_r _)). }
  destruct (sendStep opts a p) as [[r1 p1]|] eqn:Hs; [|done]. cbn [mbind option_bind].
  destruct (sendRun opts acts p1) as [[r2 p2]|] eqn:Hr; [|done]. cbn [mbind option_bind]. intros [= <- <-] Hc Hlt Hsample.
  assert (read_events (a :: acts) = read_events [a] ++ read_events acts) as Hev by apply (omap_app _ [a]). rewrite Hev in *. rewrite nevents_app in *.
  assert (0 ≤ nevents (read_events [a]) ∧ 0 ≤ nevents (read_events acts)) as [? ?] by (unfold nevents; lia).
  destruct (sendStep_counts a p r1 p1 n Hs Hc ltac:(lia) Hsample) as (Hc1 & Hs1 & Ht1 & Hk1).
  destruct (IH p1 r2 _ Hr Hc1 ltac:(lia) Hsample) as (Hc2 & Hs2 & Ht2 & Hk2). cbn zeta. rewrite every_app, nevents_app.
  split_and!; [by rewrite Z.add_assoc|lia|lia|]. intros key. specialize (Hk1 key). specialize (Hk2 key). rewrite rows_count_app, shape_count_app. lia.
Qed.
End pipeline.

Lemma sample_positive node m boot k opts opts' p : newSendPipeline node m boot k opts = Ret (opts', p) →
  0 < sample opts' ∧ sample opts' = Z.max 1 (sample opts) ∧ p = MkPipeline node m boot ∅ (replicate k newSinkWorker) ∅ None 0 0 true ∧
  opt_queue opts' = opt_queue opts ∧ (k ≠ O → 0 ≤ opt_queue opts').
Proof. unfold newSendPipeline. case_decide as Hq; [done|]. intros [= <- <-]. cbn. case_decide; split_and!; try done; lia. Qed.

(** C37. Every submission is counted, and storage keeps exactly one in every [sample]: after any
    interleaving of the goroutines, the metrics have gone up by one for each submission read,
    the counters are the number of submissions read and the number of those kept, and for every
    shape of submission (process, queue pair, kind, size, work requests) the counts of the rows
    handed to the sinks and of the rows still in the aggregation window add up to the number of
    kept submissions of that shape; below 2^32 - 1 submissions no counter wraps around. *)
Theorem sends_counted `{RangeOrder} node m boot factories opts opts' p acts rows p' :
  newSendPipeline node m boot factories opts = Ret (opts', p) → factories ≠ O →
  sendRun opts' acts p = Some (rows, p') → nevents (read_events acts) < 2 ^ 32 - 1 →
  let kept := every (Z.max 1 (sample opts)) 0 (read_events acts) in
  received p' = nevents (read_events acts) ∧ sampled p' = nevents kept ∧
  total (m_sends (p_metrics p')) = total (m_sends m) + nevents (read_events acts) ∧
  ∀ key, rows_count key rows + window_count key p' = shape_count key kept.
Proof.
  intros Hnew Hf Hrun Hlt. destruct (sample_positive _ _ _ _ _ _ _ Hnew) as (Hpos & Hsample & Hp & _).
  destruct (sendRun_counts opts' acts p rows p' 0 Hrun) as ((_ & Hr & _) & Hs & Ht & Hc).
  - rewrite Hp. split_and!; [intros k r; cbn; by rewrite lookup_empty|done..|]. by destruct factories.
  - lia.
  - done.
  - rewrite Hsample in *. rewrite Hp in *. cbn zeta. split_and!; [exact Hr|exact Hs|exact Ht|].
    intros key. rewrite Hc. reflexivity.
Qed.

(** C38. No row is lost without being counted: whatever the goroutines and the backends do, the rows a
    sink has handed to its backend followed by those it still holds are rows that were offered,
    in the order they were offered and each at most once, and the drop counter is the number of
    the others; the queue and the batches stay within their bounds; and a sink whose goroutine
    has returned holds nothing, so that after the channels are closed every row has been handed
    over or counted.  A closed sink gets there in one step per queued row and one more. *)
Theorem sinks_account `{RangeOrder} node m boot factories opts opts' p acts rows p' :
  newSendPipeline node m boot factories opts = Ret (opts', p) → sendRun opts' acts p = Some (rows, p') →
  length (sinks p') = factories ∧
  ∀ i w, sinks p' !! i = Some w →
    let handed := mjoin (batches w).*1 in
    handed ++ sk_pending w ++ sk_rows w `sublist_of` rows ∧
    sk_dropped w = (nrows rows - nrows (handed ++ sk_pending w ++ sk_rows w)) mod 2 ^ 64 ∧
    nrows (sk_rows w) ≤ opt_queue opts ∧
    Forall (fun b : list sendRow * bool => 0 < nrows b.1 ≤ Z.max 1 (opt_batch opts')) (batches w) ∧
    (sk_done w = true → handed `sublist_of` rows ∧ sk_dropped w = (nrows rows - nrows handed) mod 2 ^ 64) ∧
    (sk_closed w = true → sk_started w = true → sk_done w = false → ∀ es e, length es = length (sk_rows w) →
      ∃ w', sinkRun opts' ((SinkReceive <$> es) ++ [SinkClosed e]) w = Some w' ∧ sk_done w' = true ∧ sk_rows w' = [] ∧ sk_pending w' = []).
Proof.
  intros Hnew Hrun. destruct (sample_positive _ _ _ _ _ _ _ Hnew) as (_ & _ & Hp & Hq & Hqn). split.
  - transitivity (length (sinks p)); [|rewrite Hp; apply length_replicate]. by eapply sendRun_length.
  - intros i w Hw. assert (sinks_inv opts' [] p) as Hinv.
    { rewrite Hp. destruct factories; [constructor|]. apply Forall_replicate, newSinkWorker_inv. auto. }
    apply (sendRun_sinks opts' acts p rows p' [] Hrun) in Hinv. unfold sinks_inv in Hinv. rewrite Forall_lookup in Hinv.
    destruct (Hinv i w Hw) as ((Hs & Hd) & (Hqs & _ & Hbs) & Hdr & _). cbn [app] in *. cbn zeta. split_and!; [done|done|by rewrite <-Hq|done| |].
    + intros Hdone. destruct (Hdr Hdone) as (_ & Hr & Hpe). unfold kept in *. by rewrite Hr, Hpe, !app_nil_r in *.
    + intros Hcl Hst Hdn es e Hl. by apply sink_drains.
Qed.

(** ** A run *)
Module Sends.
Definition event (ts size : Z) : sendEvent := MkSendEvent ts 100 7 size 1 1.
Definition opts : sendOptions := MkSendOptions 1 2 (10 ^ 9) 0 1000.
Definition fixed : sendOptions := MkSendOptions 1 2 (10 ^ 9) 1 1000.
Definition start : sendPipeline := MkPipeline "n" newFlowMetrics 0 ∅ [newSinkWorker] ∅ None 0 0 true.
Definition ok : encounter := MkEncounter 0 true true.

(** Three submissions in one window and one in the next; the second row finds the queue full. *)
Definition acts : list sendAction :=
  [Sink 0 (SinkStart ok); Read (send_event_bytes (event 100 64)) []; Read (send_event_bytes (event 200 64)) []; Read [1] [];
   Read (send_event_bytes (event 300 4096)) []; Read (send_event_bytes (event 1500 64)) []; ReaderClosed []; Close;
   Sink 0 (SinkReceive ok); Sink 0 (SinkClosed ok)].
Definition result : list sendRow * sendPipeline := default ([], start) (@sendRun canonical_order fixed acts start).
End Sends.

Lemma ring_events_roundtrip_witness :
  decodeSendEvent (send_event_bytes (Sends.event 100 64) ++ [0; 0]) = Ret (Some (Sends.event 100 64)).
Proof. apply (proj1 ring_events_roundtrip). vm_compute. intuition congruence. Defined.

Lemma sends_counted_witness :
  sampled Sends.result.2 = 4 ∧ rows_count (event_shape (Sends.event 0 64)) Sends.result.1 + window_count (event_shape (Sends.event 0 64)) Sends.result.2 = 3.
Proof.
  destruct (@sends_counted canonical_order "n" newFlowMetrics 0 1 Sends.opts Sends.fixed Sends.start Sends.acts Sends.result.1 Sends.result.2)
    as (_ & Hs & _ & Hk).
  - reflexivity.
  - done.
  - vm_compute. reflexivity.
  - vm_compute. reflexivity.
  - split; [rewrite Hs; vm_compute; reflexivity|]. rewrite Hk. vm_compute. reflexivity.
Defined.

Lemma sinks_account_witness : ∃ w, sinks Sends.result.2 !! 0%nat = Some w ∧ sk_done w = true ∧ sk_dropped w = 2 ∧ length Sends.result.1 = 3%nat.
Proof.
  destruct (@sinks_account canonical_order "n" newFlowMetrics 0 1 Sends.opts Sends.fixed Sends.start Sends.acts Sends.result.1 Sends.result.2)
    as [Hlen Hsinks].
  - reflexivity.
  - vm_compute. reflexivity.
  - destruct (sinks Sends.result.2 !! 0%nat) as [w|] eqn:Hw; [|by vm_compute in Hw].
    destruct (Hsinks 0%nat w Hw) as (_ & Hd & _). exists w. split; [reflexivity|].
    assert (sk_done <$> sinks Sends.result.2 !! 0%nat = Some true) as Hdone by (vm_compute; reflexivity).
    assert ((fun w => nrows (mjoin (batches w).*1 ++ sk_pending w ++ sk_rows w)) <$> sinks Sends.result.2 !! 0%nat = Some 1) as Hkept by (vm_compute; reflexivity).
    rewrite Hw in Hdone, Hkept. injection Hdone as Hdone. injection Hkept as Hkept. rewrite Hkept in Hd. split; [exact Hdone|].
    split; [rewrite Hd; vm_compute; reflexivity|vm_compute; reflexivity].
Defined.
