(* ===== verification/EbpfComponentProperties.v ===== *)
(** * Properties of the eBPF flow component

    The claims about src/pkg/agent/ebpfflow/component.go: when updates are published, and what a
    normalised configuration starts. *)
From Stdlib Require Import ZArith.
From stdpp Require Import base gmap list numbers strings sorting.
From S2P Require Import Prelude GoStrings GoNumbers GoBytes GoText GoNet GoPath Config EbpfResolve EbpfEndpoint EbpfPublisher EbpfReport EbpfSends EbpfOffsets EbpfAttach EbpfComponent EbpfProperties EbpfSendsProperties SFlowCollectorProperties.
Local Open Scope Z_scope.

(** ** Updates *)
Section updates.
Context `{RangeOrder} `{SliceSort} (Marshal : RDMAEndpoint → string) (host : node).
Local Abbreviation runPublisher := (runPublisher Marshal host).
Local Abbreviation requestEndpointUpdate := (requestEndpointUpdate Marshal host).
Local Abbreviation loopStep := (loopStep Marshal host).
Local Abbreviation loopRun := (loopRun Marshal host).

(** A run is stamped with its time. *)
Lemma runPublisher_spec s l n : l_publisher l = Some n →
  ∃ n', l_publisher (runPublisher s l) = Some n' ∧ lastRun n' = Some (s_now s) ∧ minInterval n' = minInterval n ∧
    endpointDue (runPublisher s l) = endpointDue l.
Proof.
  intros Hn. unfold EbpfComponent.runPublisher, EbpfPublisher.run. rewrite Hn. set (n1 := if synced _ then _ else _).
  assert (lastRun n1 = Some (s_now s) ∧ minInterval n1 = minInterval n) as [Hl Hm].
  { unfold n1, adoptExisting. destruct (synced _); [done|]. by destruct (s_own s). }
  destruct (podQPs _ _ _) as [qps res]. unfold EbpfPublisher.publish. destruct (foldl (publishObject Marshal _) _ _) as [pub a1]. destruct (foldl _ _ _) as [pub' a2].
  cbn. eauto 10.
Qed.

(** The last run is not in the future, and an update that is due follows it within the
    interval. *)
Definition on_time (t interval : Z) (l : loopState) : Prop :=
  match l_publisher l with
  | None => endpointDue l = None
  | Some n => minInterval n = interval ∧ ∃ last, lastRun n = Some last ∧ last ≤ t ∧ ∀ due, endpointDue l = Some due → due ≤ last + interval
  end.

Lemma on_time_later t t' interval l : on_time t interval l → t ≤ t' → on_time t' interval l.
Proof.
  unfold on_time. destruct (l_publisher l); [|done]. intros (Hm & last & Hl & Hle & Hd) Ht. split; [done|]. exists last. split_and!; [done|lia|done].
Qed.

Lemma runPublisher_on_time s interval l n : l_publisher l = Some n → minInterval n = interval →
  (∀ due, endpointDue l = Some due → due ≤ s_now s + interval) → on_time (s_now s) interval (runPublisher s l).
Proof.
  intros Hn Hm Hd. destruct (runPublisher_spec s l n Hn) as (n' & Hp & Hl & Hm' & He). unfold on_time. rewrite Hp, He.
  split; [congruence|]. exists (s_now s). split_and!; [done|lia|done].
Qed.

Lemma request_on_time t s interval l : on_time t interval l → t ≤ s_now s → on_time (s_now s) interval (requestEndpointUpdate s l).
Proof.
  intros Hot Ht. unfold EbpfComponent.requestEndpointUpdate. destruct (l_publisher l) as [n|] eqn:Hn; [|by eapply on_time_later].
  destruct (endpointDue l) as [due|] eqn:Hdue; [by eapply on_time_later|].
  pose proof Hot as Hot'. unfold on_time in Hot'. rewrite Hn in Hot'. destruct Hot' as (Hm & last & Hlast & Hle & _).
  case_decide as Hw; [eapply runPublisher_on_time; [done|done|congruence]|].
  unfold on_time. cbn [l_publisher with_due endpointDue]. rewrite Hn. split; [done|]. exists last. split_and!; [done|lia|].
  intros due [= <-]. unfold delayUntilAllowed in *. rewrite Hlast in *. case_decide; lia.
Qed.

Lemma loopStep_on_time t e s interval l l' : loopStep e s l = Some l' → on_time t interval l → t ≤ s_now s → on_time (s_now s) interval l'.
Proof.
  intros Hstep Hot Ht. pose proof (on_time_later _ _ _ _ Hot Ht) as Hnow. destruct e; cbn [EbpfComponent.loopStep] in Hstep.
  - injection Hstep as <-. exact Hnow.
  - injection Hstep as <-. by eapply request_on_time.
  - destruct (endpointDue l) as [due|] eqn:Hdue; [|done]. case_decide; [|done]. injection Hstep as <-. unfold on_time in Hot.
    destruct (l_publisher l) as [n|] eqn:Hn; [|congruence]. destruct Hot as [Hm _]. by apply (runPublisher_on_time s interval (with_due None l) n).
  - destruct (l_publisher l) as [n|] eqn:Hn; [|done]. injection Hstep as <-. unfold on_time in Hot. rewrite Hn in Hot.
    destruct Hot as (Hm & last & _ & Hle & Hd). apply (runPublisher_on_time s interval l n); [done..|]. intros due Hdue. specialize (Hd due Hdue). lia.
  - unfold reportTick in Hstep. destruct (report _ _ _ _ _ _ _ _) as [[[res m] at_] [[? ?] removed]]. injection Hstep as <-.
    destruct removed; [|exact Hnow]. eapply request_on_time; [|exact Ht]. exact Hot.
Qed.

(** Times that do not go back. *)
Fixpoint ordered_from (t : Z) (steps : list (loopEvent * surroundings)) : Prop :=
  match steps with
  | [] => True
  | (_, s) :: steps => t ≤ s_now s ∧ ordered_from (s_now s) steps
  end.

Fixpoint last_time (t : Z) (steps : list (loopEvent * surroundings)) : Z :=
  match steps with
  | [] => t
  | (_, s) :: steps => last_time (s_now s) steps
  end.

Lemma loopRun_on_time steps t interval l l' : loopRun steps l = Some l' → ordered_from t steps → on_time t interval l → on_time (last_time t steps) interval l'.
Proof.
  revert t l. induction steps as [|[e s] steps IH]; intros t l; cbn [EbpfComponent.loopRun ordered_from last_time]; [by intros [= <-]|].
  destruct (loopStep e s l) as [l1|] eqn:Hs; [|done]. cbn [mbind option_bind]. intros Hr [Ht Ho] Hot. eapply IH; [done|done|by eapply loopStep_on_time].
Qed.

Lemma startLoop_on_time opts nodeName client podReader apiReader progs r files metrics a s :
  on_time (s_now s) (endpointMinInterval opts) (startLoop Marshal host opts nodeName client podReader apiReader progs r files metrics a s).
Proof.
  unfold startLoop. set (publisher := if endpointEnabled opts then _ else _). set (l0 := MkLoop _ _ _ _ _ _ _).
  assert (on_time (s_now s) (endpointMinInterval opts) (runPublisher s l0)) as Hot.
  { destruct publisher as [n|] eqn:Hp.
    - apply (runPublisher_on_time s _ l0 n); [done| |done]. unfold publisher, newEndpointPublisher in Hp.
      destruct (endpointEnabled opts); [|done]. destruct (negb _); [done|]. case_decide; [done|]. by injection Hp as <-.
    - unfold EbpfComponent.runPublisher, EbpfPublisher.run. cbn. done. }
  assert (endpointDue (runPublisher s l0) = None) as Hd.
  { unfold EbpfComponent.runPublisher. by destruct (run _ _ _ _ _ _ _ _) as [[? ?] ?]. }
  set (l1 := runPublisher s l0) in *. destruct (report _ _ _ _ _ _ _ _) as [[[res m] at_] cleaned]. unfold on_time in *. cbn. by rewrite Hd in Hot.
Qed.
End updates.

(** A change is published in time: whatever the component has done before, when a queue pair
    appears or the cleanup removes one, the publisher runs at once, or an update is due at the
    latest one minimal interval later; it runs at once only when no update is due and the last
    run is at least the interval ago; and at the moment an update is due the step that runs it is
    enabled.  The clock must not go back. *)
Theorem endpoint_updates_prompt `{RangeOrder} `{SliceSort} Marshal host opts nodeName client podReader apiReader progs r files metrics a s0 steps l s :
  let interval := endpointMinInterval opts in
  loopRun Marshal host steps (startLoop Marshal host opts nodeName client podReader apiReader progs r files metrics a s0) = Some l →
  ordered_from (s_now s0) (steps ++ [(QPChange, s)]) →
  ∀ n, l_publisher l = Some n →
  ∃ last, lastRun n = Some last ∧ last ≤ s_now s ∧
    let l' := requestEndpointUpdate Marshal host s l in
    loopStep Marshal host QPChange s l = Some l' ∧
    ((∃ n', l_publisher l' = Some n' ∧ lastRun n' = Some (s_now s) ∧ last + interval ≤ s_now s ∧ endpointDue l' = None) ∨
     (∃ due, endpointDue l' = Some due ∧ due ≤ s_now s + interval ∧ l_publisher l' = Some n ∧
        ∀ s', due ≤ s_now s' → ∃ l'' n'', loopStep Marshal host EndpointDue s' l' = Some l'' ∧ endpointDue l'' = None ∧
          l_publisher l'' = Some n'' ∧ lastRun n'' = Some (s_now s'))).
Proof.
  intros interval Hrun Hord n Hn.
  assert (∀ t steps, ordered_from t (steps ++ [(QPChange, s)]) → ordered_from t steps ∧ last_time t steps ≤ s_now s) as Hsplit.
  { intros t st. revert t. induction st as [|[e x] st IH]; intros t; cbn [app ordered_from last_time]; [tauto|]. intros [? Ho]. destruct (IH _ Ho). tauto. }
  destruct (Hsplit _ _ Hord) as [Hord' Hlast]. clear Hsplit.
  pose proof (loopRun_on_time Marshal host steps _ interval _ _ Hrun Hord' (startLoop_on_time _ _ _ _ _ _ _ _ _ _ _ _ _)) as Hot.
  pose proof (on_time_later _ _ _ _ Hot Hlast) as Hnow. unfold on_time in Hnow. rewrite Hn in Hnow. destruct Hnow as (Hm & last & Hl & Hle & Hd).
  exists last. split_and!; [done|done|]. cbn zeta. split; [done|]. unfold requestEndpointUpdate. rewrite Hn.
  assert (∀ due l', endpointDue l' = Some due → l_publisher l' = Some n → ∀ s', due ≤ s_now s' →
    ∃ l'' n'', loopStep Marshal host EndpointDue s' l' = Some l'' ∧ endpointDue l'' = None ∧ l_publisher l'' = Some n'' ∧ lastRun n'' = Some (s_now s')) as Hfire.
  { intros due l' Hdue Hp s' Hs'. cbn [loopStep]. rewrite Hdue, decide_True by done.
    destruct (runPublisher_spec Marshal host s' (with_due None l') n Hp) as (n'' & ? & ? & _ & ?). eauto 10. }
  destruct (endpointDue l) as [due|] eqn:Hdue.
  - right. exists due. split_and!; [done|specialize (Hd due eq_refl); lia|done|by apply Hfire].
  - unfold delayUntilAllowed. rewrite Hl. destruct (decide (minInterval n - (s_now s - last) ≤ 0)) as [Hw|Hw].
    + rewrite decide_True by done. left. destruct (runPublisher_spec Marshal host s l n Hn) as (n' & ? & ? & _ & ?). exists n'.
      split_and!; [done|done|lia|congruence].
    + rewrite decide_False by lia. right. eexists. split_and!; [done|lia|done|by apply Hfire].
Qed.

(** ** Configuration *)
Lemma durations_parse (order : list (string * string) → list (string * string)) l u :
  (∀ l, order l ≡ₚ l) → go_foldl (fun _ '(field, value) => _ ← validateDuration field value; Ret ()) () (order l) = Ret u →
  ∀ field value, (field, value) ∈ l → is_Some (ParseDuration value).
Proof.
  intros Hperm Hr field value Hin. rewrite <-(Hperm l) in Hin. revert Hr Hin. generalize (order l) as k.
  induction k as [|[f v] k IH]; [intros _ Hin; by apply elem_of_nil in Hin|]. cbn [go_foldl].
  destruct (validateDuration f v) as [x| | |] eqn:Hv; cbn [mbind go_bind]; [|by intros ?..]. apply validateDuration_ok in Hv as Hp. destruct u. intros Hr [[= -> ->]|Hin]%elem_of_cons; [by rewrite Hp|]. by apply IH.
Qed.

(** What a normalised configuration starts: all its durations parse, so that only an interval that
    is not positive is refused; otherwise the component gets options with positive intervals and
    sampling, and the send pipeline starts without a panic unless there is a backend and the
    flush interval is not positive, which nothing refuses. *)
Theorem ebpf_config_starts order cfg cfg' nodeName :
  (∀ l, order l ≡ₚ l) → normalizeEBPFFlowConfig order cfg = Ret cfg' → 0 ≤ FE_Sample (EB_FlowEvents cfg) → nodeName ≠ "" →
  ∃ discovery report interval flush,
    ParseDuration (DiscoveryInterval cfg') = Some discovery ∧ ParseDuration (ReportInterval cfg') = Some report ∧
    ParseDuration (EP_Interval (EB_Endpoint cfg')) = Some interval ∧ ParseDuration (FE_Flush (EB_FlowEvents cfg')) = Some flush ∧
    let publishes := default false (EP_Enabled (EB_Endpoint cfg')) in
    let stores := default false (FE_Enabled (EB_FlowEvents cfg')) && bool_decide (OTLP_Endpoint (EB_OTLP cfg') ≠ "") in
    (discovery ≤ 0 ∨ report ≤ 0 ∨ (publishes = true ∧ interval ≤ 0) → ∃ field, New cfg' nodeName = Err field) ∧
    (0 < discovery → 0 < report → (publishes = true → 0 < interval) →
      ∃ opts, New cfg' nodeName = Ret opts ∧ 0 < sample (sendsOptions opts) ∧ 0 ≤ opt_queue (sendsOptions opts) ∧
        ∀ metrics boot,
          if decide (stores = true ∧ flush ≤ 0) then startSends opts nodeName metrics boot = Panic
          else ∃ sends, startSends opts nodeName metrics boot = Ret sends).
Proof.
  intros Hperm Hnorm Hsample Hnode. unfold normalizeEBPFFlowConfig in Hnorm. set (c := ebpfFlowDefaults cfg) in *.
  assert (0 < FE_Sample (EB_FlowEvents c)) as Hpos by (unfold c, ebpfFlowDefaults; cbn [EB_FlowEvents FE_Sample]; unfold orDefault; destruct (decide (FE_Sample (EB_FlowEvents cfg) = 0)); lia).
  clearbody c.
  destruct (go_foldl _ () (order (ebpfFlowDurations c))) as [u| | |] eqn:Hdur; try done. cbn [mbind go_bind] in Hnorm.
  case_decide as Hneg; [done|]. injection Hnorm as <-. pose proof (durations_parse order _ u Hperm Hdur) as Hparse. clear Hdur.
  assert (∀ field value, (field, value) ∈ ebpfFlowDurations c → ∃ d, ParseDuration value = Some d) as Hp by (intros f v Hin; by apply Hparse in Hin as [d ?]; eauto).
  unfold ebpfFlowDurations in Hp.
  destruct (Hp "ebpfFlow.discoveryInterval" _ ltac:(repeat first [apply list_elem_of_here|apply list_elem_of_further])) as [discovery Hdisc].
  destruct (Hp "ebpfFlow.reportInterval" _ ltac:(repeat first [apply list_elem_of_here|apply list_elem_of_further])) as [report Hrep].
  destruct (Hp "ebpfFlow.endpoint.interval" _ ltac:(repeat first [apply list_elem_of_here|apply list_elem_of_further])) as [interval Hint].
  destruct (Hp "ebpfFlow.endpoint.minInterval" _ ltac:(repeat first [apply list_elem_of_here|apply list_elem_of_further])) as [minInterval Hmin].
  destruct (Hp "ebpfFlow.flowEvents.flush" _ ltac:(repeat first [apply list_elem_of_here|apply list_elem_of_further])) as [flush Hflush].
  destruct (Hp "ebpfFlow.flowEvents.aggregate" _ ltac:(repeat first [apply list_elem_of_here|apply list_elem_of_further])) as [aggregate Hagg].
  destruct (Hp "ebpfFlow.otlp.timeout" _ ltac:(repeat first [apply list_elem_of_here|apply list_elem_of_further])) as [timeout Htime].
  exists discovery, report, interval, flush. split_and!; [done..|]. cbn zeta.
  unfold New, optionsFromConfig, parsed. rewrite Hdisc, Hrep, Hint, Hmin, Hflush, Hagg, Htime. cbn [mbind go_bind]. split.
  - intros Hbad. destruct (decide (discovery ≤ 0 ∨ report ≤ 0)) as [H1|H1]; [cbn; eauto|].
    destruct (decide (default false (EP_Enabled (EB_Endpoint c)) = true ∧ interval ≤ 0)) as [H2|H2]; [cbn; eauto|]. tauto.
  - intros H1 H2 H3. rewrite decide_False by lia. rewrite decide_False by (intros [He ?]; specialize (H3 He); lia). cbn [mbind go_bind].
    rewrite decide_False by done. eexists. split; [done|]. cbn [sendsOptions sample opt_queue]. split_and!.
    + done.
    + lia.
    + intros metrics boot. unfold startSends. cbn [sendsEnabled otlp otel_endpoint sendsOptions].
      destruct (default false (FE_Enabled (EB_FlowEvents c))); cbn [negb andb]; [|rewrite decide_False by (by intros [? _]); eauto].
      unfold newSendPipeline. destruct (decide (OTLP_Endpoint (EB_OTLP c) ≠ "")) as [He|He].
      * rewrite bool_decide_true by done. rewrite (decide_False (P := (_ ≠ _ ∧ _))) by (cbn; lia). cbn [mbind go_bind fst]. rewrite (decide_False (P := 1%nat = 0%nat)) by done.
        unfold sinkRunStarts. cbn [flushIn]. destruct (decide (flush ≤ 0)).
        -- rewrite decide_True by done. done.
        -- rewrite decide_False by (intros [_ ?]; done). cbn. eauto.
      * rewrite bool_decide_false by done. rewrite (decide_False (P := (_ ≠ _ ∧ _))) by (intros [? _]; done). cbn [mbind go_bind].
        rewrite (decide_True (P := 0%nat = 0%nat)) by done. rewrite (decide_False (P := _ ∧ flush ≤ 0)) by (by intros [? _]). cbn. eauto.
Qed.

(** A flush interval of zero passes both checks and panics when the sink starts. *)
Definition zero_flush : EBPFFlowConfig :=
  MkEBPFFlow true "" "" "" "" (Config.MkEndpoint None "" "" false) (MkFlowEvents (Some true) 0 0 "0s" 0 "") (MkOTLP "collector:4317" None "").

Lemma zero_flush_panics :
  normalizeEBPFFlowConfig (fun l => l) zero_flush = Ret (ebpfFlowDefaults zero_flush) ∧
  match New (ebpfFlowDefaults zero_flush) "node1" with Ret opts => startSends opts "node1" newFlowMetrics 0 = Panic | _ => False end.
Proof. split; vm_compute; reflexivity. Qed.

Lemma ebpf_config_starts_witness : ∃ opts, New (ebpfFlowDefaults zero_flush) "node1" = Ret opts ∧ 0 < sample (sendsOptions opts).
Proof.
  destruct (ebpf_config_starts (fun l => l) zero_flush (ebpfFlowDefaults zero_flush) "node1") as (d & r & i & f & Hd & Hr & Hi & _ & _ & Hok).
  - done.
  - vm_compute. reflexivity.
  - vm_compute. done.
  - done.
  - destruct Hok as (opts & Hnew & Hs & _).
    + vm_compute in Hd. injection Hd as <-. lia.
    + vm_compute in Hr. injection Hr as <-. lia.
    + intros _. vm_compute in Hi. injection Hi as <-. lia.
    + eauto.
Defined.

(** ** A node whose queue pairs change *)
Module Loop.
Definition second : Z := 10 ^ 9.
Definition idle : machine :=
  MkMachine None (fun _ => None) (fun _ => StatMissing) (fun _ => []) (fun _ => None) (fun _ => MkLibrary None None) (fun _ => false)
    (fun _ => false) (fun _ => true) (MkPersistence true true true).
Definition at_ (t : Z) : surroundings :=
  MkSurroundings (t * second) idle (Some []) (Some []) (Some []) (fun _ _ _ _ => None) (MkIteration [] false) (MkIteration [] false)
    (MkIteration [] false) (MkIteration [] false).
Definition opts : options :=
  MkOptions "" "" (5 * second) (5 * second) true (30 * second) (3 * second) false false (MkSendOptions 0 0 0 1 0) (MkOtelConfig "" true 0 "node1").
Definition start : loopState :=
  @startLoop canonical_order stable_sort (fun _ => "") Sample.other opts "node1" true true true ∅ FileMissing ∅ newFlowMetrics (MkApi [] []) (at_ 0).
Definition last_run (l : loopState) : option Z := n ← l_publisher l; lastRun n.
Definition run (steps : list (loopEvent * surroundings)) : loopState :=
  default start (@loopRun canonical_order stable_sort (fun _ => "") Sample.other steps start).
End Loop.

Lemma endpoint_updates_prompt_witness :
  endpointDue (Loop.run [(QPChange, Loop.at_ 1)]) = Some (3 * Loop.second) ∧ endpointDue (Loop.run [(DiscoveryTick, Loop.at_ 4); (QPChange, Loop.at_ 5)]) = None.
Proof.
  split.
  - destruct (@endpoint_updates_prompt canonical_order stable_sort (fun _ => "") Sample.other Loop.opts "node1" true true true ∅ FileMissing ∅
      newFlowMetrics (MkApi [] []) (Loop.at_ 0) [] Loop.start (Loop.at_ 1)) with (n := MkPublisher "node1" "/proc/1/root/sys" (3 * Loop.second) false ∅ (Some 0) true)
      as (last & Hl & _ & _ & [(n' & _ & _ & Hle & _)|(due & Hd & _)]).
    + reflexivity.
    + vm_compute. intuition congruence.
    + vm_compute. reflexivity.
    + injection Hl as <-. vm_compute in Hle. by destruct Hle.
    + vm_compute. reflexivity.
  - vm_compute. reflexivity.
Defined.

(** The periodic run does not disarm an update that is due, so that two runs can follow each other
    faster than the minimal interval: here at two and at three seconds, with an interval of
    three. *)
Lemma tick_breaks_spacing :
  let before := Loop.run [(QPChange, Loop.at_ 1); (EndpointTick, Loop.at_ 2)] in
  endpointMinInterval Loop.opts = 3 * Loop.second ∧ Loop.last_run before = Some (2 * Loop.second) ∧
  (l ← @loopStep canonical_order stable_sort (fun _ => "") Sample.other EndpointDue (Loop.at_ 3) before; Loop.last_run l) = Some (3 * Loop.second).
Proof. split; [|split]; vm_compute; reflexivity. Qed.

(** ** Records, buckets and callback events *)

(** A stored record and the metrics of the same flow agree: each label of the metrics is an attribute
    of the record with the same name and value. *)
Theorem record_matches_labels now row i name value :
  flowLabelNames !! i = Some name →
  flowLabels (row_src row) (row_dst row) (MkEnds (row_srcDevice row) (row_dstDevice row)) !! i = Some value →
  filter (fun a => a.1 = name) (r_attributes (sendRecord now row)) = [(name, Str value)].
Proof.
  destruct row as [ts node tgid qpn bytes wrs count kind sd dd [sn sm [k1 n1 m1]] [dn dm [k2 n2 m2]]].
  do 12 (destruct i as [|i]; [by intros [= <-] [= <-]|]). done.
Qed.

Theorem send_buckets : sendBuckets = (fun k => 2 ^ (6 + Z.of_nat k)) <$> seq 0 25.
Proof. reflexivity. Qed.

(** The reader of callback events handles every record, whatever its bytes, and ends with the error of
    the ring buffer only. *)
Theorem callback_events_read `{RangeOrder} records ending a q :
  ∃ a' q', consumeCallbackEvents records ending a q =
    Ret (match ending with ReaderClosed => None | ReaderFailed err => Some err end, a', q').
Proof.
  revert a q. induction records as [|[[m emptied] raw] records IH]; intros a q; [by eexists _, _|].
  cbn [consumeCallbackEvents]. assert (∃ r, dispatchCallback m raw a = Ret r) as [[nudge a1] ->]; [|apply IH].
  unfold dispatchCallback. destruct (decodeCallbackEvent_total raw) as [[_ ->]|(_ & e & ->)]; cbn; [eauto|].
  repeat case_decide; eauto.
Qed.
