(* ===== verification/EndToEnd.v ===== *)
(** * From the switches to the status

    The composition of components that talk to each other through the API server and through
    streams: the label reconciler writes what the status reconciler reads, and the controller
    stores what the switch agent sends. *)
From stdpp Require Import base gmap sets list strings sorting.
From Stdlib Require Import ZArith.
From S2P Require Import Prelude GoStrings GoNumbers GoText Api Topology GraphFacts LabelTemplate LabelTemplateFacts LabelProperties TopologyInputs Config ApiServer AutoLabel AutoLabelFacts AutoLabelPlans AutoLabelWorld AutoLabelProperties TopologyStatus TopologyStatusFacts StatusEvents TopologyStatusReconcile TopologyStatusProperties AutoLabelReconcile Subscription SubscriptionFacts SubscriptionProperties SwitchAgent SwitchAgentProperties.
Local Open Scope Z_scope.

(** ** Applying a plan

    Nodes and Switches are relabelled in the same way: [objs] are the objects of a cluster, [put]
    replaces the one with the same name. *)
Section relabel.
Context `{RangeOrder} {T : Type} (name : T → string) (labels : T → gmap string string) (set : gmap string string → T → T).
Context (objs : Cluster → list T) (put : T → Cluster → (unit + apiError) * Cluster) (F : Cluster → Prop).
Hypothesis name_set : ∀ m o, name (set m o) = name o.
Hypothesis put_objs : ∀ o c, ∃ c', put o c = (inl (), c') ∧
  objs c' = ((fun x => if decide (name x = name o) then o else x) <$> objs c) ∧ (F c → F c').

(** The object with the labels of the plan where it had none. *)
Definition relabelled (desired : gmap string string) (o o' : T) : Prop :=
  ∃ m, (∀ k, m !! k = overlay (labels o) desired k) ∧ (o' = set m o ∨ o' = o ∧ m = labels o).

(** The patch of one object, as [patchNodeLabels] and [patchSwitchLabels] make it. *)
Definition patchObject (o : T) (desired : gmap string string) : M planError unit :=
  r ← pure (reconcileLabelMap (labels o) desired None);
  if negb r.2 then mret () else call (put (set r.1 o)).

Definition progress_at (plan : gmap string (gmap string string)) (seen : list string) (o o' : T) : Prop :=
  if decide (name o ∈ seen) then relabelled (default ∅ (plan !! name o)) o o' else o' = o.

Lemma relabelled_name desired o o' : relabelled desired o o' → name o' = name o.
Proof using name_set. by intros (m & _ & [->|[-> _]]). Qed.

Lemma progress_name plan seen o o' : progress_at plan seen o o' → name o' = name o.
Proof using name_set. unfold progress_at. case_decide; [apply relabelled_name|by intros ->]. Qed.

(** The labels a successful patch gives, and that nothing was to be done when nothing is written. *)
Lemma overlay_kept o desired res ch :
  reconcileLabelMap (labels o) desired None = Ret (res, ch) →
  (∀ k, res !! k = overlay (labels o) desired k) ∧ (ch = false → res = labels o).
Proof.
  intros Hr. destruct (reconcileLabelMap_spec (labels o) desired None) as [Hc Ho]. cbn [keptLabels] in *.
  destruct (decide (conflict (labels o) desired)) as [Hcf|Hno]; [destruct (Hc Hcf); congruence|].
  destruct (Ho Hno) as (res' & ch' & Hr' & Hl & Hch). rewrite Hr in Hr'. simplify_eq. split; [done|]. intros ->.
  apply map_eq. intros k. rewrite Hl. unfold overlay. case_decide as Hk; [done|].
  destruct (desired !! k) as [v|] eqn:Hv; [|done]. exfalso. assert (false = true) as Hbad; [|done]. apply Hch. right. eauto.
Qed.

Lemma progress_snoc plan seen key o o' : name o ≠ key → progress_at plan (seen ++ [key]) o o' ↔ progress_at plan seen o o'.
Proof.
  intros Hne. unfold progress_at. destruct (decide (name o ∈ seen)) as [Hs|Hs].
  - by rewrite decide_True by set_solver.
  - by rewrite decide_False by set_solver.
Qed.

Lemma progress_done plan seen o o' m :
  (∀ k, m !! k = overlay (labels o) (default ∅ (plan !! name o)) k) → o' = set m o ∨ o' = o ∧ m = labels o →
  progress_at plan (seen ++ [name o]) o o'.
Proof. intros Hm Ho. unfold progress_at. rewrite decide_True by set_solver. by exists m. Qed.

Lemma patchObject_relabels plan seen objs0 o :
  NoDup (name <$> objs0) → o ∈ objs0 →
  triple (fun c => F c ∧ Forall2 (progress_at plan seen) objs0 (objs c)) (patchObject o (default ∅ (plan !! name o)))
    (fun _ c => F c ∧ Forall2 (progress_at plan (seen ++ [name o])) objs0 (objs c)) (fun _ => True).
Proof using name_set put_objs.
  intros Hnd Hin. unfold patchObject. eapply triple_bind.
  { apply triple_pure; [done|]. intros a s Ha Hs. exact (conj Ha Hs). }
  intros [res ch]. apply triple_fact. intros [Hres Hch]%overlay_kept. cbn [fst snd].
  assert (∀ c, Forall2 (progress_at plan seen) objs0 (objs c) → ∀ f : T → T,
    (∀ a b, a ∈ objs0 → progress_at plan seen a b → name a ≠ name o → f b = b) →
    (∀ b, progress_at plan seen o b → progress_at plan (seen ++ [name o]) o (f b)) →
    Forall2 (progress_at plan (seen ++ [name o])) objs0 (f <$> objs c)) as Hstep.
  { intros c Hall f Hother Hown. apply Forall2_fmap_r; cbn beta. apply Forall2_same_length_lookup in Hall as [Hlen Hall].
    apply Forall2_same_length_lookup. split; [done|]. intros i a b Ha Hb. specialize (Hall i a b Ha Hb).
    apply list_elem_of_lookup_2 in Ha. destruct (decide (name a = name o)) as [Hn|Hn].
    - assert (a = o) as -> by (by apply (NoDup_name_inj name objs0)). by apply Hown.
    - unfold compose. rewrite (Hother a b) by done. by apply progress_snoc. }
  destruct ch; cbn [negb].
  - apply triple_call; [done|]. intros s [HF Hall]. destruct (put_objs (set res o) s) as (c' & -> & Hobjs & HF').
    split; [by apply HF'|]. rewrite Hobjs. apply Hstep; [done| |].
    + intros a b _ Hp Hne. rewrite decide_False; [done|]. rewrite name_set, (progress_name _ _ _ _ Hp). done.
    + intros b Hp. rewrite name_set, (progress_name _ _ _ _ Hp), decide_True by done. apply (progress_done _ _ _ _ res); auto.
  - apply triple_ret. intros c [HF Hall]. split; [done|]. rewrite <-(list_fmap_id (objs c)). apply Hstep; [done|done|].
    intros b Hp. unfold progress_at in Hp. case_decide as Hs.
    + destruct Hp as (m & Hm & Ho). by apply (progress_done _ _ _ _ m).
    + subst. apply (progress_done _ _ _ _ res); [done|]. right. auto.
Qed.

(** The objects when the names [keys] of a plan are done: they all exist, and have been relabelled. *)
Definition applied (plan : gmap string (gmap string string)) (objs0 : list T) (keys : list string) (c : Cluster) : Prop :=
  keys ⊆ name <$> objs0 ∧ Forall2 (progress_at plan keys) objs0 (objs c).

(** The loop over the names of a plan. *)
Lemma each_relabels plan objs0 (byName : gmap string T) keys :
  NoDup (name <$> objs0) → (∀ n o, byName !! n = Some o → o ∈ objs0 ∧ name o = n) →
  triple (fun c => objs c = objs0 ∧ F c)
    (M_foldl (fun _ key => match byName !! key with
       | None => pure (Err (ErrDisappeared key))
       | Some o => patchObject o (default ∅ (plan !! key))
       end) () keys)
    (fun _ c => F c ∧ applied plan objs0 keys c) (fun _ => True).
Proof using name_set put_objs.
  intros Hnd Hby. set (I := fun (seen : list string) (_ : unit) (c : Cluster) => F c ∧ applied plan objs0 seen c).
  apply (triple_conseq (I [] ()) _ _ (I keys) _ (fun _ => True)); [|intros c [Ho HF]|done|done].
  - apply triple_foldl. intros seen key todo [] _. unfold I.
    destruct (byName !! key) as [o|] eqn:Ho; [|by apply triple_pure]. apply Hby in Ho as [Hin <-].
    apply (triple_conseq (fun c => seen ⊆ name <$> objs0 ∧ F c ∧ Forall2 (progress_at plan seen) objs0 (objs c)) _ _
      (fun _ c => seen ⊆ name <$> objs0 ∧ F c ∧ Forall2 (progress_at plan (seen ++ [name o])) objs0 (objs c)) _ (fun _ => True));
      [|unfold applied; tauto| |done].
    + apply triple_fact. intros Hs. intros w Hw. pose proof (patchObject_relabels plan seen objs0 o Hnd Hin w Hw) as Hr.
      by destruct (patchObject _ _ w) as [[]].
    + intros _ c (Hs & HF & Hall). split; [done|]. split; [|done].
      intros x [?| ->%list_elem_of_singleton]%elem_of_app; [by apply Hs|by apply list_elem_of_fmap_2].
  - split; [done|]. split; [set_solver|]. rewrite Ho. by apply Forall_Forall2_diag, Forall_true.
Qed.

(** An object afterwards: its labels, and the planned ones where it had none. *)
Lemma applied_after plan objs0 keys c o :
  (∀ x, x ∈ keys ↔ is_Some (plan !! x)) → (∀ m o, labels (set m o) = m) → applied plan objs0 keys c → o ∈ objs0 →
  ∃ o', o' ∈ objs c ∧ name o' = name o ∧ (o' = o ∨ ∃ m, o' = set m o) ∧
    ∀ k v, v ≠ "" → labels o !! k = Some v ∨ default "" (labels o !! k) = "" ∧ planned plan (name o) k = Some v →
      labels o' !! k = Some v.
Proof using name_set.
  intros Hkeys Hset [Hex Hall] Hin. destruct (Forall2_elem_of_l _ _ _ _ Hall Hin) as (o' & Ho' & Hrel).
  exists o'. split; [done|]. split; [by eapply progress_name|]. unfold progress_at in Hrel. case_decide as Hn.
  - destruct Hrel as (m & Hm & Hcase).
    split; [destruct Hcase as [->|[-> _]]; eauto|]. intros k v Hv Hk.
    assert (labels o' = m) as ->; [destruct Hcase as [->|[-> ->]]; [apply Hset|done]|].
    rewrite Hm. unfold overlay. destruct Hk as [Hk|[Hk Hp]].
    + rewrite decide_True; [done|]. by exists v.
    + unfold planned in Hp. rewrite Hp, decide_False; [done|]. intros (x & Hx & ?). by rewrite Hx in Hk.
  - subst o'. split; [by left|]. intros k v Hv [?|[_ Hp]]; [done|]. destruct Hn. apply Hkeys.
    unfold planned in Hp. destruct (plan !! name o); [done|]. cbn in Hp. by rewrite lookup_empty in Hp.
Qed.

Lemma applied_exists plan objs0 keys c n k v :
  (∀ x, x ∈ keys ↔ is_Some (plan !! x)) → applied plan objs0 keys c → planned plan n k = Some v → n ∈ name <$> objs0.
Proof.
  intros Hkeys [Hex _] Hp. apply Hex, Hkeys. unfold planned in Hp. destruct (plan !! n); [done|].
  cbn in Hp. by rewrite lookup_empty in Hp.
Qed.
End relabel.

(** ** The label reconciler *)
Section labels.
Context `{RangeOrder}.

Definition relabelNode (m : gmap string string) (n : corev1.Node) : corev1.Node := corev1.MkNode (corev1.Node_Name n) m.

Definition nodesApplied (plan : autoLabelPlan) (nodes0 : list corev1.Node) : Cluster → Prop :=
  applied corev1.Node_Name corev1.Node_Labels relabelNode c_nodes (plan_nodes plan) nodes0 (sortedNestedMapKeys (plan_nodes plan)).

Definition switchesApplied (plan : autoLabelPlan) (switches0 : list v1beta1.Switch) : Cluster → Prop :=
  applied v1beta1.SW_Name v1beta1.SW_Labels with_labels c_switches (plan_switches plan) switches0
    (sortedNestedMapKeys (plan_switches plan)).

Lemma elem_of_nestedKeys m x : x ∈ sortedNestedMapKeys m ↔ is_Some (m !! x).
Proof.
  unfold sortedNestedMapKeys. rewrite elem_of_sort_strings, keys_of_range, list_elem_of_fmap. split.
  - intros ([k v] & -> & Hin%elem_of_range). by exists v.
  - intros [v Hv]. exists (x, v). split; [done|]. by apply elem_of_range.
Qed.

(** The objects by name are objects of the list. *)
Lemma byName_spec {T} (name : T → string) (l : list T) n o :
  foldl (fun (m : gmap string T) x => <[name x := x]> m) ∅ l !! n = Some o → o ∈ l ∧ name o = n.
Proof.
  apply (foldl_inv (fun seen (m : gmap string T) => m !! n = Some o → o ∈ seen ∧ name o = n)); [by rewrite lookup_empty|].
  intros seen x _ m _ IH [[Hn <-]|[_ Hm]]%lookup_insert_Some; [set_solver|]. apply IH in Hm. set_solver.
Qed.

Lemma byName_complete {T} (name : T → string) (l : list T) o :
  NoDup (name <$> l) → o ∈ l → foldl (fun (m : gmap string T) x => <[name x := x]> m) ∅ l !! name o = Some o.
Proof.
  intros Hnd Hin. destruct (foldl (fun (m : gmap string T) x => <[name x := x]> m) ∅ l !! name o) as [o'|] eqn:Ho.
  - apply byName_spec in Ho as [Hin' Hn]. f_equal. by apply (NoDup_name_inj name l).
  - exfalso. revert Ho. apply not_eq_None_Some. revert Hin.
    apply (foldl_inv (fun seen (m : gmap string T) => o ∈ seen → is_Some (m !! name o))); [set_solver|].
    intros seen x _ m _ IH [?| ->%list_elem_of_singleton]%elem_of_app; [|by rewrite lookup_insert_eq].
    destruct (decide (name x = name o)) as [->|?]; [by rewrite lookup_insert_eq|].
    rewrite lookup_insert_ne by done. by apply IH.
Qed.

Lemma applyPlan_applies plan nodes0 switches0 (T : gmap string v1beta1.Topology → Prop) :
  NoDup (corev1.Node_Name <$> nodes0) → NoDup (v1beta1.SW_Name <$> switches0) →
  triple (fun c => c_nodes c = nodes0 ∧ c_switches c = switches0 ∧ T (c_topologies c)) (applyPlan plan nodes0 switches0)
    (fun _ c => (T (c_topologies c) ∧ nodesApplied plan nodes0 c) ∧ switchesApplied plan switches0 c) (fun _ => True).
Proof.
  intros Hn Hs. unfold applyPlan.
  apply (triple_bind _ _ _ (fun _ c => c_switches c = switches0 ∧ (T (c_topologies c) ∧ nodesApplied plan nodes0 c))).
  - eapply (triple_conseq _ _ _ _ _ (fun _ => True)).
    + apply (each_relabels corev1.Node_Name corev1.Node_Labels relabelNode c_nodes put_node
        (fun c => c_switches c = switches0 ∧ T (c_topologies c))); [done| |done|apply byName_spec].
      intros o c. eexists. split; [reflexivity|]. by split.
    + done.
    + intros _ c ((? & ?) & ?). done.
    + done.
  - intros _. apply (each_relabels v1beta1.SW_Name v1beta1.SW_Labels with_labels c_switches put_switch
      (fun c => T (c_topologies c) ∧ nodesApplied plan nodes0 c)); [done| |done|apply byName_spec].
    intros o c. eexists. split; [reflexivity|]. by split.
Qed.

(** *** Merging plans *)
Definition included (p q : autoLabelPlan) : Prop :=
  (∀ n k v, planned (plan_nodes p) n k = Some v → planned (plan_nodes q) n k = Some v) ∧
  (∀ n k v, planned (plan_switches p) n k = Some v → planned (plan_switches q) n k = Some v).

#[local] Instance included_preorder : PreOrder included.
Proof. split; [by intros p|]. intros p q r [? ?] [? ?]. split; eauto. Qed.

Lemma addNode_included p n k v p' :
  addNode p n k v = Ret p' → included p p' ∧ planned (plan_nodes p') n k = Some v.
Proof.
  intros (Hs & Hp & Hold)%addNode_spec. split; [split|by rewrite Hp, decide_True].
  - intros n' k' v' Hv. rewrite Hp. case_decide as Hd; [|done]. destruct Hd as [-> ->]. destruct Hold; congruence.
  - by rewrite Hs.
Qed.

Lemma addSwitch_included p n k v p' :
  addSwitch p n k v = Ret p' → included p p' ∧ planned (plan_switches p') n k = Some v.
Proof.
  intros (Hs & Hp & Hold)%addSwitch_spec. split; [split|by rewrite Hp, decide_True].
  - by rewrite Hs.
  - intros n' k' v' Hv. rewrite Hp. case_decide as Hd; [|done]. destruct Hd as [-> ->]. destruct Hold; congruence.
Qed.

(** Both loops of [merge]: [put] adds a label to the part [part] of a plan. *)
Lemma merge_loop (part : autoLabelPlan → gmap string (gmap string string)) put p labels p' :
  (∀ p q n k v, included p q → planned (part p) n k = Some v → planned (part q) n k = Some v) →
  (∀ p n k v p', put p n k v = Ret p' → included p p' ∧ planned (part p') n k = Some v) →
  go_foldl (fun p '(name, labels) => go_foldl (fun p '(key, value) => put p name key value) p (range labels)) p
    (range (labels : gmap string (gmap string string))) = Ret (E:=planError) p' →
  included p p' ∧ ∀ n k v, planned labels n k = Some v → planned (part p') n k = Some v.
Proof.
  intros Hmono Hput Hrun.
  assert (included p p' ∧ ∀ n m k v, (n, m) ∈ range labels → m !! k = Some v → planned (part p') n k = Some v) as [Hi Hall].
  { apply (go_foldl_ret (fun seen q => included p q ∧
      ∀ n m k v, (n, m) ∈ seen → m !! k = Some v → planned (part q) n k = Some v) _ _ _ _ Hrun); [split; [done|set_solver]|].
    intros seen [n m] _ q q' _ [Hq Hseen] Hinner.
    assert (included q q' ∧ ∀ k v, (k, v) ∈ range m → planned (part q') n k = Some v) as [Hq' Hm].
    { apply (go_foldl_ret (fun seen r => included q r ∧ ∀ k v, (k, v) ∈ seen → planned (part r) n k = Some v) _ _ _ _ Hinner);
        [split; [done|set_solver]|]. intros seen' [k v] _ r r' _ [Hr Hs'] [Hrr Hkv]%Hput. split; [by etrans|].
      intros k' v' [?|[= -> ->]%list_elem_of_singleton]%elem_of_app; [|done]. eapply Hmono; eauto. }
    split; [by etrans|]. intros n' m' k v [?|[= -> ->]%list_elem_of_singleton]%elem_of_app Hk; [eapply Hmono; eauto|].
    apply Hm. by apply elem_of_range. }
  split; [done|]. intros n k v Hp. unfold planned in Hp. destruct (labels !! n) as [m|] eqn:Hn; cbn in Hp; [|by rewrite lookup_empty in Hp].
  by apply (Hall n m); [apply elem_of_range|].
Qed.

Lemma merge_included p q p' : merge p q = Ret p' → included p p' ∧ included q p'.
Proof.
  unfold merge. destruct (go_foldl _ p _) as [r| | |] eqn:Hr; cbn; [|done..]. intros Hrun.
  apply (merge_loop plan_nodes addNode) in Hr as [Hpr Hnodes]; [|by intros ????? [? _]; eauto|apply addNode_included].
  apply (merge_loop plan_switches addSwitch) in Hrun as [Hrp Hsw]; [|by intros ????? [_ ?]; eauto|apply addSwitch_included].
  split; [by etrans|]. split; [|done]. intros n k v Hv%Hnodes. by apply Hrp.
Qed.

(** *** A whole reconciliation *)
Definition named_by_key (topologies : gmap string v1beta1.Topology) : Prop :=
  ∀ n t, topologies !! n = Some t → v1beta1.T_Name t = n.

Definition alive (managed : list managedTopology) (topologies : gmap string v1beta1.Topology) : Prop :=
  ∀ t object, t ∈ managed → topologies !! mt_name t = Some object → v1beta1.Deleting object = false.

(** The objects a plan is made from are those of [c0]. *)
Definition same_objects (c0 c : Cluster) : Prop :=
  c_fabricNodes c = c_fabricNodes c0 ∧ c_switches c = c_switches c0 ∧ c_nodes c = c_nodes c0 ∧ named_by_key (c_topologies c).

Lemma put_topology_same c0 c object : same_objects c0 c → same_objects c0 (put_topology object c).2.
Proof.
  intros (Hf & Hs & Hn & Hk). split_and!; [done..|]. intros n t. cbn. case_match.
  - intros [_ ?]%lookup_delete_Some. by apply Hk.
  - intros [[<- <-]|[_ ?]]%lookup_insert_Some; [done|by apply Hk].
Qed.

Lemma releaseFinalizers_same c0 managedNames names :
  triple (same_objects c0) (releaseFinalizers managedNames names) (fun _ => same_objects c0) (fun _ => True).
Proof.
  induction names as [|name names IH]; cbn [releaseFinalizers]; [by apply triple_ret|]. case_decide; [done|].
  apply (triple_bind _ _ _ (fun _ => same_objects c0)); [by apply triple_call|].
  intros [object|]; [|done]. case_match; [done|].
  apply (triple_bind _ _ _ (fun _ => same_objects c0)); [|intros _; by apply triple_ret].
  apply triple_call; [done|]. intros s. apply put_topology_same.
Qed.

Lemma triple_any {E A} P (c : M E A) : triple P c (fun _ _ => True) (fun _ => True).
Proof. intros w _. by destruct (c w) as [[]]. Qed.

Lemma triple_state {E A} P (c : M E A) Q X : (∀ s, P s → triple (fun s' => s' = s) c Q X) → triple P c Q X.
Proof. intros Hc w Hw. by apply (Hc _ Hw). Qed.

(** When no topology is deleted, nothing has happened; otherwise the reconciliation ends. *)
Lemma handleDeletions_alive c0 topologies :
  triple (fun c => c = c0) (handleDeletions topologies)
    (fun after c => match after with
       | None => c = c0 ∧ alive topologies (c_topologies c0)
       | Some after => after = requeueSoon
       end) (fun _ => True).
Proof.
  induction topologies as [|t topologies IH]; cbn [handleDeletions].
  { apply triple_ret. intros c ->. split; [done|]. intros t object Hin. by apply elem_of_nil in Hin. }
  apply (triple_bind _ _ _ (fun object c => object = c_topologies c0 !! mt_name t ∧ c = c0)).
  { apply triple_call; [done|]. by intros s ->. }
  assert (∀ o, (∀ object, o = Some object → v1beta1.Deleting object = false) →
    triple (fun c => o = c_topologies c0 !! mt_name t ∧ c = c0) (handleDeletions topologies)
    (fun after c => match after with
       | None => c = c0 ∧ alive (t :: topologies) (c_topologies c0)
       | Some after => after = requeueSoon
       end) (fun _ => True)) as Hrest.
  { intros o Ho. apply triple_fact. intros Heq. apply (triple_conseq _ _ _ _ _ _ _ IH); [done| |done].
    intros [after|] c; [done|]. intros [-> Ha]. split; [done|].
    intros t' object [-> |Hin]%elem_of_cons Hobj; [|by eapply Ha]. apply Ho. congruence. }
  intros [object|]; [|by apply Hrest]. case_match eqn:Hdel; [|apply Hrest; congruence].
  apply (triple_bind _ _ _ (fun _ _ => True)); [apply triple_any|].
  intros _. by apply triple_ret.
Qed.

Definition ready (managed : list managedTopology) (c0 c : Cluster) : Prop :=
  same_objects c0 c ∧ alive managed (c_topologies c).

Lemma ensureTopologyFinalizer_ready managed c0 name createIfMissing :
  triple (ready managed c0) (ensureTopologyFinalizer name createIfMissing) (fun _ => ready managed c0) (fun _ => True).
Proof.
  unfold ensureTopologyFinalizer. apply (triple_bind _ _ _ (fun _ => ready managed c0)); [by apply triple_call|].
  intros [object|]; case_match eqn:Hc; try by apply triple_ret.
  - apply orb_false_elim in Hc as [Hd _]. apply triple_call; [done|]. intros s [Hs Ha].
    split; [by apply (put_topology_same c0 s)|]. cbn. rewrite Hd. cbn.
    intros t o Hin [[_ <-]|[_ ?]]%lookup_insert_Some; [done|by eapply Ha].
  - apply triple_call; [done|]. intros s [(Hf & Hs & Hn & Hk) Ha]. unfold add_topology.
    destruct (c_topologies s !! _); [done|]. split; [split_and!; [done..|]|]; cbn.
    + intros n t [[<- <-]|[_ ?]]%lookup_insert_Some; [done|by apply Hk].
    + intros t o Hin [[_ <-]|[_ ?]]%lookup_insert_Some; [done|by eapply Ha].
Qed.

(** The plan of a topology is part of the final plan. *)
Definition covers (c0 : Cluster) (plan : autoLabelPlan) (t : managedTopology) : Prop :=
  ∃ rolePlan, buildAutoLabelPlan (mt_role t) (labelTemplate t) (c_fabricNodes c0) (c_switches c0) (c_nodes c0) = Ret rolePlan ∧
    included rolePlan plan.

Lemma planTopology_covers managed c0 seen plan t :
  triple (fun c => Forall (covers c0 plan) seen ∧ ready managed c0 c)
    (planTopology (c_fabricNodes c0) (c_switches c0) (c_nodes c0) plan t)
    (fun plan' c => Forall (covers c0 plan') (seen ++ [t]) ∧ ready managed c0 c) (fun _ => True).
Proof.
  apply triple_fact. intros Hseen. unfold planTopology.
  apply (triple_bind _ _ _ (fun rolePlan c =>
    buildAutoLabelPlan (mt_role t) (labelTemplate t) (c_fabricNodes c0) (c_switches c0) (c_nodes c0) = Ret rolePlan ∧
    ready managed c0 c)); [by apply triple_pure|].
  intros rolePlan. apply triple_fact. intros Hplan.
  apply (triple_bind _ _ _ (fun _ => ready managed c0)); [apply ensureTopologyFinalizer_ready|].
  intros _. apply triple_pure; [done|]. intros plan' c [Hold Hnew]%merge_included Hr. split; [|done].
  apply Forall_app. split; [|by apply Forall_singleton; exists rolePlan].
  eapply Forall_impl; [done|]. intros t' (rp & ? & ?). exists rp. split; [done|]. by etrans.
Qed.

(** What a reconciliation that goes all the way has done. *)
Definition relabels (managed : list managedTopology) (c0 c : Cluster) : Prop :=
  named_by_key (c_topologies c) ∧ alive managed (c_topologies c) ∧
  ∃ plan, Forall (covers c0 plan) managed ∧ nodesApplied plan (c_nodes c0) c ∧ switchesApplied plan (c_switches c0) c.

Lemma Reconcile_relabels managed c0 :
  NoDup (corev1.Node_Name <$> c_nodes c0) → NoDup (v1beta1.SW_Name <$> c_switches c0) →
  triple (fun c => c = c0 ∧ named_by_key (c_topologies c0)) (AutoLabelReconcile.Reconcile managed)
    (fun after c => after = autoTopologyResync → relabels managed c0 c) (fun _ => True).
Proof.
  intros Hn Hs. unfold AutoLabelReconcile.Reconcile, releaseUnmanagedFinalizers.
  apply (triple_bind _ _ _ (fun _ => same_objects c0)).
  { eapply (triple_conseq _ _ _ _ _ (fun _ => True)); [apply (releaseFinalizers_same c0)|by intros s [-> ?]|done|done]. }
  intros [|]; [by apply triple_ret|]. apply triple_state. intros c1 Hc1.
  eapply triple_bind; [apply handleDeletions_alive|].
  intros [after|]; [apply triple_ret; by intros c -> |].
  apply (triple_conseq (ready managed c0) _ _ (fun after c => after = autoTopologyResync → relabels managed c0 c) _ (fun _ => True));
    [|by intros c [-> ?]|done..]. clear c1 Hc1.
  apply (triple_bind _ _ _ (fun fabricNodes c => fabricNodes = c_fabricNodes c0 ∧ ready managed c0 c));
    [apply triple_call; [done|]; intros s [(? & ?) ?]; done|]. intros fabricNodes. apply triple_fact. intros ->.
  apply (triple_bind _ _ _ (fun switches c => switches = c_switches c0 ∧ ready managed c0 c));
    [apply triple_call; [done|]; intros s [(? & ? & ?) ?]; done|]. intros switches. apply triple_fact. intros ->.
  apply (triple_bind _ _ _ (fun nodes c => nodes = c_nodes c0 ∧ ready managed c0 c));
    [apply triple_call; [done|]; intros s [(? & ? & ? & ?) ?]; done|]. intros nodes. apply triple_fact. intros ->.
  apply (triple_bind _ _ _ (fun plan c => Forall (covers c0 plan) managed ∧ ready managed c0 c)).
  { apply (triple_conseq (fun c => Forall (covers c0 newAutoLabelPlan) [] ∧ ready managed c0 c) _ _
      (fun plan c => Forall (covers c0 plan) managed ∧ ready managed c0 c) _ (fun _ => True)); [|done..].
    apply (triple_foldl _ _ _ (fun seen plan c => Forall (covers c0 plan) seen ∧ ready managed c0 c)).
    intros. apply planTopology_covers. }
  intros plan. apply triple_fact. intros Hcov.
  apply (triple_bind _ _ _ (fun _ => relabels managed c0)); [|intros _; by apply triple_ret].
  eapply (triple_conseq _ _ _ _ _ (fun _ => True)).
  - apply (applyPlan_applies plan (c_nodes c0) (c_switches c0) (fun T => named_by_key T ∧ alive managed T) Hn Hs).
  - by intros c [(? & ? & ? & ?) ?].
  - intros _ c [[[? ?] ?] ?]. split_and!; [done..|]. by exists plan.
  - done.
Qed.
End labels.

(** ** The status after the labels *)
Section status.
Context `{RangeOrder} (managed : list managedTopology) (c0 c : Cluster) (plan rolePlan : autoLabelPlan).
Hypothesis nodes_unique : NoDup (corev1.Node_Name <$> c_nodes c0).
Hypothesis switches_unique : NoDup (v1beta1.SW_Name <$> c_switches c0).
Hypothesis nodes_applied : nodesApplied plan (c_nodes c0) c.
Hypothesis switches_applied : switchesApplied plan (c_switches c0) c.
Hypothesis plan_included : included rolePlan plan.

Lemma node_after n key v :
  nodeCarries (nodesByName (c_nodes c0)) rolePlan n key v → v ≠ "" →
  ∃ node, node ∈ c_nodes c ∧ corev1.Node_Name node = n ∧ corev1.Node_Labels node !! key = Some v.
Proof using nodes_unique nodes_applied plan_included.
  intros Hc Hv. assert (n ∈ corev1.Node_Name <$> c_nodes c0) as (node & -> & Hin)%list_elem_of_fmap.
  { destruct Hc as [Hl|[_ Hp]].
    - unfold nodeLabel in Hl. destruct (nodesByName (c_nodes c0) !! n) as [node|] eqn:Hn; cbn in Hl; [|by rewrite lookup_empty in Hl].
      apply byName_spec in Hn as [Hin <-]. by apply list_elem_of_fmap_2.
    - destruct plan_included as [Hi _]. apply Hi in Hp. revert nodes_applied Hp. apply applied_exists, elem_of_nestedKeys. }
  unfold nodeCarries, nodeLabel, nodesByName in Hc. rewrite (byName_complete corev1.Node_Name) in Hc by done. cbn in Hc.
  destruct (applied_after corev1.Node_Name corev1.Node_Labels relabelNode c_nodes (fun _ _ => eq_refl) _ _ _ _ _
    (elem_of_nestedKeys (plan_nodes plan)) (fun _ _ => eq_refl) nodes_applied Hin) as (node' & Hin' & Hname & _ & Hlabels).
  exists node'. split_and!; [done..|]. apply Hlabels; [done|]. destruct Hc as [?|[-> Hp]]; [by left|right].
  split; [done|]. by apply plan_included.
Qed.

Lemma switch_after synthetic sw v :
  sw ∈ c_switches c0 → switchCarries (switchesByName (c_switches c0)) synthetic rolePlan (v1beta1.SW_Name sw) v → v ≠ "" →
  ∃ sw', sw' ∈ c_switches c ∧ v1beta1.SW_Name sw' = v1beta1.SW_Name sw ∧ v1beta1.Role sw' = v1beta1.Role sw ∧
    v1beta1.SW_Labels sw' !! v1beta1.TopologyDomainLabel = Some v.
Proof using switches_unique switches_applied plan_included.
  intros Hin Hc Hv. unfold switchCarries, switchesByName in Hc. rewrite (byName_complete v1beta1.SW_Name) in Hc by done.
  destruct (applied_after v1beta1.SW_Name v1beta1.SW_Labels with_labels c_switches (fun _ _ => eq_refl) _ _ _ _ _
    (elem_of_nestedKeys (plan_switches plan)) (fun _ _ => eq_refl) switches_applied Hin) as (sw' & Hin' & Hname & Hsame & Hlabels).
  exists sw'. split_and!; [done..| |]; [by destruct Hsame as [->|[m ->]]|]. apply Hlabels; [done|]. unfold switchDomain in Hc.
  destruct Hc as [[Hd _]|[Hd Hp]].
  - left. destruct (_ !! _); cbn in Hd; congruence.
  - right. split; [done|]. by apply plan_included.
Qed.
End status.

(** A group in the status of a topology: a domain of its tier that lists the Switches of the group, and node
    groups with the Nodes of the group, below the domain. *)
Definition represented (switches : list v1beta1.Switch) (role : v1beta1.SwitchRole) (status : v1beta1.TopologyStatus)
    (G : discoveredGroup) (v : string) : Prop :=
  (∃ x, x ∈ v1beta1.Domains status ∧ v1beta1.TD_Name x = v ∧ v1beta1.TD_Tier x = dg_tier G ∧
     ∀ sw, sw ∈ switches → effectiveSwitchRole sw = role → v1beta1.SW_Name sw ∈ dg_members G →
       v1beta1.SW_Name sw ∈ v1beta1.SwitchMember x) ∧
  ∀ n, n ∈ dg_nodes G → ∃ g, g ∈ v1beta1.TS_Nodes status ∧ n ∈ v1beta1.NG_Nodes g ∧
    reverse (v1beta1.SwitchDomainPath g) !! Z.to_nat (dg_tier G - 1) = Some v.

Lemma autoDomainName_nonempty tier g : autoDomainName tier g ≠ "".
Proof. done. Qed.

Lemma swDomain_takeSnapshot name nodes switches sw :
  sw ∈ switches → switchBelongsToTopology sw name = true →
  MkLabeled (v1beta1.SW_Name sw) (v1beta1.SW_Labels sw) ∈ LS_Switches (takeSnapshot name nodes switches).
Proof. intros Hin Hb. cbn. apply list_elem_of_fmap. exists sw. split; [done|]. by apply list_elem_of_filter. Qed.

(** The status built from labels that carry the name of a group shows the group. *)
Lemma built_represented `{RangeOrder} IsValidLabelValue t name nodes switches switches0 role prev r G v key :
  (∀ v, IsValidLabelValue v = [] → nul_free v = true) → compiledOk t →
  BuildTopologyStatus IsValidLabelValue (Some t) (takeSnapshot name nodes switches) prev = Ret r →
  Render (Some t) (dg_tier G) = Ret key → 1 ≤ dg_tier G ≤ max_int → v ≠ "" → dg_nodes G ≠ [] →
  (∀ n, n ∈ dg_nodes G → ∃ node, node ∈ nodes ∧ corev1.Node_Name node = n ∧ corev1.Node_Labels node !! key = Some v) →
  (∀ sw, sw ∈ switches0 → effectiveSwitchRole sw = role → v1beta1.SW_Name sw ∈ dg_members G →
     ∃ sw', sw' ∈ switches ∧ v1beta1.SW_Name sw' = v1beta1.SW_Name sw ∧ switchBelongsToTopology sw' name = true ∧
       v1beta1.SW_Labels sw' !! v1beta1.TopologyDomainLabel = Some v) →
  represented switches0 role (BR_Status r) G v.
Proof.
  intros Hvalid Hok Hr Hkey Htier Hv Hne Hnodes Hsw.
  assert (∀ n, n ∈ dg_nodes G → ∃ node, node ∈ LS_Nodes (takeSnapshot name nodes switches) ∧ LR_Name node = n ∧
    tierValue (Some t) (LR_Labels node) (dg_tier G) v) as Hval.
  { intros n (node & Hin & Hn & Hl)%Hnodes. exists (MkLabeled (corev1.Node_Name node) (corev1.Node_Labels node)).
    split; [cbn; apply list_elem_of_fmap; by exists node|]. split; [done|]. exists key. split; [done|].
    split; [|done]. by apply (MatchTier_spec _ _ _ Hok). }
  destruct (status_domains_spec _ _ _ _ _ Hvalid Hr) as (_ & Hdom & _ & Hmem).
  destruct (status_groups_spec _ _ _ _ _ Hvalid Hr) as (_ & Hgrp & _). split.
  - assert (∃ n, n ∈ dg_nodes G) as [n Hn] by (destruct (dg_nodes G) as [|n l]; [done|exists n; set_solver]).
    apply Hval in Hn as (node & Hin & _ & Hn). destruct (proj2 (Hdom (dg_tier G) v)) as (x & Hx & Hxn & Hxt); [eauto|].
    exists x. split_and!; [done..|]. intros sw Hsin Hrole Hm. destruct (Hsw sw Hsin Hrole Hm) as (sw' & Hin' & <- & Hb & Hl).
    apply Hmem; [done|]. eexists. split; [by apply swDomain_takeSnapshot|]. unfold swDomain. cbn. rewrite Hl. cbn. by rewrite Hxn.
  - intros n (node & Hin & <- & Hn)%Hval. destruct (Hgrp _ _ _ Hin Hn) as (g & Hg & Hm & [_ Hp]).
    exists g. split_and!; [done..|]. by apply Hp.
Qed.

(** What a configuration manages, and the template its status is built with. *)
Lemma configured_managed Parse IsQualifiedName cfg cfg' managed t :
  normalizeControllerConfig Parse IsQualifiedName cfg = Ret cfg' → configuredManagedTopologies cfg' = Ret managed → t ∈ managed →
  ∃ tm, labelTemplate t = Some tm ∧ ForTopology (TopologyLabelTemplates cfg') (mt_name t) = Some tm ∧ compiledOk tm ∧
    ∀ sw, effectiveSwitchRole sw = mt_role t → switchBelongsToTopology sw (mt_name t) = true.
Proof.
  intros (t1 & t2 & t3 & Hs & H2 & H3 & _)%configured_templates Hm Hin. unfold configuredManagedTopologies in Hm.
  rewrite Hs in Hm. cbn in Hm. injection Hm as <-. rewrite Hs.
  apply elem_of_app in Hin as [Hin|Hin]; (case_match; [apply list_elem_of_singleton in Hin as ->|by apply elem_of_nil in Hin]); cbn.
  - exists t2. split_and!; [done..|]. intros sw Hr. unfold switchBelongsToTopology.
    change (effectiveTopologySwitchRole sw) with (effectiveSwitchRole sw). by rewrite Hr.
  - exists t3. split_and!; [done..|]. intros sw Hr. unfold switchBelongsToTopology.
    change (effectiveTopologySwitchRole sw) with (effectiveSwitchRole sw). by rewrite Hr.
Qed.

(** The status a finished reconciliation leaves, for a topology that is not being deleted. *)
Lemma finished_status `{RangeOrder} IsValidLabelValue templates name w w' :
  named_by_key (c_topologies (w_cluster w)) →
  (∀ object, c_topologies (w_cluster w) !! name = Some object → v1beta1.Deleting object = false) →
  reconcileStatus IsValidLabelValue templates name w = (Ret finished, w') →
  ∃ r, builds IsValidLabelValue templates name (w_cluster w) r ∧
    (v1beta1.Domains (BR_Status r) ≠ [] →
     ∃ object, c_topologies (w_cluster w') !! name = Some object ∧ v1beta1.T_Status object = BR_Status r).
Proof.
  intros Hk Hlive Hrun. pose proof (reconcileStatus_triple IsValidLabelValue templates name _ Hk w eq_refl) as Ht.
  rewrite Hrun in Ht. destruct Ht as [_ Hw]. specialize (Hw eq_refl). unfold written in Hw.
  destruct (c_topologies (w_cluster w) !! name) as [object|].
  - rewrite (Hlive object) in Hw by done. destruct Hw as (r & Hb & Ho). exists r. split; [done|]. intros _. eauto.
  - destruct Hw as (r & Hb & Ho). exists r. split; [done|]. intros Hne. rewrite Ho. unfold topologyStatusEmpty.
    rewrite bool_decide_false by done. cbn. eauto.
Qed.

(** The labels of a plan in the status, after the reconciliation that applies it. *)
Lemma plan_represented `{RangeOrder} IsValidLabelValue tm name role c0 c plan rolePlan synthetic prev r G v key :
  (∀ v, IsValidLabelValue v = [] → nul_free v = true) → compiledOk tm →
  (∀ sw, effectiveSwitchRole sw = role → switchBelongsToTopology sw name = true) →
  NoDup (corev1.Node_Name <$> c_nodes c0) → NoDup (v1beta1.SW_Name <$> c_switches c0) →
  nodesApplied plan (c_nodes c0) c → switchesApplied plan (c_switches c0) c → included rolePlan plan →
  BuildTopologyStatus IsValidLabelValue (Some tm) (takeSnapshot name (c_nodes c) (c_switches c)) prev = Ret r →
  Render (Some tm) (dg_tier G) = Ret key → dg_tier G ≤ max_int → (∃ g, v = autoDomainName (dg_tier G) g) → dg_nodes G ≠ [] →
  (∀ n, n ∈ dg_nodes G → nodeCarries (nodesByName (c_nodes c0)) rolePlan n key v) →
  (∀ s, s ∈ dg_members G → switchCarries (switchesByName (c_switches c0)) synthetic rolePlan s v) →
  represented (c_switches c0) role (BR_Status r) G v.
Proof.
  intros Hvalid Hok Hrole Hnn Hsn Hna Hsa Hinc Hr Hkey Hmax [g ->] Hne Hnodes Hsw.
  eapply built_represented; [done|done|done|done|split; [by eapply Render_tier|done]|apply autoDomainName_nonempty|done| |].
  - intros n Hn. eapply node_after; [done|done|done|by apply Hnodes|apply autoDomainName_nonempty].
  - intros sw Hin Hr' Hm. destruct (switch_after _ _ _ _ Hsn Hsa Hinc synthetic sw _ Hin (Hsw _ Hm) (autoDomainName_nonempty _ _))
      as (sw' & Hin' & Hname & Hr'' & Hl).
    exists sw'. split_and!; [done..| |done]. apply Hrole. unfold effectiveSwitchRole in *. by rewrite Hr''.
Qed.

(** ** A concrete deployment *)
Module Deployed.
Definition cfg : ControllerConfig :=
  MkController "" "" "" "" false "" (MkLeader false "" "")
    (MkLabels "up/tier-{{ .Tier }}" "out/tier-{{ .Tier }}-x" "out/tier-{{ .Tier }}" "" "" "") None
    (MkControllerNodeTopology "" "" "")
    (MkSwitches true true false "" "" 0 "" 0 [] (MkSwitchMTLS None "" "") (MkGroupNaming "" 0)) None.

Definition normalised : ControllerConfig :=
  match normalizeControllerConfig Sample.Parse Sample.anyName cfg with Ret c => c | _ => cfg end.

Definition scaleOut : managedTopology :=
  MkManaged v1beta1.TopologyScaleOut v1beta1.SwitchRoleScaleOut (ScaleOut Sample.set).

Definition before : World := MkWorld (MkCluster ∅ Cluster.fabricNodes Cluster.switches Cluster.nodes) [].
Definition between : World := (@AutoLabelReconcile.Reconcile canonical_order [scaleOut] before).2.
Definition after : World :=
  (@reconcileStatus canonical_order Labelled.validValue (TopologyLabelTemplates normalised) v1beta1.TopologyScaleOut between).2.

(** Two leaves below a spine, with their Nodes. *)
Example domains_stored :
  (fun object => (fun x => (v1beta1.TD_Name x, v1beta1.TD_Tier x, v1beta1.SwitchMember x)) <$>
     v1beta1.Domains (v1beta1.T_Status object)) <$> c_topologies (w_cluster after) !! v1beta1.TopologyScaleOut =
  Some [("tier2-group1", 2, ["spine-1"]); ("tier1-group1", 1, ["leaf-1"]); ("tier1-group2", 1, ["leaf-2"])].
Proof. vm_compute. reflexivity. Qed.
End Deployed.

(** C17.  The components together: with a configuration the controller accepts, after a
    reconciliation of the labels that goes through and a reconciliation of the status of a managed
    topology that finishes, either no host or no switch takes part, or every group
    [DiscoverTopology] finds in the FabricNodes and Switches has a name, which only a group of the
    same tier with the same hashed name can share ([sameHash]), and for a group that has Nodes and
    whose tier is an [int] the stored Topology has a domain with this name and tier, which lists
    the Switches of the group, and its node groups list each Node of the group below this domain. *)
Theorem discovered_in_status `{RangeOrder} Parse IsQualifiedName IsValidLabelValue cfg cfg' managed t w0 w1 w2 :
  normalizeControllerConfig Parse IsQualifiedName cfg = Ret cfg' → configuredManagedTopologies cfg' = Ret managed →
  t ∈ managed → (∀ v, IsValidLabelValue v = [] → nul_free v = true) →
  named_by_key (c_topologies (w_cluster w0)) →
  NoDup (corev1.Node_Name <$> c_nodes (w_cluster w0)) → NoDup (v1beta1.SW_Name <$> c_switches (w_cluster w0)) →
  AutoLabelReconcile.Reconcile managed w0 = (Ret autoTopologyResync, w1) →
  reconcileStatus IsValidLabelValue (TopologyLabelTemplates cfg') (mt_name t) w1 = (Ret finished, w2) →
  let c0 := w_cluster w0 in
  undiscovered (mt_role t) (c_fabricNodes c0) (c_switches c0) (c_nodes c0) ∨
  ∃ inputs groups named,
    discovers (mt_role t) (c_fabricNodes c0) (c_switches c0) (c_nodes c0) inputs groups ∧ named.*1 ≡ₚ groups ∧
    (∀ G G' v, (G, v) ∈ named → (G', v) ∈ named → G = G' ∨ sameHash G G') ∧
    ∀ G v, (G, v) ∈ named → dg_tier G ≤ max_int → dg_nodes G ≠ [] →
      ∃ object, c_topologies (w_cluster w2) !! mt_name t = Some object ∧
        represented (c_switches c0) (mt_role t) (v1beta1.T_Status object) G v.
Proof.
  intros Hcfg Hman Hin Hvalid Hk Hnn Hsn Hrec Hstat c0.
  pose proof (Reconcile_relabels managed c0 Hnn Hsn w0 (conj eq_refl Hk)) as Hrel. rewrite Hrec in Hrel.
  destruct (Hrel eq_refl) as (Hk1 & Halive & plan & Hcov & Hna & Hsa).
  apply (Forall_forall (covers c0 plan) managed) with (x := t) in Hcov as (rolePlan & Hplan & Hinc); [|done].
  destruct (configured_managed _ _ _ _ _ _ Hcfg Hman Hin) as (tm & Htm & Hft & Hok & Hrole).
  destruct (finished_status _ _ _ _ _ Hk1 (fun o => Halive t o Hin) Hstat) as (r & Hb & Hstored).
  unfold builds in Hb. rewrite Hft in Hb. rewrite Htm in Hplan.
  pose proof (plan_names_spec _ _ _ _ _ _ Hplan) as [[_ ?]|(inputs & groups & named & Hd & Hperm & Hnames & Hinj)]; [by left|right].
  exists inputs, groups, named. split_and!; [done..|]. intros G v Hg Hmax Hne.
  destruct (Hnames G v Hg) as (key & Hkey & Hv & Hnodes & Hsw).
  assert (represented (c_switches c0) (mt_role t) (BR_Status r) G v) as Hrep by (by eapply plan_represented).
  destruct Hstored as (object & Hobj & Hst); [|exists object; split; [done|by rewrite Hst]].
  destruct Hrep as [(x & Hx & _) _]. intros He. rewrite He in Hx. by apply elem_of_nil in Hx.
Qed.

Lemma discovered_in_status_witness :
  @undiscovered canonical_order v1beta1.SwitchRoleScaleOut Cluster.fabricNodes Cluster.switches Cluster.nodes ∨
  ∃ inputs groups named,
    @discovers canonical_order v1beta1.SwitchRoleScaleOut Cluster.fabricNodes Cluster.switches Cluster.nodes inputs groups ∧
    named.*1 ≡ₚ groups ∧
    (∀ G G' v, (G, v) ∈ named → (G', v) ∈ named → G = G' ∨ sameHash G G') ∧
    ∀ G v, (G, v) ∈ named → dg_tier G ≤ max_int → dg_nodes G ≠ [] →
      ∃ object, c_topologies (w_cluster Deployed.after) !! v1beta1.TopologyScaleOut = Some object ∧
        represented Cluster.switches v1beta1.SwitchRoleScaleOut (v1beta1.T_Status object) G v.
Proof.
  apply (@discovered_in_status canonical_order Sample.Parse Sample.anyName Labelled.validValue Deployed.cfg Deployed.normalised
    [Deployed.scaleOut] Deployed.scaleOut Deployed.before Deployed.between Deployed.after).
  - vm_compute. reflexivity.
  - vm_compute. reflexivity.
  - by apply list_elem_of_singleton.
  - exact Labelled.validValue_nul.
  - intros n t Hn. cbn in Hn. by rewrite lookup_empty in Hn.
  - cbn. repeat constructor; set_solver.
  - cbn. repeat constructor; set_solver.
  - vm_compute. reflexivity.
  - vm_compute. reflexivity.
Defined.

(** ** The switch agent and the controller *)
Section streams.
Context (SetStatusCondition : list v1beta1.Condition → v1beta1.Condition → list v1beta1.Condition).
Context (RetryOnConflict : M subscriptionError unit → M subscriptionError unit) `{!RetryLaw RetryOnConflict} (now : Z).
Context (ports : list string) (name : string).

(** The Switch [name] shows the snapshot [s], with the neighbours told apart by the names of Nodes in one of [views]. *)
Definition shows (views : list (gmap string bool * gmap string bool)) (s : LLDPNeighborSnapshot) (c : Cluster) : Prop :=
  ∃ view neighbors, view ∈ views ∧ normalizeSnapshotNeighbors s ports view.1 view.2 = Ret neighbors ∧
    ∀ sw, sw ∈ c_switches c → v1beta1.SW_Name sw = name →
      v1beta1.LLDPNeighbors (v1beta1.SW_Status sw) = neighbors ∧ v1beta1.Healthy (v1beta1.SW_Status sw) = true ∧
      v1beta1.SS_Hostname (v1beta1.SW_Status sw) = if decide (Sn_SwitchName s = "") then name else Sn_SwitchName s.

(** The names a handler can read: those of the Nodes, or none when they cannot be listed. *)
Definition views (c : Cluster) : list (gmap string bool * gmap string bool) := [kubernetesNodeNames (c_nodes c); (∅, ∅)].

Definition sameNames (c0 c : Cluster) : Prop :=
  c_nodes c = c_nodes c0 ∧ v1beta1.SW_Name <$> c_switches c = v1beta1.SW_Name <$> c_switches c0.

Lemma mutated_names mutate (switches : list v1beta1.Switch) : v1beta1.SW_Name <$> (mutated name mutate <$> switches) = v1beta1.SW_Name <$> switches.
Proof. rewrite <-list_fmap_compose. apply list_fmap_ext. intros i sw _. unfold compose, mutated. by case_decide. Qed.

Lemma wrote_shows view vs s neighbors c0 c :
  view ∈ vs → normalizeSnapshotNeighbors s ports view.1 view.2 = Ret neighbors →
  wrote name (Subscription.accepted SetStatusCondition now (if decide (Sn_SwitchName s = "") then name else Sn_SwitchName s)
    neighbors (Generation s)) c0 c →
  shows vs s c ∧ sameNames c0 c.
Proof.
  intros Hv Hn [(_ & _ & Hnodes) Hsw]. split; [|split; [done|by rewrite Hsw, mutated_names]].
  exists view, neighbors. split_and!; [done..|]. intros sw Hin Hname. rewrite Hsw in Hin.
  apply list_elem_of_fmap in Hin as (sw0 & -> & _). unfold mutated in *. by case_decide.
Qed.

(** Whatever fails, the Switch shows the snapshot whose generation the loop has reached. *)
Lemma receive_shows snapshots err g w g' e w' :
  increasing g (Generation <$> snapshots) → NoDup (v1beta1.SW_Name <$> c_switches (w_cluster w)) →
  receive SetStatusCondition RetryOnConflict now ports name snapshots err g w = (g', e, w') →
  g' = g ∧ w_cluster w' = w_cluster w ∨
  ∃ s, s ∈ snapshots ∧ Generation s = g' ∧ shows (views (w_cluster w)) s (w_cluster w').
Proof using RetryLaw0.
  revert g w. induction snapshots as [|s snapshots IH]; intros g w Hinc Hnd; cbn [receive]; [intros [= <- _ <-]; by left|].
  destruct Hinc as [Hlt Hinc]. destruct (handleSnapshot _ _ _ _ _ _ _ _) as [r w1] eqn:Hh.
  destruct (handle_snapshot_spec _ _ _ _ _ _ _ _ _ _ RetryLaw0 Hnd Hh) as [(? & _)|(_ & [(nn & nm & nb & Hv & Hn & -> & Hw)|[Hr Hw]])];
    [lia| |destruct r; [by destruct (Hr a)|intros [= <- _ <-]; by left..]].
  destruct (wrote_shows (nn, nm) _ _ _ _ _ Hv Hn Hw) as [Hshow [Hnodes Hnames]]. intros Hrun.
  destruct (IH _ w1 Hinc ltac:(by rewrite Hnames) Hrun) as [[-> ->]|(s' & Hin & Hg & Hs)].
  - right. exists s. split_and!; [set_solver|done|done].
  - right. exists s'. split_and!; [set_solver|done|]. unfold views in *. by rewrite <-Hnodes.
Qed.

(** Without failures of the API server every snapshot whose neighbours are named is stored. *)
Definition quiet (w : World) : Prop := w_faults w = [].
Definition allNamed (s : LLDPNeighborSnapshot) : Prop := ∀ e, e ∈ LldpNeighbors s → used ports e = true → RemoteSystem e ≠ "".

Lemma mutateOnce_quiet mutate w : quiet w → ∃ w', mutateOnce name mutate w = (Ret (), w') ∧ quiet w'.
Proof.
  destruct w as [c faults]. intros Hq. unfold quiet in Hq. cbn in Hq. subst faults. unfold mutateOnce, getSwitch, patchSwitch, call, try_call.
  unfold mbind, M_bind, option_bind. cbn.
  destruct (list_find (fun s => v1beta1.SW_Name s = name) (c_switches c)) as [[i sw]|]; cbn; [|eexists; by split].
  case_decide; cbn; eexists; by split.
Qed.

Lemma mutateSwitchStatus_quiet mutate w :
  quiet w → NoDup (v1beta1.SW_Name <$> c_switches (w_cluster w)) →
  ∃ w', mutateSwitchStatus RetryOnConflict name mutate w = (Ret (), w') ∧ quiet w' ∧ wrote name mutate (w_cluster w) (w_cluster w').
Proof using RetryLaw0.
  intros Hq Hnd. destruct (mutateOnce_quiet mutate w Hq) as (w' & Hm & Hq').
  assert (mutateSwitchStatus RetryOnConflict name mutate w = (Ret (), w')) as Hr.
  { unfold mutateSwitchStatus. rewrite <-Hm. destruct (retry_law (mutateOnce name mutate) w) as [w|w w1 r Hc _]; congruence. }
  exists w'. split_and!; [done..|]. pose proof (mutateSwitchStatus_triple RetryOnConflict name mutate (w_cluster w) Hnd w eq_refl) as Ht.
  by rewrite Hr in Ht.
Qed.

Lemma handle_quiet s g w :
  quiet w → NoDup (v1beta1.SW_Name <$> c_switches (w_cluster w)) → g < Generation s → allNamed s →
  ∃ w', handleSnapshot SetStatusCondition RetryOnConflict now ports name s g w = (Ret (Generation s, true), w') ∧ quiet w' ∧
    shows [kubernetesNodeNames (c_nodes (w_cluster w))] s (w_cluster w') ∧ sameNames (w_cluster w) (w_cluster w').
Proof using RetryLaw0.
  intros Hq Hnd Hg Hnamed. unfold handleSnapshot. rewrite decide_False by lia.
  assert (try_call (E:=subscriptionError) (fun c => (inl (c_nodes c), c)) w = (Ret (inl (c_nodes (w_cluster w))), w)) as Hl.
  { unfold try_call. rewrite Hq, <-Hq. by destruct w. }
  unfold mbind, M_bind, pure, mret, M_ret. rewrite Hl. destruct (kubernetesNodeNames (c_nodes (w_cluster w))) as [nn nm] eqn:Hv.
  destruct (count_total ports nn nm (LldpNeighbors s) ([], ∅)) as [[st Hst]|[_ (e & He & Hu & Hn)]]; [|by destruct (Hnamed e He Hu)].
  assert (∃ nb, normalizeSnapshotNeighbors s ports nn nm = Ret nb) as [nb Hnb].
  { unfold normalizeSnapshotNeighbors. rewrite Hst. destruct st. eexists. reflexivity. }
  rewrite Hnb. destruct (mutateSwitchStatus_quiet (Subscription.accepted SetStatusCondition now
    (if decide (Sn_SwitchName s = "") then name else Sn_SwitchName s) nb (Generation s)) w Hq Hnd) as (w' & -> & Hq' & Hw).
  destruct (wrote_shows (nn, nm) [(nn, nm)] s nb _ _ (proj2 (list_elem_of_singleton _ _) eq_refl) Hnb Hw) as [Hshow Hnames].
  exists w'. by split_and!.
Qed.

Lemma receive_quiet snapshots err g w :
  increasing g (Generation <$> snapshots) → NoDup (v1beta1.SW_Name <$> c_switches (w_cluster w)) → quiet w → Forall allNamed snapshots →
  ∃ w', receive SetStatusCondition RetryOnConflict now ports name snapshots err g w =
      (default g (last (Generation <$> snapshots)), err, w') ∧
    ∀ s, last snapshots = Some s → shows [kubernetesNodeNames (c_nodes (w_cluster w))] s (w_cluster w').
Proof using RetryLaw0.
  revert g w. induction snapshots as [|s snapshots IH]; intros g w Hinc Hnd Hq Hnamed; cbn [receive]; [by exists w|].
  destruct Hinc as [Hlt Hinc]. apply Forall_cons in Hnamed as [Hs Hnamed].
  destruct (handle_quiet s g w Hq Hnd Hlt Hs) as (w1 & -> & Hq1 & Hshow & [Hnodes Hnames]).
  destruct (IH _ w1 Hinc ltac:(by rewrite Hnames) Hq1 Hnamed) as (w2 & Hr & Hlast). exists w2. rewrite Hr. split.
  - destruct snapshots as [|s' snapshots]; [done|]. cbn [fmap list_fmap]. by rewrite (default_last g (Generation s)).
  - destruct snapshots as [|s' snapshots]; [|rewrite <-Hnodes; apply Hlast].
    intros ? [= <-]. by injection Hr as <-.
Qed.

(** The snapshots a loop that has reached generation [g] does not ignore. *)
Definition fresh (g : Z) (snapshots : list LLDPNeighborSnapshot) : list LLDPNeighborSnapshot :=
  filter (fun s => g < Generation s) snapshots.

Lemma increasing_weaken g b l : g ≤ b → increasing b l → increasing g l.
Proof. destruct l; cbn; [done|]. intros ? [? ?]. split; [lia|done]. Qed.

Lemma fresh_all g snapshots : increasing g (Generation <$> snapshots) → fresh g snapshots = snapshots.
Proof.
  assert (∀ b, g ≤ b → increasing b (Generation <$> snapshots) → fresh g snapshots = snapshots) as Hb; [|by apply Hb].
  unfold fresh. induction snapshots as [|s snapshots IH]; intros b Hg; [done|]. cbn [fmap list_fmap increasing]. intros [Hlt Hinc].
  rewrite filter_cons, decide_True by lia. f_equal. eapply IH; [|done]. lia.
Qed.

Lemma fresh_increasing b g snapshots : increasing b (Generation <$> snapshots) → increasing g (Generation <$> fresh g snapshots).
Proof.
  revert b. induction snapshots as [|s snapshots IH]; intros b; [done|]. cbn [fmap list_fmap increasing]. intros [_ Hinc].
  unfold fresh. rewrite filter_cons. case_decide as Hg; [|by eapply IH]. fold (fresh g snapshots). split; [done|].
  assert (fresh g snapshots = snapshots) as ->; [|done]. apply fresh_all. eapply increasing_weaken; [|done]. lia.
Qed.

Lemma receive_fresh b snapshots err g w :
  increasing b (Generation <$> snapshots) →
  receive SetStatusCondition RetryOnConflict now ports name snapshots err g w =
  receive SetStatusCondition RetryOnConflict now ports name (fresh g snapshots) err g w.
Proof.
  revert b. induction snapshots as [|s snapshots IH]; intros b; [done|]. cbn [fmap list_fmap increasing]. intros [Hb Hinc].
  unfold fresh. rewrite filter_cons. fold (fresh g snapshots). case_decide as Hg.
  - assert (fresh g snapshots = snapshots) as ->; [|done]. apply fresh_all. eapply increasing_weaken; [|done]. lia.
  - rewrite <-(IH _ Hinc). cbn [receive]. unfold handleSnapshot at 1. by rewrite decide_True by lia.
Qed.

Lemma fresh_last g snapshots s : last snapshots = Some s → g < Generation s → last (fresh g snapshots) = Some s.
Proof.
  intros [l ->]%last_Some Hg. unfold fresh. rewrite filter_app, (filter_cons_True _ s) by done. apply last_snoc.
Qed.

Lemma fresh_none b g snapshots : increasing b (Generation <$> snapshots) → default b (Generation <$> last snapshots) ≤ g → fresh g snapshots = [].
Proof.
  intros Hinc Hl. rewrite <-fmap_last in Hl. apply (increasing_bound _ _ g Hinc) in Hl. clear Hinc. rewrite Forall_fmap in Hl.
  unfold fresh. induction Hl as [|s l Hs _ IH]; [done|]. cbn in Hs. rewrite filter_cons_False by lia. exact IH.
Qed.
End streams.

(** ** A stream, and what the controller makes of it *)
Module Followed.
Definition acts : list agentAction := sample_run ++ [Deliver 0 true].
Definition final : world := default freshAgent (agentRun sample_agent acts freshAgent).
Definition stream : watcher := default (MkWatcher 0 []) (watchers final !! 0%nat).
Definition before : World := MkWorld (MkCluster ∅ [] [Stream.sw "10.0.0.1"] [corev1.MkNode "leaf0" ∅]) [].
Definition outcome : Z * subscriptionError * World :=
  receive Stream.setCondition (attempts 4) 0 ["Management*"] "leaf-1" (sent stream) ErrCanceled 0 before.

(** Two snapshots were sent; the second has one neighbour, which is a Node. *)
Example second_stored : outcome.1.1 = 2 ∧
  (fun sw => v1beta1.LLDPNeighbors (v1beta1.SW_Status sw)) <$> c_switches (w_cluster outcome.2) =
    [[v1beta1.MkSwitchNeighbor "KubernetesNode" "leaf0" 1]].
Proof. vm_compute. done. Qed.
End Followed.

(** C27.  From the switch to its object: after any interleaving of refreshes, calls, deliveries and
    hang-ups at the agent, a controller that had reached generation [g0] and has received a stream
    from its beginning has, whatever calls on the API server failed, stored a snapshot of the stream
    in the Switch, namely the one whose generation it has reached, or nothing at all.  When no call
    fails and the neighbours are named, there are three cases: the agent's current snapshot is not
    newer than [g0] (the agent was restarted, or was read before) and nothing is stored; it is stored,
    with the neighbours classified by the names of the Nodes; or it waits at the agent, whose next turn
    sends it. *)
Theorem switch_follows_agent SetStatusCondition RetryOnConflict now ports name cfg acts a id v err g0 w g e w' :
  RetryLaw RetryOnConflict → agentRun cfg acts freshAgent = Some a → Z.of_nat (length acts) < 2 ^ 64 →
  watchers a !! id = Some v → NoDup (v1beta1.SW_Name <$> c_switches (w_cluster w)) →
  receive SetStatusCondition RetryOnConflict now ports name (sent v) err g0 w = (g, e, w') →
  (g = g0 ∧ w_cluster w' = w_cluster w ∨
   ∃ s, s ∈ sent v ∧ g0 < Generation s ∧ Generation s = g ∧ shows ports name (views (w_cluster w)) s (w_cluster w')) ∧
  (w_faults w = [] → Forall (allNamed ports) (sent v) →
   e = err ∧ ∃ cur, currentSnapshot (agent a) = Some cur ∧
     (Generation cur ≤ g0 ∧ g = g0 ∧ w' = w ∨
      g0 < Generation cur ∧ g = Generation cur ∧ shows ports name [kubernetesNodeNames (c_nodes (w_cluster w))] cur (w_cluster w') ∨
      g0 < Generation cur ∧ g < Generation cur ∧ ∃ a', agentStep cfg (Deliver id true) a = Some a' ∧
        watchers a' !! id = Some (MkWatcher (Generation cur) (sent v ++ [cur])))).
Proof.
  intros Hlaw Hrun Hn Hv Hnd Hrec. pose proof (agentRun_served 0 cfg acts freshAgent a served_fresh ltac:(lia) Hrun) as Hs.
  destruct (proj1 (served_domain _ _ Hs id)) as [channel Hc]; [eauto|].
  destruct (served_streams _ _ Hs id v channel Hv Hc) as (cur & Hcur & Hinc & Hlast & Hch).
  rewrite (receive_fresh SetStatusCondition RetryOnConflict now ports name 0) in Hrec by done.
  pose proof (fresh_increasing 0 g0 _ Hinc) as Hinc'. split.
  { destruct (receive_shows _ _ _ _ _ _ _ _ _ _ _ _ Hinc' Hnd Hrec) as [?|(s & [? ?]%list_elem_of_filter & ? & ?)]; [by left|right; eauto]. }
  intros Hq Hnamed. assert (Forall (allNamed ports) (fresh g0 (sent v))) as Hnamed'.
  { rewrite Forall_forall in Hnamed |- *. intros s [_ Hin]%list_elem_of_filter. by apply Hnamed. }
  destruct (receive_quiet SetStatusCondition RetryOnConflict now ports name _ err g0 w Hinc' Hnd Hq Hnamed') as (w2 & Hr & Hshow).
  pose proof Hr as Hr2. rewrite Hrec in Hr. injection Hr as -> -> ->. split; [done|]. exists cur. split; [done|].
  destruct (decide (Generation cur ≤ g0)) as [Hle|Hgt].
  - left. assert (fresh g0 (sent v) = []) as Hf.
    { apply (fresh_none 0); [done|]. rewrite Hlast. cbn. destruct Hch as [[Hl _]|[Hlt _]]; [|lia].
      rewrite Hl in Hlast. cbn in Hlast. injection Hlast. lia. }
    rewrite Hf in Hr2 |- *. by injection Hr2 as <-.
  - right. rewrite fmap_last. destruct Hch as [[Hl ->]|[Hlt ->]].
    + left. rewrite (fresh_last g0 _ cur Hl) in Hshow |- * by lia. split_and!; [lia|done|by apply Hshow].
    + right. split; [lia|]. split.
      * destruct (last (fresh g0 (sent v))) as [s|] eqn:Hl'; cbn; [|lia].
        assert (s ∈ fresh g0 (sent v)) as [_ Hin]%list_elem_of_filter by (apply last_Some in Hl' as [l ->]; set_solver).
        assert (Forall (fun x => x ≤ lastGeneration v) (Generation <$> sent v)) as Hall
          by (apply (increasing_bound 0); [done|]; rewrite fmap_last, Hlast; done).
        rewrite Forall_fmap, Forall_forall in Hall. specialize (Hall s Hin). cbn in Hall. lia.
      * cbn [agentStep]. unfold deliver. rewrite Hv, Hc. cbn. rewrite decide_False by lia.
        eexists. split; [done|]. cbn. by rewrite lookup_insert_eq.
Qed.

Lemma switch_follows_agent_witness :
  let '(g, e, w') := Followed.outcome in
  (g = 0 ∧ w_cluster w' = w_cluster Followed.before ∨
   ∃ s, s ∈ sent Followed.stream ∧ 0 < Generation s ∧ Generation s = g ∧ shows ["Management*"] "leaf-1" (views (w_cluster Followed.before)) s (w_cluster w')) ∧
  (w_faults Followed.before = [] → Forall (allNamed ["Management*"]) (sent Followed.stream) →
   e = ErrCanceled ∧ ∃ cur, currentSnapshot (agent Followed.final) = Some cur ∧
     (Generation cur ≤ 0 ∧ g = 0 ∧ w' = Followed.before ∨
      0 < Generation cur ∧ g = Generation cur ∧
        shows ["Management*"] "leaf-1" [kubernetesNodeNames (c_nodes (w_cluster Followed.before))] cur (w_cluster w') ∨
      0 < Generation cur ∧ g < Generation cur ∧ ∃ a', agentStep sample_agent (Deliver 0 true) Followed.final = Some a' ∧
        watchers a' !! 0%nat = Some (MkWatcher (Generation cur) (sent Followed.stream ++ [cur])))).
Proof.
  destruct Followed.outcome as [[g e] w'] eqn:Ho.
  apply (switch_follows_agent Stream.setCondition (attempts 4) 0 ["Management*"] "leaf-1" sample_agent Followed.acts Followed.final 0
    Followed.stream ErrCanceled 0 Followed.before).
  - apply attempts_law.
  - vm_compute. reflexivity.
  - done.
  - vm_compute. reflexivity.
  - exact (NoDup_singleton "leaf-1").
  - exact Ho.
Defined.
