(* ===== verification/Programs.v ===== *)
(** * The programs

    How the parts are put together at start-up: src/cmd, src/pkg/agent/agent.go,
    src/pkg/controller/controller.go and the constructors they call.  A manager of
    controller-runtime is the list of what has been added to it; the answers of the
    libraries are a function from calls to errors.  Then the loop of the sFlow program that
    refreshes the Pods, and the packets its mock sender makes.

    The claims about the composition of the parts are in EndToEnd.v. *)
From stdpp Require Import base gmap sets list strings.
From Stdlib Require Import ZArith.
From S2P Require Import Prelude GoStrings GoNumbers GoText GoNet Lldp Config LabelTemplate ApiServer TopologyApi AutoLabel AutoLabelReconcile Subscription SwitchAgent FabricNode FabricNodePods EbpfResolve EbpfComponent SFlow SFlowAttribution SFlowCollector LabelTemplateFacts AutoLabelProperties FabricNodeProperties SFlowProperties.
Local Open Scope Z_scope.

(** ** Loggers (src/pkg/logger/logger.go)

    The levels of [log/slog]. *)
Definition slogLevel : Type := Z.

Definition ParseLevel (level : string) : option slogLevel :=
  normalized ← NormalizeLevel level;
  Some (if decide (normalized = LevelDebug) then -4
        else if decide (normalized = LevelWarn) then 4
        else if decide (normalized = LevelError) then 8
        else 0).

(** A logger is its level; [None] is an error. *)
Definition newLogger (level : string) : option slogLevel := ParseLevel level.

(** ** Managers *)
Inductive runnable :=
| RunSubscriptions (intervals : managerIntervals)
| RunController (name : string)
| RunTopologyAPI (address : string)
| RunPodCache
| RunFlow (opts : options)
| RunPodCacheUpdater
| RunCollector (c : Collector).

(** The calls on libraries that can fail. *)
Inductive libCall :=
| AddToScheme (package : string)
| NewManager
| AddHealthzCheck
| AddReadyzCheck
| Complete (name : string)
| IndexField
| NewCache
| GetInformer
| Add (r : runnable).

(** [ctrl.Options] and [manager.Options]: the fields the programs set. *)
Record managerOptions := MkManagerOptions {
  mo_leaderElection : bool;
  mo_leaderElectionID : string;
  mo_leaderElectionNamespace : string;
  mo_pprof : string;
  mo_health : string;
  mo_metrics : string;
  (** The cache holds the Pods of this node only. *)
  mo_podsOnNode : option string
}.

Record manager := MkManagerState {
  mgr_options : managerOptions;
  mgr_runnables : list runnable
}.

(** [NeedLeaderElection]; a runnable without the method, such as a controller, needs it. *)
Definition needsLeader (r : runnable) : bool :=
  match r with
  | RunSubscriptions _ | RunController _ | RunCollector _ => true
  | RunTopologyAPI _ | RunPodCache | RunFlow _ | RunPodCacheUpdater => false
  end.

(** What [Start] of a manager runs: all on the leader, or when there is no election. *)
Definition runs (leader : bool) (m : manager) : list runnable :=
  filter (fun r => needsLeader r = false ∨ leader = true ∨ mo_leaderElection (mgr_options m) = false) (mgr_runnables m).

Section programs.
(** [None] is success, [Some] the text of an error. *)
Context (lib : libCall → option string).

Definition calling (c : libCall) : go string unit := match lib c with None => Ret () | Some err => Err err end.

Definition add (r : runnable) (m : manager) : go string manager :=
  _ ← calling (Add r);
  Ret (MkManagerState (mgr_options m) (mgr_runnables m ++ [r])).

(** [builder.ControllerManagedBy(mgr)...Complete(r)] *)
Definition complete (name : string) (m : manager) : go string manager :=
  _ ← calling (Complete name);
  Ret (MkManagerState (mgr_options m) (mgr_runnables m ++ [RunController name])).

Definition newManager (opts : managerOptions) : go string manager := _ ← calling NewManager; Ret (MkManagerState opts []).

Definition addProbes : go string unit := _ ← calling AddHealthzCheck; calling AddReadyzCheck.

(** ** The controller *)
Section controller.
Context (Parse : string → option (option (list Node))) (IsQualifiedName : string → list string).

(** Errors of the configuration as errors of the program. *)
Definition configText {A} (c : checked A) : go string A :=
  match c with
  | Ret a => Ret a
  | Err (BadField field) => Err field
  | Err (LabelErr _) => Err "topologyLabels"
  | Panic => Panic
  | OutOfFuel => OutOfFuel
  end.

(** src/pkg/controller/switchtopology/controller.go *)
Definition switchDiscoveryEnabled (cfg : ControllerConfig) : bool := SW_Enabled (Switches cfg).

Definition autoDiscoveryEnabled (cfg : ControllerConfig) : bool := ManageScaleOut (Switches cfg) || ManageStorage (Switches cfg).

Definition addSwitchSubscriptionManager (cfg : ControllerConfig) (m : manager) : go string manager :=
  if negb (switchDiscoveryEnabled cfg) then Ret m
  else
    match newSubscriptionManager (Switches cfg) with
    | None => Err "scaleOutDiscovery.switches"
    | Some (intervals, _) => add (RunSubscriptions intervals) m
    end.

(** The managed topologies are read when the controller is made. *)
Definition newAutoDiscoveredTopologyLabelController (cfg : ControllerConfig) (m : manager) : go string manager :=
  match configuredManagedTopologies cfg with
  | Ret _ => complete "AutoDiscoveredTopologyLabel" m
  | _ => Panic
  end.

(** A nil configuration or logger is refused; the programs pass neither.  The answer has the configuration
    with its templates, which [EnsureTopologyLabelTemplates] sets in place. *)
Definition NewSwitchTopologyDiscoveryController (cfg : option ControllerConfig) (logger : bool) (m : manager)
    : go string (ControllerConfig * manager) :=
  match cfg with
  | None => Err "switch topology controller config must not be nil"
  | Some cfg =>
    if negb logger then Err "switch topology controller logger must not be nil"
    else
      m ← addSwitchSubscriptionManager cfg m;
      if negb (switchDiscoveryEnabled cfg) then Ret (cfg, m)
      else if negb (autoDiscoveryEnabled cfg) then Ret (cfg, m)
      else
        cfg ← configText (EnsureTopologyLabelTemplates Parse IsQualifiedName (Some cfg));
        m ← newAutoDiscoveredTopologyLabelController cfg m;
        Ret (cfg, m)
  end.

(** src/pkg/controller/topologystatus *)
Definition newFabricNodeTopologyController (m : manager) : go string manager := complete "FabricNodeTopology" m.

Definition NewTopologyStatusController (cfg : option ControllerConfig) (logger : bool) (m : manager)
    : go string (ControllerConfig * manager) :=
  match cfg with
  | None => Err "topology status controller config must not be nil"
  | Some cfg =>
    if negb logger then Err "topology status controller logger must not be nil"
    else
      cfg ← configText (EnsureTopologyLabelTemplates Parse IsQualifiedName (Some cfg));
      m ← complete "TopologyStatus" m;
      m ← newFabricNodeTopologyController m;
      Ret (cfg, m)
  end.

(** src/pkg/controller/topologyapi/server.go: what [NewTopologyAPIServer] answers is added. *)
Definition addTopologyAPIServer (cfg : option ControllerConfig) (logger : bool) (m : manager) : go string manager :=
  match NewTopologyAPIServer cfg logger with
  | inl err => Err err
  | inr None => Ret m
  | inr (Some address) => add (RunTopologyAPI address) m
  end.

(** src/pkg/controller/controller.go: [New] *)
Definition controllerOptions (cfg : ControllerConfig) : managerOptions :=
  MkManagerOptions (LE_Enabled (LeaderElection cfg)) (LE_ID (LeaderElection cfg)) (LE_Namespace (LeaderElection cfg))
    (CT_Pprof cfg) (CT_HealthProbe cfg) (CT_Metrics cfg) None.

Definition controllerNew (cfg : ControllerConfig) : go string manager :=
  _ ← calling (AddToScheme "corev1");
  _ ← calling (AddToScheme "v1beta1");
  m ← newManager (controllerOptions cfg);
  _ ← addProbes;
  '(cfg, m) ← NewSwitchTopologyDiscoveryController (Some cfg) true m;
  '(cfg, m) ← NewTopologyStatusController (Some cfg) true m;
  addTopologyAPIServer (Some cfg) true m.
End controller.

(** ** The agent (src/pkg/agent/agent.go) *)
Section agent.
(** [os.Getenv] and [os.ReadFile], which answers with the text of an error or the contents; whether lldpcli was
    found; and the clock. *)
Context (Getenv : string → string) (ReadFile : string → string + string) (lldpcli : go lldpError unit) (now : Z).

(** The name of the node: from the configuration, the environment, or the host name. *)
Definition resolveNodeName (configured : string) : go string string :=
  name ← (if decide (configured ≠ "") then Ret configured
          else
            let name := Getenv "NODE_NAME" in
            if decide (name ≠ "") then Ret name
            else match ReadFile "/etc/hostname" with
                 | inl err => Err ("failed to read /etc/hostname: " +:+ err)
                 | inr data => Ret (TrimSpace data)
                 end);
  if decide (name = "") then Err "node name is not specified in config file or environment variable NODE_NAME" else Ret name.

Definition with_node_name (name : string) (cfg : AgentConfig) : AgentConfig :=
  MkAgent (AG_LogLevel cfg) (AG_Metrics cfg) (AG_HealthProbe cfg)
    (MkAgentNode name (AN_Role (AG_Node cfg)) (DefaultRouteProbe (AG_Node cfg))) (AG_NodeTopologyDiscovery cfg) (AG_EBPFFlow cfg).

(** The reconciler of the FabricNode, which runs in a goroutine of its own and by the manager. *)
Record agentProcess := MkAgentProcess {
  ap_manager : manager;
  ap_reconciler : reconciler;
  ap_refreshInterval : Z;
  ap_start : Z
}.

(** [NewFabricNodeController] with its registration. *)
Definition registerFabricNode (cfg : AgentConfig) (m : manager) : go string agentProcess :=
  match NewFabricNodeController lldpcli now cfg with
  | Ret (r, interval, start) =>
    m ← complete "fabricnode" m;
    _ ← calling IndexField;
    Ret (MkAgentProcess m r interval start)
  | Err _ => Err "fabricnode"
  | Panic => Panic
  | OutOfFuel => OutOfFuel
  end.

Definition addEBPFFlow (cfg : AgentConfig) (m : manager) : go string manager :=
  _ ← calling NewCache;
  _ ← calling GetInformer;
  m ← add RunPodCache m;
  opts ← EbpfComponent.New (AG_EBPFFlow cfg) (AN_Name (AG_Node cfg));
  add (RunFlow opts) m.

Definition agentOptions (cfg : AgentConfig) : managerOptions :=
  MkManagerOptions false "" "" "" (AG_HealthProbe cfg) (AG_Metrics cfg) (Some (AN_Name (AG_Node cfg))).

Definition agentNew (cfg : AgentConfig) : go string agentProcess :=
  name ← resolveNodeName (AN_Name (AG_Node cfg));
  let cfg := with_node_name name cfg in
  _ ← calling (AddToScheme "corev1");
  _ ← calling (AddToScheme "v1beta1");
  m ← newManager (agentOptions cfg);
  _ ← addProbes;
  p ← registerFabricNode cfg m;
  if EB_Enabled (AG_EBPFFlow cfg) then
    m ← addEBPFFlow cfg (ap_manager p);
    Ret (MkAgentProcess m (ap_reconciler p) (ap_refreshInterval p) (ap_start p))
  else Ret p.
End agent.

(** ** The sFlow collector (src/cmd/sflow/main.go)

    [exporterErr] and [probeErr] are the answers of the OTLP exporter. *)
Definition sflowOptions (cfg : SFlowConfig) : managerOptions := MkManagerOptions false "" "" "" (SF_HealthProbe cfg) (SF_Metrics cfg) None.

Definition sflowRun (exporterErr probeErr : option string) (lookup : PodLookup) (cfg : SFlowConfig) : go string (manager * OtelWriter) :=
  _ ← calling (AddToScheme "corev1");
  m ← newManager (sflowOptions cfg);
  _ ← addProbes;
  m ← add RunPodCacheUpdater m;
  match NewOtelWriter exporterErr probeErr (SF_Otel cfg) (SF_Writer cfg) with
  | inl err => Err err
  | inr writer =>
    match NewCollector cfg lookup with
    | None => Err "sflow.writer.flushInterval"
    | Some collector => m ← add (RunCollector collector) m; Ret (m, writer)
    end
  end.
End programs.

(** ** The main functions (src/cmd)

    All four read a configuration, make a logger with its level, make the program and start it; the
    answer is the exit code.  [MustNew] panics when the level is not known. *)
Definition runMain {E Cfg Service} (read : go E Cfg) (level : Cfg → string) (new : Cfg → go string Service)
    (start : Service → option string) : go unit Z :=
  match newLogger LevelInfo with
  | None => Panic
  | Some _ =>
    match read with
    | Ret cfg =>
      match newLogger (level cfg) with
      | None => Ret 1
      | Some _ =>
        match new cfg with
        | Ret service => match start service with None => Ret 0 | Some _ => Ret 1 end
        | Err _ => Ret 1
        | Panic => Panic
        | OutOfFuel => OutOfFuel
        end
      end
    | Err _ => Ret 1
    | Panic => Panic
    | OutOfFuel => OutOfFuel
    end
  end.

(** [read] is the reader of the program's configuration file. *)
Definition controllerMain {Kube} (lib : libCall → option string) Parse IsQualifiedName (read : go readError (ControllerConfig * Kube))
    (start : manager → option string) : go unit Z :=
  runMain read (CT_LogLevel ∘ fst) (controllerNew lib Parse IsQualifiedName ∘ fst) start.

Definition agentMain {Kube} (lib : libCall → option string) Getenv ReadFile lldpcli now (read : go readError (AgentConfig * Kube))
    (start : agentProcess → option string) : go unit Z :=
  runMain read (AG_LogLevel ∘ fst) (agentNew lib Getenv ReadFile lldpcli now ∘ fst) start.

(** [new] is [switchagent.New], [NewAgent] of SwitchAgent.v; the configuration is the environment's. *)
Definition switchAgentMain {Service} (LookupEnv : string → option string) (Hostname : option string)
    (new : SwitchAgentConfig → string + Service) (start : Service → option string) : go unit Z :=
  runMain (ReadSwitchAgentConfigFromEnv LookupEnv Hostname) SA_LogLevel
    (fun cfg => match new cfg with inl err => Err err | inr service => Ret service end) start.

(** The sFlow program has a subcommand. *)
Definition sflowMain {Service} (args : list string) (runMockSender : list string → option string) {Kube} (read : go readError (SFlowConfig * Kube))
    (run : SFlowConfig → go string Service) (start : Service → option string) : go unit Z :=
  match args with
  | "mock" :: args => match runMockSender args with None => Ret 0 | Some _ => Ret 1 end
  | _ => runMain read (SF_LogLevel ∘ fst) (run ∘ fst) start
  end.

(** ** The Pods of the flow resolver

    A Pod with the fields that matter to some part of the system; [stripPodForFlow] keeps those the
    resolver of the flows reads, and leaves other objects alone. *)
Record fullPod := MkFullPod {
  fp_TypeMeta : string * string;
  fp_Name : string;
  fp_Namespace : string;
  fp_UID : string;
  fp_ResourceVersion : string;
  fp_Labels : gmap string string;
  fp_Annotations : gmap string string;
  fp_OwnerReferences : list EbpfResolve.OwnerReference;
  fp_HostNetwork : bool;
  fp_NodeName : string;
  fp_Containers : list string;
  fp_Phase : string;
  fp_PodIP : string;
  fp_PodIPs : list string
}.

Inductive cached := CachedPod (pod : fullPod) | CachedOther (kind : string).

Definition stripPodForFlow (obj : cached) : cached :=
  match obj with
  | CachedOther _ => obj
  | CachedPod pod =>
    CachedPod (MkFullPod (fp_TypeMeta pod) (fp_Name pod) (fp_Namespace pod) (fp_UID pod) (fp_ResourceVersion pod) ∅
      (fp_Annotations pod) (fp_OwnerReferences pod) (fp_HostNetwork pod) (fp_NodeName pod) [] "" (fp_PodIP pod) (fp_PodIPs pod))
  end.

(** What the resolver reads of a Pod of its cache. *)
Definition flowPods (objs : list cached) : list EbpfResolve.Pod :=
  omap (fun obj => match obj with
    | CachedPod p => Some (EbpfResolve.MkPod (fp_UID p) (fp_Namespace p) (fp_Name p) (fp_OwnerReferences p) (fp_HostNetwork p)
                             (fp_PodIP p) (fp_PodIPs p) (fp_Annotations p))
    | CachedOther _ => None
    end) objs.

(** ** The Pods of the sFlow collector

    [podCacheUpdater]: a listing that fails, or a context that ends during the refresh, leaves the table as it was. *)
Definition cacheRefresh (ownerResolver : OwnerResolver) (c : PodIPCache) (tick : context * option (list SFlowAttribution.Pod))
    : bool * PodIPCache :=
  match tick.2 with
  | None => (false, c)
  | Some pods => ReplacePods c tick.1 pods ownerResolver
  end.

(** [Start]: once, and with each tick until the context ends; errors are logged. *)
Definition cacheUpdaterStart (ownerResolver : OwnerResolver) (c : PodIPCache)
    (first : context * option (list SFlowAttribution.Pod)) (ticks : list (context * option (list SFlowAttribution.Pod))) : PodIPCache :=
  foldl (fun c tick => (cacheRefresh ownerResolver c tick).2) (cacheRefresh ownerResolver c first).2 ticks.

(** ** The mock sender (src/cmd/sflow/mock.go)

    Integers are written with their highest byte first. *)
Record mockFlow := MkMockFlow {
  mf_src : list Z;
  mf_dst : list Z;
  mf_srcPort : Z;
  mf_dstPort : Z;
  mf_proto : Z;
  mf_frameLen : Z
}.

Definition writeBE16 (v : Z) : list Z := [v / 256 mod 256; v mod 256].
Definition writeBE32 (v : Z) : list Z := [v / 2 ^ 24 mod 256; v / 2 ^ 16 mod 256; v / 256 mod 256; v mod 256].

(** An Ethernet, IPv4 and transport header; [id] is the random identification. *)
Definition mockSampledHeader (id : Z) (f : mockFlow) : list Z :=
  [2; 0; 0; 0; 0; 1] ++ [2; 0; 0; 0; 0; 2] ++ writeBE16 0x0800 ++
  ([0x45; 0] ++ writeBE16 ((mf_frameLen f - 14) mod 2 ^ 16) ++ writeBE16 id ++ writeBE16 0x4000 ++
   [64; mf_proto f] ++ writeBE16 0 ++ mf_src f ++ mf_dst f) ++
  writeBE16 (mf_srcPort f) ++ writeBE16 (mf_dstPort f) ++ replicate 16 0.

(** Zeros up to a multiple of four. *)
Definition padRecord (l : list Z) : list Z := l ++ replicate (Nat.modulo (4 - Nat.modulo (length l) 4) 4) 0.

Definition mockSample (seq samplingRate : Z) (i : nat) (hdr : list Z) (frameLen : Z) : list Z :=
  let rec := padRecord (writeBE32 1 ++ writeBE32 frameLen ++ writeBE32 0 ++ writeBE32 (Z.of_nat (length hdr)) ++ hdr) in
  let sample := writeBE32 ((seq * 100 + Z.of_nat i) mod 2 ^ 32) ++ writeBE32 1 ++ writeBE32 samplingRate ++
    writeBE32 (((seq + 1) * samplingRate) mod 2 ^ 32) ++ writeBE32 0 ++ writeBE32 7 ++ writeBE32 9 ++ writeBE32 1 ++ writeBE32 1 ++
    writeBE32 (Z.of_nat (length rec)) ++ rec in
  writeBE32 1 ++ writeBE32 (Z.of_nat (length sample)) ++ sample.

(** [ids] are the random identifications, one per flow. *)
Definition buildMockDatagram (ids : nat → Z) (agent : list Z) (seq uptime samplingRate : Z) (flows : list mockFlow) : list Z :=
  writeBE32 5 ++ writeBE32 1 ++ agent ++ writeBE32 0 ++ writeBE32 seq ++ writeBE32 uptime ++ writeBE32 (Z.of_nat (length flows)) ++
  mjoin (imap (fun i f => mockSample seq samplingRate i (mockSampledHeader (ids i) f) (mf_frameLen f)) flows).

(** The addresses of the flag [pods]; two are needed to make flows. *)
Fixpoint mockPods (texts : list string) : string + list IP :=
  match texts with
  | [] => inr []
  | text :: texts =>
    let s := TrimSpace text in
    if decide (s = "") then mockPods texts
    else
      match ParseIP s ≫= To4 with
      | None => inl ("bad pod ip " +:+ s)
      | Some ip => match mockPods texts with inl err => inl err | inr pods => inr (ip :: pods) end
      end
  end.

(** The part of [runMockSender] before its loop, after the flags: the Pods and the agent. *)
Definition mockSetup (podList agent : string) : string + (list IP * IP) :=
  match mockPods (of_bytes <$> split_on 44 (bytes podList)) with
  | inl err => inl err
  | inr pods =>
    if decide ((length pods < 2)%nat) then inl "-pods requires at least two pod IPs"
    else
      match ParseIP agent ≫= To4 with
      | None => inl ("bad agent ip " +:+ agent)
      | Some agentIP => inr (pods, agentIP)
      end
  end.

(** The random numbers of one flow: two Pods, a port and a length. *)
Record mockDraw := MkMockDraw {
  draw_a : nat;
  draw_b : nat;
  draw_port : Z;
  draw_len : Z
}.

(** [rand.Intn]: below its argument. *)
Definition draw_ok (pods : list IP) (d : mockDraw) : Prop :=
  (draw_a d < length pods)%nat ∧ (draw_b d < length pods)%nat ∧ 0 ≤ draw_port d < 20000 ∧ 0 ≤ draw_len d < 1300.

Definition mockDrawn (pods : list IP) (d : mockDraw) : option mockFlow :=
  a ← pods !! draw_a d;
  b ← pods !! draw_b d;
  if decide (a = b) then None else Some (MkMockFlow a b ((30000 + draw_port d) mod 2 ^ 16) 5201 6 (200 + draw_len d)).

(** The flows of one datagram: those of three draws, and when there is none the one of the first two Pods. *)
Definition mockFlows (pods : list IP) (draws : list mockDraw) (port : Z) : list mockFlow :=
  let flows := omap (mockDrawn pods) (take 3 draws) in
  if decide (flows = []) then
    match pods with
    | a :: b :: _ => [MkMockFlow a b ((30000 + port) mod 2 ^ 16) 5201 6 512]
    | _ => []
    end
  else flows.

(** ** What an accepted configuration starts *)
Lemma NormalizeLevel_parses level level' : NormalizeLevel level = Some level' → is_Some (newLogger level').
Proof.
  unfold NormalizeLevel. intros Hl. repeat case_decide; simplify_eq; vm_compute; by eexists.
Qed.

Lemma durationOr_parses field value fallback d :
  is_Some (ParseDuration fallback) → durationOr field value fallback = Ret d → is_Some (ParseDuration d).
Proof.
  intros Hf. unfold durationOr, validateDuration. case_decide; [by intros [= <-]|].
  destruct (ParseDuration value) eqn:Hv; cbn; [|done]. intros [= <-]. by rewrite Hv.
Qed.

(** What the normalisation of the controller's configuration gives. *)
Lemma normalised_controller Parse IsQualifiedName cfg cfg' :
  normalizeControllerConfig Parse IsQualifiedName cfg = Ret cfg' →
  is_Some (newLogger (CT_LogLevel cfg')) ∧ (∃ templates, TopologyLabelTemplates cfg' = Some templates) ∧
  (∃ intervals m, newSubscriptionManager (Switches cfg') = Some (intervals, m)) ∧
  (autoDiscoveryEnabled cfg' = true → switchDiscoveryEnabled cfg' = true).
Proof.
  intros Hn. pose proof (configured_templates _ _ _ _ Hn) as (t1 & t2 & t3 & Ht & _). split_and!; [|by eexists|..].
  all: unfold normalizeControllerConfig, normalizeLevelField in Hn.
  all: destruct (NormalizeLevel _) as [level|] eqn:Hl; [|done]; cbn [mbind go_bind] in Hn.
  all: unfold normalizeTopologyLabels in Hn; destruct (CompileSet _ _ _ _ _) as [set| | |]; [|done..]; cbn [mbind go_bind] in Hn.
  all: destruct (normalizeControllerNodeTopologyConfig _) as [[]| | |]; [|done..]; cbn [mbind go_bind Switches] in Hn.
  all: destruct (normalizeScaleOutDiscoveryConfig _) as [switches| | |] eqn:Hs; [|done..]; injection Hn as <-.
  all: unfold normalizeScaleOutDiscoveryConfig, normalizeSwitchDiscoveryDuration in Hs.
  all: destruct (durationOr _ (DialTimeout _) _) as [d1| | |] eqn:H1; [|done..]; cbn [mbind go_bind] in Hs.
  all: destruct (durationOr _ (ReconnectBackoff _) _) as [d2| | |] eqn:H2; [|done..]; cbn [mbind go_bind] in Hs.
  all: destruct (durationOr _ (KeepaliveTime _) _) as [d3| | |] eqn:H3; [|done..]; cbn [mbind go_bind] in Hs.
  all: do 2 (case_decide; [done|]); injection Hs as <-; cbn.
  - by eapply NormalizeLevel_parses.
  - apply durationOr_parses in H1 as [z1 H1]; [|by eexists]. apply durationOr_parses in H2 as [z2 H2]; [|by eexists].
    apply durationOr_parses in H3 as [z3 H3]; [|by eexists]. unfold newSubscriptionManager. cbn. rewrite H1, H2, H3. cbn. eauto.
  - unfold autoDiscoveryEnabled, switchDiscoveryEnabled. cbn. by intros ->.
Qed.

(** The parts of the controller, in the order in which they are added. *)
Definition controllerParts (cfg : ControllerConfig) (intervals : managerIntervals) : list runnable :=
  (if switchDiscoveryEnabled cfg then [RunSubscriptions intervals] else []) ++
  (if autoDiscoveryEnabled cfg then [RunController "AutoDiscoveredTopologyLabel"] else []) ++
  [RunController "TopologyStatus"; RunController "FabricNodeTopology"] ++
  (if TopologyAPI_Enabled cfg then [RunTopologyAPI (TopologyAPI_BindAddress cfg)] else []).

(** The answer is [a], or the error of a library call. *)
Definition yields {A} (lib : libCall → option string) (c : go string A) (a : A) : Prop :=
  c = Ret a ∨ ∃ call err, lib call = Some err ∧ c = Err err.

Section yields.
Context (lib : libCall → option string).

Lemma yields_ret {A} (a : A) : yields lib (Ret a) a.
Proof. by left. Qed.

Lemma yields_bind {A B} (c : go string A) (f : A → go string B) a b : yields lib c a → yields lib (f a) b → yields lib (c ≫= f) b.
Proof. intros [->|(call & err & Hl & ->)] Hf; [done|]. right. by exists call, err. Qed.

Lemma yields_calling c : yields lib (calling lib c) ().
Proof. unfold calling. destruct (lib c) as [err|] eqn:Hc; [right; by exists c, err|by left]. Qed.

Lemma yields_add r m : yields lib (add lib r m) (MkManagerState (mgr_options m) (mgr_runnables m ++ [r])).
Proof. eapply yields_bind; [apply yields_calling|apply yields_ret]. Qed.

Lemma yields_complete name m : yields lib (complete lib name m) (MkManagerState (mgr_options m) (mgr_runnables m ++ [RunController name])).
Proof. eapply yields_bind; [apply yields_calling|apply yields_ret]. Qed.

Lemma yields_newManager opts : yields lib (newManager lib opts) (MkManagerState opts []).
Proof. eapply yields_bind; [apply yields_calling|apply yields_ret]. Qed.

Lemma yields_addProbes : yields lib (addProbes lib) ().
Proof. eapply yields_bind; apply yields_calling. Qed.
End yields.
Create HintDb programs.
#[export] Hint Resolve yields_ret yields_calling yields_add yields_complete yields_newManager yields_addProbes : programs.

Section controller_parts.
Context (lib : libCall → option string) (Parse : string → option (option (list Node))) (IsQualifiedName : string → list string).
Context (cfg : ControllerConfig) (templates : LabelSet) (Ht : TopologyLabelTemplates cfg = Some templates).

Lemma switch_topology_parts intervals sm m :
  newSubscriptionManager (Switches cfg) = Some (intervals, sm) → (autoDiscoveryEnabled cfg = true → switchDiscoveryEnabled cfg = true) →
  yields lib (NewSwitchTopologyDiscoveryController lib Parse IsQualifiedName (Some cfg) true m)
    (cfg, MkManagerState (mgr_options m) (mgr_runnables m ++ (if switchDiscoveryEnabled cfg then [RunSubscriptions intervals] else []) ++
       (if autoDiscoveryEnabled cfg then [RunController "AutoDiscoveredTopologyLabel"] else []))).
Proof using Ht.
  intros Hsm Hauto. unfold NewSwitchTopologyDiscoveryController, addSwitchSubscriptionManager. cbn [negb]. rewrite Hsm.
  destruct (switchDiscoveryEnabled cfg); cbn [negb].
  - eapply yields_bind; [apply yields_add|]. destruct (autoDiscoveryEnabled cfg); cbn [negb]; [|rewrite app_nil_r; apply yields_ret].
    unfold EnsureTopologyLabelTemplates, configText. rewrite Ht. cbn [mbind go_bind].
    unfold newAutoDiscoveredTopologyLabelController, configuredManagedTopologies. rewrite Ht.
    eapply yields_bind; [apply yields_complete|]. cbn. rewrite <-app_assoc. apply yields_ret.
  - destruct (autoDiscoveryEnabled cfg); [by specialize (Hauto eq_refl)|]. cbn. rewrite app_nil_r. destruct m. apply yields_ret.
Qed.

Lemma topology_status_parts m :
  yields lib (NewTopologyStatusController lib Parse IsQualifiedName (Some cfg) true m)
    (cfg, MkManagerState (mgr_options m) (mgr_runnables m ++ [RunController "TopologyStatus"; RunController "FabricNodeTopology"])).
Proof using Ht.
  unfold NewTopologyStatusController, EnsureTopologyLabelTemplates, configText. cbn [negb]. rewrite Ht. cbn [mbind go_bind].
  eapply yields_bind; [apply yields_complete|]. eapply yields_bind; [apply yields_complete|]. cbn. rewrite <-app_assoc. apply yields_ret.
Qed.

Lemma topology_api_parts m :
  yields lib (addTopologyAPIServer lib (Some cfg) true m)
    (MkManagerState (mgr_options m) (mgr_runnables m ++ if TopologyAPI_Enabled cfg then [RunTopologyAPI (TopologyAPI_BindAddress cfg)] else [])).
Proof.
  unfold addTopologyAPIServer, NewTopologyAPIServer. cbn [negb]. destruct (TopologyAPI_Enabled cfg); [apply yields_add|].
  rewrite app_nil_r. destruct m. apply yields_ret.
Qed.
End controller_parts.

(** With an accepted configuration the controller consists of exactly the parts that are switched on, or a library
    call failed, whose error is returned; a replica that is not the leader runs at most the API, which only reads. *)
Theorem controller_starts lib Parse IsQualifiedName cfg cfg' :
  normalizeControllerConfig Parse IsQualifiedName cfg = Ret cfg' →
  ∃ intervals m, newSubscriptionManager (Switches cfg') = Some (intervals, m) ∧
    yields lib (controllerNew lib Parse IsQualifiedName cfg') (MkManagerState (controllerOptions cfg') (controllerParts cfg' intervals)) ∧
    (LE_Enabled (LeaderElection cfg') = true →
     runs false (MkManagerState (controllerOptions cfg') (controllerParts cfg' intervals)) =
       if TopologyAPI_Enabled cfg' then [RunTopologyAPI (TopologyAPI_BindAddress cfg')] else []).
Proof.
  intros (_ & (templates & Ht) & (intervals & sm & Hsm) & Hauto)%normalised_controller. exists intervals, sm. split_and!; [done|..].
  - unfold controllerNew. do 4 (eapply yields_bind; [solve [eauto with programs]|]).
    eapply yields_bind; [by eapply switch_topology_parts|]. cbn beta iota.
    eapply yields_bind; [by eapply topology_status_parts|]. cbn beta iota. unfold controllerParts.
    rewrite !app_assoc. apply topology_api_parts.
  - intros He. unfold runs, controllerParts. cbn. rewrite He.
    destruct (switchDiscoveryEnabled cfg'), (autoDiscoveryEnabled cfg'), (TopologyAPI_Enabled cfg'); reflexivity.
Qed.

(** The name of a node is never empty: it is the configured one, else the one of the environment, else the host name. *)
Lemma resolveNodeName_spec Getenv ReadFile configured name :
  resolveNodeName Getenv ReadFile configured = Ret name →
  name ≠ "" ∧ (configured ≠ "" → name = configured) ∧
  (configured = "" → Getenv "NODE_NAME" ≠ "" → name = Getenv "NODE_NAME") ∧
  (configured = "" → Getenv "NODE_NAME" = "" → ∃ data, ReadFile "/etc/hostname" = inr data ∧ name = TrimSpace data).
Proof.
  unfold resolveNodeName. cbn zeta. destruct (decide (configured ≠ "")) as [Hc|Hc]; cbn [mbind go_bind].
  - case_decide; [done|]. intros [= <-]. by split_and!.
  - apply dec_stable in Hc as ->. destruct (decide (Getenv "NODE_NAME" ≠ "")) as [He|He]; cbn [mbind go_bind].
    + case_decide; [done|]. intros [= <-]. by split_and!.
    + apply dec_stable in He. destruct (ReadFile "/etc/hostname") as [err|data]; cbn [mbind go_bind]; [done|].
      case_decide; [done|]. intros [= <-]. split_and!; [done..|]. eauto.
Qed.

(** The parts of the agent. *)
Definition agentParts (flow : option options) : list runnable :=
  RunController "fabricnode" :: match flow with Some opts => [RunPodCache; RunFlow opts] | None => [] end.

(** With an accepted configuration, lldpcli and a node name, the agent reconciles the FabricNode of that name, with the
    Pods of that node in its cache, and runs the flow component exactly when it is switched on and its settings
    are accepted; otherwise a library call failed. *)
Theorem agent_starts lib Getenv ReadFile now order cfg cfg' name flow :
  normalizeAgentConfig order cfg = Ret cfg' → resolveNodeName Getenv ReadFile (AN_Name (AG_Node cfg')) = Ret name →
  match flow with
  | Some opts => EB_Enabled (AG_EBPFFlow cfg') = true ∧ EbpfComponent.New (AG_EBPFFlow cfg') name = Ret opts
  | None => EB_Enabled (AG_EBPFFlow cfg') = false
  end →
  ∃ r interval start, nodeName r = name ∧
    yields lib (agentNew lib Getenv ReadFile (Ret ()) now cfg')
      (MkAgentProcess (MkManagerState (agentOptions (with_node_name name cfg')) (agentParts flow)) r interval start).
Proof.
  intros Hn Hname Hflow.
  assert (∃ topology, normalizeNodeTopologyDiscoveryConfig (AG_NodeTopologyDiscovery cfg) = Ret topology ∧
    AG_NodeTopologyDiscovery cfg' = topology) as (topology & Ht & Hcfg).
  { unfold normalizeAgentConfig in Hn. destruct (normalizeLevelField _ _) as [level| | |]; [|done..]. cbn [mbind go_bind] in Hn.
    case_decide; [done|]. destruct (normalizeNodeTopologyDiscoveryConfig _) as [topology| | |]; [|done..]. exists topology.
    split; [done|]. cbn [mbind go_bind] in Hn. destruct (normalizeEBPFFlowConfig _ _); [|done..]. cbn [mbind go_bind] in Hn.
    case_decide; [by injection Hn as <-|]. destruct (validateBindAddress _ _); [|done..]. by injection Hn as <-. }
  destruct (accepted_config_reconciles (MkAgent (AG_LogLevel cfg') (AG_Metrics cfg') (AG_HealthProbe cfg')
    (AG_Node (with_node_name name cfg')) (AG_NodeTopologyDiscovery cfg) (AG_EBPFFlow cfg')) topology now Ht) as (r & interval & start & Hr & Hrn).
  cbn [AG_LogLevel AG_Metrics AG_HealthProbe AG_Node AG_EBPFFlow with_node_name AN_Name AN_Role DefaultRouteProbe] in Hr, Hrn.
  exists r, interval, start. split; [done|]. unfold agentNew. rewrite Hname. cbn [mbind go_bind].
  do 4 (eapply yields_bind; [solve [eauto with programs]|]).
  assert (∀ m, yields lib (registerFabricNode lib (Ret ()) now (with_node_name name cfg') m)
    (MkAgentProcess (MkManagerState (mgr_options m) (mgr_runnables m ++ [RunController "fabricnode"])) r interval start)) as Hadd.
  { intros m. unfold registerFabricNode. unfold with_node_name. rewrite Hcfg, Hr. do 2 (eapply yields_bind; [solve [eauto with programs]|]). apply yields_ret. }
  eapply yields_bind; [apply Hadd|]. cbn [AG_EBPFFlow with_node_name]. destruct flow as [opts|]; [|rewrite Hflow; apply yields_ret].
  destruct Hflow as [-> Hopts]. eapply yields_bind; [|apply yields_ret]. unfold addEBPFFlow.
  do 3 (eapply yields_bind; [solve [eauto with programs]|]). cbn [AG_EBPFFlow AG_Node AN_Name with_node_name]. rewrite Hopts.
  cbn [mbind go_bind]. apply yields_add.
Qed.

(** With an accepted configuration and a collector that answers, the sFlow program refreshes Pods and collects, in
    batches and with an interval and a queue that are not empty. *)
Lemma normalised_sflow cfg cfg' :
  NormalizeSFlowConfig cfg = Ret cfg' →
  is_Some (newLogger (SF_LogLevel cfg')) ∧ is_Some (ParseDuration (Otel_Timeout (SF_Otel cfg'))) ∧
  ∃ flush, ParseDuration (Writer_FlushInterval (SF_Writer cfg')) = Some flush ∧ 0 < flush ∧
    0 < Writer_BatchSize (SF_Writer cfg') ∧ 0 < Writer_QueueSize (SF_Writer cfg').
Proof.
  unfold NormalizeSFlowConfig, normalizeLevelField. destruct (NormalizeLevel _) as [level|] eqn:Hl; [|done]. cbn [mbind go_bind].
  cbn zeta. destruct (validateBindAddress "sflow.listen.bindAddress" _); [|done..].
  destruct (validateBindAddress "sflow.metrics.bindAddress" _); [|done..].
  destruct (validateBindAddress "sflow.healthProbe.bindAddress" _); [|done..]. cbn [mbind go_bind]. case_decide; [done|].
  destruct (validateBindAddress "sflow.otel.endpoint" _); [|done..]. unfold validateDuration, positive. cbn [mbind go_bind].
  destruct (ParseDuration (setDefault (Otel_Timeout _) _)) as [timeout|] eqn:Ht; [|done]. cbn [mbind go_bind].
  destruct (decide (timeout ≤ 0)); [done|]. cbn [mbind go_bind].
  destruct (decide ((if decide (Writer_BatchSize (SF_Writer cfg) = 0) then 2000 else Writer_BatchSize (SF_Writer cfg)) < 0)) as [|Hb]; [done|].
  destruct (ParseDuration (setDefault (Writer_FlushInterval _) _)) as [flush|] eqn:Hf; [|done]. cbn [mbind go_bind].
  destruct (decide (flush ≤ 0)); [done|]. cbn [mbind go_bind].
  destruct (decide ((if decide (Writer_QueueSize (SF_Writer cfg) = 0) then 65536 else Writer_QueueSize (SF_Writer cfg)) < 0)) as [|Hq]; [done|].
  intros [= <-]. cbn [SF_LogLevel SF_Otel Otel_Timeout SF_Writer Writer_FlushInterval Writer_BatchSize Writer_QueueSize].
  split_and!; [by eapply NormalizeLevel_parses|by eexists|]. exists flush. split; [done|]. repeat case_decide; lia.
Qed.

Theorem sflow_starts lib lookup cfg cfg' :
  NormalizeSFlowConfig cfg = Ret cfg' →
  ∃ collector writer, NewCollector cfg' lookup = Some collector ∧
    0 < BatchSize collector ∧ 0 < FlushInterval collector ∧ 0 < QueueSize collector ∧
    yields lib (sflowRun lib None None lookup cfg')
      (MkManagerState (sflowOptions cfg') [RunPodCacheUpdater; RunCollector collector], writer).
Proof.
  intros (_ & [timeout Ht] & flush & Hf & Hpos & Hb & Hq)%normalised_sflow.
  unfold sflowRun, NewOtelWriter, NewCollector. rewrite Ht, Hf. eexists _, _. split_and!; [done..|].
  do 5 (eapply yields_bind; [solve [eauto with programs]|]). apply yields_ret.
Qed.

(** A program with an accepted configuration ends with code 0 exactly when it was made and its service ended without an error;
    the level of its logger is never the reason to fail. *)
Lemma runMain_exit {E Cfg Service} (cfg : Cfg) level (new : Cfg → go string Service) start :
  is_Some (newLogger (level cfg)) →
  runMain (E := E) (Ret cfg) level new start =
    match new cfg with
    | Ret service => Ret (if decide (start service = None) then 0 else 1)
    | Err _ => Ret 1
    | Panic => Panic
    | OutOfFuel => OutOfFuel
    end.
Proof.
  intros [l Hl]. unfold runMain. change (newLogger LevelInfo) with (Some 0). cbn beta iota. rewrite Hl.
  destruct (new cfg) as [service| | |]; [|done..]. by destruct (start service).
Qed.

(** Once its configuration is read the controller exits with 0 when its manager ends without an error, and with 1 when
    the manager or a call of its library fails. *)
Theorem controller_exits {Data Kube} ReadFile GetConfig Unmarshal lib Parse IsQualifiedName filename cfg' start :
  let read := @ReadControllerConfig Data Kube ReadFile GetConfig Unmarshal Parse IsQualifiedName filename in
  (∃ kube, read = Ret (cfg', kube)) →
  ∃ code intervals, controllerMain lib Parse IsQualifiedName read start = Ret code ∧
    let m := MkManagerState (controllerOptions cfg') (controllerParts cfg' intervals) in
    (code = 0 ∧ start m = None ∨ code = 1 ∧ (is_Some (start m) ∨ ∃ c, is_Some (lib c))).
Proof.
  cbn zeta. intros [kube Hr]. apply ReadControllerConfig_ret in Hr as Hn. destruct Hn as (_ & cfg & _ & _ & _ & Hn).
  destruct (controller_starts lib _ _ _ _ Hn) as (intervals & sm & _ & Hy & _).
  apply normalised_controller in Hn as Hl. destruct Hl as [Hl _]. unfold controllerMain. rewrite Hr, runMain_exit by done.
  cbn [compose fst]. destruct Hy as [->|(c & err & Hc & ->)].
  - eexists _, intervals. split; [done|]. cbn zeta. case_decide as Hs; [by left|right]. split; [done|]. left.
    destruct (start (MkManagerState _ _)) as [err|]; [by exists err|done].
  - eexists _, intervals. split; [done|]. right. split; [done|]. right. exists c. by rewrite Hc.
Qed.

(** ** The Pods the parts see *)

(** The resolver of the flows learns the same from the stripped Pods. *)
Theorem stripped_pods_suffice Get owners objs :
  indexPods Get owners (flowPods (stripPodForFlow <$> objs)) = indexPods Get owners (flowPods objs).
Proof.
  f_equal. unfold flowPods. induction objs as [|obj objs IH]; [done|]. cbn. rewrite IH. by destruct obj.
Qed.

(** The phase of a Pod is not kept and not asked for: the address of a finished Pod that another Pod has got since
    belongs to whichever of the two is listed last. *)
Definition twoPods : list cached :=
  let pod name phase := CachedPod (MkFullPod ("v1", "Pod") name "default" name "1" ∅ ∅ [] false "n1" [] phase "10.0.0.7" ["10.0.0.7"]) in
  [pod "running" "Running"; pod "finished" "Succeeded"].

Example finished_pod_keeps_address :
  Peer_Name <$> ix_byIP (indexPods (fun _ _ _ _ => None) None (flowPods (stripPodForFlow <$> twoPods))) !! "10.0.0.7" = Some "finished".
Proof. vm_compute. reflexivity. Qed.

(** The table of the sFlow collector is the one of the last refresh that succeeded. *)
Lemma ReplacePods_table c ctx pods resolver t : ReplacePods c ctx pods resolver = (true, t) → ReplacePods NewPodIPCache ctx pods resolver = (true, t).
Proof. unfold ReplacePods. by destruct (collectInfos _ _ _ _) as [[infos|] ?]. Qed.

Lemma cacheRefresh_cases resolver c tick :
  (∃ pods, tick.2 = Some pods ∧ ReplacePods NewPodIPCache tick.1 pods resolver = (true, (cacheRefresh resolver c tick).2)) ∨
  (cacheRefresh resolver c tick).2 = c ∧ ∀ c', (cacheRefresh resolver c' tick).1 = false.
Proof.
  unfold cacheRefresh. destruct tick as [ctx [pods|]]; cbn; [|by right]. unfold ReplacePods.
  destruct (collectInfos ctx resolver [] pods) as [[infos|] ?] eqn:Hc; [left; exists pods; by rewrite Hc|by right].
Qed.

Theorem updater_last_success resolver first ticks :
  let t := cacheUpdaterStart resolver NewPodIPCache first ticks in
  (t = NewPodIPCache ∧ ∀ tick c, tick ∈ first :: ticks → (cacheRefresh resolver c tick).1 = false) ∨
  ∃ before ctx pods after, first :: ticks = before ++ (ctx, Some pods) :: after ∧
    ReplacePods NewPodIPCache ctx pods resolver = (true, t) ∧
    ∀ tick c, tick ∈ after → (cacheRefresh resolver c tick).1 = false.
Proof.
  cbn zeta. unfold cacheUpdaterStart. set (step := fun c tick => (cacheRefresh resolver c tick).2).
  change (foldl step (cacheRefresh resolver NewPodIPCache first).2 ticks) with (foldl step NewPodIPCache (first :: ticks)).
  generalize (first :: ticks). intros l. induction l as [|tick l IH] using rev_ind; [left; split; [done|set_solver]|].
  rewrite foldl_app. cbn [foldl]. unfold step at 1 3. destruct (cacheRefresh_cases resolver (foldl step NewPodIPCache l) tick) as [(pods & Ht & Hr)|[-> Hno]].
  - right. destruct tick as [ctx p]. cbn in Ht, Hr. subst p. exists l, ctx, pods, []. split_and!; [done|done|set_solver].
  - destruct IH as [[-> Hall]|(before & ctx & pods & after & -> & Hr & Hall)].
    + left. split; [done|]. intros x c [?| ->%list_elem_of_singleton]%elem_of_app; [by apply Hall|apply Hno].
    + right. exists before, ctx, pods, (after ++ [tick]). rewrite <-app_assoc. split_and!; [done|done|].
      intros x c [?| ->%list_elem_of_singleton]%elem_of_app; [by apply Hall|apply Hno].
Qed.

(** ** The mock sender

    What it sends is what the decoder reads: the addresses, the protocol and the ports of the flow. *)
Lemma be16_writeBE16 v : 0 ≤ v < 2 ^ 16 → be16 (v / 256 mod 256) (v mod 256) = v.
Proof.
  intros Hv. unfold be16. rewrite (Z.mod_small (v / 256)) by (split; [apply Z.div_pos; lia|apply Z.div_lt_upper_bound; lia]).
  pose proof (Z.div_mod v 256). lia.
Qed.

Theorem mock_header_parsed id f :
  length (mf_src f) = 4%nat → length (mf_dst f) = 4%nat → 0 ≤ mf_srcPort f < 2 ^ 16 → 0 ≤ mf_dstPort f < 2 ^ 16 → mf_frameLen f ≠ 0 →
  hasPorts (mf_proto f) = true →
  parseSampledHeader (mockSampledHeader id f) (mf_frameLen f) =
    Ret (Some (MkParsed (mf_frameLen f) (mf_src f) (mf_dst f) etherTypeIPv4 (mf_proto f) (mf_srcPort f) (mf_dstPort f))).
Proof.
  intros Hs Hd Hsp Hdp Hlen Hproto. set (total := (mf_frameLen f - 14) mod 2 ^ 16).
  set (h := MkIPv4 0 (total / 256 mod 256) (total mod 256) (id / 256 mod 256, id mod 256) (64, 0) 64 (mf_proto f) (0, 0)
    (mf_src f) (mf_dst f) 0 [] (writeBE16 (mf_srcPort f) ++ writeBE16 (mf_dstPort f) ++ replicate 16 0)).
  set (fr := MkFrame [2; 0; 0; 0; 0; 1; 2; 0; 0; 0; 0; 2] [] (8, 0) (encode_ipv4 h)).
  assert (mockSampledHeader id f = encode_frame fr) as ->.
  { unfold mockSampledHeader, encode_frame, encode_ipv4. cbn. by rewrite <-!app_assoc. }
  rewrite parseSampledHeader_frame by (split; [done|]; split; [cbn; lia|]; by split). cbn zeta.
  rewrite decide_True by done. cbn [fr_data fr]. rewrite parseIPv4_encode by (split_and!; cbn; first [done|lia]).
  unfold ipv4_flow. rewrite decide_False by done. cbn. rewrite Hproto. by rewrite !be16_writeBE16.
Qed.

Lemma mockPods_length texts pods : mockPods texts = inr pods → Forall (fun ip => length ip = 4%nat) pods.
Proof.
  revert pods. induction texts as [|text texts IH]; intros pods; cbn [mockPods]; [intros [= <-]; constructor|]. cbn zeta.
  case_decide; [apply IH|]. destruct (ParseIP _ ≫= To4) as [ip|] eqn:Hip; [|done].
  destruct (mockPods texts) as [|rest]; [done|]. intros [= <-]. constructor; [|by apply IH].
  apply bind_Some in Hip as (full & _ & H4). unfold To4 in H4. repeat case_decide; simplify_eq; [done|].
  rewrite length_drop. lia.
Qed.

(** Every flow the mock sender puts into a datagram has two of the addresses it was given and is read back by the decoder. *)
Theorem mock_flows_readable podList agent pods agentIP draws port id f :
  mockSetup podList agent = inr (pods, agentIP) → Forall (draw_ok pods) draws → 0 ≤ port < 20000 → f ∈ mockFlows pods draws port →
  mockFlows pods draws port ≠ [] ∧ mf_src f ∈ pods ∧ mf_dst f ∈ pods ∧
  parseSampledHeader (mockSampledHeader id f) (mf_frameLen f) =
    Ret (Some (MkParsed (mf_frameLen f) (mf_src f) (mf_dst f) etherTypeIPv4 6 (mf_srcPort f) 5201)).
Proof.
  unfold mockSetup. destruct (mockPods _) as [|ps] eqn:Hp; [done|]. case_decide as Hlen; [done|].
  destruct (ParseIP agent ≫= To4); [|done]. intros [= -> ->] Hdraws Hport Hf. apply mockPods_length in Hp.
  split; [intros He; rewrite He in Hf; by apply elem_of_nil in Hf|].
  assert (∃ a b p n, f = MkMockFlow a b (p mod 2 ^ 16) 5201 6 n ∧ a ∈ pods ∧ b ∈ pods ∧ 0 < n) as (a & b & p & n & -> & Ha & Hb & Hn).
  { unfold mockFlows in Hf. case_decide.
    - destruct pods as [|a [|b rest]]; [by apply elem_of_nil in Hf..|]. apply list_elem_of_singleton in Hf as ->.
      exists a, b, (30000 + port), 512. split_and!; [done|set_solver|set_solver|lia].
    - apply list_elem_of_omap in Hf as (d & Hd & Hf). unfold mockDrawn in Hf.
      apply bind_Some in Hf as (a & Ha & Hf). apply bind_Some in Hf as (b & Hb & Hf). case_decide; simplify_eq.
      exists a, b, (30000 + draw_port d), (200 + draw_len d). split_and!; [done|by eapply list_elem_of_lookup_2..|].
      assert (draw_ok pods d) as (_ & _ & _ & ?) by (apply elem_of_take in Hd as (i & Hi & _); by eapply Forall_lookup_1). lia. }
  split_and!; [done..|]. rewrite Forall_forall in Hp. apply mock_header_parsed; cbn; [by apply Hp..|apply Z.mod_pos_bound; lia|lia|lia|done].
Qed.
